(** * Battle sessions of the click-game server (serv.js)

    A shallow embedding of the in-memory part of [serv.js]: the player
    registry ([players]), the [Battle] class, the collection of battles
    ([battles]), the turn timers and the socket handlers that drive them.

    JavaScript objects are mutable and shared: a [Battle] keeps references
    to the very player objects that sit in the [players] array, and a timer
    callback keeps a reference to its [Battle].  The embedding therefore has
    two object heaps (players and battles), and the arrays, the battles and
    the timers hold addresses into them.

    Numbers.  Resources, click power, health and turn counters are integers
    ([Z]).  For an integer [n] of magnitude up to [2^52],
    [Math.floor(n * 0.1)] is [n / 10] and [Math.floor(n * 0.2)] is [n / 5]
    (the doubles nearest to 0.1 and 0.2 exceed them by a factor [1 + 2^-54],
    and the product is rounded by less than the distance of [n / 10] and
    [n / 5] from the next integer), so both are written with [Z.div];
    between [2^52] and [2^53] the rounded product can reach the next integer.
    A call of [Math.random()] is a rational draw [r], expected in [0, 1);
    the draws are arguments of the operations that use them.  The product
    [Math.random() * n] is taken exactly, where the code rounds it to a
    double: the two differ for the draws within [2^-53] (relatively) below a
    multiple of [1 / n], which the code rounds up to the next outcome.

    The SQLite mirror ([updatePlayerResourcesStmt], [upsertPlayerStmt]) is
    write-only from the point of view of this state and is left out. *)

From Stdlib Require Import ZArith QArith Qround Lia Ascii String.
From stdpp Require Import gmap strings list fin_maps pretty.

Local Open Scope Z_scope.

(** ** Configuration *)

Module BATTLE_CONFIG.
Definition MAX_HEALTH : Z := 100.
Definition ATTACK_COST : Z := 10.
Definition SPECIAL_ATTACK_COST : Z := 25.
Definition BASE_ATTACK_DAMAGE : Z := 10.
Definition SPECIAL_ATTACK_DAMAGE : Z := 25.
Definition DEFENSE_BONUS : Z := 5.
Definition TURN_TIME : Z := 30000.
Definition MAX_TURNS : Z := 20.
End BATTLE_CONFIG.

(** ** Data *)

(** Addresses of player objects and of [Battle] objects. *)
Abbreviation loc := nat (only parsing).
Abbreviation bloc := nat (only parsing).

Record Player := mkPlayer {
  player_id : string;
  player_name : string;
  resources : Z;
  clickPower : Z;
  autoPower : Z;
  currentSkin : string;
  inBattle : bool;
  battleId : option string;
  joinedAt : Z
}.

Inductive AttackKind := attack | special.

(** The three shapes of entries of [Battle.actions].  [battleEnd] and
    [winner] are set on the entry after it was pushed; nothing reads the log
    in between, so an entry is built with its final fields. *)
Inductive Action :=
| AttackAction (type : AttackKind) (attacker defender : string)
    (damage cost turn timestamp : Z) (battleEnd : bool) (winner : option string)
| TimeoutAction (player : string) (damage turn timestamp : Z)
    (battleEnd : bool) (winner : option string)
| CancelAction (reason : string) (timestamp : Z).

Inductive Status := active | finished | cancelled.

Global Instance Status_eq_dec : EqDecision Status.
Proof. solve_decision. Defined.

Record Battle := mkBattle {
  battle_id : string;
  player1 : loc;
  player2 : loc;
  turn : Z;
  currentPlayer : string;
  health : gmap string Z;
  actions : list Action;
  status : Status;
  winner : option string;
  startTime : Z;
  lastActionTime : Z;
  turnTimer : option nat
}.

(** A pending [setTimeout]: its handle, the battle its callback closes over
    and the time at which it is due. *)
Record Timer := mkTimer {
  handle : nat;
  timer_battle : bloc;
  deadline : Z
}.

Record PlayerView := mkPlayerView {
  view_id : string;
  view_name : string;
  view_health : Z;
  view_maxHealth : Z
}.

(** The object built by [getBattleData]. *)
Record BattleData := mkBattleData {
  data_id : string;
  data_player1 : PlayerView;
  data_player2 : PlayerView;
  data_currentPlayer : string;
  data_turn : Z;
  data_status : Status;
  data_winner : option string;
  data_actions : list Action
}.

(** What the handlers send: [to] is the room (a socket id) of [io.to] or of
    [socket.emit]; events without it go to every connection. *)
Inductive Emit :=
| players_update (ps : list Player)
| player_joined (name : string) (res : Z)
| player_registered (to : string) (name : string)
| player_left (name : string)
| battle_error (to : string) (message : string)
| battle_message (to : string) (message : string)
| battle_challenge_to (to : string) (challenger_id challenger_name : string)
    (challenger_resources : Z)
| battle_start (to : string) (d : BattleData)
| battle_update (to : string) (d : BattleData)
| battle_declined (to : string) (playerName reason : string)
| battle_cancelled (to : string) (reason battleId : string)
| chat_message (playerName message : string).

(** The server: both heaps, the two global arrays, the pending timers, the
    clock, and the log of everything emitted so far. *)
Record World := mkWorld {
  pheap : list Player;
  bheap : list Battle;
  players : list loc;
  battles : list bloc;
  timers : list Timer;
  nextHandle : nat;
  now : Z;
  emitted : list Emit
}.

Definition init : World := mkWorld [] [] [] [] [] 0%nat 0 [].

(** ** Field updates *)

Definition set_name (v : string) (p : Player) : Player :=
  mkPlayer (player_id p) v (resources p) (clickPower p) (autoPower p)
    (currentSkin p) (inBattle p) (battleId p) (joinedAt p).
Definition set_resources (v : Z) (p : Player) : Player :=
  mkPlayer (player_id p) (player_name p) v (clickPower p) (autoPower p)
    (currentSkin p) (inBattle p) (battleId p) (joinedAt p).
Definition set_clickPower (v : Z) (p : Player) : Player :=
  mkPlayer (player_id p) (player_name p) (resources p) v (autoPower p)
    (currentSkin p) (inBattle p) (battleId p) (joinedAt p).
Definition set_autoPower (v : Z) (p : Player) : Player :=
  mkPlayer (player_id p) (player_name p) (resources p) (clickPower p) v
    (currentSkin p) (inBattle p) (battleId p) (joinedAt p).
Definition set_currentSkin (v : string) (p : Player) : Player :=
  mkPlayer (player_id p) (player_name p) (resources p) (clickPower p)
    (autoPower p) v (inBattle p) (battleId p) (joinedAt p).
Definition set_inBattle (v : bool) (bid : option string) (p : Player) : Player :=
  mkPlayer (player_id p) (player_name p) (resources p) (clickPower p)
    (autoPower p) (currentSkin p) v bid (joinedAt p).

Definition set_turn (v : Z) (b : Battle) : Battle :=
  mkBattle (battle_id b) (player1 b) (player2 b) v (currentPlayer b) (health b)
    (actions b) (status b) (winner b) (startTime b) (lastActionTime b) (turnTimer b).
Definition set_currentPlayer (v : string) (b : Battle) : Battle :=
  mkBattle (battle_id b) (player1 b) (player2 b) (turn b) v (health b)
    (actions b) (status b) (winner b) (startTime b) (lastActionTime b) (turnTimer b).
Definition set_health (v : gmap string Z) (b : Battle) : Battle :=
  mkBattle (battle_id b) (player1 b) (player2 b) (turn b) (currentPlayer b) v
    (actions b) (status b) (winner b) (startTime b) (lastActionTime b) (turnTimer b).
Definition set_actions (v : list Action) (b : Battle) : Battle :=
  mkBattle (battle_id b) (player1 b) (player2 b) (turn b) (currentPlayer b)
    (health b) v (status b) (winner b) (startTime b) (lastActionTime b) (turnTimer b).
Definition set_status (v : Status) (b : Battle) : Battle :=
  mkBattle (battle_id b) (player1 b) (player2 b) (turn b) (currentPlayer b)
    (health b) (actions b) v (winner b) (startTime b) (lastActionTime b) (turnTimer b).
Definition set_winner (v : option string) (b : Battle) : Battle :=
  mkBattle (battle_id b) (player1 b) (player2 b) (turn b) (currentPlayer b)
    (health b) (actions b) (status b) v (startTime b) (lastActionTime b) (turnTimer b).
Definition set_lastActionTime (v : Z) (b : Battle) : Battle :=
  mkBattle (battle_id b) (player1 b) (player2 b) (turn b) (currentPlayer b)
    (health b) (actions b) (status b) (winner b) (startTime b) v (turnTimer b).
Definition set_turnTimer (v : option nat) (b : Battle) : Battle :=
  mkBattle (battle_id b) (player1 b) (player2 b) (turn b) (currentPlayer b)
    (health b) (actions b) (status b) (winner b) (startTime b) (lastActionTime b) v.

Definition set_pheap (v : list Player) (w : World) : World :=
  mkWorld v (bheap w) (players w) (battles w) (timers w) (nextHandle w) (now w) (emitted w).
Definition set_bheap (v : list Battle) (w : World) : World :=
  mkWorld (pheap w) v (players w) (battles w) (timers w) (nextHandle w) (now w) (emitted w).
Definition set_players (v : list loc) (w : World) : World :=
  mkWorld (pheap w) (bheap w) v (battles w) (timers w) (nextHandle w) (now w) (emitted w).
Definition set_battles (v : list bloc) (w : World) : World :=
  mkWorld (pheap w) (bheap w) (players w) v (timers w) (nextHandle w) (now w) (emitted w).
Definition set_timers (v : list Timer) (w : World) : World :=
  mkWorld (pheap w) (bheap w) (players w) (battles w) v (nextHandle w) (now w) (emitted w).
Definition set_nextHandle (v : nat) (w : World) : World :=
  mkWorld (pheap w) (bheap w) (players w) (battles w) (timers w) v (now w) (emitted w).
Definition set_now (v : Z) (w : World) : World :=
  mkWorld (pheap w) (bheap w) (players w) (battles w) (timers w) (nextHandle w) v (emitted w).
Definition emit (e : Emit) (w : World) : World :=
  mkWorld (pheap w) (bheap w) (players w) (battles w) (timers w) (nextHandle w) (now w)
    (emitted w ++ [e]).

(** ** Heap access *)

Definition noPlayer : Player := mkPlayer "" "" 0 0 0 "" false None 0.
Definition noBattle : Battle :=
  mkBattle "" 0%nat 0%nat 0 "" ∅ [] cancelled None 0 0 None.

(** Reading through a reference.  Every address held by a world built by the
    handlers is allocated; the defaults only make the functions total. *)
Definition deref (w : World) (l : loc) : Player := default noPlayer (pheap w !! l).
Definition getB (w : World) (bl : bloc) : Battle := default noBattle (bheap w !! bl).

Definition update_player (l : loc) (f : Player -> Player) (w : World) : World :=
  set_pheap (alter f l (pheap w)) w.
Definition update_battle (bl : bloc) (f : Battle -> Battle) (w : World) : World :=
  set_bheap (alter f bl (bheap w)) w.

(** [players.find(p => p.id === id)] and [players.findIndex(...)]: the index
    in the array and the object found there. *)
Definition find_player (w : World) (id : string) : option (nat * loc) :=
  list_find (λ l, player_id (deref w l) = id) (players w).

(** [battles.find(b => b.id === id)]. *)
Definition find_battle (w : World) (id : string) : option (nat * bloc) :=
  list_find (λ bl, battle_id (getB w bl) = id) (battles w).

(** The [players] array as it is serialised into a [players-update]. *)
Definition snapshot (w : World) : list Player := deref w <$> players w.

(** ** Timers *)

Definition clearTimeout (h : nat) (w : World) : World :=
  set_timers (filter (λ t, handle t ≠ h) (timers w)) w.

(** [setTimeout(callback, delay)] for a callback closing over battle [bl]. *)
Definition setTimeout (bl : bloc) (delay : Z) (w : World) : nat * World :=
  let h := nextHandle w in
  (h, set_nextHandle (S h) (set_timers (timers w ++ [mkTimer h bl (now w + delay)]) w)).

(** ** Random draws *)

(** [Math.floor(Math.random() * n)] for the draw [r], the product taken
    exactly (see the remark on numbers above). *)
Definition random_below (r : Q) (n : Z) : Z := Qfloor (r * inject_Z n).

(** ** class Battle *)

Import BATTLE_CONFIG.

(** [new Battle(player1, player2)], with [id] the string produced by
    [generateBattleId]. *)
Definition new_Battle (id : string) (p1 p2 : loc) (w : World) : Battle :=
  mkBattle id p1 p2 0 (player_id (deref w p1))
    (<[player_id (deref w p2) := MAX_HEALTH]>
       (<[player_id (deref w p1) := MAX_HEALTH]> ∅))
    [] active None (now w) (now w) None.

Definition battle_players (b : Battle) : list loc := [player1 b; player2 b].

Definition getOpponent (w : World) (b : Battle) (playerId : string) : loc :=
  if decide (playerId = player_id (deref w (player1 b))) then player2 b else player1 b.

(** [attackerId === this.player1.id ? this.player1 : this.player2]. *)
Definition attacker_ref (w : World) (b : Battle) (attackerId : string) : loc :=
  if decide (attackerId = player_id (deref w (player1 b))) then player1 b else player2 b.

Definition isParticipant (w : World) (b : Battle) (playerId : string) : bool :=
  bool_decide (player_id (deref w (player1 b)) = playerId)
  || bool_decide (player_id (deref w (player2 b)) = playerId).

(** [this.health[id]]; the keys read by the methods are participants' ids,
    which the constructor puts into the object. *)
Definition getHealth (b : Battle) (id : string) : Z := default 0 (health b !! id).

Definition attack_cost (isSpecial : bool) : Z :=
  if isSpecial then SPECIAL_ATTACK_COST else ATTACK_COST.

Definition base_damage (isSpecial : bool) : Z :=
  if isSpecial then SPECIAL_ATTACK_DAMAGE else BASE_ATTACK_DAMAGE.

(** [Math.floor(attacker.clickPower * 0.1)], for a click power of magnitude
    up to [2^52]. *)
Definition clickBonus (cp : Z) : Z := cp / 10.

(** [variance] of [performAttack], from the damage before the random part. *)
Definition variance (damage : Z) : Z := damage / 5.

(** The damage of one attack: lines 200-208 of [performAttack]. *)
Definition attack_damage (isSpecial : bool) (cp : Z) (r : Q) : Z :=
  let damage := base_damage isSpecial + clickBonus cp in
  damage + (random_below r (variance damage * 2 + 1) - variance damage).

Definition finishBattle (bl : bloc) (winnerId : string) (w : World) : World :=
  let w1 := update_battle bl (λ b, set_winner (Some winnerId) (set_status finished b)) w in
  let reward := 50 + turn (getB w1 bl) * 5 in
  let w2 := match find_player w1 winnerId with
            | Some (_, l) => update_player l (λ p, set_resources (resources p + reward) p) w1
            | None => w1
            end in
  let w3 := match turnTimer (getB w2 bl) with
            | Some h => clearTimeout h w2
            | None => w2
            end in
  emit (players_update (snapshot w3)) w3.

Definition getWinnerByHealth (w : World) (b : Battle) (rtie : Q) : string :=
  let id1 := player_id (deref w (player1 b)) in
  let id2 := player_id (deref w (player2 b)) in
  if decide (getHealth b id2 < getHealth b id1) then id1
  else if decide (getHealth b id1 < getHealth b id2) then id2
  else if Qlt_le_dec (1 # 2) rtie then id1 else id2.

(** [performAttack(attackerId, isSpecial)]: [None] is the [false] it returns
    on rejection, [Some action] the action object.  [r] is the draw of the
    damage variance and [rtie] the one [getWinnerByHealth] may take. *)
Definition performAttack (bl : bloc) (attackerId : string) (isSpecial : bool)
    (r rtie : Q) (w : World) : World * option Action :=
  let b := getB w bl in
  if decide (status b ≠ active) then (w, None)
  else if decide (currentPlayer b ≠ attackerId) then (w, None)
  else
    let attacker := attacker_ref w b attackerId in
    let defender := getOpponent w b attackerId in
    let cost := attack_cost isSpecial in
    if decide (resources (deref w attacker) < cost) then (w, None)
    else
      let w1 := match find_player w attackerId with
                | Some (_, l) =>
                    update_player l (λ p, set_resources (resources p - cost) p) w
                | None => w
                end in
      let damage := attack_damage isSpecial (clickPower (deref w1 attacker)) r in
      let defenderId := player_id (deref w1 defender) in
      let newHealth := Z.max 0 (getHealth b defenderId - damage) in
      let ended := bool_decide (newHealth ≤ 0) in
      let action :=
        AttackAction (if isSpecial then special else attack)
          (player_name (deref w1 attacker)) (player_name (deref w1 defender))
          damage cost (turn b) (now w) ended
          (if ended then Some (player_name (deref w1 attacker)) else None) in
      let w2 :=
        update_battle bl
          (λ b, set_lastActionTime (now w)
                  (set_actions (actions b ++ [action])
                     (set_health (<[defenderId := newHealth]> (health b)) b))) w1 in
      let w3 :=
        if ended then finishBattle bl attackerId w2
        else
          let w' := update_battle bl
                      (λ b, set_turn (turn b + 1) (set_currentPlayer defenderId b)) w2 in
          if decide (MAX_TURNS ≤ turn (getB w' bl))
          then finishBattle bl (getWinnerByHealth w' (getB w' bl) rtie) w'
          else w' in
      (emit (players_update (snapshot w3)) w3, Some action).

Definition getBattleData (w : World) (b : Battle) : BattleData :=
  let p1 := deref w (player1 b) in
  let p2 := deref w (player2 b) in
  mkBattleData (battle_id b)
    (mkPlayerView (player_id p1) (player_name p1) (getHealth b (player_id p1)) MAX_HEALTH)
    (mkPlayerView (player_id p2) (player_name p2) (getHealth b (player_id p2)) MAX_HEALTH)
    (currentPlayer b) (turn b) (status b) (winner b)
    (drop (length (actions b) - 10) (actions b)).

Definition broadcastBattleUpdate (bl : bloc) (w : World) : World :=
  let b := getB w bl in
  let battleData := getBattleData w b in
  foldl (λ w' l, emit (battle_update (player_id (deref w l)) battleData) w')
    w (battle_players b).

(** [startTurnTimer()]: clear the timer the battle holds, arm a new one.
    The callback itself is [turn_timeout] below; it runs when the timer
    fires. *)
Definition startTurnTimer (bl : bloc) (w : World) : World :=
  let w1 := match turnTimer (getB w bl) with
            | Some h => clearTimeout h w
            | None => w
            end in
  let '(h, w2) := setTimeout bl TURN_TIME w1 in
  update_battle bl (set_turnTimer (Some h)) w2.

(** The body of the callback given to [setTimeout] in [startTurnTimer]. *)
Definition turn_timeout (bl : bloc) (w : World) : World :=
  let b := getB w bl in
  if decide (status b = active) then
    let skippedPlayer := currentPlayer b in
    let opponent := getOpponent w b skippedPlayer in
    let newHealth := Z.max 0 (getHealth b skippedPlayer - 5) in
    let ended := bool_decide (newHealth ≤ 0) in
    let action :=
      TimeoutAction skippedPlayer 5 (turn b) (now w) ended
        (if ended then Some (player_name (deref w opponent)) else None) in
    let w1 :=
      update_battle bl
        (λ b, set_actions (actions b ++ [action])
                (set_health (<[skippedPlayer := newHealth]> (health b)) b)) w in
    let w2 :=
      if ended then finishBattle bl (player_id (deref w1 opponent)) w1
      else
        startTurnTimer bl
          (update_battle bl
             (λ b, set_turn (turn b + 1)
                     (set_currentPlayer (player_id (deref w1 opponent)) b)) w1) in
    broadcastBattleUpdate bl w2
  else w.

Definition cancelBattle (bl : bloc) (reason : string) (w : World) : World :=
  let w1 := update_battle bl (set_status cancelled) w in
  let w2 := match turnTimer (getB w1 bl) with
            | Some h => clearTimeout h w1
            | None => w1
            end in
  let cancelAction := CancelAction reason (now w) in
  let w3 := update_battle bl (λ b, set_actions (actions b ++ [cancelAction]) b) w2 in
  broadcastBattleUpdate bl w3.

(** ** Names *)

Definition is_digit (c : ascii) : bool :=
  let n := nat_of_ascii c in (48 <=? n)%nat && (n <=? 57)%nat.

(** The rest of the string is [[0-9]{2,4}] up to its end. *)
Definition digits_2_4 (s : string) : bool :=
  forallb is_digit (list_ascii_of_string s)
  && (2 <=? String.length s)%nat && (String.length s <=? 4)%nat.

(** [n.replace(/_[0-9]{2,4}$/, '')]: the matcher tries the positions from
    the left, and a match must reach the end of the string. *)
Fixpoint stripSuffix (n : string) : string :=
  match n with
  | EmptyString => EmptyString
  | String c rest =>
      if Ascii.eqb c "_"%char && digits_2_4 rest then EmptyString
      else String c (stripSuffix rest)
  end.

(** [100 + Math.floor(Math.random() * 900)], printed in decimal. *)
Definition random_suffix (r : Q) : string := pretty (100 + random_below r 900).

(** ** Socket handlers *)

(** [x || d] on a number that may be missing. *)
Definition num_or (x : option Z) (d : Z) : Z :=
  match x with
  | Some v => if decide (v = 0) then d else v
  | None => d
  end.

(** [x || d] on a string that may be missing. *)
Definition str_or (x : option string) (d : string) : string :=
  match x with
  | Some v => if decide (v = "") then d else v
  | None => d
  end.

(** The payload of [player-join] and [player-update].  [data_name] is
    [String(playerData.name).trim()], empty when the field is missing. *)
Record PlayerData := mkPlayerData {
  data_name : string;
  data_resources : option Z;
  data_clickPower : option Z;
  data_autoPower : option Z;
  data_currentSkin : option string
}.

(** The name a joining player gets: lines 392-406.  [rname] is the draw of
    the default name, [rsuffix] the one of the suffix. *)
Definition join_name (w : World) (playerData : PlayerData) (rname rsuffix : Q) : string :=
  let playerName :=
    if decide (data_name playerData = "") then "Кот_" +:+ random_suffix rname
    else data_name playerData in
  let baseName := stripSuffix playerName in
  match list_find (λ l, stripSuffix (player_name (deref w l)) = baseName) (players w) with
  | Some _ => baseName +:+ "_" +:+ random_suffix rsuffix
  | None => playerName
  end.

Definition player_join (sid : string) (playerData : PlayerData) (rname rsuffix : Q)
    (w : World) : World :=
  let playerName := join_name w playerData rname rsuffix in
  let '(l, w1) :=
    match find_player w sid with
    | Some (_, l) =>
        (l, update_player l
              (λ p, set_currentSkin (str_or (data_currentSkin playerData) (currentSkin p))
                      (set_autoPower (default (autoPower p) (data_autoPower playerData))
                         (set_clickPower (default (clickPower p) (data_clickPower playerData))
                            (set_resources (default (resources p) (data_resources playerData))
                               (set_name playerName p))))) w)
    | None =>
        let player :=
          mkPlayer sid playerName (num_or (data_resources playerData) 0)
            (num_or (data_clickPower playerData) 1)
            (num_or (data_autoPower playerData) 0)
            (str_or (data_currentSkin playerData) "default") false None (now w) in
        let l := length (pheap w) in
        (l, set_players (players w ++ [l]) (set_pheap (pheap w ++ [player]) w))
    end in
  emit (player_registered sid playerName)
    (emit (player_joined playerName (resources (deref w1 l)))
       (emit (players_update (snapshot w1)) w1)).

Definition player_update (sid : string) (playerData : PlayerData) (w : World) : World :=
  match find_player w sid with
  | Some (_, l) =>
      let w1 :=
        update_player l
          (λ p, set_currentSkin (str_or (data_currentSkin playerData) (currentSkin p))
                  (set_autoPower (num_or (data_autoPower playerData) (autoPower p))
                     (set_clickPower (num_or (data_clickPower playerData) (clickPower p))
                        (set_resources (num_or (data_resources playerData) (resources p)) p)))) w in
      emit (players_update (snapshot w1)) w1
  | None => w
  end.

(** The in-memory effect of a [claim-task] that the task tables let through:
    [reward] is the task's reward read from the database.  The write to the
    players table (line 588) is taken to return; where it throws, the
    credit of line 587 stays and the broadcast of line 597 is not sent. *)
Definition claim_task (sid : string) (reward : Z) (w : World) : World :=
  match find_player w sid with
  | Some (_, l) =>
      let w1 := update_player l (λ p, set_resources (resources p + reward) p) w in
      emit (players_update (snapshot w1)) w1
  | None => w
  end.

Definition battle_challenge (sid targetId : string) (w : World) : World :=
  match find_player w sid, find_player w targetId with
  | Some (_, challenger), Some (_, targetPlayer) =>
      if decide (player_id (deref w challenger) = player_id (deref w targetPlayer))
      then emit (battle_error sid "Нельзя вызвать самого себя") w
      else if inBattle (deref w challenger) || inBattle (deref w targetPlayer)
      then emit (battle_error sid "Один из игроков уже в баттле") w
      else if decide (resources (deref w challenger) < ATTACK_COST)
      then emit (battle_error sid "Недостаточно рыбок для баттла") w
      else
        emit (battle_message sid
                ("Вызов отправлен игроку " +:+ player_name (deref w targetPlayer)))
          (emit (battle_challenge_to (player_id (deref w targetPlayer))
                   (player_id (deref w challenger)) (player_name (deref w challenger))
                   (resources (deref w challenger))) w)
  | _, _ => emit (battle_error sid "Игрок не найден") w
  end.

(** [battle-accept]; [newId] is what [generateBattleId] returns. *)
Definition battle_accept (sid challengerId newId : string) (w : World) : World :=
  match find_player w sid, find_player w challengerId with
  | Some (_, acceptor), Some (_, challenger) =>
      if inBattle (deref w acceptor) || inBattle (deref w challenger)
      then emit (battle_error sid "Один из игроков уже в баттле") w
      else if decide (resources (deref w acceptor) < ATTACK_COST)
      then emit (battle_error sid "Недостаточно рыбок для баттла") w
      else
        let battle := new_Battle newId challenger acceptor w in
        let bl := length (bheap w) in
        let w1 := set_battles (battles w ++ [bl]) (set_bheap (bheap w ++ [battle]) w) in
        let w2 := update_player challenger (set_inBattle true (Some newId)) w1 in
        let w3 := update_player acceptor (set_inBattle true (Some newId)) w2 in
        let w4 := emit (battle_start (player_id (deref w3 challenger))
                          (getBattleData w3 (getB w3 bl))) w3 in
        let w5 := emit (battle_start (player_id (deref w4 acceptor))
                          (getBattleData w4 (getB w4 bl))) w4 in
        let w6 := startTurnTimer bl w5 in
        emit (chat_message "Система"
                ("Начался баттл между " +:+ player_name (deref w6 challenger)
                 +:+ " и " +:+ player_name (deref w6 acceptor) +:+ "!")) w6
  | _, _ => emit (battle_error sid "Игрок не найден") w
  end.

(** What a handler run ends in: the next state, or the exception it threw. *)
Inductive Outcome :=
| Done (w : World)
| TypeError (what : string).

(** [battle-decline]: [decliner.name] is read without a test of [decliner]. *)
Definition battle_decline (sid challengerId : string) (reason : option string)
    (w : World) : Outcome :=
  let decliner := find_player w sid in
  match find_player w challengerId with
  | Some (_, challenger) =>
      match decliner with
      | Some (_, d) =>
          Done (emit (battle_declined (player_id (deref w challenger))
                        (player_name (deref w d))
                        (str_or reason "Игрок отклонил вызов")) w)
      | None => TypeError "Cannot read properties of undefined (reading 'name')"
      end
  | None => Done w
  end.

Definition battle_attack (sid battleId : string) (isSpecial : bool) (r rtie : Q)
    (w : World) : World :=
  match find_player w sid, find_battle w battleId with
  | Some (_, player), Some (_, bl) =>
      if negb (isParticipant w (getB w bl) (player_id (deref w player)))
      then emit (battle_error sid "Вы не участник этого баттла") w
      else if decide (status (getB w bl) ≠ active)
      then emit (battle_error sid "Баттл уже завершен") w
      else
        match performAttack bl (player_id (deref w player)) isSpecial r rtie w with
        | (w1, Some _) =>
            let w2 := broadcastBattleUpdate bl w1 in
            if isSpecial
            then emit (chat_message "Система"
                         (player_name (deref w2 player)
                          +:+ " использует супер-удар в баттле!")) w2
            else w2
        | (w1, None) => emit (battle_error sid "Не удалось выполнить атаку") w1
        end
  | _, _ => emit (battle_error sid "Баттл не найден") w
  end.

(** The loop of [battle-cancel] that frees the battle's players. *)
Definition release_player (w : World) (id : string) : World :=
  match find_player w id with
  | Some (_, l) => update_player l (set_inBattle false None) w
  | None => w
  end.

Definition battle_cancel (sid battleId : string) (reason : option string)
    (w : World) : World :=
  match find_player w sid, find_battle w battleId with
  | Some (_, player), Some (_, bl) =>
      if negb (isParticipant w (getB w bl) (player_id (deref w player)))
      then emit (battle_error sid "Вы не участник этого баттла") w
      else
        let w1 := cancelBattle bl (str_or reason "Баттл отменен участником") w in
        let w2 := foldl (λ w' l, release_player w' (player_id (deref w' l)))
                    w1 (battle_players (getB w1 bl)) in
        let w3 := set_battles
                    (filter (λ b, battle_id (getB w2 b) ≠ battle_id (getB w2 bl))
                       (battles w2)) w2 in
        emit (players_update (snapshot w3)) w3
  | _, _ => emit (battle_error sid "Баттл не найден") w
  end.

(** One round of the [forEach] of the [disconnect] handler. *)
Definition disconnect_battle (sid : string) (w : World) (bl : bloc) : World :=
  let w1 := cancelBattle bl ("Игрок " +:+ sid +:+ " отключился") w in
  let opponent := getOpponent w1 (getB w1 bl) sid in
  let w2 := release_player w1 (player_id (deref w1 opponent)) in
  emit (battle_cancelled (player_id (deref w2 opponent)) "Противник отключился"
          (battle_id (getB w2 bl))) w2.

Definition disconnect (sid : string) (w : World) : World :=
  let playerBattles :=
    filter (λ bl, isParticipant w (getB w bl) sid = true) (battles w) in
  let w1 := foldl (disconnect_battle sid) w playerBattles in
  let w2 := set_battles
              (filter (λ bl, isParticipant w1 (getB w1 bl) sid = false) (battles w1)) w1 in
  match find_player w2 sid with
  | Some (playerIndex, l) =>
      let w3 := set_players (delete playerIndex (players w2)) w2 in
      emit (player_left (player_name (deref w3 l)))
        (emit (players_update (snapshot w3)) w3)
  | None => w2
  end.

(** A pending timer of handle [h] is due and fires: it leaves the pending
    set and its callback runs.  [None] when no such timer is due. *)
Definition timer_fire (h : nat) (w : World) : option World :=
  match list_find (λ t, handle t = h) (timers w) with
  | Some (_, t) =>
      if decide (deadline t ≤ now w)
      then Some (turn_timeout (timer_battle t) (clearTimeout h w))
      else None
  | None => None
  end.

(** ** The event loop *)

(** What the single-threaded loop of Node handles, one at a time: the socket
    events whose handlers write [players], [battles] or a battle, a timer
    that fires, and the passing of time.  The handlers of the chat, the
    clans, the task lists, [get-players] and [battle-info] at most read this
    state and are no events here.  The draws of [Math.random()] made while
    an event is handled, and the id [generateBattleId] returns, come with
    the event. *)
Inductive Event :=
| EvJoin (sid : string) (playerData : PlayerData) (rname rsuffix : Q)
| EvUpdate (sid : string) (playerData : PlayerData)
| EvClaimTask (sid : string) (reward : Z)
| EvChallenge (sid targetId : string)
| EvAccept (sid challengerId newId : string)
| EvDecline (sid challengerId : string) (reason : option string)
| EvAttack (sid battleId : string) (isSpecial : bool) (r rtie : Q)
| EvCancel (sid battleId : string) (reason : option string)
| EvDisconnect (sid : string)
| EvTimer (h : nat)
| EvWait (dt : Z).

(** One event handled to its end.  [None]: the event cannot happen in [w]
    (no such timer is due, time does not run backwards) or the handler threw,
    which ends the process. *)
Definition step (w : World) (e : Event) : option World :=
  match e with
  | EvJoin sid d rname rsuffix => Some (player_join sid d rname rsuffix w)
  | EvUpdate sid d => Some (player_update sid d w)
  | EvClaimTask sid reward => Some (claim_task sid reward w)
  | EvChallenge sid targetId => Some (battle_challenge sid targetId w)
  | EvAccept sid challengerId newId => Some (battle_accept sid challengerId newId w)
  | EvDecline sid challengerId reason =>
      match battle_decline sid challengerId reason w with
      | Done w' => Some w'
      | TypeError _ => None
      end
  | EvAttack sid battleId isSpecial r rtie =>
      Some (battle_attack sid battleId isSpecial r rtie w)
  | EvCancel sid battleId reason => Some (battle_cancel sid battleId reason w)
  | EvDisconnect sid => Some (disconnect sid w)
  | EvTimer h => timer_fire h w
  | EvWait dt => if decide (0 ≤ dt) then Some (set_now (now w + dt) w) else None
  end.

Fixpoint run (w : World) (evs : list Event) : option World :=
  match evs with
  | [] => Some w
  | e :: evs' =>
      match step w e with
      | Some w' => run w' evs'
      | None => None
      end
  end.

(** The states of the server: what a sequence of events makes of the state
    the process starts in. *)
Definition reachable (w : World) : Prop := ∃ evs, run init evs = Some w.

(** ** Handlers and endpoints that only read *)

(** [battle-info] (lines 827-834): the snapshot of a listed battle, sent to
    the socket that asks if it is a registered participant. *)
Definition battle_info (sid battleId0 : string) (w : World) : World :=
  match find_battle w battleId0, find_player w sid with
  | Some (_, bl), Some (_, player) =>
      if isParticipant w (getB w bl) (player_id (deref w player))
      then emit (battle_update sid (getBattleData w (getB w bl))) w
      else w
  | _, _ => w
  end.

(** The body of [GET /status] (lines 911-919); [timestamp] is the clock. *)
Record StatusBody := mkStatusBody {
  status_status : string;
  status_players : nat;
  status_battles : nat;
  status_timestamp : Z;
  status_version : string
}.

Definition status_endpoint (w : World) : StatusBody :=
  mkStatusBody "online" (length (players w)) (length (battles w)) (now w) "1.0.0".

(** A row and the body of [GET /players] (lines 922-933). *)
Record PlayerRow := mkPlayerRow {
  row_id : string;
  row_name : string;
  row_resources : Z;
  row_inBattle : bool;
  row_online : bool
}.

Record PlayersBody := mkPlayersBody {
  body_players : list PlayerRow;
  players_total : nat
}.

Definition players_endpoint (w : World) : PlayersBody :=
  mkPlayersBody
    ((λ l, let p := deref w l in
           mkPlayerRow (player_id p) (player_name p) (resources p) (inBattle p) true)
       <$> players w)
    (length (players w)).

(** A row and the body of [GET /battles] (lines 974-985). *)
Record BattleRow := mkBattleRow {
  brow_id : string;
  brow_player1 : string;
  brow_player2 : string;
  brow_turn : Z;
  brow_status : Status
}.

Record BattlesBody := mkBattlesBody {
  body_battles : list BattleRow;
  battles_total : nat
}.

Definition battles_endpoint (w : World) : BattlesBody :=
  mkBattlesBody
    ((λ bl, let battle := getB w bl in
            mkBattleRow (battle_id battle)
              (player_name (deref w (player1 battle)))
              (player_name (deref w (player2 battle)))
              (turn battle) (status battle))
       <$> battles w)
    (length (battles w)).

(** ** The repeat interval of a daily task *)

(** [Math.floor((now - last) / (1000 * 60 * 60 * 24))] of [claim-task]
    (line 570) and of [get-my-tasks] (line 640), for two instants in
    milliseconds.  [lastCompletedAt] is stored as the ISO string of the
    instant and read back with [new Date], which gives the instant again. *)
Definition diffDays (now last : Z) : Z := (now - last) / (1000 * 60 * 60 * 24).

(** The test that makes [claim-task] refuse (lines 568-574) and
    [get-my-tasks] report [claimable: false] (lines 638-644): the task was
    completed before, and fewer than [repeat_interval_days || 1] days have
    passed.  [None] stands for a missing row or time, and for a NULL
    interval. *)
Definition too_early (now : Z) (lastCompletedAt repeat_interval_days : option Z) : bool :=
  match lastCompletedAt with
  | Some last => bool_decide (diffDays now last < num_or repeat_interval_days 1)
  | None => false
  end.

(** * Properties *)

(** ** Random draws and damage *)

Section Damage.

Lemma Qfloor_between (x : Q) (k : Z) :
  Qfloor x = k ↔ (inject_Z k <= x)%Q ∧ (x < inject_Z (k + 1))%Q.
Proof.
  split.
  - intros <-. split; [apply Qfloor_le | apply Qlt_floor].
  - intros [Hlo Hhi].
    assert (k ≤ Qfloor x).
    { rewrite <- (Qfloor_Z k). by apply Qfloor_resp_le. }
    assert (Qfloor x < k + 1).
    { rewrite Zlt_Qlt. eapply Qle_lt_trans; [apply Qfloor_le | done]. }
    lia.
Qed.

Lemma inject_Z_pos (n : Z) : 0 < n → (0 < inject_Z n)%Q.
Proof. intros Hn. change 0%Q with (inject_Z 0). by rewrite <- Zlt_Qlt. Qed.

(** A draw in [0, 1) scaled to [n] outcomes lands in [0, n - 1]. *)
Lemma random_below_range (r : Q) (n : Z) :
  (0 <= r)%Q → (r < 1)%Q → 1 ≤ n → 0 ≤ random_below r n ≤ n - 1.
Proof.
  intros Hr0 Hr1 Hn. unfold random_below.
  assert (Hn0 : (0 < inject_Z n)%Q) by (apply inject_Z_pos; lia).
  split.
  - rewrite <- (Qfloor_Z 0). apply Qfloor_resp_le.
    apply Qmult_le_0_compat; [done | by apply Qlt_le_weak].
  - assert (Qfloor (r * inject_Z n) < n); [|lia].
    rewrite Zlt_Qlt. eapply Qle_lt_trans; [apply Qfloor_le|].
    rewrite <- (Qmult_1_l (inject_Z n)) at 2.
    by apply Qmult_lt_r.
Qed.

(** The outcome [k] comes from exactly the draws of the [k]-th of [n]
    intervals of equal length [1 / n]. *)
Lemma random_below_interval (r : Q) (n k : Z) :
  1 ≤ n →
  random_below r n = k ↔
    (inject_Z k / inject_Z n <= r)%Q ∧ (r < inject_Z (k + 1) / inject_Z n)%Q.
Proof.
  intros Hn. unfold random_below. rewrite Qfloor_between.
  assert (Hn0 : (0 < inject_Z n)%Q) by (apply inject_Z_pos; lia).
  assert (Hne : ¬ (inject_Z n == 0)%Q).
  { intros Heq. rewrite Heq in Hn0. by apply Qlt_irrefl in Hn0. }
  split; intros [Hlo Hhi]; split.
  - by apply Qle_shift_div_r.
  - by apply Qlt_shift_div_l.
  - apply (Qmult_le_r _ _ (inject_Z n)) in Hlo; [|done].
    unfold Qdiv in Hlo. rewrite <- Qmult_assoc, (Qmult_comm (/ _)) in Hlo.
    by rewrite Qmult_inv_r, Qmult_1_r in Hlo.
  - apply (Qmult_lt_r _ _ (inject_Z n)) in Hhi; [|done].
    unfold Qdiv in Hhi. rewrite <- Qmult_assoc, (Qmult_comm (/ _)) in Hhi.
    by rewrite Qmult_inv_r, Qmult_1_r in Hhi.
Qed.

Lemma attack_cost_values (isSpecial : bool) :
  attack_cost isSpecial = if isSpecial then 25 else 10.
Proof. by destruct isSpecial. Qed.

Lemma base_damage_values (isSpecial : bool) :
  base_damage isSpecial = if isSpecial then 25 else 10.
Proof. by destruct isSpecial. Qed.

Lemma base_damage_pos (isSpecial : bool) : 0 < base_damage isSpecial.
Proof. by destruct isSpecial. Qed.

Lemma variance_nonneg (d : Z) : 0 ≤ d → 0 ≤ variance d ≤ d.
Proof.
  intros Hd. unfold variance. split.
  - by apply Z.div_pos.
  - apply Z.div_le_upper_bound; lia.
Qed.

(** The damage is the deterministic part plus an offset in [-v, v], as
    long as the deterministic part is not negative: below, [v] is negative
    and [2 v + 1] counts no outcomes. *)
Lemma attack_damage_range (isSpecial : bool) (cp : Z) (r : Q) :
  (0 <= r)%Q → (r < 1)%Q →
  let d := base_damage isSpecial + clickBonus cp in
  0 ≤ d →
  d - variance d ≤ attack_damage isSpecial cp r ≤ d + variance d.
Proof.
  intros Hr0 Hr1 d Hd. unfold attack_damage. fold d.
  pose proof (variance_nonneg d Hd).
  pose proof (random_below_range r (variance d * 2 + 1) Hr0 Hr1). lia.
Qed.

Lemma clickBonus_nonneg (cp : Z) : 0 ≤ cp → 0 ≤ clickBonus cp.
Proof. intros Hcp. by apply Z.div_pos. Qed.

Lemma attack_damage_nonneg (isSpecial : bool) (cp : Z) (r : Q) :
  (0 <= r)%Q → (r < 1)%Q → 0 ≤ cp → 0 ≤ attack_damage isSpecial cp r.
Proof.
  intros Hr0 Hr1 Hcp.
  pose proof (clickBonus_nonneg cp Hcp).
  pose proof (base_damage_pos isSpecial).
  assert (Hd : 0 ≤ base_damage isSpecial + clickBonus cp) by lia.
  pose proof (attack_damage_range isSpecial cp r Hr0 Hr1 Hd) as Hr. simpl in Hr.
  pose proof (variance_nonneg _ Hd). lia.
Qed.

(** With the product [r * (2 v + 1)] taken exactly, each offset [j] of
    [-v .. v] is produced by the draws of one interval of length
    [1 / (2 v + 1)]. *)
Lemma attack_damage_interval (isSpecial : bool) (cp : Z) (r : Q) (j : Z) :
  let d := base_damage isSpecial + clickBonus cp in
  let v := variance d in
  0 ≤ d →
  attack_damage isSpecial cp r = d + j ↔
    (inject_Z (j + v) / inject_Z (2 * v + 1) <= r)%Q
    ∧ (r < inject_Z (j + v + 1) / inject_Z (2 * v + 1))%Q.
Proof.
  intros d v Hd. unfold attack_damage. fold d. fold v.
  pose proof (variance_nonneg d Hd) as Hv. fold v in Hv.
  replace (v * 2 + 1) with (2 * v + 1) by lia.
  rewrite <- (random_below_interval r (2 * v + 1) (j + v)) by lia.
  lia.
Qed.

(** The same with a margin of [2^-52] at the boundaries between two
    offsets, inside which the rounding of the product to a double decides:
    the draws of the interval shortened by the margin give the offset [j],
    and the offset [j] comes from a draw of the interval extended by it. *)
Lemma attack_damage_draws (isSpecial : bool) (cp : Z) (r : Q) (j : Z) :
  let d := base_damage isSpecial + clickBonus cp in
  let v := variance d in
  let lo := (inject_Z (j + v) / inject_Z (2 * v + 1))%Q in
  let hi := (inject_Z (j + v + 1) / inject_Z (2 * v + 1))%Q in
  0 ≤ d →
  ((lo <= r)%Q ∧ (r <= hi - (1 # 2 ^ 52))%Q → attack_damage isSpecial cp r = d + j)
  ∧ (attack_damage isSpecial cp r = d + j → (lo - (1 # 2 ^ 52) <= r)%Q ∧ (r < hi)%Q).
Proof.
  intros d v lo hi Hd.
  pose proof (attack_damage_interval isSpecial cp r j Hd) as Hint.
  simpl in Hint. fold d v lo hi in Hint. rewrite Hint.
  assert (Hm : (0 < 1 # 2 ^ 52)%Q) by reflexivity.
  split.
  - intros [Hlo Hhi]. split; [done|].
    eapply Qle_lt_trans; [exact Hhi|].
    rewrite <- (Qplus_0_r hi) at 2. unfold Qminus.
    apply Qplus_lt_r. by apply (Qopp_lt_compat 0 (1 # 2 ^ 52)).
  - intros [Hlo Hhi]. split; [|done].
    eapply Qle_trans; [|exact Hlo].
    rewrite <- (Qplus_0_r lo) at 2. unfold Qminus.
    apply Qplus_le_r. apply Qlt_le_weak. by apply (Qopp_lt_compat 0 (1 # 2 ^ 52)).
Qed.

End Damage.

(** ** How the operations act on the parts of the world *)

Section Frames.
Implicit Types (w : World) (l : loc) (bl : bloc) (e : Emit).

Lemma deref_emit e w l : deref (emit e w) l = deref w l.
Proof. reflexivity. Qed.
Lemma getB_emit e w bl : getB (emit e w) bl = getB w bl.
Proof. reflexivity. Qed.
Lemma deref_clearTimeout h w l : deref (clearTimeout h w) l = deref w l.
Proof. reflexivity. Qed.
Lemma getB_clearTimeout h w bl : getB (clearTimeout h w) bl = getB w bl.
Proof. reflexivity. Qed.
Lemma deref_update_battle bl f w l : deref (update_battle bl f w) l = deref w l.
Proof. reflexivity. Qed.
Lemma getB_update_player l f w bl : getB (update_player l f w) bl = getB w bl.
Proof. reflexivity. Qed.

Lemma getB_update_battle_eq bl f w b :
  bheap w !! bl = Some b → getB (update_battle bl f w) bl = f b.
Proof.
  intros Hb. unfold getB, update_battle. simpl.
  by rewrite list_lookup_alter_eq, Hb.
Qed.

Lemma getB_update_battle_ne bl bl' f w :
  bl ≠ bl' → getB (update_battle bl f w) bl' = getB w bl'.
Proof.
  intros Hne. unfold getB, update_battle. simpl.
  by rewrite list_lookup_alter_ne.
Qed.

Lemma lookup_update_battle bl f w :
  bheap (update_battle bl f w) !! bl = f <$> bheap w !! bl.
Proof. apply list_lookup_alter_eq. Qed.

Lemma deref_update_player_eq l f w p :
  pheap w !! l = Some p → deref (update_player l f w) l = f p.
Proof.
  intros Hp. unfold deref, update_player. simpl.
  by rewrite list_lookup_alter_eq, Hp.
Qed.

Lemma deref_update_player_ne l l' f w :
  l ≠ l' → deref (update_player l f w) l' = deref w l'.
Proof.
  intros Hne. unfold deref, update_player. simpl.
  by rewrite list_lookup_alter_ne.
Qed.

(** An update that keeps a field of the object keeps it everywhere. *)
Lemma deref_update_player_proj {A} (g : Player → A) l f w l' :
  (∀ p, g (f p) = g p) →
  g (deref (update_player l f w) l') = g (deref w l').
Proof.
  intros Hf. unfold deref, update_player. simpl.
  destruct (decide (l = l')) as [->|Hne].
  - rewrite list_lookup_alter_eq. destruct (pheap w !! l'); simpl; auto.
  - by rewrite list_lookup_alter_ne.
Qed.

Lemma find_player_ext w w' id :
  players w' = players w →
  (∀ l, player_id (deref w' l) = player_id (deref w l)) →
  find_player w' id = find_player w id.
Proof.
  intros Hp Hid. unfold find_player. rewrite Hp.
  apply list_find_ext. intros l. by rewrite Hid.
Qed.

Lemma find_player_update_player l f w id :
  (∀ p, player_id (f p) = player_id p) →
  find_player (update_player l f w) id = find_player w id.
Proof.
  intros Hf. apply find_player_ext; [done|].
  intros l'. by apply (deref_update_player_proj player_id).
Qed.

Lemma find_player_Some w id i l :
  find_player w id = Some (i, l) →
  players w !! i = Some l ∧ player_id (deref w l) = id.
Proof. intros (? & ? & _)%list_find_Some. done. Qed.

(** *** [finishBattle] *)

Lemma finishBattle_players bl wid w : players (finishBattle bl wid w) = players w.
Proof.
  unfold finishBattle. destruct (find_player _ _) as [[? ?]|];
    destruct (turnTimer _); reflexivity.
Qed.

Lemma finishBattle_battles bl wid w : battles (finishBattle bl wid w) = battles w.
Proof.
  unfold finishBattle. destruct (find_player _ _) as [[? ?]|];
    destruct (turnTimer _); reflexivity.
Qed.

Lemma finishBattle_bheap bl wid w :
  bheap (finishBattle bl wid w)
  = alter (λ b, set_winner (Some wid) (set_status finished b)) bl (bheap w).
Proof.
  unfold finishBattle. destruct (find_player _ _) as [[? ?]|];
    destruct (turnTimer _); reflexivity.
Qed.

Lemma finishBattle_getB bl wid w b :
  bheap w !! bl = Some b →
  getB (finishBattle bl wid w) bl = set_winner (Some wid) (set_status finished b).
Proof.
  intros Hb. unfold getB. rewrite finishBattle_bheap, list_lookup_alter_eq, Hb. done.
Qed.

Lemma finishBattle_getB_ne bl bl' wid w :
  bl ≠ bl' → getB (finishBattle bl wid w) bl' = getB w bl'.
Proof.
  intros Hne. unfold getB. by rewrite finishBattle_bheap, list_lookup_alter_ne.
Qed.

Lemma finishBattle_pheap bl wid w :
  pheap (finishBattle bl wid w)
  = match find_player w wid with
    | Some (_, l) =>
        alter (λ p, set_resources
                      (resources p + (50 + turn (getB (update_battle bl
                         (λ b, set_winner (Some wid) (set_status finished b)) w) bl) * 5)) p)
          l (pheap w)
    | None => pheap w
    end.
Proof.
  unfold finishBattle.
  rewrite (find_player_ext w (update_battle bl _ w)) by done.
  destruct (find_player _ _) as [[? ?]|]; destruct (turnTimer _); reflexivity.
Qed.

Lemma finishBattle_proj {A} (g : Player → A) bl wid w l :
  (∀ v p, g (set_resources v p) = g p) →
  g (deref (finishBattle bl wid w) l) = g (deref w l).
Proof.
  intros Hg. unfold deref. rewrite finishBattle_pheap.
  destruct (find_player _ _) as [[? l']|]; [|done].
  destruct (decide (l' = l)) as [->|Hne].
  - rewrite list_lookup_alter_eq. destruct (pheap w !! l); simpl; auto.
  - by rewrite list_lookup_alter_ne.
Qed.

Lemma finishBattle_find_player bl wid w id :
  find_player (finishBattle bl wid w) id = find_player w id.
Proof.
  apply find_player_ext; [apply finishBattle_players|].
  intros l. by apply (finishBattle_proj player_id).
Qed.

(** The winner found in the registry is credited [50 + 5 * turn]. *)
Lemma finishBattle_resources_winner bl wid w b i l p :
  bheap w !! bl = Some b →
  find_player w wid = Some (i, l) →
  pheap w !! l = Some p →
  resources (deref (finishBattle bl wid w) l) = resources p + (50 + turn b * 5).
Proof.
  intros Hb Hf Hp. unfold deref. rewrite finishBattle_pheap, Hf.
  rewrite list_lookup_alter_eq, Hp. simpl.
  by rewrite (getB_update_battle_eq _ _ _ b).
Qed.

Lemma finishBattle_resources_other bl wid w l :
  (∀ i, find_player w wid ≠ Some (i, l)) →
  resources (deref (finishBattle bl wid w) l) = resources (deref w l).
Proof.
  intros Hf. unfold deref. rewrite finishBattle_pheap.
  destruct (find_player _ _) as [[i l']|] eqn:Hfind; [|done].
  rewrite list_lookup_alter_ne; [done|]. intros ->. by eapply Hf.
Qed.

Lemma finishBattle_timers bl wid w :
  timers (finishBattle bl wid w)
  = match turnTimer (getB w bl) with
    | Some h => filter (λ t, handle t ≠ h) (timers w)
    | None => timers w
    end.
Proof.
  unfold finishBattle.
  assert (Ht : ∀ w', turnTimer (getB (update_battle bl
            (λ b, set_winner (Some wid) (set_status finished b)) w') bl)
          = turnTimer (getB w' bl)).
  { intros w'. unfold getB, update_battle. simpl.
    rewrite list_lookup_alter_eq. by destruct (bheap w' !! bl). }
  destruct (find_player _ _) as [[? ?]|].
  - rewrite getB_update_player, Ht.
    destruct (turnTimer (getB w bl)); reflexivity.
  - rewrite Ht. destruct (turnTimer (getB w bl)); reflexivity.
Qed.

End Frames.

(** ** [performAttack], step by step *)

Section PerformAttack.
Implicit Types (w : World) (bl : bloc).

(** The three tests of lines 177, 178 and 186 all pass. *)
Definition attack_accepted (bl : bloc) (attackerId : string) (isSpecial : bool)
    (w : World) : Prop :=
  status (getB w bl) = active
  ∧ currentPlayer (getB w bl) = attackerId
  ∧ attack_cost isSpecial ≤ resources (deref w (attacker_ref w (getB w bl) attackerId)).

Global Instance attack_accepted_dec bl attackerId isSpecial w :
  Decision (attack_accepted bl attackerId isSpecial w).
Proof. unfold attack_accepted. apply _. Defined.

(** The world after the cost was taken (lines 189-197). *)
Definition paid (attackerId : string) (isSpecial : bool) (w : World) : World :=
  match find_player w attackerId with
  | Some (_, l) =>
      update_player l (λ p, set_resources (resources p - attack_cost isSpecial) p) w
  | None => w
  end.

Definition dealt (bl : bloc) (attackerId : string) (isSpecial : bool) (r : Q)
    (w : World) : Z :=
  attack_damage isSpecial
    (clickPower (deref w (attacker_ref w (getB w bl) attackerId))) r.

Definition defender_id (bl : bloc) (attackerId : string) (w : World) : string :=
  player_id (deref w (getOpponent w (getB w bl) attackerId)).

Definition health_left (bl : bloc) (attackerId : string) (isSpecial : bool) (r : Q)
    (w : World) : Z :=
  Z.max 0 (getHealth (getB w bl) (defender_id bl attackerId w)
           - dealt bl attackerId isSpecial r w).

Definition attack_action (bl : bloc) (attackerId : string) (isSpecial : bool) (r : Q)
    (w : World) : Action :=
  let b := getB w bl in
  let name := player_name (deref w (attacker_ref w b attackerId)) in
  let ended := bool_decide (health_left bl attackerId isSpecial r w ≤ 0) in
  AttackAction (if isSpecial then special else attack) name
    (player_name (deref w (getOpponent w b attackerId)))
    (dealt bl attackerId isSpecial r w) (attack_cost isSpecial) (turn b) (now w)
    ended (if ended then Some name else None).

(** The battle after the damage was applied and logged (lines 211-225). *)
Definition struck_battle (bl : bloc) (attackerId : string) (isSpecial : bool) (r : Q)
    (w : World) (b : Battle) : Battle :=
  set_lastActionTime (now w)
    (set_actions (actions b ++ [attack_action bl attackerId isSpecial r w])
       (set_health (<[defender_id bl attackerId w
                      := health_left bl attackerId isSpecial r w]> (health b)) b)).

Definition struck (bl : bloc) (attackerId : string) (isSpecial : bool) (r : Q)
    (w : World) : World :=
  update_battle bl (struck_battle bl attackerId isSpecial r w)
    (paid attackerId isSpecial w).

(** The turn was handed over (lines 234-235). *)
Definition advanced_battle (bl : bloc) (attackerId : string) (w : World)
    (b : Battle) : Battle :=
  set_turn (turn b + 1) (set_currentPlayer (defender_id bl attackerId w) b).

Definition advanced (bl : bloc) (attackerId : string) (isSpecial : bool) (r : Q)
    (w : World) : World :=
  update_battle bl (advanced_battle bl attackerId w)
    (struck bl attackerId isSpecial r w).

(** The world after lines 228-241. *)
Definition settled (bl : bloc) (attackerId : string) (isSpecial : bool) (r rtie : Q)
    (w : World) : World :=
  if decide (health_left bl attackerId isSpecial r w ≤ 0)
  then finishBattle bl attackerId (struck bl attackerId isSpecial r w)
  else
    let w' := advanced bl attackerId isSpecial r w in
    if decide (MAX_TURNS ≤ turn (getB w' bl))
    then finishBattle bl (getWinnerByHealth w' (getB w' bl) rtie) w'
    else w'.

Lemma paid_proj {A} (g : Player → A) attackerId isSpecial w l :
  (∀ v p, g (set_resources v p) = g p) →
  g (deref (paid attackerId isSpecial w) l) = g (deref w l).
Proof.
  intros Hg. unfold paid. destruct (find_player _ _) as [[? ?]|]; [|done].
  by apply deref_update_player_proj.
Qed.

Lemma paid_getB attackerId isSpecial w bl :
  getB (paid attackerId isSpecial w) bl = getB w bl.
Proof. unfold paid. by destruct (find_player _ _) as [[? ?]|]. Qed.

Lemma performAttack_rejected bl attackerId isSpecial r rtie w :
  ¬ attack_accepted bl attackerId isSpecial w →
  performAttack bl attackerId isSpecial r rtie w = (w, None).
Proof.
  intros Hno. unfold performAttack.
  destruct (decide (status (getB w bl) ≠ active)) as [|Hst]; [done|].
  destruct (decide (currentPlayer (getB w bl) ≠ attackerId)) as [|Hcur]; [done|].
  cbv zeta.
  destruct (decide (resources (deref w (attacker_ref w (getB w bl) attackerId))
                    < attack_cost isSpecial)) as [|Hres]; [done|].
  exfalso. apply Hno. unfold attack_accepted. split_and!.
  - by destruct (decide (status (getB w bl) = active)).
  - by destruct (decide (currentPlayer (getB w bl) = attackerId)).
  - lia.
Qed.

Lemma performAttack_accepted bl attackerId isSpecial r rtie w :
  attack_accepted bl attackerId isSpecial w →
  performAttack bl attackerId isSpecial r rtie w
  = (emit (players_update (snapshot (settled bl attackerId isSpecial r rtie w)))
       (settled bl attackerId isSpecial r rtie w),
     Some (attack_action bl attackerId isSpecial r w)).
Proof.
  intros (Hst & Hcur & Hres). unfold performAttack.
  rewrite decide_False by (by intros []).
  rewrite decide_False by (by intros []).
  rewrite decide_False by lia.
  fold (paid attackerId isSpecial w).
  cbv zeta.
  rewrite !(paid_proj clickPower), !(paid_proj player_id), !(paid_proj player_name)
    by done.
  fold (dealt bl attackerId isSpecial r w).
  fold (defender_id bl attackerId w).
  fold (health_left bl attackerId isSpecial r w).
  unfold settled, advanced, advanced_battle, struck, struck_battle, attack_action.
  cbv zeta.
  destruct (decide (health_left bl attackerId isSpecial r w ≤ 0)) as [Hz|Hz].
  - by rewrite !bool_decide_eq_true_2.
  - by rewrite !bool_decide_eq_false_2.
Qed.

Lemma active_allocated w bl :
  status (getB w bl) = active → bheap w !! bl = Some (getB w bl).
Proof. unfold getB. by destruct (bheap w !! bl). Qed.

Lemma paid_resources attackerId isSpecial w i l p :
  find_player w attackerId = Some (i, l) →
  pheap w !! l = Some p →
  resources (deref (paid attackerId isSpecial w) l)
  = resources p - attack_cost isSpecial.
Proof.
  intros Hf Hp. unfold paid. rewrite Hf.
  by rewrite (deref_update_player_eq _ _ _ p).
Qed.

Lemma paid_find_player attackerId isSpecial w id :
  find_player (paid attackerId isSpecial w) id = find_player w id.
Proof.
  unfold paid. destruct (find_player w attackerId) as [[? ?]|]; [|done].
  by apply find_player_update_player.
Qed.

Lemma paid_allocated attackerId isSpecial w l p :
  pheap w !! l = Some p → is_Some (pheap (paid attackerId isSpecial w) !! l).
Proof.
  intros Hp. unfold paid. destruct (find_player w attackerId) as [[? l']|]; [|by eexists].
  unfold update_player. simpl. apply lookup_lt_is_Some. rewrite length_alter.
  by eapply lookup_lt_Some.
Qed.

Lemma struck_getB bl attackerId isSpecial r w :
  status (getB w bl) = active →
  getB (struck bl attackerId isSpecial r w) bl
  = struck_battle bl attackerId isSpecial r w (getB w bl).
Proof.
  intros Hb%active_allocated. unfold struck.
  apply getB_update_battle_eq. unfold paid.
  by destruct (find_player _ _) as [[? ?]|].
Qed.

Lemma struck_allocated bl attackerId isSpecial r w :
  status (getB w bl) = active →
  bheap (struck bl attackerId isSpecial r w) !! bl
  = Some (struck_battle bl attackerId isSpecial r w (getB w bl)).
Proof.
  intros Hb%active_allocated. unfold struck. rewrite lookup_update_battle.
  replace (bheap (paid attackerId isSpecial w)) with (bheap w).
  - by rewrite Hb.
  - unfold paid. by destruct (find_player _ _) as [[? ?]|].
Qed.

Lemma advanced_allocated bl attackerId isSpecial r w :
  status (getB w bl) = active →
  bheap (advanced bl attackerId isSpecial r w) !! bl
  = Some (advanced_battle bl attackerId w
            (struck_battle bl attackerId isSpecial r w (getB w bl))).
Proof.
  intros Hb. unfold advanced. rewrite lookup_update_battle.
  by rewrite struck_allocated.
Qed.

Lemma advanced_getB bl attackerId isSpecial r w :
  status (getB w bl) = active →
  getB (advanced bl attackerId isSpecial r w) bl
  = advanced_battle bl attackerId w
      (struck_battle bl attackerId isSpecial r w (getB w bl)).
Proof. intros Hb. unfold getB at 1. by rewrite advanced_allocated. Qed.

(** The battle record after an accepted attack, in its three cases. *)
Lemma settled_getB bl attackerId isSpecial r rtie w :
  status (getB w bl) = active →
  let b1 := struck_battle bl attackerId isSpecial r w (getB w bl) in
  let b2 := advanced_battle bl attackerId w b1 in
  getB (settled bl attackerId isSpecial r rtie w) bl
  = if decide (health_left bl attackerId isSpecial r w ≤ 0)
    then set_winner (Some attackerId) (set_status finished b1)
    else if decide (MAX_TURNS ≤ turn (getB w bl) + 1)
    then set_winner
           (Some (getWinnerByHealth (advanced bl attackerId isSpecial r w) b2 rtie))
           (set_status finished b2)
    else b2.
Proof.
  intros Hb b1 b2. unfold settled. cbv zeta.
  destruct (decide (health_left _ _ _ _ _ ≤ 0)).
  - by rewrite (finishBattle_getB _ _ _ b1) by (by apply struck_allocated).
  - rewrite advanced_getB by done. fold b1. fold b2.
    change (turn b2) with (turn (getB w bl) + 1).
    destruct (decide (MAX_TURNS ≤ _)); [|by apply advanced_getB].
    by rewrite (finishBattle_getB _ _ _ b2) by (by apply advanced_allocated).
Qed.

(** What finishing pays to the player [id]: [50 + 5 * turn] to the winner. *)
Definition reward_of (b : Battle) (id : string) : Z :=
  if decide (status b = finished ∧ winner b = Some id) then 50 + turn b * 5 else 0.

Lemma paid_lookup attackerId isSpecial w i l p :
  find_player w attackerId = Some (i, l) →
  pheap w !! l = Some p →
  pheap (paid attackerId isSpecial w) !! l
  = Some (set_resources (resources p - attack_cost isSpecial) p).
Proof.
  intros Hf Hp. unfold paid. rewrite Hf. unfold update_player. simpl.
  by rewrite list_lookup_alter_eq, Hp.
Qed.

Lemma struck_find_player bl attackerId isSpecial r w id :
  find_player (struck bl attackerId isSpecial r w) id = find_player w id.
Proof. unfold struck. apply (paid_find_player attackerId isSpecial w id). Qed.

Lemma advanced_find_player bl attackerId isSpecial r w id :
  find_player (advanced bl attackerId isSpecial r w) id = find_player w id.
Proof. unfold advanced. apply (struck_find_player bl attackerId isSpecial r w id). Qed.

(** The balance of the registered attacker after an accepted attack: the
    cost is taken once, and the reward is added if the attack won. *)
Lemma settled_resources bl attackerId isSpecial r rtie w i l p :
  status (getB w bl) = active →
  find_player w attackerId = Some (i, l) →
  pheap w !! l = Some p →
  resources (deref (settled bl attackerId isSpecial r rtie w) l)
  = resources p - attack_cost isSpecial
    + reward_of (getB (settled bl attackerId isSpecial r rtie w) bl) attackerId.
Proof.
  intros Hb Hf Hp.
  pose proof (paid_lookup attackerId isSpecial w i l p Hf Hp) as Hpaid.
  rewrite settled_getB by done. unfold settled. cbv zeta.
  destruct (decide (health_left _ _ _ _ _ ≤ 0)).
  - erewrite finishBattle_resources_winner;
      [|by apply struck_allocated|by rewrite struck_find_player|exact Hpaid].
    unfold reward_of. rewrite decide_True by done. simpl. lia.
  - rewrite advanced_getB by done.
    set (b2 := advanced_battle _ _ _ _).
    change (turn b2) with (turn (getB w bl) + 1).
    destruct (decide (MAX_TURNS ≤ _)).
    + set (W := getWinnerByHealth _ _ _).
      destruct (decide (W = attackerId)) as [HW|HW].
      * erewrite finishBattle_resources_winner;
          [|by apply advanced_allocated
           |by rewrite advanced_find_player, HW|exact Hpaid].
        unfold reward_of. rewrite decide_True by (by rewrite HW). simpl. lia.
      * rewrite finishBattle_resources_other.
        { unfold reward_of. rewrite decide_False by (simpl; intros [_ ?]; congruence).
          unfold deref. change (pheap (advanced bl attackerId isSpecial r w))
            with (pheap (paid attackerId isSpecial w)).
          rewrite Hpaid. simpl. lia. }
        intros i'. rewrite advanced_find_player.
        intros Hf'. apply find_player_Some in Hf' as [_ Hid'].
        apply find_player_Some in Hf as [_ Hid]. congruence.
    + unfold reward_of. rewrite decide_False.
      * unfold deref. change (pheap (advanced bl attackerId isSpecial r w))
          with (pheap (paid attackerId isSpecial w)).
        rewrite Hpaid. simpl. lia.
      * unfold b2. simpl. rewrite Hb. by intros [? _].
Qed.

End PerformAttack.

(** ** Attacks: rejection, cost, damage and reward *)

Definition action_cost (a : Action) : option Z :=
  match a with
  | AttackAction _ _ _ _ cost _ _ _ _ => Some cost
  | _ => None
  end.

Definition action_damage (a : Action) : option Z :=
  match a with
  | AttackAction _ _ _ damage _ _ _ _ _ => Some damage
  | TimeoutAction _ damage _ _ _ _ => Some damage
  | CancelAction _ _ => None
  end.

Section Attacks.
Variables (bl : bloc) (attackerId : string) (isSpecial : bool) (r rtie : Q).
Variable w : World.

Lemma accepted_iff :
  attack_accepted bl attackerId isSpecial w ↔
  ¬ (status (getB w bl) ≠ active
     ∨ currentPlayer (getB w bl) ≠ attackerId
     ∨ resources (deref w (attacker_ref w (getB w bl) attackerId))
       < attack_cost isSpecial).
Proof.
  unfold attack_accepted. split.
  - intros (? & ? & ?) [?|[?|?]]; [done..|lia].
  - intros Hno. split_and!.
    + destruct (decide (status (getB w bl) = active)); [done|]. destruct Hno; auto.
    + destruct (decide (currentPlayer (getB w bl) = attackerId)); [done|].
      destruct Hno; auto.
    + destruct (decide (attack_cost isSpecial
                        ≤ resources (deref w (attacker_ref w (getB w bl) attackerId))));
        [done|]. destruct Hno. right. right. lia.
Qed.

Lemma performAttack_result_None :
  (performAttack bl attackerId isSpecial r rtie w).2 = None
  ↔ ¬ attack_accepted bl attackerId isSpecial w.
Proof.
  destruct (decide (attack_accepted bl attackerId isSpecial w)) as [Hacc|Hno].
  - rewrite performAttack_accepted by done. simpl. split; [done|tauto].
  - rewrite performAttack_rejected by done. simpl. tauto.
Qed.

Lemma settled_actions :
  status (getB w bl) = active →
  actions (getB (settled bl attackerId isSpecial r rtie w) bl)
  = actions (getB w bl) ++ [attack_action bl attackerId isSpecial r w].
Proof.
  intros Hb. rewrite settled_getB by done.
  destruct (decide (health_left _ _ _ _ _ ≤ 0)); [done|].
  by destruct (decide (MAX_TURNS ≤ _)).
Qed.

Lemma settled_health :
  status (getB w bl) = active →
  health (getB (settled bl attackerId isSpecial r rtie w) bl)
  = <[defender_id bl attackerId w := health_left bl attackerId isSpecial r w]>
      (health (getB w bl)).
Proof.
  intros Hb. rewrite settled_getB by done.
  destruct (decide (health_left _ _ _ _ _ ≤ 0)); [done|].
  by destruct (decide (MAX_TURNS ≤ _)).
Qed.

End Attacks.

(** ** Attacks on any world

    The statements of this part hold in every world; they take as
    hypotheses what a well-formed world provides: the attacker is the
    registered object found under its [id]. *)

(** What [performAttack] returns, and what an accepted call does to the log
    and to the attacker's balance. *)
Lemma performAttack_spec (bl : bloc) (attackerId : string)
    (isSpecial : bool) (r rtie : Q) (w : World) :
  let b := getB w bl in
  let attacker := attacker_ref w b attackerId in
  let w' := (performAttack bl attackerId isSpecial r rtie w).1 in
  let result := (performAttack bl attackerId isSpecial r rtie w).2 in
  (result = None ↔
     status b ≠ active ∨ currentPlayer b ≠ attackerId
     ∨ resources (deref w attacker) < attack_cost isSpecial)
  ∧ (result = None → w' = w)
  ∧ (∀ a, result = Some a →
       action_cost a = Some (attack_cost isSpecial)
       ∧ actions (getB w' bl) = actions b ++ [a]
       ∧ ∀ i p,
           find_player w attackerId = Some (i, attacker) →
           pheap w !! attacker = Some p →
           resources (deref w' attacker)
           = resources p - attack_cost isSpecial + reward_of (getB w' bl) attackerId).
Proof.
  intros b attacker w' result. subst w' result.
  split_and!.
  - rewrite performAttack_result_None, accepted_iff.
    split; [|tauto]. intros Hnn.
    destruct (decide (status b ≠ active)); [tauto|].
    destruct (decide (currentPlayer b ≠ attackerId)); [tauto|].
    destruct (decide (resources (deref w attacker) < attack_cost isSpecial)); tauto.
  - intros Hnone%performAttack_result_None.
    by rewrite performAttack_rejected.
  - intros a Ha.
    destruct (decide (attack_accepted bl attackerId isSpecial w)) as [Hacc|Hno];
      [|by rewrite performAttack_rejected in Ha].
    rewrite performAttack_accepted in Ha |- * by done. simpl in Ha. simpl.
    injection Ha as <-. destruct Hacc as (Hb & _ & _).
    split_and!.
    + done.
    + rewrite getB_emit. by apply settled_actions.
    + intros i p Hf Hp. rewrite getB_emit, deref_emit.
      by apply (settled_resources _ _ _ _ _ _ i).
Qed.

(** Cost, damage and the defender's health after an accepted attack whose
    deterministic part [d] is not negative, and the draws that lead to each
    damage, up to the margin of [attack_damage_draws]. *)
Lemma attack_spec (bl : bloc) (attackerId : string) (isSpecial : bool)
    (r rtie : Q) (w : World) (i : nat) (p : Player) :
  (0 <= r)%Q → (r < 1)%Q →
  attack_accepted bl attackerId isSpecial w →
  let b := getB w bl in
  let attacker := attacker_ref w b attackerId in
  find_player w attackerId = Some (i, attacker) →
  pheap w !! attacker = Some p →
  let cost := if isSpecial then 25 else 10 in
  let d := (if isSpecial then 25 else 10) + clickPower p / 10 in
  let v := d / 5 in
  let defenderId := player_id (deref w (getOpponent w b attackerId)) in
  0 ≤ d →
  (∃ w' a j,
     performAttack bl attackerId isSpecial r rtie w = (w', Some a)
     ∧ action_cost a = Some cost
     ∧ resources (deref w' attacker)
       = resources p - cost + reward_of (getB w' bl) attackerId
     ∧ - v ≤ j ≤ v
     ∧ action_damage a = Some (d + j)
     ∧ getHealth (getB w' bl) defenderId = Z.max 0 (getHealth b defenderId - (d + j)))
  ∧ (∀ (r' : Q) (j' : Z),
       let lo := (inject_Z (j' + v) / inject_Z (2 * v + 1))%Q in
       let hi := (inject_Z (j' + v + 1) / inject_Z (2 * v + 1))%Q in
       let damage := (performAttack bl attackerId isSpecial r' rtie w).2 ≫= action_damage in
       ((lo <= r')%Q ∧ (r' <= hi - (1 # 2 ^ 52))%Q → damage = Some (d + j'))
       ∧ (damage = Some (d + j') → (lo - (1 # 2 ^ 52) <= r')%Q ∧ (r' < hi)%Q)).
Proof.
  intros Hr0 Hr1 Hacc b attacker Hf Hp cost d v defenderId Hd0.
  assert (Hderef : deref w attacker = p) by (unfold deref; by rewrite Hp).
  assert (Hd : ∀ r', dealt bl attackerId isSpecial r' w
                     = attack_damage isSpecial (clickPower p) r').
  { intros r'. unfold dealt. fold b. fold attacker. by rewrite Hderef. }
  assert (Hbase : d = base_damage isSpecial + clickBonus (clickPower p)).
  { unfold d, clickBonus. by rewrite base_damage_values. }
  assert (Hcost : cost = attack_cost isSpecial) by (by rewrite attack_cost_values).
  assert (Hd0' : 0 ≤ base_damage isSpecial + clickBonus (clickPower p))
    by (by rewrite <- Hbase).
  pose proof (attack_damage_range isSpecial (clickPower p) r Hr0 Hr1 Hd0') as Hrange.
  simpl in Hrange. rewrite <- Hbase in Hrange. unfold variance in Hrange.
  fold v in Hrange.
  split.
  - exists (emit (players_update (snapshot (settled bl attackerId isSpecial r rtie w)))
              (settled bl attackerId isSpecial r rtie w)),
      (attack_action bl attackerId isSpecial r w),
      (attack_damage isSpecial (clickPower p) r - d).
    destruct Hacc as (Hb & Hcur & Hres).
    split_and!.
    + by apply performAttack_accepted.
    + by rewrite Hcost.
    + rewrite getB_emit, deref_emit, Hcost.
      by apply (settled_resources _ _ _ _ _ _ i).
    + clear -Hrange. clearbody v d. lia.
    + clear -Hrange. clearbody v d. lia.
    + simpl. rewrite Hd. f_equal. lia.
    + rewrite getB_emit. unfold getHealth at 1. rewrite settled_health by done.
      fold (defender_id bl attackerId w) in defenderId. subst defenderId.
      rewrite lookup_insert_eq. simpl. unfold health_left. rewrite Hd.
      fold b. unfold defender_id. fold b. f_equal. lia.
  - intros r' j' lo hi damage.
    assert (Hdamage : damage = Some (attack_damage isSpecial (clickPower p) r')).
    { unfold damage. rewrite performAttack_accepted by done. simpl. by rewrite Hd. }
    pose proof (attack_damage_draws isSpecial (clickPower p) r' j' Hd0') as Hdraws.
    simpl in Hdraws. rewrite <- Hbase in Hdraws. unfold variance in Hdraws.
    fold v lo hi in Hdraws. destruct Hdraws as [Hin Hout].
    rewrite Hdamage. split.
    + intros Hr. f_equal. by apply Hin.
    + intros [= Heq]. by apply Hout.
Qed.

(** The effect of [finishBattle], and of an attack that takes the last
    health of the defender. *)
Lemma finish_spec (bl : bloc) (w : World) (b : Battle) (id : string)
    (i : nat) (l : loc) (p : Player) :
  bheap w !! bl = Some b →
  find_player w id = Some (i, l) →
  pheap w !! l = Some p →
  (let w' := finishBattle bl id w in
   status (getB w' bl) = finished
   ∧ winner (getB w' bl) = Some id
   ∧ turn (getB w' bl) = turn b
   ∧ resources (deref w' l) = resources p + (50 + 5 * turn b))
  ∧ (∀ (isSpecial : bool) (r rtie : Q),
       attack_accepted bl id isSpecial w →
       health_left bl id isSpecial r w = 0 →
       let w' := (performAttack bl id isSpecial r rtie w).1 in
       status (getB w' bl) = finished
       ∧ winner (getB w' bl) = Some id
       ∧ turn (getB w' bl) = turn b
       ∧ getHealth (getB w' bl) (defender_id bl id w) = 0
       ∧ resources (deref w' l)
         = resources p - attack_cost isSpecial + (50 + 5 * turn b)).
Proof.
  intros Hb Hf Hp. split.
  - intros w'. subst w'. rewrite (finishBattle_getB _ _ _ b) by done. split_and!; try done.
    rewrite (finishBattle_resources_winner _ _ _ b i l p) by done. lia.
  - intros isSpecial r rtie Hacc Hzero w'. subst w'.
    assert (Hst : status (getB w bl) = active) by apply Hacc.
    assert (Hgb : getB w bl = b) by (unfold getB; by rewrite Hb).
    rewrite performAttack_accepted by done. simpl.
    rewrite getB_emit, deref_emit.
    rewrite (settled_resources _ _ _ _ _ _ i l p) by done.
    unfold getHealth. rewrite settled_health by done.
    rewrite settled_getB by done. rewrite decide_True by lia.
    rewrite lookup_insert_eq. simpl. rewrite Hgb.
    unfold reward_of. simpl. rewrite decide_True by done.
    split_and!; try done. lia.
Qed.

(** ** Scenarios *)

Module Scenario.

(** Two players with 100 resources each; [strongCat] has a click power
    that lets one special attack take a full health bar. *)
Definition cat : PlayerData := mkPlayerData "Cat" (Some 100) (Some 7) None None.
Definition strongCat : PlayerData := mkPlayerData "Cat" (Some 100) (Some 1000) None None.
Definition dog : PlayerData := mkPlayerData "Dog" (Some 100) (Some 7) None None.
Definition poorCat : PlayerData := mkPlayerData "Cat" None (Some 7) None None.

(** A click power below zero, which [player-join] stores as it comes. *)
Definition negativeCat : PlayerData :=
  mkPlayerData "Cat" (Some 100) (Some (-2005)) None None.

(** [sB] accepts the challenge of [sA]: battle 0 starts at time 0. *)
Definition started : list Event :=
  [EvJoin "sA" cat 0 0; EvJoin "sB" dog 0 0; EvAccept "sB" "sA" "battle_1"].

(** The challenger wins with its first attack, 20 seconds in. *)
Definition won : list Event :=
  [EvJoin "sA" strongCat 0 0; EvJoin "sB" dog 0 0; EvAccept "sB" "sA" "battle_1";
   EvWait 20000; EvAttack "sA" "battle_1" true (1 # 2) 0].

(** The challenger has the negative click power and attacks once. *)
Definition negative : list Event :=
  [EvJoin "sA" negativeCat 0 0; EvJoin "sB" dog 0 0; EvAccept "sB" "sA" "battle_1"].

Definition healed : list Event :=
  negative ++ [EvAttack "sA" "battle_1" false (1 # 2) 0].

End Scenario.

(** Membership in a concrete log of emitted events. *)
Ltac find_emit :=
  repeat first [apply list_elem_of_here | apply list_elem_of_further].

(** ** Terminal states *)

Section Terminal.
Implicit Types (w : World) (bl : bloc).

Lemma performAttack_terminal bl attackerId isSpecial r rtie w :
  status (getB w bl) ≠ active →
  performAttack bl attackerId isSpecial r rtie w = (w, None).
Proof. intros Hst. apply performAttack_rejected. by intros (? & _). Qed.

Lemma turn_timeout_terminal bl w :
  status (getB w bl) ≠ active → turn_timeout bl w = w.
Proof. intros Hst. unfold turn_timeout. by rewrite decide_False. Qed.

(** A timer that fires for a battle that is over only leaves the set of
    pending timers. *)
Lemma timer_fire_terminal h w w' :
  timer_fire h w = Some w' →
  (∀ t, t ∈ timers w → handle t = h → status (getB w (timer_battle t)) ≠ active) →
  w' = clearTimeout h w.
Proof.
  unfold timer_fire. intros Hfire Hst.
  destruct (list_find _ _) as [[k t]|] eqn:Hfind; [|done].
  apply list_find_Some in Hfind as (Hk & Hh & _).
  destruct (decide (deadline t ≤ now w)); [|done].
  injection Hfire as <-. apply turn_timeout_terminal.
  rewrite getB_clearTimeout. apply Hst; [|done].
  by eapply list_elem_of_lookup_2.
Qed.

(** [cancelBattle] does not look at the status it overwrites. *)
Lemma cancelBattle_status bl reason w b :
  bheap w !! bl = Some b →
  status (getB (cancelBattle bl reason w) bl) = cancelled
  ∧ winner (getB (cancelBattle bl reason w) bl) = winner b.
Proof.
  intros Hb. unfold cancelBattle, broadcastBattleUpdate. simpl.
  rewrite !getB_emit.
  set (w1 := update_battle bl (set_status cancelled) w).
  assert (Hb1 : bheap w1 !! bl = Some (set_status cancelled b)).
  { unfold w1. by rewrite lookup_update_battle, Hb. }
  assert (H1 : getB w1 bl = set_status cancelled b)
    by (unfold getB; by rewrite Hb1).
  rewrite H1. simpl.
  destruct (turnTimer b).
  - rewrite (getB_update_battle_eq _ _ _ (set_status cancelled b)); done.
  - rewrite (getB_update_battle_eq _ _ _ (set_status cancelled b)); done.
Qed.

End Terminal.

(** ** Turn timers *)

Section Timers.
Implicit Types (w : World) (bl : bloc).

(** Arming clears the timer the battle holds and adds one that is due
    [TURN_TIME] from now. *)
Lemma startTurnTimer_timers bl w :
  timers (startTurnTimer bl w)
  = match turnTimer (getB w bl) with
    | Some h => filter (λ t, handle t ≠ h) (timers w)
    | None => timers w
    end ++ [mkTimer (nextHandle w) bl (now w + TURN_TIME)].
Proof. unfold startTurnTimer. by destruct (turnTimer (getB w bl)). Qed.

Lemma startTurnTimer_turnTimer bl w b :
  bheap w !! bl = Some b →
  turnTimer (getB (startTurnTimer bl w) bl) = Some (nextHandle w).
Proof.
  intros Hb. unfold startTurnTimer.
  destruct (turnTimer (getB w bl)); simpl;
    by rewrite (getB_update_battle_eq _ _ _ b).
Qed.

(** An accepted attack that leaves the battle active calls neither
    [clearTimeout] nor [setTimeout]. *)
Lemma performAttack_keeps_timers bl attackerId isSpecial r rtie w :
  attack_accepted bl attackerId isSpecial w →
  0 < health_left bl attackerId isSpecial r w →
  turn (getB w bl) + 1 < MAX_TURNS →
  let w' := (performAttack bl attackerId isSpecial r rtie w).1 in
  timers w' = timers w ∧ nextHandle w' = nextHandle w
  ∧ turnTimer (getB w' bl) = turnTimer (getB w bl)
  ∧ turn (getB w' bl) = turn (getB w bl) + 1.
Proof.
  intros Hacc Hleft Hturn w'. subst w'.
  assert (Hst : status (getB w bl) = active) by apply Hacc.
  rewrite performAttack_accepted by done. simpl. rewrite getB_emit.
  rewrite settled_getB by done. unfold settled. cbv zeta.
  rewrite advanced_getB by done.
  change (turn (advanced_battle _ _ _ _)) with (turn (getB w bl) + 1).
  repeat (case_decide; try lia).
  unfold advanced, struck, paid.
  destruct (find_player w attackerId) as [[? ?]|]; done.
Qed.

End Timers.

(** ** Names on join *)

Section Names.

(** The suffix is appended exactly when some registered player, whichever
    its socket, has a name with the same stripped form. *)
Lemma join_name_collision (w : World) (d : PlayerData) (rname rsuffix : Q) :
  data_name d ≠ "" →
  let baseName := stripSuffix (data_name d) in
  join_name w d rname rsuffix
  = if decide (Exists (λ l, stripSuffix (player_name (deref w l)) = baseName) (players w))
    then baseName +:+ "_" +:+ random_suffix rsuffix
    else data_name d.
Proof.
  intros Hne baseName. unfold join_name. rewrite decide_False by done. fold baseName.
  destruct (list_find _ _) as [[i l]|] eqn:Hfind.
  - apply list_find_Some in Hfind as (Hi & Hl & _).
    rewrite decide_True; [done|].
    apply Exists_exists. exists l. split; [|done].
    by eapply list_elem_of_lookup_2.
  - apply list_find_None in Hfind. rewrite decide_False; [done|].
    intros Hex. apply Exists_exists in Hex as (l & Hin & Hl).
    rewrite Forall_forall in Hfind. by apply (Hfind l).
Qed.

End Names.

(** ** Accepting a challenge *)

Section Accept.
Implicit Types (w : World).

(** The tests of [battle-accept] (lines 699-712): one of them fails. *)
Definition accept_rejected (sid challengerId : string) (w : World) : Prop :=
  match find_player w sid, find_player w challengerId with
  | Some (_, acceptor), Some (_, challenger) =>
      inBattle (deref w acceptor) = true
      ∨ inBattle (deref w challenger) = true
      ∨ resources (deref w acceptor) < ATTACK_COST
  | _, _ => True
  end.

Global Instance accept_rejected_dec sid challengerId w :
  Decision (accept_rejected sid challengerId w).
Proof.
  unfold accept_rejected.
  destruct (find_player w sid) as [[? ?]|];
    destruct (find_player w challengerId) as [[? ?]|]; apply _.
Defined.

Lemma startTurnTimer_battles bl w : battles (startTurnTimer bl w) = battles w.
Proof. unfold startTurnTimer. by destruct (turnTimer (getB w bl)). Qed.

Lemma startTurnTimer_players bl w : players (startTurnTimer bl w) = players w.
Proof. unfold startTurnTimer. by destruct (turnTimer (getB w bl)). Qed.

Lemma startTurnTimer_getB bl w b :
  bheap w !! bl = Some b →
  getB (startTurnTimer bl w) bl = set_turnTimer (Some (nextHandle w)) b.
Proof.
  intros Hb. unfold startTurnTimer.
  destruct (turnTimer (getB w bl)); simpl;
    by rewrite (getB_update_battle_eq _ _ _ b).
Qed.

End Accept.

(** ** Health bounds in every reachable state *)

(** Payloads and draws as the data model has them: a draw of
    [Math.random()] lies in [0, 1) and a click power is not negative. *)
Definition valid_draw (r : Q) : Prop := (0 <= r)%Q ∧ (r < 1)%Q.

Definition valid_data (d : PlayerData) : Prop :=
  match data_clickPower d with
  | Some v => 0 ≤ v
  | None => True
  end.

Definition valid_event (e : Event) : Prop :=
  match e with
  | EvJoin _ d rname rsuffix => valid_data d ∧ valid_draw rname ∧ valid_draw rsuffix
  | EvUpdate _ d => valid_data d
  | EvAttack _ _ _ r rtie => valid_draw r ∧ valid_draw rtie
  | _ => True
  end.

Section HealthBounds.
(** [K] stands for "the events handled so far were valid": the lower bound
    is kept whatever the events are ([K] false), the upper bound when they
    are valid ([K] true). *)
Variable K : Prop.

Definition in_range (v : Z) : Prop := 0 ≤ v ∧ (K → v ≤ MAX_HEALTH).

Definition health_ok (b : Battle) : Prop := map_Forall (λ _ v, in_range v) (health b).

Definition power_ok (p : Player) : Prop := K → 0 ≤ clickPower p.

Definition emit_ok (e : Emit) : Prop :=
  match e with
  | battle_start _ d | battle_update _ d =>
      in_range (view_health (data_player1 d)) ∧ in_range (view_health (data_player2 d))
  | _ => True
  end.

Definition bounded (w : World) : Prop :=
  Forall power_ok (pheap w) ∧ Forall health_ok (bheap w) ∧ Forall emit_ok (emitted w).

Lemma in_range_0 : in_range 0.
Proof. unfold in_range, MAX_HEALTH. lia. Qed.

Lemma in_range_max : in_range MAX_HEALTH.
Proof. unfold in_range, MAX_HEALTH. lia. Qed.

Lemma getHealth_in_range b k : health_ok b → in_range (getHealth b k).
Proof.
  intros Hb. unfold getHealth. destruct (health b !! k) as [v|] eqn:Hk; simpl.
  - by apply (Hb k v).
  - apply in_range_0.
Qed.

Lemma in_range_hit v d : in_range v → (K → 0 ≤ d) → in_range (Z.max 0 (v - d)).
Proof. unfold in_range. intros [H0 Hmax] Hd. split; [lia|]. intros HK.
  specialize (Hmax HK). specialize (Hd HK). lia. Qed.

Lemma health_ok_insert b k v :
  health_ok b → in_range v → health_ok (set_health (<[k := v]> (health b)) b).
Proof. intros Hb Hv. unfold health_ok. simpl. by apply map_Forall_insert_2. Qed.

Lemma bounded_deref w l : bounded w → power_ok (deref w l).
Proof.
  intros (Hp & _ & _). unfold deref. destruct (pheap w !! l) as [p|] eqn:Hl; simpl.
  - by eapply Forall_lookup_1.
  - intros _. done.
Qed.

Lemma bounded_getB w bl : bounded w → health_ok (getB w bl).
Proof.
  intros (_ & Hb & _). unfold getB. destruct (bheap w !! bl) as [b|] eqn:Hl; simpl.
  - by eapply Forall_lookup_1.
  - apply map_Forall_empty.
Qed.

Lemma bounded_init : bounded init.
Proof. by split_and!; constructor. Qed.

Lemma bounded_emit e w : emit_ok e → bounded w → bounded (emit e w).
Proof.
  intros He (Hp & Hb & Hem). split_and!; [done..|].
  simpl. apply Forall_app. split; [done|]. by constructor.
Qed.

Lemma bounded_update_player l f w :
  (∀ p, power_ok p → power_ok (f p)) → bounded w → bounded (update_player l f w).
Proof.
  intros Hf (Hp & Hb & Hem). split_and!; [|done..].
  simpl. apply Forall_alter; auto.
Qed.

Lemma bounded_update_battle bl f w :
  (∀ b, health_ok b → health_ok (f b)) → bounded w → bounded (update_battle bl f w).
Proof.
  intros Hf (Hp & Hb & Hem). split_and!; [done| |done].
  simpl. apply Forall_alter; auto.
Qed.

Lemma bounded_same w w' :
  pheap w' = pheap w → bheap w' = bheap w → emitted w' = emitted w →
  bounded w → bounded w'.
Proof. unfold bounded. by intros -> -> ->. Qed.

Lemma bounded_clearTimeout h w : bounded w → bounded (clearTimeout h w).
Proof. by apply bounded_same. Qed.

Lemma emit_ok_update to w w' bl :
  bounded w → emit_ok (battle_update to (getBattleData w' (getB w bl))).
Proof.
  intros Hw. pose proof (bounded_getB w bl Hw) as Hb.
  split; simpl; by apply getHealth_in_range.
Qed.

Lemma emit_ok_start to w w' bl :
  bounded w → emit_ok (battle_start to (getBattleData w' (getB w bl))).
Proof.
  intros Hw. pose proof (bounded_getB w bl Hw) as Hb.
  split; simpl; by apply getHealth_in_range.
Qed.

Lemma bounded_foldl {A} (f : World → A → World) (xs : list A) w :
  (∀ w x, bounded w → bounded (f w x)) → bounded w → bounded (foldl f w xs).
Proof. intros Hf. revert w. induction xs; simpl; auto. Qed.

Lemma bounded_broadcast bl w : bounded w → bounded (broadcastBattleUpdate bl w).
Proof.
  intros Hw. unfold broadcastBattleUpdate, battle_players. cbn [foldl].
  do 2 (apply bounded_emit; [by apply emit_ok_update|]). done.
Qed.

Lemma bounded_finishBattle bl wid w : bounded w → bounded (finishBattle bl wid w).
Proof.
  intros Hw. unfold finishBattle. apply bounded_emit; [done|].
  destruct (find_player _ _) as [[? l]|]; destruct (turnTimer _);
    repeat first [ apply bounded_clearTimeout
                 | apply bounded_update_player; [done|]
                 | apply bounded_update_battle; [done|] ];
    done.
Qed.

Lemma bounded_startTurnTimer bl w : bounded w → bounded (startTurnTimer bl w).
Proof.
  intros Hw. unfold startTurnTimer.
  destruct (turnTimer (getB w bl)); simpl;
    (apply bounded_update_battle; [done|]); by eapply bounded_same.
Qed.

Lemma bounded_cancelBattle bl reason w : bounded w → bounded (cancelBattle bl reason w).
Proof.
  intros Hw. unfold cancelBattle. apply bounded_broadcast.
  apply bounded_update_battle; [done|].
  destruct (turnTimer _);
    repeat first [ apply bounded_clearTimeout
                 | apply bounded_update_battle; [done|] ];
    done.
Qed.

Lemma bounded_turn_timeout bl w : bounded w → bounded (turn_timeout bl w).
Proof.
  intros Hw. unfold turn_timeout. case_decide; [|done].
  apply bounded_broadcast.
  set (w1 := update_battle bl _ w).
  assert (H1 : bounded w1).
  { apply bounded_update_battle; [|done]. intros b Hb.
    apply (health_ok_insert b); [done|].
    apply in_range_hit; [|lia]. apply getHealth_in_range. by apply bounded_getB. }
  destruct (bool_decide _).
  - by apply bounded_finishBattle.
  - apply bounded_startTurnTimer. by apply bounded_update_battle.
Qed.

Lemma bounded_paid attackerId isSpecial w :
  bounded w → bounded (paid attackerId isSpecial w).
Proof.
  intros Hw. unfold paid. destruct (find_player _ _) as [[? ?]|]; [|done].
  by apply bounded_update_player.
Qed.

Lemma bounded_settled bl attackerId isSpecial r rtie w :
  (K → valid_draw r) → bounded w → bounded (settled bl attackerId isSpecial r rtie w).
Proof.
  intros Hr Hw.
  assert (H1 : bounded (struck bl attackerId isSpecial r w)).
  { unfold struck. apply bounded_update_battle; [|by apply bounded_paid].
    intros b Hb. unfold struck_battle.
    apply (health_ok_insert b); [done|]. unfold health_left.
    apply in_range_hit; [apply getHealth_in_range; by apply bounded_getB|].
    intros HK. destruct (Hr HK). unfold dealt.
    apply attack_damage_nonneg; [done..|]. by apply bounded_deref. }
  assert (H2 : bounded (advanced bl attackerId isSpecial r w))
    by (by apply bounded_update_battle).
  unfold settled. cbv zeta.
  repeat case_decide; try done; by apply bounded_finishBattle.
Qed.

Lemma bounded_performAttack bl attackerId isSpecial r rtie w :
  (K → valid_draw r) → bounded w →
  bounded (performAttack bl attackerId isSpecial r rtie w).1.
Proof.
  intros Hr Hw.
  destruct (decide (attack_accepted bl attackerId isSpecial w)).
  - rewrite performAttack_accepted by done. simpl.
    apply bounded_emit; [done|]. by apply bounded_settled.
  - by rewrite performAttack_rejected.
Qed.

Lemma bounded_release_player w id : bounded w → bounded (release_player w id).
Proof.
  intros Hw. unfold release_player. destruct (find_player _ _) as [[? ?]|]; [|done].
  by apply bounded_update_player.
Qed.

Lemma power_ok_default (o : option Z) (d : Z) :
  (K → match o with Some v => 0 ≤ v | None => True end) →
  (K → 0 ≤ d) → K → 0 ≤ default d o.
Proof. intros Ho Hd HK. destruct o; simpl; auto. Qed.

Lemma power_ok_num_or (o : option Z) (d : Z) :
  (K → match o with Some v => 0 ≤ v | None => True end) →
  (K → 0 ≤ d) → K → 0 ≤ num_or o d.
Proof.
  intros Ho Hd HK. unfold num_or. destruct o; auto. case_decide; auto.
Qed.

Lemma bounded_player_join sid d rname rsuffix w :
  (K → valid_data d) → bounded w → bounded (player_join sid d rname rsuffix w).
Proof.
  intros Hd Hw. unfold player_join.
  destruct (find_player w sid) as [[? l]|].
  - do 3 (apply bounded_emit; [done|]).
    apply bounded_update_player; [|done].
    intros p Hp. unfold power_ok. simpl. by apply power_ok_default.
  - do 3 (apply bounded_emit; [done|]).
    destruct Hw as (Hp & Hb & Hem). split_and!; [|done..].
    simpl. apply Forall_app. split; [done|]. constructor; [|done].
    unfold power_ok. simpl. apply power_ok_num_or; [done|lia].
Qed.

Lemma bounded_player_update sid d w :
  (K → valid_data d) → bounded w → bounded (player_update sid d w).
Proof.
  intros Hd Hw. unfold player_update.
  destruct (find_player w sid) as [[? l]|]; [|done].
  apply bounded_emit; [done|]. apply bounded_update_player; [|done].
  intros p Hp. unfold power_ok. simpl. by apply power_ok_num_or.
Qed.

Lemma bounded_claim_task sid reward w : bounded w → bounded (claim_task sid reward w).
Proof.
  intros Hw. unfold claim_task.
  destruct (find_player w sid) as [[? l]|]; [|done].
  apply bounded_emit; [done|]. by apply bounded_update_player.
Qed.

Lemma bounded_battle_challenge sid targetId w :
  bounded w → bounded (battle_challenge sid targetId w).
Proof.
  intros Hw. unfold battle_challenge.
  destruct (find_player w sid) as [[? ?]|];
    destruct (find_player w targetId) as [[? ?]|];
    repeat first [case_decide | destruct (_ || _)];
    repeat (apply bounded_emit; [done|]); done.
Qed.

Lemma health_ok_new_Battle id p1 p2 w : health_ok (new_Battle id p1 p2 w).
Proof.
  unfold health_ok, new_Battle. simpl.
  do 2 (apply map_Forall_insert_2; [apply in_range_max|]).
  apply map_Forall_empty.
Qed.

Lemma bounded_battle_accept sid challengerId newId w :
  bounded w → bounded (battle_accept sid challengerId newId w).
Proof.
  intros Hw. unfold battle_accept.
  destruct (find_player w sid) as [[? a]|]; [|by apply bounded_emit].
  destruct (find_player w challengerId) as [[? c]|]; [|by apply bounded_emit].
  destruct (_ || _); [by apply bounded_emit|].
  case_decide; [by apply bounded_emit|].
  cbv zeta. apply bounded_emit; [done|]. apply bounded_startTurnTimer.
  set (w1 := set_battles _ _).
  assert (H1 : bounded w1).
  { destruct Hw as (Hp & Hb & Hem). split_and!; [done| |done].
    simpl. apply Forall_app. split; [done|].
    constructor; [apply health_ok_new_Battle|done]. }
  set (w3 := update_player a _ _).
  assert (H3 : bounded w3) by (do 2 (apply bounded_update_player; [done|]); done).
  set (w4 := emit (battle_start (player_id (deref w3 c)) _) w3).
  assert (H4 : bounded w4) by (apply bounded_emit; [by apply emit_ok_start|done]).
  apply bounded_emit; [by apply emit_ok_start|done].
Qed.

Lemma bounded_battle_decline sid challengerId reason w w' :
  bounded w → battle_decline sid challengerId reason w = Done w' → bounded w'.
Proof.
  intros Hw. unfold battle_decline.
  destruct (find_player w challengerId) as [[? ?]|];
    destruct (find_player w sid) as [[? ?]|]; intros [= <-]; try done.
  by apply bounded_emit.
Qed.

Lemma bounded_battle_attack sid battleId isSpecial r rtie w :
  (K → valid_draw r) → bounded w →
  bounded (battle_attack sid battleId isSpecial r rtie w).
Proof.
  intros Hr Hw. unfold battle_attack.
  destruct (find_player w sid) as [[? l]|]; [|by apply bounded_emit].
  destruct (find_battle w battleId) as [[? bl]|]; [|by apply bounded_emit].
  destruct (negb _); [by apply bounded_emit|].
  case_decide; [by apply bounded_emit|].
  pose proof (bounded_performAttack bl (player_id (deref w l)) isSpecial r rtie w Hr Hw)
    as Hatt.
  destruct (performAttack _ _ _ _ _ _) as [w1 [a|]]; simpl in Hatt.
  - destruct isSpecial; [apply bounded_emit; [done|]|]; by apply bounded_broadcast.
  - by apply bounded_emit.
Qed.

Lemma bounded_battle_cancel sid battleId reason w :
  bounded w → bounded (battle_cancel sid battleId reason w).
Proof.
  intros Hw. unfold battle_cancel.
  destruct (find_player w sid) as [[? l]|]; [|by apply bounded_emit].
  destruct (find_battle w battleId) as [[? bl]|]; [|by apply bounded_emit].
  destruct (negb _); [by apply bounded_emit|].
  cbv zeta. apply bounded_emit; [done|].
  eapply bounded_same; [reflexivity..|].
  apply bounded_foldl; [intros; by apply bounded_release_player|].
  by apply bounded_cancelBattle.
Qed.

Lemma bounded_disconnect_battle sid w bl :
  bounded w → bounded (disconnect_battle sid w bl).
Proof.
  intros Hw. unfold disconnect_battle. apply bounded_emit; [done|].
  apply bounded_release_player. by apply bounded_cancelBattle.
Qed.

Lemma bounded_disconnect sid w : bounded w → bounded (disconnect sid w).
Proof.
  intros Hw. unfold disconnect. cbv zeta.
  set (w1 := foldl _ _ _).
  assert (H1 : bounded w1)
    by (apply bounded_foldl; [intros; by apply bounded_disconnect_battle|done]).
  destruct (find_player _ _) as [[? ?]|].
  - do 2 (apply bounded_emit; [done|]). by eapply bounded_same.
  - by eapply bounded_same.
Qed.

Lemma bounded_timer_fire h w w' :
  bounded w → timer_fire h w = Some w' → bounded w'.
Proof.
  intros Hw. unfold timer_fire.
  destruct (list_find _ _) as [[? t]|]; [|done].
  case_decide; [|done]. intros [= <-].
  apply bounded_turn_timeout. by apply bounded_clearTimeout.
Qed.

Lemma bounded_step w e w' :
  (K → valid_event e) → bounded w → step w e = Some w' → bounded w'.
Proof.
  intros He Hw. destruct e; simpl in *.
  - intros [= <-]. apply bounded_player_join; [|done]. intros HK. by apply He.
  - intros [= <-]. by apply bounded_player_update.
  - intros [= <-]. by apply bounded_claim_task.
  - intros [= <-]. by apply bounded_battle_challenge.
  - intros [= <-]. by apply bounded_battle_accept.
  - destruct (battle_decline _ _ _ _) eqn:Hd; [|done].
    intros [= <-]. by eapply bounded_battle_decline.
  - intros [= <-]. apply bounded_battle_attack; [|done]. intros HK. by apply He.
  - intros [= <-]. by apply bounded_battle_cancel.
  - intros [= <-]. by apply bounded_disconnect.
  - by apply bounded_timer_fire.
  - case_decide; [|done]. intros [= <-]. by eapply bounded_same.
Qed.

Lemma bounded_run evs w w' :
  (K → Forall valid_event evs) → bounded w → run w evs = Some w' → bounded w'.
Proof.
  revert w. induction evs as [|e evs IH]; intros w Hev Hw; simpl.
  - by intros [= <-].
  - destruct (step w e) as [w1|] eqn:Hstep; [|done].
    apply IH.
    + intros HK. specialize (Hev HK). by inversion Hev.
    + eapply bounded_step; [|done..]. intros HK. specialize (Hev HK). by inversion Hev.
Qed.

End HealthBounds.

(** ** Well-formed worlds *)

(** The [id]s of the registered players, in the order of [players]. *)
Definition ids (w : World) : list string := (λ l, player_id (deref w l)) <$> players w.

(** [currentPlayer] is the [id] of one of the two participants. *)
Definition cur_ok (w : World) (b : Battle) : Prop :=
  currentPlayer b = player_id (deref w (player1 b))
  ∨ currentPlayer b = player_id (deref w (player2 b)).

Definition battle_wf (w : World) (bl : bloc) : Prop :=
  is_Some (bheap w !! bl)
  ∧ player1 (getB w bl) ∈ players w
  ∧ player2 (getB w bl) ∈ players w
  ∧ cur_ok w (getB w bl).

(** What the handlers keep true: the registry holds allocated objects with
    pairwise different [id]s, and the participants of every listed battle
    are registered. *)
Record wf (w : World) : Prop := mk_wf {
  wf_alloc : ∀ l, l ∈ players w → is_Some (pheap w !! l);
  wf_ids : NoDup (ids w);
  wf_battles : ∀ bl, bl ∈ battles w → battle_wf w bl
}.

(** [w'] has the registry, the battle list, the identities and the
    participants of [w]. *)
Record stable (w w' : World) : Prop := mk_stable {
  st_players : players w' = players w;
  st_battles : battles w' = battles w;
  st_pheap : length (pheap w') = length (pheap w);
  st_bheap : length (bheap w') = length (bheap w);
  st_id : ∀ l, player_id (deref w' l) = player_id (deref w l);
  st_p1 : ∀ bl, player1 (getB w' bl) = player1 (getB w bl);
  st_p2 : ∀ bl, player2 (getB w' bl) = player2 (getB w bl);
  st_cur : ∀ bl, cur_ok w (getB w bl) → cur_ok w' (getB w' bl)
}.

Section Stable.
Implicit Types (w : World) (l : loc) (bl : bloc).

Lemma stable_refl w : stable w w.
Proof. by constructor. Qed.

Lemma stable_trans w1 w2 w3 : stable w1 w2 → stable w2 w3 → stable w1 w3.
Proof.
  intros [Hp Hb Hlp Hlb Hid H1 H2 Hc] [Hp' Hb' Hlp' Hlb' Hid' H1' H2' Hc'].
  constructor.
  - by rewrite Hp'.
  - by rewrite Hb'.
  - by rewrite Hlp'.
  - by rewrite Hlb'.
  - intros l. by rewrite Hid'.
  - intros bl. by rewrite H1'.
  - intros bl. by rewrite H2'.
  - auto.
Qed.

Lemma stable_wf w w' : wf w → stable w w' → wf w'.
Proof.
  intros [Ha Hi Hb] [Hp Hbs Hlp Hlb Hid H1 H2 Hc]. constructor.
  - intros l Hl. rewrite Hp in Hl. apply lookup_lt_is_Some. rewrite Hlp.
    apply lookup_lt_is_Some. auto.
  - unfold ids in *. rewrite Hp.
    by rewrite (list_fmap_ext _ (λ l, player_id (deref w l)) (players w))
      by (intros; apply Hid).
  - intros bl Hbl. rewrite Hbs in Hbl. destruct (Hb bl Hbl) as (Hs & Hm1 & Hm2 & Hcur).
    split_and!.
    + apply lookup_lt_is_Some. rewrite Hlb. by apply lookup_lt_is_Some.
    + by rewrite Hp, H1.
    + by rewrite Hp, H2.
    + by apply Hc.
Qed.

(** Steps that leave both heaps and both arrays alone. *)
Lemma stable_fields w w1 w2 :
  pheap w2 = pheap w1 → bheap w2 = bheap w1 →
  players w2 = players w1 → battles w2 = battles w1 →
  stable w w1 → stable w w2.
Proof.
  intros Hp Hb Hps Hbs Hst. eapply stable_trans; [done|].
  constructor; try congruence.
  - intros l. unfold deref. by rewrite Hp.
  - intros bl. unfold getB. by rewrite Hb.
  - intros bl. unfold getB. by rewrite Hb.
  - intros bl. unfold cur_ok, getB, deref. by rewrite Hp, Hb.
Qed.

Lemma stable_emit e w w1 : stable w w1 → stable w (emit e w1).
Proof. by apply stable_fields. Qed.

Lemma stable_clearTimeout h w w1 : stable w w1 → stable w (clearTimeout h w1).
Proof. by apply stable_fields. Qed.

Lemma stable_update_player l f w w1 :
  (∀ p, player_id (f p) = player_id p) →
  stable w w1 → stable w (update_player l f w1).
Proof.
  intros Hf Hst. eapply stable_trans; [done|].
  assert (Hid : ∀ l', player_id (deref (update_player l f w1) l')
                      = player_id (deref w1 l'))
    by (intros l'; by apply (deref_update_player_proj player_id)).
  constructor; try done.
  - simpl. by rewrite length_alter.
  - intros bl. unfold cur_ok. rewrite getB_update_player. by rewrite !Hid.
Qed.

Lemma getB_update_battle_cases bl f w bl' :
  getB (update_battle bl f w) bl' = getB w bl'
  ∨ (bl' = bl ∧ bheap w !! bl = Some (getB w bl)
     ∧ getB (update_battle bl f w) bl' = f (getB w bl)).
Proof.
  destruct (decide (bl = bl')) as [<-|Hne].
  - destruct (bheap w !! bl) as [b|] eqn:Hb.
    + right. assert (getB w bl = b) as -> by (unfold getB; by rewrite Hb).
      split_and!; [done..|]. by apply getB_update_battle_eq.
    + left. unfold getB, update_battle. simpl.
      by rewrite list_lookup_alter_eq, Hb.
  - left. by apply getB_update_battle_ne.
Qed.

Lemma stable_update_battle bl f w w1 :
  (bheap w1 !! bl = Some (getB w1 bl) →
     player1 (f (getB w1 bl)) = player1 (getB w1 bl)
     ∧ player2 (f (getB w1 bl)) = player2 (getB w1 bl)
     ∧ (cur_ok w1 (getB w1 bl) → cur_ok w1 (f (getB w1 bl)))) →
  stable w w1 → stable w (update_battle bl f w1).
Proof.
  intros Hf Hst. eapply stable_trans; [done|].
  constructor; try done.
  - simpl. by rewrite length_alter.
  - intros bl'. destruct (getB_update_battle_cases bl f w1 bl')
      as [->|(-> & Hb & ->)]; [done|]. by apply Hf.
  - intros bl'. destruct (getB_update_battle_cases bl f w1 bl')
      as [->|(-> & Hb & ->)]; [done|]. by apply Hf.
  - intros bl'. destruct (getB_update_battle_cases bl f w1 bl')
      as [->|(-> & Hb & ->)]; [done|]. by apply Hf.
Qed.

(** The common case: the update touches neither the participants nor
    [currentPlayer]. *)
Lemma stable_update_battle_keep bl f w w1 :
  (∀ b, player1 (f b) = player1 b ∧ player2 (f b) = player2 b
        ∧ currentPlayer (f b) = currentPlayer b) →
  stable w w1 → stable w (update_battle bl f w1).
Proof.
  intros Hf. apply stable_update_battle. intros _.
  destruct (Hf (getB w1 bl)) as (H1 & H2 & Hc). split_and!; [done..|].
  unfold cur_ok. by rewrite H1, H2, Hc.
Qed.

End Stable.

(** *** The operations of a battle are stable *)

Ltac stable_step :=
  first
    [ assumption
    | apply stable_emit
    | apply stable_clearTimeout
    | apply stable_update_player; [done|]
    | apply stable_update_battle_keep; [done|] ].

Section StableOps.
Implicit Types (w : World) (l : loc) (bl : bloc).

Lemma stable_finishBattle bl wid w w1 :
  stable w w1 → stable w (finishBattle bl wid w1).
Proof.
  intros Hst. unfold finishBattle.
  destruct (find_player _ _) as [[? ?]|]; destruct (turnTimer _);
    repeat stable_step.
Qed.

Lemma stable_startTurnTimer bl w w1 :
  stable w w1 → stable w (startTurnTimer bl w1).
Proof.
  intros Hst. unfold startTurnTimer, setTimeout.
  destruct (turnTimer _) as [h|]; stable_step.
  - by apply (stable_fields _ (clearTimeout h w1)); [..|stable_step].
  - by apply (stable_fields _ w1).
Qed.

Lemma stable_broadcast bl w w1 :
  stable w w1 → stable w (broadcastBattleUpdate bl w1).
Proof.
  intros Hst. unfold broadcastBattleUpdate, battle_players. cbn [foldl].
  repeat stable_step.
Qed.

Lemma stable_cancelBattle bl reason w w1 :
  stable w w1 → stable w (cancelBattle bl reason w1).
Proof.
  intros Hst. unfold cancelBattle. apply stable_broadcast.
  destruct (turnTimer _); repeat stable_step.
Qed.

Lemma stable_release_player w w1 id :
  stable w w1 → stable w (release_player w1 id).
Proof.
  intros Hst. unfold release_player.
  destruct (find_player _ _) as [[? ?]|]; repeat stable_step.
Qed.

Lemma stable_paid attackerId isSpecial w w1 :
  stable w w1 → stable w (paid attackerId isSpecial w1).
Proof.
  intros Hst. unfold paid.
  destruct (find_player _ _) as [[? ?]|]; repeat stable_step.
Qed.

Lemma stable_struck bl attackerId isSpecial r w :
  stable w (struck bl attackerId isSpecial r w).
Proof.
  unfold struck. stable_step. apply stable_paid. apply stable_refl.
Qed.

Lemma getOpponent_cases w b id :
  getOpponent w b id = player1 b ∨ getOpponent w b id = player2 b.
Proof. unfold getOpponent. case_decide; auto. Qed.

(** Handing the turn to [getOpponent] keeps [currentPlayer] a participant. *)
Lemma stable_hand_over bl id w w1 :
  stable w w1 →
  stable w (update_battle bl
              (λ b, set_turn (turn b + 1)
                      (set_currentPlayer
                         (player_id (deref w (getOpponent w (getB w bl) id))) b)) w1).
Proof.
  intros Hst. apply stable_update_battle; [|done]. intros _. simpl.
  split_and!; [done..|]. intros _. unfold cur_ok. simpl.
  rewrite (st_p1 _ _ Hst), (st_p2 _ _ Hst), !(st_id _ _ Hst).
  destruct (getOpponent_cases w (getB w bl) id) as [-> | ->]; auto.
Qed.

Lemma stable_advanced bl attackerId isSpecial r w :
  stable w (advanced bl attackerId isSpecial r w).
Proof.
  unfold advanced, advanced_battle, defender_id.
  apply stable_hand_over. apply stable_struck.
Qed.

Lemma stable_settled bl attackerId isSpecial r rtie w :
  stable w (settled bl attackerId isSpecial r rtie w).
Proof.
  unfold settled. cbv zeta. repeat case_decide.
  - apply stable_finishBattle, stable_struck.
  - apply stable_finishBattle, stable_advanced.
  - apply stable_advanced.
Qed.

Lemma stable_performAttack bl attackerId isSpecial r rtie w :
  stable w (performAttack bl attackerId isSpecial r rtie w).1.
Proof.
  destruct (decide (attack_accepted bl attackerId isSpecial w)).
  - rewrite performAttack_accepted by done. simpl.
    apply stable_emit, stable_settled.
  - rewrite performAttack_rejected by done. apply stable_refl.
Qed.

Lemma stable_turn_timeout bl w w1 :
  stable w w1 → stable w (turn_timeout bl w1).
Proof.
  intros Hst. unfold turn_timeout. case_decide; [|done].
  apply stable_broadcast. cbv zeta.
  set (w2 := update_battle bl _ w1).
  assert (H2 : stable w1 w2) by (unfold w2; stable_step; apply stable_refl).
  destruct (bool_decide _).
  - apply stable_finishBattle. by eapply stable_trans.
  - apply stable_startTurnTimer. eapply stable_trans; [exact Hst|].
    eapply stable_trans; [exact H2|].
    assert (Hopp : player_id (deref w2 (getOpponent w1 (getB w1 bl)
                                         (currentPlayer (getB w1 bl))))
                   = player_id (deref w2 (getOpponent w2 (getB w2 bl)
                                         (currentPlayer (getB w1 bl))))).
    { unfold getOpponent. by rewrite (st_p1 _ _ H2), (st_p2 _ _ H2), (st_id _ _ H2). }
    rewrite Hopp. apply stable_hand_over, stable_refl.
Qed.

Lemma stable_foldl {A} (f : World → A → World) (xs : list A) w w1 :
  (∀ w1 x, stable w w1 → stable w (f w1 x)) → stable w w1 → stable w (foldl f w1 xs).
Proof. intros Hf. revert w1. induction xs; simpl; auto. Qed.

End StableOps.

(** *** The handlers keep worlds well formed *)

Section WfSteps.
Implicit Types (w : World) (l : loc) (bl : bloc).

Lemma wf_init : wf init.
Proof.
  constructor.
  - intros l Hl. by apply elem_of_nil in Hl.
  - constructor.
  - intros bl Hbl. by apply elem_of_nil in Hbl.
Qed.

Lemma elem_of_delete_ne {A} (xs : list A) (i : nat) (x y : A) :
  x ∈ xs → xs !! i = Some y → x ≠ y → x ∈ delete i xs.
Proof.
  intros [j Hj]%list_elem_of_lookup_1 Hi Hne.
  destruct (decide (j < i)%nat).
  - apply (list_elem_of_lookup_2 _ j). by rewrite list_lookup_delete_lt.
  - assert (j ≠ i) by (intros ->; congruence).
    apply (list_elem_of_lookup_2 _ (pred j)).
    rewrite list_lookup_delete_ge by lia.
    by replace (S (pred j)) with j by lia.
Qed.

(** A listed player is found under its [id], and is the one found. *)
Lemma find_player_registered w l :
  wf w → l ∈ players w →
  ∃ i, find_player w (player_id (deref w l)) = Some (i, l).
Proof.
  intros Hwf Hl.
  destruct (list_find_elem_of (λ l', player_id (deref w l') = player_id (deref w l))
              (players w) l Hl eq_refl) as [[i l'] Hfind].
  exists i. unfold find_player. rewrite Hfind.
  apply list_find_Some in Hfind as (Hi & Hid & _).
  apply list_elem_of_lookup_1 in Hl as [j Hj].
  assert (i = j) as ->; [|congruence].
  eapply (NoDup_lookup (ids w)); [apply Hwf|..]; unfold ids;
    rewrite list_lookup_fmap.
  - by rewrite Hi.
  - rewrite Hj. simpl. by rewrite Hid.
Qed.

Lemma wf_alloc_player w p :
  wf w → find_player w (player_id p) = None →
  wf (set_players (players w ++ [length (pheap w)]) (set_pheap (pheap w ++ [p]) w)).
Proof.
  intros [Ha Hi Hb] Hnone.
  set (w' := set_players _ _).
  assert (Hold : ∀ l, l ∈ players w → deref w' l = deref w l).
  { intros l [q Hq]%Ha. unfold deref, w'. simpl.
    by rewrite (lookup_app_l_Some _ _ _ _ Hq), Hq. }
  assert (Hnew : deref w' (length (pheap w)) = p).
  { unfold deref, w'. simpl. by rewrite lookup_app_r, Nat.sub_diag. }
  constructor.
  - intros l [Hl | ->%list_elem_of_singleton]%elem_of_app.
    + destruct (Ha l Hl) as [q Hq]. exists q. by apply lookup_app_l_Some.
    + exists p. simpl. by rewrite lookup_app_r, Nat.sub_diag.
  - assert (Hids : ids w' = ids w ++ [player_id p]).
    { unfold ids. change (players w') with (players w ++ [length (pheap w)]).
      rewrite fmap_app. f_equal.
      - apply list_fmap_ext. intros i l Hil. rewrite Hold; [done|].
        by eapply list_elem_of_lookup_2.
      - simpl. by rewrite Hnew. }
    rewrite Hids. apply NoDup_app. split_and!; [done| |apply NoDup_singleton].
    intros id [l [-> Hl]]%list_elem_of_fmap Heq%list_elem_of_singleton.
    apply list_find_None in Hnone. rewrite Forall_forall in Hnone.
    by apply (Hnone l).
  - intros bl Hbl. destruct (Hb bl Hbl) as (Hs & H1 & H2 & Hc).
    change (getB w' bl) with (getB w bl).
    split_and!; [done|apply elem_of_app; by left..|].
    unfold cur_ok. by rewrite !Hold.
Qed.

Lemma wf_alloc_battle w b :
  wf w → player1 b ∈ players w → player2 b ∈ players w → cur_ok w b →
  wf (set_battles (battles w ++ [length (bheap w)]) (set_bheap (bheap w ++ [b]) w)).
Proof.
  intros [Ha Hi Hb] H1 H2 Hc.
  set (w' := set_battles _ _).
  constructor; [done..|].
  intros bl [Hbl | ->%list_elem_of_singleton]%elem_of_app.
  - destruct (Hb bl Hbl) as ([b0 Hs] & H1' & H2' & Hc').
    assert (Hg : getB w' bl = getB w bl).
    { unfold getB, w'. simpl. by rewrite (lookup_app_l_Some _ _ _ _ Hs), Hs. }
    split_and!; rewrite ?Hg; try done.
    exists b0. by apply lookup_app_l_Some.
  - assert (Hg : getB w' (length (bheap w)) = b).
    { unfold getB, w'. simpl. by rewrite lookup_app_r, Nat.sub_diag. }
    split_and!; rewrite ?Hg; try done.
    exists b. simpl. by rewrite lookup_app_r, Nat.sub_diag.
Qed.

Lemma wf_sub_battles w bs :
  wf w → (∀ bl, bl ∈ bs → bl ∈ battles w) → wf (set_battles bs w).
Proof. intros [Ha Hi Hb] Hsub. constructor; [done..|]. intros bl Hbl. by apply Hb, Hsub. Qed.

Lemma wf_remove_player w sid i l :
  wf w → find_player w sid = Some (i, l) →
  (∀ bl, bl ∈ battles w → isParticipant w (getB w bl) sid = false) →
  wf (set_players (delete i (players w)) w).
Proof.
  intros [Ha Hi Hb] [Hl Hid]%find_player_Some Hnone. constructor.
  - intros l' Hl'. apply Ha. simpl in Hl'. by eapply list_elem_of_delete_inv.
  - unfold ids. simpl. rewrite list_fmap_delete.
    exact (sublist_NoDup _ _ Hi (sublist_delete _ _)).
  - intros bl Hbl. destruct (Hb bl Hbl) as (Hs & H1 & H2 & Hc).
    specialize (Hnone bl Hbl). unfold isParticipant in Hnone.
    apply orb_false_iff in Hnone as [Hn1%bool_decide_eq_false Hn2%bool_decide_eq_false].
    split_and!; [done| | |done].
    + simpl. eapply elem_of_delete_ne; [done..|]. intros Heq. apply Hn1.
      change (getB (set_players (delete i (players w)) w) bl) with (getB w bl) in Heq.
      by rewrite Heq.
    + simpl. eapply elem_of_delete_ne; [done..|]. intros Heq. apply Hn2.
      change (getB (set_players (delete i (players w)) w) bl) with (getB w bl) in Heq.
      by rewrite Heq.
Qed.

Lemma wf_player_join sid d rname rsuffix w :
  wf w → wf (player_join sid d rname rsuffix w).
Proof.
  intros Hwf. unfold player_join.
  destruct (find_player w sid) as [[? l]|] eqn:Hf.
  - eapply stable_wf; [done|]. repeat stable_step. apply stable_refl.
  - set (p := mkPlayer sid _ _ _ _ _ _ _ _).
    eapply stable_wf; [by apply (wf_alloc_player w p)|].
    repeat stable_step. apply stable_refl.
Qed.

Lemma wf_player_update sid d w : wf w → wf (player_update sid d w).
Proof.
  intros Hwf. unfold player_update.
  destruct (find_player w sid) as [[? l]|]; [|done].
  eapply stable_wf; [done|]. repeat stable_step. apply stable_refl.
Qed.

Lemma wf_claim_task sid reward w : wf w → wf (claim_task sid reward w).
Proof.
  intros Hwf. unfold claim_task.
  destruct (find_player w sid) as [[? l]|]; [|done].
  eapply stable_wf; [done|]. repeat stable_step. apply stable_refl.
Qed.

Lemma wf_battle_challenge sid targetId w : wf w → wf (battle_challenge sid targetId w).
Proof.
  intros Hwf. eapply stable_wf; [done|]. unfold battle_challenge.
  destruct (find_player w sid) as [[? ?]|];
    destruct (find_player w targetId) as [[? ?]|];
    repeat first [case_decide | destruct (_ || _)];
    repeat stable_step; apply stable_refl.
Qed.

Lemma wf_battle_accept sid challengerId newId w :
  wf w → wf (battle_accept sid challengerId newId w).
Proof.
  intros Hwf. unfold battle_accept.
  destruct (find_player w sid) as [[i a]|] eqn:Hfa;
    [|eapply stable_wf; [done|]; stable_step; apply stable_refl].
  destruct (find_player w challengerId) as [[j c]|] eqn:Hfc;
    [|eapply stable_wf; [done|]; stable_step; apply stable_refl].
  destruct (_ || _); [eapply stable_wf; [done|]; stable_step; apply stable_refl|].
  case_decide; [eapply stable_wf; [done|]; stable_step; apply stable_refl|].
  cbv zeta.
  apply find_player_Some in Hfa as [Ha%list_elem_of_lookup_2 _].
  apply find_player_Some in Hfc as [Hc%list_elem_of_lookup_2 _].
  eapply stable_wf.
  - apply (wf_alloc_battle w (new_Battle newId c a w)); [done..|]. by left.
  - stable_step. apply stable_startTurnTimer. repeat stable_step. apply stable_refl.
Qed.

Lemma wf_battle_decline sid challengerId reason w w' :
  wf w → battle_decline sid challengerId reason w = Done w' → wf w'.
Proof.
  intros Hwf. unfold battle_decline.
  destruct (find_player w challengerId) as [[? ?]|];
    destruct (find_player w sid) as [[? ?]|]; intros [= <-]; try done.
  eapply stable_wf; [done|]. stable_step. apply stable_refl.
Qed.

Lemma wf_battle_attack sid battleId isSpecial r rtie w :
  wf w → wf (battle_attack sid battleId isSpecial r rtie w).
Proof.
  intros Hwf. eapply stable_wf; [done|]. unfold battle_attack.
  destruct (find_player w sid) as [[? l]|]; [|stable_step; apply stable_refl].
  destruct (find_battle w battleId) as [[? bl]|]; [|stable_step; apply stable_refl].
  destruct (negb _); [stable_step; apply stable_refl|].
  case_decide; [stable_step; apply stable_refl|].
  pose proof (stable_performAttack bl (player_id (deref w l)) isSpecial r rtie w) as Hatt.
  destruct (performAttack _ _ _ _ _ _) as [w1 [a|]]; simpl in Hatt.
  - destruct isSpecial; [stable_step|]; by apply stable_broadcast.
  - by stable_step.
Qed.

Lemma wf_battle_cancel sid battleId reason w :
  wf w → wf (battle_cancel sid battleId reason w).
Proof.
  intros Hwf. unfold battle_cancel.
  destruct (find_player w sid) as [[? l]|];
    [|eapply stable_wf; [done|]; stable_step; apply stable_refl].
  destruct (find_battle w battleId) as [[? bl]|];
    [|eapply stable_wf; [done|]; stable_step; apply stable_refl].
  destruct (negb _); [eapply stable_wf; [done|]; stable_step; apply stable_refl|].
  cbv zeta.
  set (w2 := foldl _ _ _).
  assert (H2 : stable w w2).
  { apply stable_foldl; [intros; by apply stable_release_player|].
    apply stable_cancelBattle, stable_refl. }
  pose proof (stable_wf _ _ Hwf H2) as Hwf2.
  eapply stable_wf; [|stable_step; apply stable_refl].
  apply wf_sub_battles; [done|]. intros b Hb.
  by apply list_elem_of_filter in Hb as [_ Hb].
Qed.

Lemma stable_disconnect_battle sid w w1 bl :
  stable w w1 → stable w (disconnect_battle sid w1 bl).
Proof.
  intros Hst. unfold disconnect_battle. stable_step.
  by apply stable_release_player, stable_cancelBattle.
Qed.

Lemma wf_disconnect sid w : wf w → wf (disconnect sid w).
Proof.
  intros Hwf. unfold disconnect. cbv zeta.
  set (w1 := foldl _ _ _).
  assert (H1 : stable w w1).
  { apply stable_foldl; [intros; by apply stable_disconnect_battle|].
    apply stable_refl. }
  pose proof (stable_wf _ _ Hwf H1) as Hwf1.
  set (w2 := set_battles _ w1).
  assert (Hwf2 : wf w2).
  { apply wf_sub_battles; [done|]. intros b Hb.
    by apply list_elem_of_filter in Hb as [_ Hb]. }
  destruct (find_player w2 sid) as [[i l]|] eqn:Hf; [|done].
  eapply stable_wf; [|repeat stable_step; apply stable_refl].
  apply (wf_remove_player w2 sid i l); [done..|].
  intros bl Hbl. unfold w2 in Hbl. simpl in Hbl.
  by apply list_elem_of_filter in Hbl as [Hbl _].
Qed.

Lemma wf_timer_fire h w w' : wf w → timer_fire h w = Some w' → wf w'.
Proof.
  intros Hwf. unfold timer_fire.
  destruct (list_find _ _) as [[? t]|]; [|done].
  case_decide; [|done]. intros [= <-].
  eapply stable_wf; [done|]. apply stable_turn_timeout.
  stable_step. apply stable_refl.
Qed.

Lemma wf_step w e w' : wf w → step w e = Some w' → wf w'.
Proof.
  intros Hwf. destruct e; simpl.
  - intros [= <-]. by apply wf_player_join.
  - intros [= <-]. by apply wf_player_update.
  - intros [= <-]. by apply wf_claim_task.
  - intros [= <-]. by apply wf_battle_challenge.
  - intros [= <-]. by apply wf_battle_accept.
  - destruct (battle_decline _ _ _ _) eqn:Hd; [|done].
    intros [= <-]. by eapply wf_battle_decline.
  - intros [= <-]. by apply wf_battle_attack.
  - intros [= <-]. by apply wf_battle_cancel.
  - intros [= <-]. by apply wf_disconnect.
  - by apply wf_timer_fire.
  - case_decide; [|done]. intros [= <-].
    eapply stable_wf; [done|]. by apply (stable_fields _ w); [..|apply stable_refl].
Qed.

Lemma wf_run evs w w' : wf w → run w evs = Some w' → wf w'.
Proof.
  revert w. induction evs as [|e evs IH]; intros w Hwf; simpl.
  - by intros [= <-].
  - destruct (step w e) as [w1|] eqn:Hstep; [|done].
    apply IH. by eapply wf_step.
Qed.

Lemma reachable_wf w : reachable w → wf w.
Proof. intros [evs Hrun]. eapply wf_run; [apply wf_init|done]. Qed.

(** In a well-formed world the attacker whose turn it is in a listed
    battle is a registered object, and it is the very object the battle
    refers to. *)
Lemma wf_attacker_registered w bl attackerId :
  wf w → bl ∈ battles w → currentPlayer (getB w bl) = attackerId →
  ∃ i p, find_player w attackerId = Some (i, attacker_ref w (getB w bl) attackerId)
         ∧ pheap w !! attacker_ref w (getB w bl) attackerId = Some p.
Proof.
  intros Hwf Hbl Hcur.
  destruct (wf_battles w Hwf bl Hbl) as (_ & H1 & H2 & Hc).
  unfold attacker_ref. case_decide as Hid.
  - destruct (find_player_registered w _ Hwf H1) as [i Hi].
    destruct (wf_alloc w Hwf _ H1) as [p Hp].
    exists i, p. by rewrite Hid.
  - destruct Hc as [Hc|Hc]; [congruence|].
    destruct (find_player_registered w _ Hwf H2) as [i Hi].
    destruct (wf_alloc w Hwf _ H2) as [p Hp].
    exists i, p. by rewrite <- Hcur, Hc.
Qed.

End WfSteps.

(** *** What well-formedness gives for attacks *)

Section WfAttacks.
Implicit Types (w : World) (l : loc) (bl : bloc).

Lemma wf_ids_inj w l1 l2 :
wf w → l1 ∈ players w → l2 ∈ players w →
player_id (deref w l1) = player_id (deref w l2) → l1 = l2.
Proof.
intros Hwf H1 H2 Heq.
destruct (find_player_registered w l1 Hwf H1) as [i Hi].
destruct (find_player_registered w l2 Hwf H2) as [j Hj].
rewrite Heq in Hi. congruence.
Qed.

(** In a battle of two different players the turn goes to the other one. *)
Lemma wf_defender_differs w bl attackerId :
wf w → bl ∈ battles w →
player1 (getB w bl) ≠ player2 (getB w bl) →
currentPlayer (getB w bl) = attackerId →
defender_id bl attackerId w ≠ attackerId.
Proof.
intros Hwf Hbl Hne Hcur.
destruct (wf_battles w Hwf bl Hbl) as (_ & H1 & H2 & Hc).
unfold defender_id, getOpponent. case_decide as Hid.
- intros Heq. apply Hne. apply (wf_ids_inj w); [done..|]. congruence.
- done.
Qed.

(** Right after an accepted attack the same attacker is turned down: the
  battle is over or the turn is the defender's. *)
Lemma repeated_attack_rejected w bl attackerId isSpecial r rtie :
wf w → bl ∈ battles w →
player1 (getB w bl) ≠ player2 (getB w bl) →
attack_accepted bl attackerId isSpecial w →
∀ isSpecial' r' rtie',
  (performAttack bl attackerId isSpecial' r' rtie'
     (performAttack bl attackerId isSpecial r rtie w).1).2 = None.
Proof.
intros Hwf Hbl Hne Hacc isSpecial' r' rtie'.
assert (Hst : status (getB w bl) = active) by apply Hacc.
assert (Hcur : currentPlayer (getB w bl) = attackerId) by apply Hacc.
pose proof (wf_defender_differs w bl attackerId Hwf Hbl Hne Hcur) as Hdef.
rewrite (performAttack_accepted _ _ _ r rtie) by done. simpl.
rewrite performAttack_rejected; [done|].
unfold attack_accepted. rewrite getB_emit, settled_getB by done.
repeat case_decide; simpl; intros (Hs & Hc & _); done.
Qed.

End WfAttacks.

(** ** Who is paid when a battle finishes *)

Section Rewards.
Implicit Types (w : World) (l : loc) (bl : bloc).

Lemma paid_lookup_other attackerId isSpecial w id i l :
  find_player w id = Some (i, l) → id ≠ attackerId →
  pheap (paid attackerId isSpecial w) !! l = pheap w !! l.
Proof.
  intros [_ Hid]%find_player_Some Hne. unfold paid.
  destruct (find_player w attackerId) as [[j la]|] eqn:Hfa; [|done].
  apply find_player_Some in Hfa as [_ Hida].
  unfold update_player. simpl. apply list_lookup_alter_ne. congruence.
Qed.

(** The balance of any registered player after an accepted attack: the
    attacker has paid the cost, and the winner, if the attack ended the
    battle, has received the reward. *)
Lemma settled_resources_of bl attackerId isSpecial r rtie w id i l p :
  status (getB w bl) = active →
  find_player w id = Some (i, l) →
  pheap w !! l = Some p →
  resources (deref (settled bl attackerId isSpecial r rtie w) l)
  = resources p - (if decide (id = attackerId) then attack_cost isSpecial else 0)
    + reward_of (getB (settled bl attackerId isSpecial r rtie w) bl) id.
Proof.
  intros Hb Hf Hp.
  destruct (decide (id = attackerId)) as [->|Hne].
  { by apply (settled_resources _ _ _ _ _ _ i). }
  pose proof (paid_lookup_other attackerId isSpecial w id i l Hf Hne) as Hpaid.
  rewrite Hp in Hpaid.
  assert (Hfin : ∀ W w1 b1,
    bheap w1 !! bl = Some b1 → pheap w1 = pheap (paid attackerId isSpecial w) →
    (∀ id', find_player w1 id' = find_player w id') →
    resources (deref (finishBattle bl W w1) l)
    = resources p + (if decide (W = id) then 50 + turn b1 * 5 else 0)).
  { intros W w1 b1 Hb1 Hph Hfp. destruct (decide (W = id)) as [->|HW].
    - erewrite finishBattle_resources_winner; [|done|by rewrite Hfp|by rewrite Hph].
      done.
    - rewrite finishBattle_resources_other.
      + unfold deref. rewrite Hph, Hpaid. simpl. lia.
      + intros i'. rewrite Hfp. intros [_ Hid']%find_player_Some.
        apply find_player_Some in Hf as [_ Hid]. congruence. }
  rewrite settled_getB by done. unfold settled. cbv zeta.
  destruct (decide (health_left _ _ _ _ _ ≤ 0)).
  - rewrite (Hfin _ _ _ (struck_allocated _ _ _ _ _ Hb) eq_refl
               (struck_find_player _ _ _ _ _)).
    unfold reward_of. simpl. rewrite decide_False by done.
    rewrite decide_False by (intros [_ ?]; congruence). lia.
  - rewrite advanced_getB by done.
    set (b2 := advanced_battle _ _ _ _).
    change (turn b2) with (turn (getB w bl) + 1).
    destruct (decide (MAX_TURNS ≤ _)).
    + rewrite (Hfin _ _ _ (advanced_allocated _ _ _ _ _ Hb) eq_refl
                 (advanced_find_player _ _ _ _ _)).
      fold b2. set (W := getWinnerByHealth _ _ _).
      unfold reward_of. simpl.
      destruct (decide (W = id)) as [->|HW].
      * rewrite decide_True by done. lia.
      * rewrite decide_False by (intros [_ ?]; congruence). lia.
    + unfold reward_of. rewrite decide_False.
      * unfold deref. change (pheap (advanced bl attackerId isSpecial r w))
          with (pheap (paid attackerId isSpecial w)).
        rewrite Hpaid. simpl. lia.
      * unfold b2. simpl. rewrite Hb. by intros [? _].
Qed.

(** The battle record after the turn timer fired on an active battle. *)
Definition timed_out_battle (w : World) (b : Battle) : Battle :=
  let newHealth := Z.max 0 (getHealth b (currentPlayer b) - 5) in
  let ended := bool_decide (newHealth ≤ 0) in
  let opponent := getOpponent w b (currentPlayer b) in
  set_actions
    (actions b ++ [TimeoutAction (currentPlayer b) 5 (turn b) (now w) ended
                     (if ended then Some (player_name (deref w opponent)) else None)])
    (set_health (<[currentPlayer b := newHealth]> (health b)) b).

Lemma turn_timeout_getB bl w :
  status (getB w bl) = active →
  let b := getB w bl in
  let b1 := timed_out_battle w b in
  let oppId := player_id (deref w (getOpponent w b (currentPlayer b))) in
  getB (turn_timeout bl w) bl
  = if decide (Z.max 0 (getHealth b (currentPlayer b) - 5) ≤ 0)
    then set_winner (Some oppId) (set_status finished b1)
    else set_turnTimer (Some (nextHandle w))
           (set_turn (turn b + 1) (set_currentPlayer oppId b1)).
Proof.
  intros Hst b b1 oppId. pose proof (active_allocated w bl Hst) as Hb.
  unfold turn_timeout. rewrite decide_True by done. cbv zeta.
  unfold broadcastBattleUpdate, battle_players. cbn [foldl]. rewrite !getB_emit.
  fold b.
  set (w1 := update_battle bl _ w).
  assert (Hb1 : bheap w1 !! bl = Some b1).
  { unfold w1. rewrite lookup_update_battle, Hb. done. }
  destruct (decide (Z.max 0 (getHealth b (currentPlayer b) - 5) ≤ 0)).
  - rewrite bool_decide_eq_true_2 by done.
    by rewrite (finishBattle_getB _ _ _ b1).
  - rewrite bool_decide_eq_false_2 by done.
    set (w2 := update_battle bl _ w1).
    assert (Hb2 : bheap w2 !! bl
                  = Some (set_turn (turn b + 1) (set_currentPlayer oppId b1))).
    { unfold w2. rewrite lookup_update_battle, Hb1. done. }
    by rewrite (startTurnTimer_getB _ _ _ Hb2).
Qed.

(** A timeout pays the reward to the winner if it ends the battle, and
    nothing to anybody otherwise. *)
Lemma turn_timeout_resources bl w id i l p :
  status (getB w bl) = active →
  find_player w id = Some (i, l) →
  pheap w !! l = Some p →
  resources (deref (turn_timeout bl w) l)
  = resources p + reward_of (getB (turn_timeout bl w) bl) id.
Proof.
  intros Hst Hf Hp. pose proof (active_allocated w bl Hst) as Hb.
  rewrite turn_timeout_getB by done.
  unfold turn_timeout. rewrite decide_True by done. cbv zeta.
  unfold broadcastBattleUpdate, battle_players. cbn [foldl]. rewrite !deref_emit.
  set (b := getB w bl). set (b1 := timed_out_battle w b).
  set (oppId := player_id (deref w (getOpponent w b (currentPlayer b)))).
  set (w1 := update_battle bl _ w).
  assert (Hb1 : bheap w1 !! bl = Some b1).
  { unfold w1. rewrite lookup_update_battle, Hb. done. }
  destruct (decide (Z.max 0 (getHealth b (currentPlayer b) - 5) ≤ 0)).
  - rewrite bool_decide_eq_true_2 by done.
    change (player_id (deref w1 (getOpponent w b (currentPlayer b)))) with oppId.
    unfold reward_of. simpl.
    destruct (decide (oppId = id)) as [Heq|Hne].
    + rewrite decide_True by (by rewrite Heq).
      erewrite finishBattle_resources_winner; [|done|by rewrite Heq|done]. done.
    + rewrite decide_False by (intros [_ ?]; congruence).
      rewrite finishBattle_resources_other.
      * unfold deref. change (pheap w1) with (pheap w). rewrite Hp. simpl. lia.
      * intros i'. change (find_player w1 oppId) with (find_player w oppId).
        intros [_ Hid']%find_player_Some.
        apply find_player_Some in Hf as [_ Hid]. congruence.
  - rewrite bool_decide_eq_false_2 by done.
    unfold reward_of. simpl. change (status b) with (status (getB w bl)).
    rewrite Hst, decide_False by (by intros [? _]).
    unfold startTurnTimer, setTimeout.
    destruct (turnTimer _); unfold deref; simpl; rewrite Hp; simpl; lia.
Qed.

End Rewards.

(** *** The winner is a participant *)

Section Winners.
Implicit Types (w : World) (l : loc) (bl : bloc).

Definition participant_id (w : World) (b : Battle) (id : string) : Prop :=
  id = player_id (deref w (player1 b)) ∨ id = player_id (deref w (player2 b)).

Lemma getWinnerByHealth_participant w b rtie :
  participant_id w b (getWinnerByHealth w b rtie).
Proof.
  unfold getWinnerByHealth, participant_id.
  repeat case_decide; auto. destruct (Qlt_le_dec _ _); auto.
Qed.

Lemma attack_winner_participant bl attackerId isSpecial r rtie w id :
  cur_ok w (getB w bl) →
  status (getB w bl) = active →
  let w' := (performAttack bl attackerId isSpecial r rtie w).1 in
  status (getB w' bl) = finished →
  winner (getB w' bl) = Some id →
  participant_id w (getB w bl) id.
Proof.
  intros Hcur Hst w'. subst w'.
  destruct (decide (attack_accepted bl attackerId isSpecial w)) as [Hacc|Hno].
  - rewrite performAttack_accepted by done. simpl. rewrite getB_emit.
    rewrite settled_getB by done.
    destruct (decide (health_left _ _ _ _ _ ≤ 0)).
    + simpl. intros _ [= <-]. destruct Hacc as (_ & <- & _). exact Hcur.
    + destruct (decide (MAX_TURNS ≤ _)).
      * simpl. intros _ [= <-].
        pose proof (stable_advanced bl attackerId isSpecial r w) as Hs.
        pose proof (getWinnerByHealth_participant
                      (advanced bl attackerId isSpecial r w)
                      (advanced_battle bl attackerId w
                         (struck_battle bl attackerId isSpecial r w (getB w bl)))
                      rtie) as Hw.
        unfold participant_id in *. simpl in Hw.
        by rewrite !(st_id _ _ Hs) in Hw.
      * simpl. rewrite Hst. done.
  - rewrite performAttack_rejected by done. simpl. rewrite Hst. done.
Qed.

Lemma timeout_winner_participant bl w id :
  status (getB w bl) = active →
  status (getB (turn_timeout bl w) bl) = finished →
  winner (getB (turn_timeout bl w) bl) = Some id →
  participant_id w (getB w bl) id.
Proof.
  intros Hst. rewrite turn_timeout_getB by done.
  destruct (decide (_ ≤ 0)); simpl.
  - intros _ [= <-]. unfold participant_id.
    destruct (getOpponent_cases w (getB w bl) (currentPlayer (getB w bl)))
      as [-> | ->]; auto.
  - rewrite Hst. done.
Qed.

End Winners.

(** ** Who frees the players *)

Section Release.
Implicit Types (w : World) (l : loc) (bl : bloc).

(** Attacks and timeouts write only the [resources] of players. *)
Lemma settled_proj {A} (g : Player → A) bl attackerId isSpecial r rtie w l :
  (∀ v p, g (set_resources v p) = g p) →
  g (deref (settled bl attackerId isSpecial r rtie w) l) = g (deref w l).
Proof.
  intros Hg. unfold settled. cbv zeta.
  repeat case_decide; rewrite ?(finishBattle_proj g) by done;
    by apply (paid_proj g).
Qed.

Lemma performAttack_proj {A} (g : Player → A) bl attackerId isSpecial r rtie w l :
  (∀ v p, g (set_resources v p) = g p) →
  g (deref (performAttack bl attackerId isSpecial r rtie w).1 l) = g (deref w l).
Proof.
  intros Hg. destruct (decide (attack_accepted bl attackerId isSpecial w)).
  - rewrite performAttack_accepted by done. simpl. rewrite deref_emit.
    by apply settled_proj.
  - by rewrite performAttack_rejected.
Qed.

Lemma turn_timeout_proj {A} (g : Player → A) bl w l :
  (∀ v p, g (set_resources v p) = g p) →
  g (deref (turn_timeout bl w) l) = g (deref w l).
Proof.
  intros Hg. unfold turn_timeout. case_decide; [|done]. cbv zeta.
  unfold broadcastBattleUpdate, battle_players. cbn [foldl]. rewrite !deref_emit.
  destruct (bool_decide _).
  - by rewrite (finishBattle_proj g).
  - unfold startTurnTimer, setTimeout. by destruct (turnTimer _).
Qed.

(** The [battle-attack] handler and a firing timer, whether or not they
    finish a battle, leave [battles] and every player's [inBattle] and
    [battleId] as they were. *)
Lemma battle_attack_frees_nobody sid battleId0 isSpecial r rtie w :
  let w' := battle_attack sid battleId0 isSpecial r rtie w in
  battles w' = battles w
  ∧ ∀ l, inBattle (deref w' l) = inBattle (deref w l)
         ∧ battleId (deref w' l) = battleId (deref w l).
Proof.
  intros w'. subst w'. unfold battle_attack.
  destruct (find_player w sid) as [[? pl]|]; [|done].
  destruct (find_battle w battleId0) as [[? bl]|]; [|done].
  destruct (negb _); [done|]. case_decide; [done|].
  pose proof (stable_performAttack bl (player_id (deref w pl)) isSpecial r rtie w) as Hs.
  pose proof (λ l, performAttack_proj inBattle bl (player_id (deref w pl))
                     isSpecial r rtie w l (λ _ _, eq_refl)) as Hflag.
  pose proof (λ l, performAttack_proj battleId bl (player_id (deref w pl))
                     isSpecial r rtie w l (λ _ _, eq_refl)) as Hbid.
  destruct (performAttack _ _ _ _ _ _) as [w1 [a|]]; simpl in *.
  - unfold broadcastBattleUpdate, battle_players. cbn [foldl].
    destruct isSpecial; simpl; (split; [apply Hs|]); intros l;
      split; [apply Hflag|apply Hbid|apply Hflag|apply Hbid].
  - split; [apply Hs|]. intros l. split; [apply Hflag|apply Hbid].
Qed.

Lemma timer_fire_frees_nobody h w w' :
  timer_fire h w = Some w' →
  battles w' = battles w
  ∧ ∀ l, inBattle (deref w' l) = inBattle (deref w l)
         ∧ battleId (deref w' l) = battleId (deref w l).
Proof.
  unfold timer_fire. destruct (list_find _ _) as [[? t]|]; [|done].
  case_decide; [|done]. intros [= <-]. split.
  - apply (st_battles _ _ (stable_turn_timeout (timer_battle t) _ _
                             (stable_clearTimeout h _ _ (stable_refl w)))).
  - intros l. split.
    + by rewrite (turn_timeout_proj inBattle).
    + by rewrite (turn_timeout_proj battleId).
Qed.

End Release.

(** * Main results *)

Module Worlds.

(** The worlds the scenarios end in. *)
Definition joined : World :=
  Eval vm_compute in
    default init
      (run init [EvJoin "sA" Scenario.cat 0 0; EvJoin "sB" Scenario.dog 0 0]).
Definition started : World :=
  Eval vm_compute in default init (run init Scenario.started).
Definition won : World :=
  Eval vm_compute in default init (run init Scenario.won).

End Worlds.

Lemma reachable_started : reachable Worlds.started.
Proof. exists Scenario.started. vm_compute. reflexivity. Defined.

(** C1 (the code departs from it).  A battle that has finished is still
    found by [battle-cancel], and [cancelBattle] sets its status to
    [cancelled]: the battle won by [sA] leaves the terminal state [finished]
    for [cancelled], its winner still set, and both participants are told
    so. *)
Theorem cancel_overwrites_finished :
  ∃ w, run init Scenario.won = Some w
    ∧ status (getB w 0%nat) = finished
    ∧ winner (getB w 0%nat) = Some "sA"
    ∧ let w' := battle_cancel "sB" "battle_1" None w in
      status (getB w' 0%nat) = cancelled
      ∧ winner (getB w' 0%nat) = Some "sA"
      ∧ battle_update "sA" (getBattleData w' (getB w' 0%nat)) ∈ emitted w'
      ∧ battle_update "sB" (getBattleData w' (getB w' 0%nat)) ∈ emitted w'.
Proof.
  eexists. split; [vm_compute; reflexivity|].
  split; [reflexivity|]. split; [reflexivity|].
  split; [vm_compute; reflexivity|]. split; [vm_compute; reflexivity|].
  split; vm_compute; find_emit.
Qed.

(** C2 (the code departs from it).  [finishBattle] neither removes the
    battle from [battles] nor frees its players, which only the
    [battle-cancel] and [disconnect] handlers do.  After the win of [sA] the
    finished battle is still listed, both players are still flagged with its
    id, no timer is left that could change this, and a challenge of [sA]
    accepted by a third player is turned down because [sA] is "in a
    battle".  A [battle-cancel] sent for the same battle does the cleanup. *)
Theorem finished_battle_stays_listed :
  ∃ w, run init Scenario.won = Some w
    ∧ status (getB w 0%nat) = finished
    ∧ battles w = [0%nat]
    ∧ inBattle <$> snapshot w = [true; true]
    ∧ battleId <$> snapshot w = [Some "battle_1"; Some "battle_1"]
    ∧ timers w = []
    ∧ (let w1 := player_join "sC" Scenario.dog 0 0 w in
       let w2 := battle_accept "sC" "sA" "battle_2" w1 in
       battles w2 = [0%nat]
       ∧ last (emitted w2) = Some (battle_error "sC" "Один из игроков уже в баттле"))
    ∧ (let w3 := battle_cancel "sA" "battle_1" None w in
       battles w3 = [] ∧ inBattle <$> snapshot w3 = [false; false]
       ∧ battleId <$> snapshot w3 = [None; None]).
Proof.
  eexists. split; [vm_compute; reflexivity|].
  repeat split; vm_compute; reflexivity.
Qed.

(** C3 (the code departs from it).  [startTurnTimer] is called on battle
    start and by the timer callback, but not by [performAttack] nor by the
    [battle-attack] handler.  The battle starts at time 0 with a timer due at
    30000; [sA] attacks at 20000 and the turn passes to [sB]; the pending
    timer is still the one due at 30000 and no new one was armed; it fires
    10 seconds into the turn of [sB], who takes the 5 damage of a skipped
    turn, and only then a timer for the next 30 seconds is armed. *)
Theorem attack_does_not_rearm_timer :
  ∃ w, run init (Scenario.started ++ [EvWait 20000]) = Some w
    ∧ timers w = [mkTimer 0 0 30000]
    ∧ now w = 20000
    ∧ let w' := battle_attack "sA" "battle_1" false (1 # 2) 0 w in
      status (getB w' 0%nat) = active
      ∧ turn (getB w' 0%nat) = 1
      ∧ currentPlayer (getB w' 0%nat) = "sB"
      ∧ getHealth (getB w' 0%nat) "sB" = 90
      ∧ timers w' = [mkTimer 0 0 30000]
      ∧ nextHandle w' = nextHandle w
      ∧ ∃ w'', run w' [EvWait 10000; EvTimer 0] = Some w''
          ∧ now w'' = 30000
          ∧ getHealth (getB w'' 0%nat) "sB" = 85
          ∧ turn (getB w'' 0%nat) = 2
          ∧ timers w'' = [mkTimer 1 0 60000].
Proof.
  eexists. split; [vm_compute; reflexivity|].
  do 2 (split; [reflexivity|]). cbv zeta.
  do 6 (split; [vm_compute; reflexivity|]).
  eexists. split; [vm_compute; reflexivity|].
  repeat split; vm_compute; reflexivity.
Qed.

(** C4, as the code has it.  At acceptance time [battle-accept] tests that
    both players are registered, that neither is flagged as in a battle, and
    that the acceptor, the sender of the event, has at least [ATTACK_COST]
    resources; the challenger's balance is not looked at again.  If a test
    fails the only effect is one [battle-error] sent to the sender.  If none
    fails and the two are different players, the battle is created: it is
    appended to [battles], active, at turn 0, the challenger to move, both at
    full health, and its turn timer is armed. *)
Theorem accept_revalidates (sid challengerId newId : string) (w : World) :
  let w' := battle_accept sid challengerId newId w in
  (accept_rejected sid challengerId w →
     ∃ message, w' = emit (battle_error sid message) w)
  ∧ (¬ accept_rejected sid challengerId w → sid ≠ challengerId →
     ∃ i acceptor j challenger,
       find_player w sid = Some (i, acceptor)
       ∧ find_player w challengerId = Some (j, challenger)
       ∧ ATTACK_COST ≤ resources (deref w acceptor)
       ∧ let bl := length (bheap w) in
         let b := getB w' bl in
         battles w' = battles w ++ [bl]
         ∧ battle_id b = newId
         ∧ player1 b = challenger ∧ player2 b = acceptor
         ∧ status b = active ∧ turn b = 0 ∧ currentPlayer b = challengerId
         ∧ getHealth b challengerId = MAX_HEALTH ∧ getHealth b sid = MAX_HEALTH
         ∧ turnTimer b = Some (nextHandle w)
         ∧ timers w' = timers w ++ [mkTimer (nextHandle w) bl (now w + TURN_TIME)]).
Proof.
  intros w'. subst w'. unfold accept_rejected, battle_accept. split.
  - destruct (find_player w sid) as [[i a]|]; [|by eexists].
    destruct (find_player w challengerId) as [[j c]|]; [|by eexists].
    intros [Ha|[Hc|Hres]].
    + rewrite Ha. by eexists.
    + rewrite Hc, orb_true_r. by eexists.
    + destruct (inBattle (deref w a) || inBattle (deref w c)); [by eexists|].
      rewrite decide_True by done. by eexists.
  - destruct (find_player w sid) as [[i a]|] eqn:Hfa; [|tauto].
    destruct (find_player w challengerId) as [[j c]|] eqn:Hfc; [|tauto].
    intros Hno Hne. exists i, a, j, c.
    assert (Ha : inBattle (deref w a) = false)
      by (destruct (inBattle (deref w a)); tauto).
    assert (Hc : inBattle (deref w c) = false)
      by (destruct (inBattle (deref w c)); tauto).
    assert (Hres : ATTACK_COST ≤ resources (deref w a)).
    { destruct (decide (ATTACK_COST ≤ resources (deref w a))); [done|].
      exfalso. apply Hno. right. right. lia. }
    rewrite Ha, Hc. simpl. rewrite decide_False by lia.
    do 3 (split; [done|]). cbv zeta.
    set (battle := new_Battle newId c a w).
    match goal with
    | |- context [startTurnTimer _ ?w0] => set (w5 := w0)
    end.
    assert (Hb : bheap w5 !! length (bheap w) = Some battle).
    { unfold w5. simpl. by rewrite lookup_app_r, Nat.sub_diag. }
    rewrite getB_emit, (startTurnTimer_getB _ _ _ Hb).
    apply find_player_Some in Hfa as [_ Hida].
    apply find_player_Some in Hfc as [_ Hidc].
    split_and!; try done.
    + change (battles (emit ?e ?w0)) with (battles w0).
      by rewrite startTurnTimer_battles.
    + unfold getHealth. simpl. rewrite Hidc, Hida.
      by rewrite lookup_insert_ne, lookup_insert_eq.
    + unfold getHealth. simpl. rewrite Hida. by rewrite lookup_insert_eq.
    + change (timers (emit ?e ?w0)) with (timers w0).
      rewrite startTurnTimer_timers. unfold getB. by rewrite Hb.
Qed.

(** Witness of C4: [sB] accepts the challenge of [sA], both free and with
    100 resources. *)
Lemma accept_revalidates_witness :
  ¬ accept_rejected "sB" "sA" Worlds.joined
  ∧ "sB" ≠ "sA"
  ∧ battles (battle_accept "sB" "sA" "battle_1" Worlds.joined) = [0%nat].
Proof.
  assert (Hno : ¬ accept_rejected "sB" "sA" Worlds.joined).
  { vm_compute. intros [H|[H|H]]; discriminate. }
  assert (Hne : "sB" ≠ "sA") by discriminate.
  split; [exact Hno|]. split; [exact Hne|].
  destruct (accept_revalidates "sB" "sA" "battle_1" Worlds.joined) as [_ Hcreate].
  destruct (Hcreate Hno Hne) as (i & a & j & c & _ & _ & _ & Hb & _).
  exact Hb.
Defined.

(** C4, as stated, fails: the challenger joined without resources, the
    acceptor has 100; the acceptance goes through and battle 0 starts. *)
Lemma accept_ignores_challenger_balance :
  ∃ w, run init [EvJoin "sA" Scenario.poorCat 0 0; EvJoin "sB" Scenario.dog 0 0]
       = Some w
    ∧ resources <$> snapshot w = [0; 100]
    ∧ (inBattle <$> snapshot w) = [false; false]
    ∧ battles w = []
    ∧ let w' := battle_accept "sB" "sA" "battle_1" w in
      battles w' = [0%nat]
      ∧ status (getB w' 0%nat) = active
      ∧ currentPlayer (getB w' 0%nat) = "sA"
      ∧ resources (deref w' (player1 (getB w' 0%nat))) = 0
      ∧ ¬ ∃ message, w' = emit (battle_error "sB" message) w.
Proof.
  eexists. split; [vm_compute; reflexivity|].
  do 3 (split; [reflexivity|]). cbv zeta.
  do 4 (split; [vm_compute; reflexivity|]).
  intros [message Heq]. apply (f_equal battles) in Heq. vm_compute in Heq. done.
Qed.

(** C5, as the code has it.  For every accepted [performAttack] on a listed
    battle of a reachable world, with a draw in [0, 1) and an attacker whose
    click power is at most [2^52] and leaves the base damage plus the click
    bonus [d = base + floor(clickPower * 0.1)] not negative (a click power
    of at least -100, of at least -250 for a special attack): the cost is 10
    (25 for a special attack) and is deducted from the attacker; the damage
    is [d] plus an offset [j] with [-v <= j <= v], where
    [v = floor(0.2 * d)]; the defender's health becomes
    [max 0 (health - damage)]; and the [2 v + 1] offsets share the draws
    equally up to the rounding of the product [Math.random() * (2 v + 1)]:
    the offset is [j'] for every draw from [(j' + v) / (2 v + 1)] to
    [(j' + v + 1) / (2 v + 1) - 2^-52], and for no draw below
    [(j' + v) / (2 v + 1) - 2^-52] or from [(j' + v + 1) / (2 v + 1)] on.
    The code stores the click power a client sends as it comes (lines 416,
    427 and 477), so that neither bound is ensured by the server. *)
Theorem attack_cost_and_damage (bl : bloc) (attackerId : string) (isSpecial : bool)
    (r rtie : Q) (w : World) :
  reachable w → bl ∈ battles w →
  attack_accepted bl attackerId isSpecial w →
  valid_draw r →
  let b := getB w bl in
  let attacker := attacker_ref w b attackerId in
  let cost := if isSpecial then 25 else 10 in
  let d := (if isSpecial then 25 else 10) + clickPower (deref w attacker) / 10 in
  let v := d / 5 in
  let defenderId := player_id (deref w (getOpponent w b attackerId)) in
  0 ≤ d → clickPower (deref w attacker) ≤ 2 ^ 52 →
  (∃ w' a j,
     performAttack bl attackerId isSpecial r rtie w = (w', Some a)
     ∧ action_cost a = Some cost
     ∧ resources (deref w' attacker)
       = resources (deref w attacker) - cost + reward_of (getB w' bl) attackerId
     ∧ - v ≤ j ≤ v
     ∧ action_damage a = Some (d + j)
     ∧ getHealth (getB w' bl) defenderId = Z.max 0 (getHealth b defenderId - (d + j)))
  ∧ (∀ (r' : Q) (j' : Z),
       valid_draw r' →
       let lo := (inject_Z (j' + v) / inject_Z (2 * v + 1))%Q in
       let hi := (inject_Z (j' + v + 1) / inject_Z (2 * v + 1))%Q in
       let damage := (performAttack bl attackerId isSpecial r' rtie w).2 ≫= action_damage in
       ((lo <= r')%Q ∧ (r' <= hi - (1 # 2 ^ 52))%Q → damage = Some (d + j'))
       ∧ (damage = Some (d + j') → (lo - (1 # 2 ^ 52) <= r')%Q ∧ (r' < hi)%Q)).
Proof.
  intros Hreach Hbl Hacc [Hr0 Hr1] b attacker.
  destruct (wf_attacker_registered w bl attackerId (reachable_wf w Hreach) Hbl)
    as (i & p & Hf & Hp); [apply Hacc|].
  assert (Hderef : deref w attacker = p) by (unfold deref, attacker, b; by rewrite Hp).
  rewrite Hderef. intros cost d v defenderId Hd _.
  destruct (attack_spec bl attackerId isSpecial r rtie w i p Hr0 Hr1 Hacc Hf Hp Hd)
    as [Hfirst Hdraws].
  split; [exact Hfirst|].
  intros r' j' _. exact (Hdraws r' j').
Qed.

(** Witness of C5: the first attack of the started battle, the draw in the
    middle of [0, 1). *)
Lemma attack_cost_and_damage_witness :
  reachable Worlds.started
  ∧ 0%nat ∈ battles Worlds.started
  ∧ attack_accepted 0 "sA" false Worlds.started
  ∧ valid_draw (1 # 2)
  ∧ 0 ≤ 10 + clickPower (deref Worlds.started 0) / 10
  ∧ clickPower (deref Worlds.started 0) ≤ 2 ^ 52
  ∧ ∃ w' a j,
      performAttack 0 "sA" false (1 # 2) 0 Worlds.started = (w', Some a)
      ∧ action_cost a = Some 10
      ∧ -2 ≤ j ≤ 2
      ∧ action_damage a = Some (10 + j).
Proof.
  assert (Hin : 0%nat ∈ battles Worlds.started) by (vm_compute; left).
  assert (Hacc : attack_accepted 0 "sA" false Worlds.started).
  { split_and!; vm_compute; [reflexivity|reflexivity|discriminate]. }
  assert (Hr : valid_draw (1 # 2)) by (split; vm_compute; [discriminate|reflexivity]).
  assert (Hd : 0 ≤ 10 + clickPower (deref Worlds.started 0) / 10)
    by (vm_compute; discriminate).
  assert (Hcp : clickPower (deref Worlds.started 0) ≤ 2 ^ 52)
    by (vm_compute; discriminate).
  split; [exact reachable_started|]. split; [exact Hin|]. split; [exact Hacc|].
  split; [exact Hr|]. split; [exact Hd|]. split; [exact Hcp|].
  destruct (attack_cost_and_damage 0 "sA" false (1 # 2) 0 Worlds.started
              reachable_started Hin Hacc Hr Hd Hcp)
    as [(w' & a & j & H1 & H2 & _ & H4 & H5 & _) _].
  exists w', a, j. split; [exact H1|]. split; [exact H2|].
  split; [exact H4|exact H5].
Defined.

(** C5, as stated, fails: [sA] joined with the click power -2005 and opens
    the battle with a normal attack, the draw in the middle of [0, 1).  The
    attack is accepted and costs 10; the base plus the click bonus is
    [10 + floor(-200.5) = -191] and [v = floor(-38.2) = -39], so that no
    offset lies in [-v .. v]; the damage is -191 and the defender's health
    goes from 100 to 291. *)
Lemma negative_click_power_damage :
  ∃ w, run init Scenario.negative = Some w
    ∧ 0%nat ∈ battles w
    ∧ attack_accepted 0 "sA" false w
    ∧ valid_draw (1 # 2)
    ∧ clickPower (deref w (attacker_ref w (getB w 0%nat) "sA")) = -2005
    ∧ let d := 10 + -2005 / 10 in
      let v := d / 5 in
      d = -191 ∧ v = -39
      ∧ ∃ w' a,
          performAttack 0 "sA" false (1 # 2) 0 w = (w', Some a)
          ∧ action_cost a = Some 10
          ∧ action_damage a = Some (-191)
          ∧ getHealth (getB w 0%nat) "sB" = 100
          ∧ getHealth (getB w' 0%nat) "sB" = 291
          ∧ ¬ ∃ j, - v ≤ j ≤ v ∧ action_damage a = Some (d + j).
Proof.
  eexists. split; [vm_compute; reflexivity|].
  split; [vm_compute; left|].
  split; [split_and!; vm_compute; [reflexivity|reflexivity|discriminate]|].
  split; [split; vm_compute; [discriminate|reflexivity]|].
  split; [vm_compute; reflexivity|]. cbv zeta.
  split; [reflexivity|]. split; [reflexivity|].
  eexists _, _. split; [vm_compute; reflexivity|].
  do 4 (split; [vm_compute; reflexivity|]).
  intros (j & Hj & _).
  assert (Hv : (10 + -2005 / 10) / 5 = -39) by reflexivity.
  rewrite Hv in Hj. lia.
Qed.

(** C6.  On a listed battle of a reachable world [performAttack] returns
    its failure value exactly when the battle is not active, or it is not
    the attacker's turn, or the attacker's balance is below the cost of the
    attack; a rejected call changes nothing at all; an accepted call appends
    one action that carries the cost, takes the cost from the attacker's
    balance once (and adds the winner's reward when this very attack wins
    the battle), and, in a battle of two different players, leaves a state
    in which the next call of the same attacker is rejected. *)
Theorem performAttack_rejects_exactly (bl : bloc) (attackerId : string)
    (isSpecial : bool) (r rtie : Q) (w : World) :
  reachable w → bl ∈ battles w →
  let b := getB w bl in
  let attacker := attacker_ref w b attackerId in
  let w' := (performAttack bl attackerId isSpecial r rtie w).1 in
  let result := (performAttack bl attackerId isSpecial r rtie w).2 in
  (result = None ↔
     status b ≠ active ∨ currentPlayer b ≠ attackerId
     ∨ resources (deref w attacker) < attack_cost isSpecial)
  ∧ (result = None → w' = w)
  ∧ (∀ a, result = Some a →
       action_cost a = Some (attack_cost isSpecial)
       ∧ actions (getB w' bl) = actions b ++ [a]
       ∧ resources (deref w' attacker)
         = resources (deref w attacker) - attack_cost isSpecial
           + reward_of (getB w' bl) attackerId
       ∧ (player1 b ≠ player2 b →
          ∀ isSpecial' r' rtie',
            (performAttack bl attackerId isSpecial' r' rtie' w').2 = None)).
Proof.
  intros Hreach Hbl b attacker w' result.
  pose proof (reachable_wf w Hreach) as Hwf.
  destruct (performAttack_spec bl attackerId isSpecial r rtie w) as (Hiff & Hsame & Hacc).
  split; [exact Hiff|]. split; [exact Hsame|].
  intros a Ha. destruct (Hacc a Ha) as (Hcost & Hlog & Hres).
  assert (Haccepted : attack_accepted bl attackerId isSpecial w).
  { destruct (decide (attack_accepted bl attackerId isSpecial w)); [done|].
    unfold result in Ha. by rewrite performAttack_rejected in Ha. }
  destruct (wf_attacker_registered w bl attackerId Hwf Hbl) as (i & p & Hf & Hp);
    [apply Haccepted|].
  assert (Hderef : deref w attacker = p) by (unfold deref, attacker, b; by rewrite Hp).
  split; [exact Hcost|]. split; [exact Hlog|]. split.
  - rewrite Hderef. by apply (Hres i p).
  - intros Hne isSpecial' r' rtie'. by apply repeated_attack_rejected.
Qed.

(** Witness of C6: in the started battle it is the turn of [sA]; an attack
    of [sB] is rejected and changes nothing. *)
Lemma performAttack_rejects_exactly_witness :
  reachable Worlds.started
  ∧ 0%nat ∈ battles Worlds.started
  ∧ (performAttack 0 "sB" false (1 # 2) 0 Worlds.started).2 = None
  ∧ (performAttack 0 "sB" false (1 # 2) 0 Worlds.started).1 = Worlds.started.
Proof.
  assert (Hin : 0%nat ∈ battles Worlds.started) by (vm_compute; left).
  split; [exact reachable_started|]. split; [exact Hin|].
  destruct (performAttack_rejects_exactly 0 "sB" false (1 # 2) 0 Worlds.started
              reachable_started Hin) as (Hiff & Hsame & _).
  assert (Hnone : (performAttack 0 "sB" false (1 # 2) 0 Worlds.started).2 = None).
  { apply Hiff. right. left. vm_compute. discriminate. }
  split; [exact Hnone|exact (Hsame Hnone)].
Defined.

(** C7.  On a listed battle of a reachable world and for either participant
    [l] with [id] its id:  [finishBattle] with [id] as winner marks the
    battle finished with that winner and adds [50 + 5 * turn] to the
    balance of [l], [turn] being the counter at that moment.  Whenever an
    attack (by health depletion or by the turn limit) or a timeout finishes
    the battle, the winner is a participant, and if it is [l] its balance
    has grown by [50 + 5 * turn], less the cost of the attack if [l] is the
    attacker.  In particular an accepted attack that takes the defender's
    health to 0 finishes the battle with the attacker as winner and credits
    this reward. *)
Theorem finish_reward (bl : bloc) (l : loc) (w : World) :
  reachable w → bl ∈ battles w → l ∈ battle_players (getB w bl) →
  let b := getB w bl in
  let id := player_id (deref w l) in
  (let w' := finishBattle bl id w in
   status (getB w' bl) = finished
   ∧ winner (getB w' bl) = Some id
   ∧ turn (getB w' bl) = turn b
   ∧ resources (deref w' l) = resources (deref w l) + (50 + 5 * turn b))
  ∧ (∀ (attackerId : string) (isSpecial : bool) (r rtie : Q),
       let w' := (performAttack bl attackerId isSpecial r rtie w).1 in
       status b = active → status (getB w' bl) = finished →
       (∃ l', l' ∈ battle_players b
              ∧ winner (getB w' bl) = Some (player_id (deref w l')))
       ∧ (winner (getB w' bl) = Some id →
          resources (deref w' l)
          = resources (deref w l)
            - (if decide (id = attackerId) then attack_cost isSpecial else 0)
            + (50 + 5 * turn (getB w' bl))))
  ∧ (let w' := turn_timeout bl w in
     status b = active → status (getB w' bl) = finished →
     (∃ l', l' ∈ battle_players b
            ∧ winner (getB w' bl) = Some (player_id (deref w l')))
     ∧ (winner (getB w' bl) = Some id →
        resources (deref w' l) = resources (deref w l) + (50 + 5 * turn (getB w' bl))))
  ∧ (∀ (isSpecial : bool) (r rtie : Q),
       attack_accepted bl id isSpecial w →
       health_left bl id isSpecial r w = 0 →
       let w' := (performAttack bl id isSpecial r rtie w).1 in
       status (getB w' bl) = finished
       ∧ winner (getB w' bl) = Some id
       ∧ turn (getB w' bl) = turn b
       ∧ getHealth (getB w' bl) (defender_id bl id w) = 0
       ∧ resources (deref w' l)
         = resources (deref w l) - attack_cost isSpecial + (50 + 5 * turn b)).
Proof.
  intros Hreach Hbl Hl b id.
  pose proof (reachable_wf w Hreach) as Hwf.
  destruct (wf_battles w Hwf bl Hbl) as ([b0 Hb0] & H1 & H2 & Hcur).
  assert (Hb : bheap w !! bl = Some b) by (unfold b, getB; by rewrite Hb0).
  assert (Hreg : l ∈ players w).
  { unfold battle_players in Hl.
    apply elem_of_cons in Hl as [->|Hl]; [done|].
    by apply list_elem_of_singleton in Hl as ->. }
  destruct (find_player_registered w l Hwf Hreg) as [i Hf].
  destruct (wf_alloc w Hwf l Hreg) as [p Hp].
  assert (Hderef : deref w l = p) by (unfold deref; by rewrite Hp).
  assert (Hpart : ∀ W, participant_id w b W →
            ∃ l', l' ∈ battle_players b ∧ Some W = Some (player_id (deref w l'))).
  { intros W [-> | ->]; eexists; (split; [|reflexivity]); unfold battle_players.
    - apply list_elem_of_here.
    - apply list_elem_of_further, list_elem_of_here. }
  destruct (finish_spec bl w b id i l p Hb Hf Hp) as [Hfin Hzero].
  rewrite Hderef. split; [exact Hfin|]. split; [|split; [|exact Hzero]].
  - intros attackerId isSpecial r rtie w' Hst Hdone. split.
    + destruct (winner (getB w' bl)) as [W|] eqn:HW.
      * apply Hpart.
        exact (attack_winner_participant bl attackerId isSpecial r rtie w W
                 Hcur Hst Hdone HW).
      * exfalso. revert Hdone HW. unfold w'.
        destruct (decide (attack_accepted bl attackerId isSpecial w)).
        -- rewrite performAttack_accepted by done. simpl. rewrite getB_emit.
           rewrite settled_getB by done. repeat case_decide; simpl; try done.
           fold b. by rewrite Hst.
        -- rewrite performAttack_rejected by done. simpl. fold b. by rewrite Hst.
    + intros HW. revert Hdone HW. unfold w'.
      destruct (decide (attack_accepted bl attackerId isSpecial w)).
      * rewrite performAttack_accepted by done. simpl. rewrite getB_emit, deref_emit.
        intros Hdone HW.
        rewrite (settled_resources_of _ _ _ _ _ _ id i l p) by done.
        unfold reward_of.
        destruct (decide (status _ = finished ∧ _)) as [_|Hn]; [lia|by destruct Hn].
      * rewrite performAttack_rejected by done. simpl. fold b. by rewrite Hst.
  - intros w' Hst Hdone. split.
    + destruct (winner (getB w' bl)) as [W|] eqn:HW.
      * apply Hpart. exact (timeout_winner_participant bl w W Hst Hdone HW).
      * exfalso. revert Hdone HW. unfold w'. rewrite turn_timeout_getB by done.
        case_decide; simpl; [done|]. fold b. by rewrite Hst.
    + intros HW. unfold w' in *.
      rewrite (turn_timeout_resources _ _ id i l p) by done.
      unfold reward_of. rewrite decide_True by done. lia.
Qed.

(** Witness of C7: [sA] wins the started battle when it is finished at
    turn 0. *)
Lemma finish_reward_witness :
  reachable Worlds.started
  ∧ 0%nat ∈ battles Worlds.started
  ∧ 0%nat ∈ battle_players (getB Worlds.started 0)
  ∧ resources (deref (finishBattle 0 "sA" Worlds.started) 0)
    = resources (deref Worlds.started 0) + (50 + 5 * turn (getB Worlds.started 0%nat)).
Proof.
  assert (Hin : 0%nat ∈ battles Worlds.started) by (vm_compute; left).
  assert (Hl : 0%nat ∈ battle_players (getB Worlds.started 0)) by (vm_compute; left).
  split; [exact reachable_started|]. split; [exact Hin|]. split; [exact Hl|].
  destruct (finish_reward 0 0 Worlds.started reachable_started Hin Hl)
    as [(_ & _ & _ & Hres) _].
  exact Hres.
Defined.

(** C8, as the code has it.  In every state the event loop can reach, each
    participant's health of every battle ever created is at least 0, and so
    is each health in every battle snapshot sent to a client; both are at
    most [MAX_HEALTH = 100] when the events carried draws in [0, 1) and
    click powers that are not negative.  A new battle has both at 100, and
    an attack and a timeout write [max 0 (health - damage)]: the code bounds
    a health from below only (lines 211 and 323), and a damage is negative
    when the click power is. *)
Theorem health_within_bounds (evs : list Event) (w : World) :
  run init evs = Some w →
  let ok (v : Z) := 0 ≤ v ∧ (Forall valid_event evs → v ≤ MAX_HEALTH) in
  (∀ bl b, bheap w !! bl = Some b →
     let d := getBattleData w b in
     ok (view_health (data_player1 d)) ∧ ok (view_health (data_player2 d)))
  ∧ (∀ to d, battle_start to d ∈ emitted w ∨ battle_update to d ∈ emitted w →
       ok (view_health (data_player1 d)) ∧ ok (view_health (data_player2 d)))
  ∧ (∀ id p1 p2 w0,
       let b := new_Battle id p1 p2 w0 in
       getHealth b (player_id (deref w0 p1)) = MAX_HEALTH
       ∧ getHealth b (player_id (deref w0 p2)) = MAX_HEALTH).
Proof.
  intros Hrun ok.
  pose proof (bounded_run (Forall valid_event evs) evs init w (λ H, H)
                (bounded_init _) Hrun) as (Hp & Hb & Hem).
  split_and!.
  - intros bl b Hl d.
    pose proof (Forall_lookup_1 _ _ _ _ Hb Hl) as Hok.
    split; apply (getHealth_in_range _ b _ Hok).
  - intros to d [Hin|Hin]; rewrite Forall_forall in Hem; apply (Hem _ Hin).
  - intros id p1 p2 w0 b. unfold getHealth, b, new_Battle. simpl.
    split; [|by rewrite lookup_insert_eq].
    destruct (decide (player_id (deref w0 p2) = player_id (deref w0 p1))) as [->|Hne].
    + by rewrite lookup_insert_eq.
    + by rewrite lookup_insert_ne, lookup_insert_eq.
Qed.

(** Witness of C8: the health of the loser in the battle won by [sA]. *)
Lemma health_within_bounds_witness :
  run init Scenario.won = Some Worlds.won
  ∧ Forall valid_event Scenario.won
  ∧ 0 ≤ view_health (data_player2 (getBattleData Worlds.won (getB Worlds.won 0%nat)))
      ≤ MAX_HEALTH.
Proof.
  assert (Hrun : run init Scenario.won = Some Worlds.won) by (vm_compute; reflexivity).
  assert (Hvalid : Forall valid_event Scenario.won).
  { repeat constructor; vm_compute; discriminate. }
  split; [exact Hrun|]. split; [exact Hvalid|].
  destruct (health_within_bounds Scenario.won Worlds.won Hrun) as (Hb & _ & _).
  destruct (Hb 0%nat (getB Worlds.won 0%nat) eq_refl) as [_ [Hlo Hhi]].
  split; [exact Hlo|exact (Hhi Hvalid)].
Defined.

(** C8, as stated, fails: [sA] joined with the click power -2005 and opens
    the battle with a normal attack of damage -191.  The health of [sB] is
    291 in the battle and in the snapshot sent to both players. *)
Lemma negative_damage_raises_health :
  ∃ w, run init Scenario.healed = Some w
    ∧ 0%nat ∈ battles w
    ∧ status (getB w 0%nat) = active
    ∧ getHealth (getB w 0%nat) "sB" = 291
    ∧ (∃ d, battle_update "sB" d ∈ emitted w
          ∧ battle_update "sA" d ∈ emitted w
          ∧ view_id (data_player2 d) = "sB"
          ∧ view_health (data_player2 d) = 291)
    ∧ ¬ (291 ≤ MAX_HEALTH).
Proof.
  eexists. split; [vm_compute; reflexivity|].
  split; [vm_compute; left|].
  do 2 (split; [vm_compute; reflexivity|]).
  split; [|vm_compute; by intros H].
  eexists. split; [vm_compute; find_emit|].
  split; [vm_compute; find_emit|]. split; vm_compute; reflexivity.
Qed.

(** C9 (the code departs from it).  The collision test of [player-join]
    runs over all of [players], the joining socket's own record included,
    before the handler looks whether the socket is already known.  A player
    who joined as "Cat" and joins again from the same socket under the same
    name collides with itself and is renamed with a suffix, just as another
    socket joining as "Cat" is. *)
Theorem rejoin_own_name_gets_suffix :
  ∃ w, run init [EvJoin "sA" Scenario.cat 0 0] = Some w
    ∧ player_id <$> snapshot w = ["sA"]
    ∧ player_name <$> snapshot w = ["Cat"]
    ∧ join_name w Scenario.cat 0 (1 # 3) = "Cat_400"
    ∧ (let w' := player_join "sA" Scenario.cat 0 (1 # 3) w in
       player_id <$> snapshot w' = ["sA"]
       ∧ player_name <$> snapshot w' = ["Cat_400"])
    ∧ (let w' := player_join "sB" Scenario.cat 0 (1 # 3) w in
       player_id <$> snapshot w' = ["sA"; "sB"]
       ∧ player_name <$> snapshot w' = ["Cat"; "Cat_400"]).
Proof.
  eexists. split; [vm_compute; reflexivity|].
  repeat split; vm_compute; reflexivity.
Qed.

(** C10.  [battle-decline] throws exactly when the named challenger is
    registered and the sender is not: the notification is built from
    [decliner.name] with no test of [decliner].  Such a state is reachable:
    one player has joined and another connection, which never joined,
    declines. *)
Theorem battle_decline_throws (sid challengerId : string) (reason : option string)
    (w : World) :
  ((∃ what, battle_decline sid challengerId reason w = TypeError what)
   ↔ is_Some (find_player w challengerId) ∧ find_player w sid = None)
  ∧ (∃ w0 what, reachable w0
       ∧ is_Some (find_player w0 "sA") ∧ find_player w0 "sX" = None
       ∧ battle_decline "sX" "sA" None w0 = TypeError what).
Proof.
  split.
  - unfold battle_decline.
    destruct (find_player w challengerId) as [[i c]|];
      destruct (find_player w sid) as [[j d]|]; split.
    + intros [what Hw]. done.
    + intros [_ Hn]. done.
    + intros _. split; [by eexists|done].
    + intros _. by eexists.
    + intros [what Hw]. done.
    + intros [[? Hc] _]. done.
    + intros [what Hw]. done.
    + intros [[? Hc] _]. done.
  - exists (player_join "sA" Scenario.cat 0 0 init). eexists. split.
    + by exists [EvJoin "sA" Scenario.cat 0 0].
    + split; [by eexists|]. split; reflexivity.
Qed.

(** * More of the server: invariants, contracts and round trips *)

(** * Further properties of the code *)

(** ** The suffix pattern of names *)

Section Suffix.

Lemma append_nil_l (s : string) : "" +:+ s = s.
Proof. reflexivity. Qed.

Lemma append_cons (c : ascii) (s t : string) : String c s +:+ t = String c (s +:+ t).
Proof. reflexivity. Qed.

Lemma digits_2_4_underscore (ds rest : string) :
digits_2_4 (ds +:+ String "_" rest) = false.
Proof.
unfold digits_2_4.
assert (forallb is_digit (list_ascii_of_string (ds +:+ String "_" rest)) = false) as ->;
  [|done].
induction ds as [|c ds IH].
- by rewrite append_nil_l.
- rewrite append_cons. simpl. rewrite IH. by destruct (is_digit c).
Qed.

Lemma stripSuffix_appended (base ds : string) :
digits_2_4 ds = true → stripSuffix (base +:+ "_" +:+ ds) = base.
Proof.
intros Hds. change (base +:+ "_" +:+ ds) with (base +:+ String "_" ds).
induction base as [|c base IH].
- rewrite append_nil_l. simpl. by rewrite Hds.
- rewrite append_cons. cbn [stripSuffix].
  by rewrite IH, digits_2_4_underscore, andb_false_r.
Qed.

Lemma stripSuffix_split (n : string) :
stripSuffix n = n
∨ ∃ ds, n = stripSuffix n +:+ "_" +:+ ds ∧ digits_2_4 ds = true.
Proof.
induction n as [|c n IH]; simpl; [by left|].
destruct (Ascii.eqb c "_" && digits_2_4 n) eqn:Hc.
- right. apply andb_prop in Hc as [Hc%Ascii.eqb_eq Hn]. subst c.
  exists n. by rewrite append_nil_l.
- destruct IH as [->|(ds & Hn & Hds)]; [by left|].
  right. exists ds. split; [|done]. rewrite append_cons. by rewrite <- Hn.
Qed.

(** What the server appends on a collision is three decimal digits. *)
Lemma random_suffix_digits (r : Q) :
valid_draw r → digits_2_4 (random_suffix r) = true.
Proof.
intros [H0 H1]. unfold random_suffix.
pose proof (random_below_range r 900 H0 H1 ltac:(lia)) as Hr.
assert (Hall : forallb (λ z, digits_2_4 (pretty z)) (seqZ 100 900) = true)
  by (vm_compute; reflexivity).
rewrite forallb_forall in Hall. apply Hall.
apply list_elem_of_In, elem_of_seqZ. lia.
Qed.

End Suffix.

(** The name asked for by a [player-join]: the trimmed [name] of the
    payload, or the default name when it is empty (lines 392-395). *)
Definition requested_name (d : PlayerData) (rname : Q) : string :=
  if decide (data_name d = "") then "Кот_" +:+ random_suffix rname else data_name d.

Section JoinNames.
Implicit Types (w : World) (d : PlayerData).

Lemma join_name_cases w d rname rsuffix :
let asked := requested_name d rname in
(join_name w d rname rsuffix = asked
 ∧ Forall (λ l, stripSuffix (player_name (deref w l)) ≠ stripSuffix asked) (players w))
∨ (join_name w d rname rsuffix = stripSuffix asked +:+ "_" +:+ random_suffix rsuffix
   ∧ Exists (λ l, stripSuffix (player_name (deref w l)) = stripSuffix asked) (players w)).
Proof.
intros asked. unfold join_name. fold (requested_name d rname). fold asked.
destruct (list_find _ _) as [[i l]|] eqn:Hfind.
- right. split; [done|]. apply list_find_Some in Hfind as (Hi & Hl & _).
  apply Exists_exists. exists l. split; [|done]. by eapply list_elem_of_lookup_2.
- left. split; [done|]. by apply list_find_None in Hfind.
Qed.

Lemma requested_name_nonempty d rname : requested_name d rname ≠ "".
Proof. unfold requested_name. by case_decide. Qed.

Lemma join_name_base w d rname rsuffix :
valid_draw rsuffix →
stripSuffix (join_name w d rname rsuffix) = stripSuffix (requested_name d rname).
Proof.
intros Hr. destruct (join_name_cases w d rname rsuffix) as [[-> _]|[-> _]]; [done|].
by apply stripSuffix_appended, random_suffix_digits.
Qed.

Lemma join_name_nonempty w d rname rsuffix : join_name w d rname rsuffix ≠ "".
Proof.
destruct (join_name_cases w d rname rsuffix) as [[-> _]|[-> _]].
- apply requested_name_nonempty.
- by destruct (stripSuffix _).
Qed.

End JoinNames.

(** ** What the operations of a battle write *)

(** The timers left when the one a battle holds is cleared. *)
Definition clear_held (b : Battle) (ts : list Timer) : list Timer :=
  match turnTimer b with
  | Some h => filter (λ t, handle t ≠ h) ts
  | None => ts
  end.

(** The record of a battle after [cancelBattle]. *)
Definition cancelled_battle (reason : string) (w : World) (b : Battle) : Battle :=
  set_actions (actions b ++ [CancelAction reason (now w)]) (set_status cancelled b).

(** The record of a battle after an accepted attack (lines 211-241). *)
Definition attacked_battle (bl : bloc) (attackerId : string) (isSpecial : bool)
    (r rtie : Q) (w : World) (b : Battle) : Battle :=
  let b1 := struck_battle bl attackerId isSpecial r w b in
  let b2 := advanced_battle bl attackerId w b1 in
  if decide (health_left bl attackerId isSpecial r w ≤ 0)
  then set_winner (Some attackerId) (set_status finished b1)
  else if decide (MAX_TURNS ≤ turn b + 1)
  then set_winner
         (Some (getWinnerByHealth (advanced bl attackerId isSpecial r w) b2 rtie))
         (set_status finished b2)
  else b2.

(** The record of a battle after its timer fired while it was active. *)
Definition skipped_battle (w : World) (b : Battle) : Battle :=
  let b1 := timed_out_battle w b in
  let oppId := player_id (deref w (getOpponent w b (currentPlayer b))) in
  if decide (Z.max 0 (getHealth b (currentPlayer b) - 5) ≤ 0)
  then set_winner (Some oppId) (set_status finished b1)
  else set_turnTimer (Some (nextHandle w))
         (set_turn (turn b + 1) (set_currentPlayer oppId b1)).

Section Footprints.
Implicit Types (w : World) (l : loc) (bl : bloc) (b : Battle).

Lemma getB_alter_eq bl (f : Battle → Battle) w w' b :
bheap w' = alter f bl (bheap w) → bheap w !! bl = Some b → getB w' bl = f b.
Proof. intros Hw Hb. unfold getB. by rewrite Hw, list_lookup_alter_eq, Hb. Qed.

Lemma getB_alter_ne bl bl' (f : Battle → Battle) w w' :
bheap w' = alter f bl (bheap w) → bl ≠ bl' → getB w' bl' = getB w bl'.
Proof. intros Hw Hne. unfold getB. by rewrite Hw, list_lookup_alter_ne. Qed.

Lemma paid_bheap attackerId isSpecial w : bheap (paid attackerId isSpecial w) = bheap w.
Proof. unfold paid. by destruct (find_player _ _) as [[? ?]|]. Qed.

Lemma paid_timers attackerId isSpecial w :
timers (paid attackerId isSpecial w) = timers w.
Proof. unfold paid. by destruct (find_player _ _) as [[? ?]|]. Qed.

Lemma paid_nextHandle attackerId isSpecial w :
nextHandle (paid attackerId isSpecial w) = nextHandle w.
Proof. unfold paid. by destruct (find_player _ _) as [[? ?]|]. Qed.

Lemma paid_now attackerId isSpecial w : now (paid attackerId isSpecial w) = now w.
Proof. unfold paid. by destruct (find_player _ _) as [[? ?]|]. Qed.

Lemma finishBattle_nextHandle bl wid w :
nextHandle (finishBattle bl wid w) = nextHandle w.
Proof.
unfold finishBattle. destruct (find_player _ _) as [[? ?]|];
  destruct (turnTimer _); reflexivity.
Qed.

Lemma finishBattle_now bl wid w : now (finishBattle bl wid w) = now w.
Proof.
unfold finishBattle. destruct (find_player _ _) as [[? ?]|];
  destruct (turnTimer _); reflexivity.
Qed.

(** *** [cancelBattle] *)

Lemma broadcast_bheap bl w : bheap (broadcastBattleUpdate bl w) = bheap w.
Proof. reflexivity. Qed.
Lemma broadcast_pheap bl w : pheap (broadcastBattleUpdate bl w) = pheap w.
Proof. reflexivity. Qed.
Lemma broadcast_timers bl w : timers (broadcastBattleUpdate bl w) = timers w.
Proof. reflexivity. Qed.
Lemma broadcast_nextHandle bl w :
nextHandle (broadcastBattleUpdate bl w) = nextHandle w.
Proof. reflexivity. Qed.
Lemma broadcast_now bl w : now (broadcastBattleUpdate bl w) = now w.
Proof. reflexivity. Qed.
Lemma broadcast_players bl w : players (broadcastBattleUpdate bl w) = players w.
Proof. reflexivity. Qed.
Lemma broadcast_battles bl w : battles (broadcastBattleUpdate bl w) = battles w.
Proof. reflexivity. Qed.

Lemma cancelBattle_bheap bl reason w :
bheap (cancelBattle bl reason w) = alter (cancelled_battle reason w) bl (bheap w).
Proof.
unfold cancelBattle. rewrite broadcast_bheap.
destruct (turnTimer _); simpl; by rewrite list_alter_alter_eq.
Qed.

Lemma cancelBattle_pheap bl reason w : pheap (cancelBattle bl reason w) = pheap w.
Proof. unfold cancelBattle. rewrite broadcast_pheap. by destruct (turnTimer _). Qed.

Lemma cancelBattle_players bl reason w : players (cancelBattle bl reason w) = players w.
Proof. unfold cancelBattle. rewrite broadcast_players. by destruct (turnTimer _). Qed.

Lemma cancelBattle_battles bl reason w : battles (cancelBattle bl reason w) = battles w.
Proof. unfold cancelBattle. rewrite broadcast_battles. by destruct (turnTimer _). Qed.

Lemma cancelBattle_nextHandle bl reason w :
nextHandle (cancelBattle bl reason w) = nextHandle w.
Proof. unfold cancelBattle. rewrite broadcast_nextHandle. by destruct (turnTimer _). Qed.

Lemma cancelBattle_now bl reason w : now (cancelBattle bl reason w) = now w.
Proof. unfold cancelBattle. rewrite broadcast_now. by destruct (turnTimer _). Qed.

Lemma turnTimer_alter_keep bl (f : Battle → Battle) w :
(∀ b, turnTimer (f b) = turnTimer b) →
turnTimer (getB (update_battle bl f w) bl) = turnTimer (getB w bl).
Proof.
intros Hf. unfold getB, update_battle. simpl. rewrite list_lookup_alter_eq.
destruct (bheap w !! bl); simpl; auto.
Qed.

Lemma cancelBattle_timers bl reason w :
timers (cancelBattle bl reason w) = clear_held (getB w bl) (timers w).
Proof.
unfold cancelBattle, clear_held. rewrite broadcast_timers.
rewrite (turnTimer_alter_keep bl (set_status cancelled)) by done.
by destruct (turnTimer _).
Qed.

(** *** [startTurnTimer] *)

Lemma startTurnTimer_bheap bl w :
bheap (startTurnTimer bl w) = alter (set_turnTimer (Some (nextHandle w))) bl (bheap w).
Proof. unfold startTurnTimer. by destruct (turnTimer _). Qed.

Lemma startTurnTimer_pheap bl w : pheap (startTurnTimer bl w) = pheap w.
Proof. unfold startTurnTimer. by destruct (turnTimer _). Qed.

Lemma startTurnTimer_nextHandle bl w :
nextHandle (startTurnTimer bl w) = S (nextHandle w).
Proof. unfold startTurnTimer. by destruct (turnTimer _). Qed.

Lemma startTurnTimer_now bl w : now (startTurnTimer bl w) = now w.
Proof. unfold startTurnTimer. by destruct (turnTimer _). Qed.

Lemma startTurnTimer_clear_held bl w :
timers (startTurnTimer bl w)
= clear_held (getB w bl) (timers w) ++ [mkTimer (nextHandle w) bl (now w + TURN_TIME)].
Proof. apply startTurnTimer_timers. Qed.

(** *** An accepted attack *)

Lemma settled_bheap bl attackerId isSpecial r rtie w :
status (getB w bl) = active →
bheap (settled bl attackerId isSpecial r rtie w)
= alter (attacked_battle bl attackerId isSpecial r rtie w) bl (bheap w).
Proof.
intros Hst. pose proof (active_allocated w bl Hst) as Hb.
unfold settled. cbv zeta.
destruct (decide (health_left bl attackerId isSpecial r w ≤ 0)) as [Hz|Hz].
- rewrite finishBattle_bheap. unfold struck, update_battle. cbn [bheap set_bheap].
  rewrite paid_bheap, list_alter_alter_eq.
  apply list_alter_ext; [|done]. intros b _. unfold attacked_battle.
  destruct (decide (health_left bl attackerId isSpecial r w ≤ 0)); [|done].
  reflexivity.
- rewrite advanced_getB by done.
  change (turn (advanced_battle _ _ _ _)) with (turn (getB w bl) + 1).
  destruct (decide (MAX_TURNS ≤ turn (getB w bl) + 1)) as [Ht|Ht].
  + set (W := getWinnerByHealth _ _ rtie).
    rewrite finishBattle_bheap. unfold advanced, struck, update_battle.
    cbn [bheap set_bheap].
    rewrite paid_bheap, !list_alter_alter_eq.
    apply list_alter_ext; [|done]. intros b Hb'.
    assert (b = getB w bl) as -> by congruence.
    unfold attacked_battle.
    destruct (decide (health_left bl attackerId isSpecial r w ≤ 0)); [done|].
    destruct (decide (MAX_TURNS ≤ turn (getB w bl) + 1)); [|done].
    reflexivity.
  + unfold advanced, struck, update_battle. cbn [bheap set_bheap].
    rewrite paid_bheap, !list_alter_alter_eq.
    apply list_alter_ext; [|done]. intros b Hb'.
    assert (b = getB w bl) as -> by congruence.
    unfold attacked_battle.
    destruct (decide (health_left bl attackerId isSpecial r w ≤ 0)); [done|].
    destruct (decide (MAX_TURNS ≤ turn (getB w bl) + 1)); [done|].
    reflexivity.
Qed.

(** An accepted attack ends the battle when the defender is left without
  health or the turn limit is reached. *)
Definition attack_ends (bl : bloc) (attackerId : string) (isSpecial : bool) (r : Q)
  (w : World) : Prop :=
health_left bl attackerId isSpecial r w ≤ 0 ∨ MAX_TURNS ≤ turn (getB w bl) + 1.

Global Instance attack_ends_dec bl attackerId isSpecial r w :
Decision (attack_ends bl attackerId isSpecial r w).
Proof. unfold attack_ends. apply _. Defined.

Lemma struck_timers bl attackerId isSpecial r w :
timers (struck bl attackerId isSpecial r w) = timers w.
Proof. unfold struck. apply paid_timers. Qed.

Lemma advanced_timers bl attackerId isSpecial r w :
timers (advanced bl attackerId isSpecial r w) = timers w.
Proof. unfold advanced. apply struck_timers. Qed.

Lemma settled_timers bl attackerId isSpecial r rtie w :
status (getB w bl) = active →
timers (settled bl attackerId isSpecial r rtie w)
= if decide (attack_ends bl attackerId isSpecial r w)
  then clear_held (getB w bl) (timers w)
  else timers w.
Proof.
intros Hst. unfold settled, attack_ends, clear_held. cbv zeta.
destruct (decide (health_left _ _ _ _ _ ≤ 0)) as [Hz|Hz].
- rewrite decide_True by auto.
  rewrite finishBattle_timers, struck_getB, struck_timers by done. done.
- rewrite advanced_getB by done.
  change (turn (advanced_battle _ _ _ _)) with (turn (getB w bl) + 1).
  destruct (decide (MAX_TURNS ≤ _)) as [Ht|Ht].
  + rewrite decide_True by auto.
    rewrite finishBattle_timers, advanced_getB, advanced_timers by done. done.
  + rewrite decide_False by (intros [?|?]; done). apply advanced_timers.
Qed.

Lemma settled_nextHandle bl attackerId isSpecial r rtie w :
nextHandle (settled bl attackerId isSpecial r rtie w) = nextHandle w.
Proof.
unfold settled. cbv zeta. repeat case_decide;
  rewrite ?finishBattle_nextHandle; unfold advanced, struck; simpl;
  apply paid_nextHandle.
Qed.

Lemma settled_now bl attackerId isSpecial r rtie w :
now (settled bl attackerId isSpecial r rtie w) = now w.
Proof.
unfold settled. cbv zeta. repeat case_decide;
  rewrite ?finishBattle_now; unfold advanced, struck; simpl; apply paid_now.
Qed.

(** *** A timer that fires *)

Lemma turn_timeout_bheap bl w :
status (getB w bl) = active →
bheap (turn_timeout bl w) = alter (skipped_battle w) bl (bheap w).
Proof.
intros Hst. pose proof (active_allocated w bl Hst) as Hb.
unfold turn_timeout. rewrite decide_True by done. cbv zeta.
rewrite broadcast_bheap.
destruct (decide (Z.max 0 (getHealth (getB w bl) (currentPlayer (getB w bl)) - 5) ≤ 0))
  as [Hz|Hz].
- rewrite bool_decide_eq_true_2 by done.
  rewrite finishBattle_bheap. unfold update_battle. simpl.
  rewrite list_alter_alter_eq. apply list_alter_ext; [|done]. intros b Hb'.
  assert (b = getB w bl) as -> by congruence.
  unfold skipped_battle. rewrite decide_True by done.
  unfold timed_out_battle. by rewrite bool_decide_eq_true_2 by done.
- rewrite bool_decide_eq_false_2 by done.
  rewrite startTurnTimer_bheap. unfold update_battle. simpl.
  rewrite !list_alter_alter_eq. apply list_alter_ext; [|done]. intros b Hb'.
  assert (b = getB w bl) as -> by congruence.
  unfold skipped_battle. rewrite decide_False by done.
  unfold timed_out_battle. by rewrite bool_decide_eq_false_2 by done.
Qed.

Lemma turn_timeout_timers bl w :
status (getB w bl) = active →
timers (turn_timeout bl w)
= clear_held (getB w bl) (timers w)
  ++ (if decide (Z.max 0 (getHealth (getB w bl) (currentPlayer (getB w bl)) - 5) ≤ 0)
      then [] else [mkTimer (nextHandle w) bl (now w + TURN_TIME)]).
Proof.
intros Hst. pose proof (active_allocated w bl Hst) as Hb.
unfold turn_timeout. rewrite decide_True by done. cbv zeta.
rewrite broadcast_timers.
destruct (decide (_ ≤ 0)) as [Hz|Hz].
- rewrite bool_decide_eq_true_2 by done.
  rewrite finishBattle_timers, app_nil_r. unfold clear_held.
  by rewrite (turnTimer_alter_keep bl).
- rewrite bool_decide_eq_false_2 by done.
  rewrite startTurnTimer_clear_held. unfold clear_held.
  by rewrite !(turnTimer_alter_keep bl).
Qed.

Lemma turn_timeout_nextHandle bl w :
status (getB w bl) = active →
nextHandle (turn_timeout bl w)
= if decide (Z.max 0 (getHealth (getB w bl) (currentPlayer (getB w bl)) - 5) ≤ 0)
  then nextHandle w else S (nextHandle w).
Proof.
intros Hst. unfold turn_timeout. rewrite decide_True by done. cbv zeta.
rewrite broadcast_nextHandle.
destruct (decide (_ ≤ 0)) as [Hz|Hz].
- rewrite bool_decide_eq_true_2 by done. by rewrite finishBattle_nextHandle.
- rewrite bool_decide_eq_false_2 by done. by rewrite startTurnTimer_nextHandle.
Qed.

Lemma turn_timeout_now bl w : now (turn_timeout bl w) = now w.
Proof.
unfold turn_timeout. case_decide; [|done]. cbv zeta. rewrite broadcast_now.
destruct (bool_decide _).
- by rewrite finishBattle_now.
- by rewrite startTurnTimer_now.
Qed.

End Footprints.

(** ** Handlers that leave the battles alone *)

(** [w'] differs from [w] at most in the log of emitted events. *)
Record silent (w w' : World) : Prop := mk_silent {
  si_pheap : pheap w' = pheap w;
  si_bheap : bheap w' = bheap w;
  si_players : players w' = players w;
  si_battles : battles w' = battles w;
  si_timers : timers w' = timers w;
  si_nextHandle : nextHandle w' = nextHandle w;
  si_now : now w' = now w
}.

(** [w'] has the battles, the timers and the clock of [w]; the player
    objects of [w] are still there, with their [id], [inBattle] and
    [battleId]. *)
Record quiet (w w' : World) : Prop := mk_quiet {
  q_bheap : bheap w' = bheap w;
  q_battles : battles w' = battles w;
  q_timers : timers w' = timers w;
  q_nextHandle : nextHandle w' = nextHandle w;
  q_now : now w' = now w;
  q_len : (length (pheap w) ≤ length (pheap w'))%nat;
  q_id : ∀ l, (l < length (pheap w))%nat → player_id (deref w' l) = player_id (deref w l);
  q_inBattle : ∀ l, (l < length (pheap w))%nat →
               inBattle (deref w' l) = inBattle (deref w l);
  q_battleId : ∀ l, (l < length (pheap w))%nat →
               battleId (deref w' l) = battleId (deref w l)
}.

Section Quiet.
Implicit Types (w : World) (l : loc) (bl : bloc).

Lemma silent_refl w : silent w w.
Proof. by constructor. Qed.

Lemma silent_emit e w w' : silent w w' → silent w (emit e w').
Proof. intros []. by constructor. Qed.

Lemma silent_broadcast bl w w' : silent w w' → silent w (broadcastBattleUpdate bl w').
Proof. intros []. by constructor. Qed.

Lemma silent_quiet w w' : silent w w' → quiet w w'.
Proof.
intros [Hp Hb Hps Hbs Ht Hn Hnow].
constructor; try done; try (by rewrite Hp); intros l _; unfold deref; by rewrite Hp.
Qed.

Lemma quiet_refl w : quiet w w.
Proof. apply silent_quiet, silent_refl. Qed.

Lemma quiet_trans w1 w2 w3 : quiet w1 w2 → quiet w2 w3 → quiet w1 w3.
Proof.
intros [Hb Hbs Ht Hn Hnow Hlen Hid Hin Hbid] [Hb' Hbs' Ht' Hn' Hnow' Hlen' Hid' Hin' Hbid'].
constructor; try congruence.
- lia.
- intros l Hl. rewrite Hid' by lia. auto.
- intros l Hl. rewrite Hin' by lia. auto.
- intros l Hl. rewrite Hbid' by lia. auto.
Qed.

Lemma quiet_emit e w w' : quiet w w' → quiet w (emit e w').
Proof.
intros Hq. eapply quiet_trans; [exact Hq|].
apply silent_quiet, silent_emit, silent_refl.
Qed.

(** An update of a player object that keeps [id], [inBattle] and
  [battleId]. *)
Lemma quiet_update_player l f w w' :
(∀ p, player_id (f p) = player_id p) →
(∀ p, inBattle (f p) = inBattle p) →
(∀ p, battleId (f p) = battleId p) →
quiet w w' → quiet w (update_player l f w').
Proof.
intros Hid Hin Hbid Hq. eapply quiet_trans; [exact Hq|].
constructor; try done.
- simpl. by rewrite length_alter.
- intros l' _. by apply (deref_update_player_proj player_id).
- intros l' _. by apply (deref_update_player_proj inBattle).
- intros l' _. by apply (deref_update_player_proj battleId).
Qed.

(** A new player object. *)
Lemma quiet_alloc_player p ps w :
quiet w (set_players ps (set_pheap (pheap w ++ [p]) w)).
Proof.
constructor; try done.
- simpl. rewrite length_app. lia.
- intros l Hl. unfold deref. simpl. by rewrite lookup_app_l.
- intros l Hl. unfold deref. simpl. by rewrite lookup_app_l.
- intros l Hl. unfold deref. simpl. by rewrite lookup_app_l.
Qed.

Lemma quiet_player_join sid d rname rsuffix w :
quiet w (player_join sid d rname rsuffix w).
Proof.
unfold player_join. destruct (find_player w sid) as [[i l]|].
- repeat apply quiet_emit. by apply quiet_update_player.
- repeat apply quiet_emit. apply quiet_alloc_player.
Qed.

Lemma quiet_player_update sid d w : quiet w (player_update sid d w).
Proof.
unfold player_update. destruct (find_player w sid) as [[i l]|]; [|apply quiet_refl].
by apply quiet_emit, quiet_update_player.
Qed.

Lemma quiet_claim_task sid reward w : quiet w (claim_task sid reward w).
Proof.
unfold claim_task. destruct (find_player w sid) as [[i l]|]; [|apply quiet_refl].
by apply quiet_emit, quiet_update_player.
Qed.

Lemma silent_battle_challenge sid targetId w :
silent w (battle_challenge sid targetId w).
Proof.
unfold battle_challenge.
destruct (find_player w sid) as [[? ?]|];
  destruct (find_player w targetId) as [[? ?]|];
  repeat first [case_decide | destruct (_ || _)];
  repeat apply silent_emit; apply silent_refl.
Qed.

Lemma silent_battle_decline sid challengerId reason w w' :
battle_decline sid challengerId reason w = Done w' → silent w w'.
Proof.
unfold battle_decline.
destruct (find_player w challengerId) as [[? ?]|];
  destruct (find_player w sid) as [[? ?]|]; intros [= <-];
  repeat apply silent_emit; apply silent_refl.
Qed.

(** A [battle-accept] that a test turns down. *)
Lemma battle_accept_rejected sid challengerId newId w :
accept_rejected sid challengerId w →
∃ message, battle_accept sid challengerId newId w = emit (battle_error sid message) w.
Proof.
unfold accept_rejected, battle_accept.
destruct (find_player w sid) as [[i a]|]; [|by eexists].
destruct (find_player w challengerId) as [[j c]|]; [|by eexists].
intros [Ha|[Hc|Hres]].
- rewrite Ha. by eexists.
- rewrite Hc, orb_true_r. by eexists.
- destruct (_ || _); [by eexists|]. rewrite decide_True by done. by eexists.
Qed.

End Quiet.

(** ** The handlers that change a battle, in closed form *)

(** The record of a battle when [battle-accept] is done with it. *)
Definition started_battle (newId : string) (challenger acceptor : loc) (w : World)
    : Battle :=
  set_turnTimer (Some (nextHandle w)) (new_Battle newId challenger acceptor w).

(** [w'] is [w] after [acceptor] accepted the challenge of [challenger]. *)
Record accepted_by (newId : string) (challenger acceptor : loc) (w w' : World)
    : Prop := mk_accepted_by {
  ab_bheap : bheap w' = bheap w ++ [started_battle newId challenger acceptor w];
  ab_pheap : pheap w'
             = alter (set_inBattle true (Some newId)) acceptor
                 (alter (set_inBattle true (Some newId)) challenger (pheap w));
  ab_players : players w' = players w;
  ab_battles : battles w' = battles w ++ [length (bheap w)];
  ab_timers : timers w'
              = timers w ++ [mkTimer (nextHandle w) (length (bheap w)) (now w + TURN_TIME)];
  ab_nextHandle : nextHandle w' = S (nextHandle w);
  ab_now : now w' = now w
}.

(** [w'] is [w] after battle [bl] was cancelled and those of [freed] were
    released. *)
Record cancelled_by (bl : bloc) (reason : string) (freed : list loc) (w w' : World)
    : Prop := mk_cancelled_by {
  cb_bheap : bheap w' = alter (cancelled_battle reason w) bl (bheap w);
  cb_pheap : pheap w' = foldl (λ ps l, alter (set_inBattle false None) l ps) (pheap w) freed;
  cb_players : players w' = players w;
  cb_timers : timers w' = clear_held (getB w bl) (timers w);
  cb_nextHandle : nextHandle w' = nextHandle w;
  cb_now : now w' = now w
}.

Section Forms.
Implicit Types (w : World) (l : loc) (bl : bloc).

Lemma battle_accept_accepted sid challengerId newId w :
¬ accept_rejected sid challengerId w →
∃ i acceptor j challenger,
  find_player w sid = Some (i, acceptor)
  ∧ find_player w challengerId = Some (j, challenger)
  ∧ inBattle (deref w acceptor) = false
  ∧ inBattle (deref w challenger) = false
  ∧ ATTACK_COST ≤ resources (deref w acceptor)
  ∧ accepted_by newId challenger acceptor w (battle_accept sid challengerId newId w).
Proof.
unfold accept_rejected, battle_accept.
destruct (find_player w sid) as [[i a]|] eqn:Hfa; [|tauto].
destruct (find_player w challengerId) as [[j c]|] eqn:Hfc; [|tauto].
intros Hno. exists i, a, j, c.
assert (Ha : inBattle (deref w a) = false)
  by (destruct (inBattle (deref w a)); tauto).
assert (Hc : inBattle (deref w c) = false)
  by (destruct (inBattle (deref w c)); tauto).
assert (Hres : ATTACK_COST ≤ resources (deref w a)).
{ destruct (decide (ATTACK_COST ≤ resources (deref w a))); [done|].
  exfalso. apply Hno. right. right. lia. }
rewrite Ha, Hc. simpl. rewrite decide_False by lia.
do 5 (split; [done|]). cbv zeta.
set (battle := new_Battle newId c a w).
match goal with
| |- context [startTurnTimer _ ?w0] => set (w5 := w0)
end.
assert (Hb : bheap w5 !! length (bheap w) = Some battle).
{ unfold w5. simpl. by rewrite lookup_app_r, Nat.sub_diag. }
assert (Hnone : turnTimer (getB w5 (length (bheap w))) = None).
{ unfold getB. by rewrite Hb. }
constructor.
- change (bheap (emit ?e ?w0)) with (bheap w0).
  rewrite startTurnTimer_bheap.
  change (bheap w5) with (bheap w ++ [battle]).
  rewrite <- (Nat.add_0_r (length (bheap w))) at 1.
  by rewrite alter_app_r.
- change (pheap (emit ?e ?w0)) with (pheap w0).
  by rewrite startTurnTimer_pheap.
- change (players (emit ?e ?w0)) with (players w0).
  by rewrite startTurnTimer_players.
- change (battles (emit ?e ?w0)) with (battles w0).
  by rewrite startTurnTimer_battles.
- change (timers (emit ?e ?w0)) with (timers w0).
  rewrite startTurnTimer_timers. by rewrite Hnone.
- change (nextHandle (emit ?e ?w0)) with (nextHandle w0).
  by rewrite startTurnTimer_nextHandle.
- change (now (emit ?e ?w0)) with (now w0).
  by rewrite startTurnTimer_now.
Qed.

(** A [battle-attack] either only answers, or it is an accepted
  [performAttack] of the sender followed by answers. *)
Lemma battle_attack_cases sid battleId0 isSpecial r rtie w :
let w' := battle_attack sid battleId0 isSpecial r rtie w in
silent w w'
∨ ∃ i pl j bl,
    find_player w sid = Some (i, pl)
    ∧ find_battle w battleId0 = Some (j, bl)
    ∧ isParticipant w (getB w bl) sid = true
    ∧ attack_accepted bl sid isSpecial w
    ∧ silent (settled bl sid isSpecial r rtie w) w'.
Proof.
intros w'. subst w'. unfold battle_attack.
destruct (find_player w sid) as [[i pl]|] eqn:Hfp;
  [|left; apply silent_emit, silent_refl].
destruct (find_battle w battleId0) as [[j bl]|] eqn:Hfb;
  [|left; apply silent_emit, silent_refl].
pose proof (find_player_Some _ _ _ _ Hfp) as [_ Hid]. rewrite Hid.
destruct (isParticipant w (getB w bl) sid) eqn:Hpart; cbn [negb];
  [|left; apply silent_emit, silent_refl].
case_decide; [left; apply silent_emit, silent_refl|].
destruct (decide (attack_accepted bl sid isSpecial w)) as [Hacc|Hno].
- right. exists i, pl, j, bl. do 4 (split; [done|]).
  rewrite performAttack_accepted by done.
  destruct isSpecial; repeat first [apply silent_emit | apply silent_broadcast];
    apply silent_refl.
- left. rewrite performAttack_rejected by done. apply silent_emit, silent_refl.
Qed.

Lemma timer_fire_cases h w w' :
timer_fire h w = Some w' →
∃ k t, timers w !! k = Some t ∧ handle t = h ∧ deadline t ≤ now w
     ∧ w' = turn_timeout (timer_battle t) (clearTimeout h w).
Proof.
unfold timer_fire. destruct (list_find _ _) as [[k t]|] eqn:Hfind; [|done].
apply list_find_Some in Hfind as (Hk & Hh & _).
case_decide; [|done]. intros [= <-]. by exists k, t.
Qed.

(** A field of the battles that [f] keeps is kept by [alter f]. *)
Lemma getB_alter_proj {A} (g : Battle → A) bl (f : Battle → Battle) w w' bl' :
bheap w' = alter f bl (bheap w) →
(∀ b, g (f b) = g b) →
g (getB w' bl') = g (getB w bl').
Proof.
intros Hw Hg. unfold getB. rewrite Hw.
destruct (decide (bl = bl')) as [->|Hne].
- rewrite list_lookup_alter_eq. destruct (bheap w !! bl'); simpl; auto.
- by rewrite list_lookup_alter_ne.
Qed.

(** Releasing a registered player by its [id] reaches that very object. *)
Lemma release_player_registered w l :
wf w → l ∈ players w →
release_player w (player_id (deref w l)) = update_player l (set_inBattle false None) w.
Proof.
intros Hwf Hl. unfold release_player.
by destruct (find_player_registered w l Hwf Hl) as [i ->].
Qed.

Lemma wf_cancelBattle bl reason w : wf w → wf (cancelBattle bl reason w).
Proof. intros Hwf. eapply stable_wf; [done|]. apply stable_cancelBattle, stable_refl. Qed.

Lemma wf_freed l w : wf w → wf (update_player l (set_inBattle false None) w).
Proof.
intros Hwf. eapply stable_wf; [done|]. by apply stable_update_player; [|apply stable_refl].
Qed.

Lemma cancelBattle_getOpponent bl reason w bl' id :
getOpponent (cancelBattle bl reason w) (getB (cancelBattle bl reason w) bl') id
= getOpponent w (getB w bl') id.
Proof.
unfold getOpponent.
rewrite (getB_alter_proj player1 _ _ _ _ bl' (cancelBattle_bheap bl reason w)) by done.
rewrite (getB_alter_proj player2 _ _ _ _ bl' (cancelBattle_bheap bl reason w)) by done.
unfold deref. by rewrite cancelBattle_pheap.
Qed.

Lemma getB_set_pheap ps w bl : getB (set_pheap ps w) bl = getB w bl.
Proof. reflexivity. Qed.

Lemma find_battle_listed w id j bl : find_battle w id = Some (j, bl) → bl ∈ battles w.
Proof. intros (Hj & _)%list_find_Some. by eapply list_elem_of_lookup_2. Qed.

(** [battle-cancel] of a registered participant: the battle is cancelled,
  its two players are released and every battle of that [id] leaves the
  list. *)
Lemma battle_cancel_done sid battleId0 reason w i pl j bl :
wf w →
find_player w sid = Some (i, pl) →
find_battle w battleId0 = Some (j, bl) →
isParticipant w (getB w bl) sid = true →
let w' := battle_cancel sid battleId0 reason w in
cancelled_by bl (str_or reason "Баттл отменен участником")
  [player1 (getB w bl); player2 (getB w bl)] w w'
∧ battles w'
  = filter (λ bl', battle_id (getB w bl') ≠ battle_id (getB w bl)) (battles w).
Proof.
intros Hwf Hfp Hfb Hpart w'. subst w'. unfold battle_cancel.
rewrite Hfp, Hfb.
pose proof (find_player_Some _ _ _ _ Hfp) as [_ Hid]. rewrite Hid, Hpart.
cbn [negb].
set (reason' := str_or reason _).
set (w1 := cancelBattle bl reason' w).
pose proof (cancelBattle_bheap bl reason' w) as Hbh. fold w1 in Hbh.
assert (Hwf1 : wf w1) by by apply wf_cancelBattle.
destruct (wf_battles w Hwf bl (find_battle_listed _ _ _ _ Hfb)) as (_ & Hm1 & Hm2 & _).
assert (Hp1 : player1 (getB w1 bl) = player1 (getB w bl))
  by by apply (getB_alter_proj player1 _ _ _ _ bl Hbh).
assert (Hp2 : player2 (getB w1 bl) = player2 (getB w bl))
  by by apply (getB_alter_proj player2 _ _ _ _ bl Hbh).
unfold battle_players. rewrite Hp1, Hp2. cbn [foldl].
assert (Hps : players w1 = players w) by apply cancelBattle_players.
rewrite (release_player_registered w1 (player1 (getB w bl)))
  by (by rewrite ?Hps).
rewrite (release_player_registered _ (player2 (getB w bl)))
  by (first [by apply wf_freed
            | by (change (players (update_player ?a ?f ?w0)) with (players w0);
                  rewrite Hps)]).
split.
- constructor; cbn [emit set_battles update_player set_pheap foldl
                    bheap pheap players timers nextHandle now].
  + exact Hbh.
  + unfold w1. by rewrite cancelBattle_pheap.
  + unfold w1. by rewrite cancelBattle_players.
  + unfold w1. by rewrite cancelBattle_timers.
  + unfold w1. by rewrite cancelBattle_nextHandle.
  + unfold w1. by rewrite cancelBattle_now.
- cbn [emit set_battles update_player set_pheap battles].
  assert (Hbs : battles w1 = battles w) by apply cancelBattle_battles.
  rewrite Hbs.
  apply list_filter_iff. intros bl'.
  rewrite !getB_update_player.
  by rewrite !(getB_alter_proj battle_id _ _ _ _ _ Hbh).
Qed.

(** [battle-cancel] either only answers, or it is the above. *)
Lemma battle_cancel_cases sid battleId0 reason w :
wf w →
let w' := battle_cancel sid battleId0 reason w in
silent w w'
∨ ∃ i pl j bl,
    find_player w sid = Some (i, pl)
    ∧ find_battle w battleId0 = Some (j, bl)
    ∧ isParticipant w (getB w bl) sid = true
    ∧ cancelled_by bl (str_or reason "Баттл отменен участником")
        [player1 (getB w bl); player2 (getB w bl)] w w'
    ∧ battles w'
      = filter (λ bl', battle_id (getB w bl') ≠ battle_id (getB w bl)) (battles w).
Proof.
intros Hwf w'. subst w'.
destruct (find_player w sid) as [[i pl]|] eqn:Hfp.
2: { left. unfold battle_cancel. rewrite Hfp. apply silent_emit, silent_refl. }
destruct (find_battle w battleId0) as [[j bl]|] eqn:Hfb.
2: { left. unfold battle_cancel. rewrite Hfp, Hfb. apply silent_emit, silent_refl. }
destruct (isParticipant w (getB w bl) sid) eqn:Hpart.
- right. exists i, pl, j, bl. do 3 (split; [done|]).
  by apply (battle_cancel_done sid battleId0 reason w i pl j bl).
- left. unfold battle_cancel. rewrite Hfp, Hfb.
  pose proof (find_player_Some _ _ _ _ Hfp) as [_ Hid]. rewrite Hid, Hpart.
  cbn [negb]. apply silent_emit, silent_refl.
Qed.

(** One round of [disconnect]: the battle is cancelled and the opponent of
  the leaving player released. *)
Lemma disconnect_battle_form sid w bl :
wf w → bl ∈ battles w →
let w' := disconnect_battle sid w bl in
cancelled_by bl ("Игрок " +:+ sid +:+ " отключился")
  [getOpponent w (getB w bl) sid] w w'
∧ battles w' = battles w.
Proof.
intros Hwf Hbl w'. subst w'. unfold disconnect_battle. cbv zeta.
set (reason := "Игрок " +:+ sid +:+ " отключился").
rewrite !cancelBattle_getOpponent.
set (w1 := cancelBattle bl reason w).
assert (Hwf1 : wf w1) by by apply wf_cancelBattle.
set (o := getOpponent w (getB w bl) sid).
destruct (wf_battles w Hwf bl Hbl) as (_ & Hm1 & Hm2 & _).
assert (Ho : o ∈ players w1).
{ unfold w1. rewrite cancelBattle_players. unfold o.
  by destruct (getOpponent_cases w (getB w bl) sid) as [-> | ->]. }
rewrite release_player_registered by done.
split.
- constructor; cbn [emit update_player set_pheap foldl
                    bheap pheap players timers nextHandle now]; unfold w1.
  + apply cancelBattle_bheap.
  + by rewrite cancelBattle_pheap.
  + by rewrite cancelBattle_players.
  + by rewrite cancelBattle_timers.
  + by rewrite cancelBattle_nextHandle.
  + by rewrite cancelBattle_now.
- cbn [emit update_player set_pheap battles]. unfold w1.
  by rewrite cancelBattle_battles.
Qed.

End Forms.

(** ** The record of a battle in every reachable state *)

Definition first_id (w : World) (b : Battle) : string := player_id (deref w (player1 b)).
Definition second_id (w : World) (b : Battle) : string := player_id (deref w (player2 b)).

(** Whose turn it is by the turn counter: player 1 moves on even turns. *)
Definition mover (w : World) (b : Battle) : string :=
  if Z.even (turn b) then first_id w b else second_id w b.

(** What holds of every [Battle] object: its players are allocated, the
    turn counter is not negative and tells who moves, an active battle has
    no winner and one logged action per turn, a finished one has a
    participant as winner, and [health] has an entry for both players and
    for nobody else. *)
Record battle_ok (w : World) (b : Battle) : Prop := mk_battle_ok {
  bo_p1 : (player1 b < length (pheap w))%nat;
  bo_p2 : (player2 b < length (pheap w))%nat;
  bo_turn : 0 ≤ turn b;
  bo_mover : currentPlayer b = mover w b;
  bo_active : status b = active →
              winner b = None ∧ Z.of_nat (length (actions b)) = turn b;
  bo_finished : status b = finished → ∃ id, winner b = Some id ∧ participant_id w b id;
  bo_health : dom (health b) = ({[first_id w b; second_id w b]} : gset string)
}.

Definition battles_ok (w : World) : Prop :=
  ∀ bl b, bheap w !! bl = Some b → battle_ok w b.

Section BattlesOk.
Implicit Types (w : World) (l : loc) (bl : bloc) (b : Battle).

Lemma battle_ok_ids w w' b :
(length (pheap w) ≤ length (pheap w'))%nat →
(∀ l, (l < length (pheap w))%nat → player_id (deref w' l) = player_id (deref w l)) →
battle_ok w b → battle_ok w' b.
Proof.
intros Hlen Hid [H1 H2 Ht Hm Ha Hf Hh].
assert (Hf1 : first_id w' b = first_id w b) by (unfold first_id; auto).
assert (Hf2 : second_id w' b = second_id w b) by (unfold second_id; auto).
constructor; try done; try lia.
- unfold mover. by rewrite Hf1, Hf2.
- intros Hst. destruct (Hf Hst) as (id & Hw & Hp). exists id. split; [done|].
  unfold participant_id in *. fold (first_id w' b) (second_id w' b).
  by rewrite Hf1, Hf2.
- by rewrite Hf1, Hf2.
Qed.

Lemma battles_ok_heaps w w' :
pheap w' = pheap w → bheap w' = bheap w → battles_ok w → battles_ok w'.
Proof.
intros Hp Hb Hok bl b Hbl. rewrite Hb in Hbl.
apply (battle_ok_ids w); [by rewrite Hp| |by eapply Hok].
intros l _. unfold deref. by rewrite Hp.
Qed.

Lemma battles_ok_silent w w' : silent w w' → battles_ok w → battles_ok w'.
Proof. intros Hs. apply battles_ok_heaps; apply Hs. Qed.

Lemma battles_ok_quiet w w' : quiet w w' → battles_ok w → battles_ok w'.
Proof.
intros Hq Hok bl b Hbl. rewrite (q_bheap _ _ Hq) in Hbl.
apply (battle_ok_ids w); [apply Hq|apply Hq|by eapply Hok].
Qed.

(** One battle object is rewritten, the player objects keep their [id]s. *)
Lemma battles_ok_alter bl (F : Battle → Battle) w w' :
bheap w' = alter F bl (bheap w) →
(length (pheap w) ≤ length (pheap w'))%nat →
(∀ l, (l < length (pheap w))%nat → player_id (deref w' l) = player_id (deref w l)) →
(∀ b, bheap w !! bl = Some b → battle_ok w b → battle_ok w (F b)) →
battles_ok w → battles_ok w'.
Proof.
intros Hbh Hlen Hid HF Hok bl' b' Hbl'. rewrite Hbh in Hbl'.
apply (battle_ok_ids w); [done..|].
destruct (decide (bl = bl')) as [<-|Hne].
- rewrite list_lookup_alter_eq in Hbl'.
  destruct (bheap w !! bl) as [b|] eqn:Hb; [|done].
  injection Hbl' as <-. apply HF; [done|]. by eapply Hok.
- rewrite list_lookup_alter_ne in Hbl' by done. by eapply Hok.
Qed.

Lemma battle_ok_cancelled reason w0 w b :
battle_ok w b → battle_ok w (cancelled_battle reason w0 b).
Proof. intros [H1 H2 Ht Hm Ha Hf Hh]. by constructor. Qed.

(** Handing the turn to the opponent of the player to move agrees with the
  turn counter. *)
Lemma mover_next w b :
currentPlayer b = mover w b →
player_id (deref w (getOpponent w b (currentPlayer b)))
= if Z.even (turn b + 1) then first_id w b else second_id w b.
Proof.
intros Hm. unfold getOpponent. rewrite Hm. unfold mover, first_id, second_id.
replace (turn b + 1) with (Z.succ (turn b)) by lia.
rewrite Z.even_succ, <- Z.negb_even.
destruct (Z.even (turn b)); simpl.
- by rewrite decide_True.
- case_decide; congruence.
Qed.

Lemma mover_participant w b : currentPlayer b = mover w b → participant_id w b (currentPlayer b).
Proof.
intros ->. unfold mover, participant_id, first_id, second_id.
destruct (Z.even _); auto.
Qed.

Lemma dom_health_insert w b id v :
dom (health b) = ({[first_id w b; second_id w b]} : gset string) →
participant_id w b id →
dom (<[id := v]> (health b)) = ({[first_id w b; second_id w b]} : gset string).
Proof.
intros Hh Hp. rewrite dom_insert_L, Hh.
unfold participant_id in Hp. fold (first_id w b) (second_id w b) in Hp.
apply set_eq. intros x. rewrite !elem_of_union, !elem_of_singleton.
destruct Hp as [-> | ->]; tauto.
Qed.

Lemma opponent_participant w b id :
participant_id w b (player_id (deref w (getOpponent w b id))).
Proof.
unfold participant_id. destruct (getOpponent_cases w b id) as [-> | ->]; auto.
Qed.

Lemma battle_ok_attacked bl attackerId isSpecial r rtie w :
attack_accepted bl attackerId isSpecial w →
battle_ok w (getB w bl) →
battle_ok w (attacked_battle bl attackerId isSpecial r rtie w (getB w bl)).
Proof.
intros (Hst & Hcur & _) [H1 H2 Ht Hm Ha Hf Hh].
destruct (Ha Hst) as [Hwin Hlog].
assert (Hnext : defender_id bl attackerId w
                = if Z.even (turn (getB w bl) + 1)
                  then first_id w (getB w bl) else second_id w (getB w bl)).
{ unfold defender_id. rewrite <- Hcur. by apply mover_next. }
assert (Hdom : dom (<[defender_id bl attackerId w
                      := health_left bl attackerId isSpecial r w]> (health (getB w bl)))
               = ({[first_id w (getB w bl); second_id w (getB w bl)]} : gset string)).
{ apply dom_health_insert; [done|]. apply opponent_participant. }
unfold attacked_battle. cbv zeta.
destruct (decide (health_left bl attackerId isSpecial r w ≤ 0)).
- constructor; try done.
  intros _. exists attackerId. split; [done|].
  pose proof (mover_participant _ _ Hm) as Hp. rewrite Hcur in Hp. exact Hp.
- destruct (decide (MAX_TURNS ≤ turn (getB w bl) + 1)).
  + constructor; try done.
    * simpl. lia.
    * intros _. eexists. split; [reflexivity|].
      pose proof (getWinnerByHealth_participant
                    (advanced bl attackerId isSpecial r w)
                    (advanced_battle bl attackerId w
                       (struck_battle bl attackerId isSpecial r w (getB w bl)))
                    rtie) as Hw.
      pose proof (stable_advanced bl attackerId isSpecial r w) as Hs.
      unfold participant_id in *. simpl in Hw.
      by rewrite !(st_id _ _ Hs) in Hw.
  + constructor; try done.
    * simpl. lia.
    * intros _. simpl. split; [done|]. rewrite length_app. simpl. lia.
Qed.

Lemma battle_ok_skipped w b :
status b = active → battle_ok w b → battle_ok w (skipped_battle w b).
Proof.
intros Hst [H1 H2 Ht Hm Ha Hf Hh].
destruct (Ha Hst) as [Hwin Hlog].
pose proof (mover_next w b Hm) as Hnext.
assert (Hdom : dom (<[currentPlayer b := Z.max 0 (getHealth b (currentPlayer b) - 5)]>
                      (health b))
               = ({[first_id w b; second_id w b]} : gset string)).
{ apply dom_health_insert; [done|]. by apply mover_participant. }
unfold skipped_battle. cbv zeta.
destruct (decide (Z.max 0 (getHealth b (currentPlayer b) - 5) ≤ 0)).
- constructor; try done.
  intros _. eexists. split; [reflexivity|].
  exact (opponent_participant w b (currentPlayer b)).
- constructor; try done.
  + simpl. lia.
  + intros _. simpl. split; [done|]. rewrite length_app. simpl. lia.
Qed.

Lemma battle_ok_started newId c a w :
(c < length (pheap w))%nat → (a < length (pheap w))%nat →
battle_ok w (started_battle newId c a w).
Proof.
intros Hc Ha. constructor; try done.
unfold started_battle, new_Battle, first_id, second_id. simpl.
rewrite !dom_insert_L, dom_empty_L.
apply set_eq. intros x. rewrite !elem_of_union, !elem_of_singleton, elem_of_empty.
tauto.
Qed.

(** *** The handlers *)

Lemma freed_length (freed : list loc) (ps : list Player) :
length (foldl (λ ps l, alter (set_inBattle false None) l ps) ps freed) = length ps.
Proof.
revert ps. induction freed as [|l freed IH]; intros ps; simpl; [done|].
by rewrite IH, length_alter.
Qed.

Lemma freed_proj {A} (g : Player → A) (freed : list loc) (ps : list Player) l :
(∀ v bid p, g (set_inBattle v bid p) = g p) →
g (default noPlayer (foldl (λ ps l, alter (set_inBattle false None) l ps) ps freed !! l))
= g (default noPlayer (ps !! l)).
Proof.
intros Hg. revert ps. induction freed as [|l' freed IH]; intros ps; simpl; [done|].
rewrite IH. destruct (decide (l' = l)) as [->|Hne].
- rewrite list_lookup_alter_eq. destruct (ps !! l); simpl; auto.
- by rewrite list_lookup_alter_ne.
Qed.

Lemma battles_ok_cancelled_by bl reason freed w w' :
cancelled_by bl reason freed w w' → battles_ok w → battles_ok w'.
Proof.
intros [Hbh Hph _ _ _ _]. apply (battles_ok_alter bl _ _ _ Hbh).
- by rewrite Hph, freed_length.
- intros l _. unfold deref. rewrite Hph. by apply (freed_proj player_id).
- intros b _. apply battle_ok_cancelled.
Qed.

Lemma battles_ok_settled bl attackerId isSpecial r rtie w :
attack_accepted bl attackerId isSpecial w →
battles_ok w → battles_ok (settled bl attackerId isSpecial r rtie w).
Proof.
intros Hacc. pose proof Hacc as (Hst & _).
pose proof (stable_settled bl attackerId isSpecial r rtie w) as Hs.
apply (battles_ok_alter bl _ _ _ (settled_bheap _ _ _ _ _ _ Hst)).
- by rewrite (st_pheap _ _ Hs).
- intros l _. apply (st_id _ _ Hs).
- intros b Hb. assert (b = getB w bl) as -> by (unfold getB; by rewrite Hb).
  by apply battle_ok_attacked.
Qed.

Lemma battles_ok_turn_timeout bl w : battles_ok w → battles_ok (turn_timeout bl w).
Proof.
destruct (decide (status (getB w bl) = active)) as [Hst|Hst].
- pose proof (stable_turn_timeout bl w w (stable_refl w)) as Hs.
  apply (battles_ok_alter bl _ _ _ (turn_timeout_bheap _ _ Hst)).
  + by rewrite (st_pheap _ _ Hs).
  + intros l _. apply (st_id _ _ Hs).
  + intros b Hb. assert (b = getB w bl) as -> by (unfold getB; by rewrite Hb).
    by apply battle_ok_skipped.
- by rewrite turn_timeout_terminal.
Qed.

Lemma find_player_allocated w id i l :
wf w → find_player w id = Some (i, l) → (l < length (pheap w))%nat.
Proof.
intros Hwf [Hi _]%find_player_Some. apply lookup_lt_is_Some, (wf_alloc w Hwf).
by eapply list_elem_of_lookup_2.
Qed.

Lemma battles_ok_accepted_by newId c a w w' :
(c < length (pheap w))%nat → (a < length (pheap w))%nat →
accepted_by newId c a w w' → battles_ok w → battles_ok w'.
Proof.
intros Hc Ha [Hbh Hph _ _ _ _ _] Hok bl b Hbl. rewrite Hbh in Hbl.
assert (Hlen : length (pheap w') = length (pheap w))
  by (by rewrite Hph, !length_alter).
assert (Hid : ∀ l, player_id (deref w' l) = player_id (deref w l)).
{ intros l. unfold deref. rewrite Hph.
  transitivity (player_id (default noPlayer
                  (alter (set_inBattle true (Some newId)) c (pheap w) !! l))).
  - destruct (decide (a = l)) as [->|Hne].
    + rewrite list_lookup_alter_eq. by destruct (alter _ c (pheap w) !! l).
    + by rewrite list_lookup_alter_ne.
  - destruct (decide (c = l)) as [->|Hne].
    + rewrite list_lookup_alter_eq. by destruct (pheap w !! l).
    + by rewrite list_lookup_alter_ne. }
apply (battle_ok_ids w); [by rewrite Hlen|by intros; apply Hid|].
apply lookup_app_Some in Hbl as [Hbl|[_ Hbl]]; [by eapply Hok|].
apply list_lookup_singleton_Some in Hbl as [_ <-].
by apply battle_ok_started.
Qed.

Lemma battles_ok_disconnect sid w : wf w → battles_ok w → battles_ok (disconnect sid w).
Proof.
intros Hwf Hok. unfold disconnect.
set (pbs := filter _ (battles w)).
assert (Hpbs : ∀ bl, bl ∈ pbs → bl ∈ battles w).
{ intros bl Hbl. unfold pbs in Hbl. by apply list_elem_of_filter in Hbl as [_ ?]. }
assert (H1 : wf (foldl (disconnect_battle sid) w pbs)
             ∧ battles (foldl (disconnect_battle sid) w pbs) = battles w
             ∧ battles_ok (foldl (disconnect_battle sid) w pbs)).
{ clearbody pbs. revert w Hwf Hok Hpbs.
  induction pbs as [|bl pbs IH]; intros w Hwf Hok Hpbs; simpl; [done|].
  assert (Hbl : bl ∈ battles w) by (apply Hpbs; left).
  destruct (disconnect_battle_form sid w bl Hwf Hbl) as [Hc Hbs].
  destruct (IH (disconnect_battle sid w bl)) as (Hwf' & Hbs' & Hok').
  - eapply stable_wf; [exact Hwf|]. apply stable_disconnect_battle, stable_refl.
  - by eapply battles_ok_cancelled_by.
  - intros bl' Hbl'. rewrite Hbs. apply Hpbs. by right.
  - split_and!; [done| |done]. by rewrite Hbs'. }
destruct H1 as (_ & _ & Hok1). cbv zeta.
destruct (find_player _ sid) as [[i l]|]; by eapply battles_ok_heaps; [..|exact Hok1].
Qed.

Lemma battles_ok_step w e w' :
wf w → battles_ok w → step w e = Some w' → battles_ok w'.
Proof.
intros Hwf Hok. destruct e as [sid d rn rs|sid d|sid reward|sid tid|sid cid newId
  |sid cid reason|sid bid isSpecial r rtie|sid bid reason|sid|h|dt]; simpl.
- intros [= <-]. by eapply battles_ok_quiet; [apply quiet_player_join|].
- intros [= <-]. by eapply battles_ok_quiet; [apply quiet_player_update|].
- intros [= <-]. by eapply battles_ok_quiet; [apply quiet_claim_task|].
- intros [= <-]. by eapply battles_ok_silent; [apply silent_battle_challenge|].
- intros [= <-]. destruct (decide (accept_rejected sid cid w)) as [Hrej|Hacc].
  + destruct (battle_accept_rejected sid cid newId w Hrej) as [m ->].
    by eapply battles_ok_silent; [apply silent_emit, silent_refl|].
  + destruct (battle_accept_accepted sid cid newId w Hacc)
      as (i & a & j & c & Hfa & Hfc & _ & _ & _ & Hab).
    eapply battles_ok_accepted_by; [..|exact Hab|done];
      by eapply find_player_allocated.
- destruct (battle_decline sid cid reason w) as [w1|] eqn:Hd; [|done].
  intros [= <-]. by eapply battles_ok_silent; [eapply silent_battle_decline|].
- intros [= <-].
  destruct (battle_attack_cases sid bid isSpecial r rtie w)
    as [Hs|(i & pl & j & bl & _ & _ & _ & Hacc & Hs)].
  + by eapply battles_ok_silent.
  + eapply battles_ok_silent; [exact Hs|]. by apply battles_ok_settled.
- intros [= <-].
  destruct (battle_cancel_cases sid bid reason w Hwf)
    as [Hs|(i & pl & j & bl & _ & _ & _ & Hc & _)].
  + by eapply battles_ok_silent.
  + by eapply battles_ok_cancelled_by.
- intros [= <-]. by apply battles_ok_disconnect.
- intros (k & t & _ & _ & _ & ->)%timer_fire_cases.
  apply battles_ok_turn_timeout. by eapply battles_ok_heaps; [..|exact Hok].
- case_decide; [|done]. intros [= <-]. by eapply battles_ok_heaps; [..|exact Hok].
Qed.

Lemma battles_ok_run evs w w' :
wf w → battles_ok w → run w evs = Some w' → battles_ok w'.
Proof.
revert w. induction evs as [|e evs IH]; intros w Hwf Hok; simpl.
- by intros [= <-].
- destruct (step w e) as [w1|] eqn:Hstep; [|done].
  apply IH; [by eapply wf_step|by eapply battles_ok_step].
Qed.

Lemma reachable_battles_ok w : reachable w → battles_ok w.
Proof.
intros [evs Hrun]. eapply battles_ok_run; [apply wf_init| |exact Hrun].
intros bl b Hbl. done.
Qed.

End BattlesOk.

(** ** The turn timers in every reachable state *)

(** The pending timers have different handles, each is the one its battle
    holds, that battle is active and the timer is due no later than
    [TURN_TIME] from now; every active battle has its timer pending; no two
    battles hold the same handle, and no handle is yet to be given out. *)
Record timers_ok (w : World) : Prop := mk_timers_ok {
  to_nodup : NoDup (handle <$> timers w);
  to_pending : ∀ t, t ∈ timers w →
    (handle t < nextHandle w)%nat ∧ deadline t ≤ now w + TURN_TIME
    ∧ ∃ b, bheap w !! timer_battle t = Some b
         ∧ turnTimer b = Some (handle t) ∧ status b = active;
  to_active : ∀ bl b, bheap w !! bl = Some b → status b = active →
    ∃ t, t ∈ timers w ∧ timer_battle t = bl ∧ turnTimer b = Some (handle t);
  to_held : ∀ bl b h, bheap w !! bl = Some b → turnTimer b = Some h →
    (h < nextHandle w)%nat;
  to_inj : ∀ bl bl' b b' h, bheap w !! bl = Some b → bheap w !! bl' = Some b' →
    turnTimer b = Some h → turnTimer b' = Some h → bl = bl'
}.

Section TimersOk.
Implicit Types (w : World) (l : loc) (bl : bloc) (b : Battle) (t : Timer).

Lemma timers_ok_init : timers_ok init.
Proof.
constructor; simpl.
- constructor.
- intros t Ht. by apply elem_of_nil in Ht.
- intros bl b Hb. done.
- intros bl b h Hb. done.
- intros bl bl' b b' h Hb. done.
Qed.

(** Nothing but the clock, which does not go back, differs. *)
Lemma timers_ok_same w w' :
bheap w' = bheap w → timers w' = timers w → nextHandle w' = nextHandle w →
now w ≤ now w' →
timers_ok w → timers_ok w'.
Proof.
intros Hb Ht Hn Hnow [Hnd Hp Ha Hh Hi].
constructor; rewrite ?Hb, ?Ht, ?Hn; try done.
intros t Hin. destruct (Hp t Hin) as (? & ? & ?). split_and!; [done|lia|done].
Qed.

Lemma timers_ok_silent w w' : silent w w' → timers_ok w → timers_ok w'.
Proof.
intros Hs. apply timers_ok_same; try apply Hs. by rewrite (si_now _ _ Hs).
Qed.

Lemma timers_ok_quiet w w' : quiet w w' → timers_ok w → timers_ok w'.
Proof.
intros Hq. apply timers_ok_same; try apply Hq. by rewrite (q_now _ _ Hq).
Qed.

Lemma clear_held_elem b ts t :
t ∈ clear_held b ts ↔ t ∈ ts ∧ turnTimer b ≠ Some (handle t).
Proof.
unfold clear_held. destruct (turnTimer b) as [h|].
- rewrite list_elem_of_filter. split.
  + intros [Hne Hin]. split; [done|]. congruence.
  + intros [Hin Hne]. split; [|done]. congruence.
- split; [by intros ?|by intros [? _]].
Qed.

Lemma clear_held_NoDup b ts :
NoDup (handle <$> ts) → NoDup (handle <$> clear_held b ts).
Proof.
intros Hnd. unfold clear_held. destruct (turnTimer b); [|done].
eapply sublist_NoDup; [exact Hnd|]. apply fmap_sublist, sublist_filter.
Qed.

(** A lookup in a heap in which the battle [bl] was rewritten. *)
Lemma lookup_alter_cases bl (F : Battle → Battle) (bs : list Battle) bl' b' :
alter F bl bs !! bl' = Some b' →
(bl' ≠ bl ∧ bs !! bl' = Some b') ∨ (bl' = bl ∧ ∃ b, bs !! bl = Some b ∧ b' = F b).
Proof.
destruct (decide (bl = bl')) as [<-|Hne].
- rewrite list_lookup_alter_eq. destruct (bs !! bl) as [b|]; [|done].
  intros [= <-]. right. split; [done|]. by exists b.
- rewrite list_lookup_alter_ne by done. intros Hb. left. by split.
Qed.

(** The battle [bl] stops being active and its timer is cleared: what
  [finishBattle] and [cancelBattle] do. *)
Lemma timers_ok_release bl (F : Battle → Battle) w w' :
bheap w' = alter F bl (bheap w) →
(∀ b, bheap w !! bl = Some b → turnTimer (F b) = turnTimer b) →
(∀ b, bheap w !! bl = Some b → status (F b) ≠ active) →
timers w' = clear_held (getB w bl) (timers w) →
nextHandle w' = nextHandle w →
now w' = now w →
timers_ok w → timers_ok w'.
Proof.
intros Hbh HFt HFs Hts Hn Hnow [Hnd Hp Ha Hh Hi].
assert (Hget : ∀ b, bheap w !! bl = Some b → getB w bl = b)
  by (intros b Hb; unfold getB; by rewrite Hb).
constructor; rewrite ?Hbh, ?Hts, ?Hn, ?Hnow.
- by apply clear_held_NoDup.
- intros t [Hin Hne]%clear_held_elem.
  destruct (Hp t Hin) as (Hlt & Hdl & b & Hb & Hheld & Hst).
  split_and!; [done..|]. exists b. split_and!; [|done..].
  rewrite list_lookup_alter_ne; [done|]. intros Heq. rewrite <- Heq in Hb.
  by rewrite (Hget b Hb) in Hne.
- intros bl' b' [[Hne Hb']|[-> (b & Hb & ->)]]%lookup_alter_cases Hst.
  + destruct (Ha bl' b' Hb' Hst) as (t & Hin & Htb & Hheld).
    exists t. split_and!; [|done..]. apply clear_held_elem. split; [done|].
    intros Hsame. apply Hne.
    destruct (bheap w !! bl) as [b|] eqn:Hb.
    * rewrite (Hget b eq_refl) in Hsame. by apply (Hi bl' bl b' b (handle t)).
    * unfold getB in Hsame. by rewrite Hb in Hsame.
  + by apply HFs in Hst.
- intros bl' b' h [[Hne Hb']|[-> (b & Hb & ->)]]%lookup_alter_cases.
  + by apply (Hh bl' b').
  + rewrite HFt by done. by apply (Hh bl b).
- intros bl1 bl2 b1 b2 h
    [[Hne1 Hb1]|[-> (c1 & Hc1 & ->)]]%lookup_alter_cases
    [[Hne2 Hb2]|[-> (c2 & Hc2 & ->)]]%lookup_alter_cases;
    rewrite ?HFt by done; try done; by eapply Hi.
Qed.

(** The battle [bl] stays as active as it was and keeps its timer. *)
Lemma timers_ok_keep bl (F : Battle → Battle) w w' :
bheap w' = alter F bl (bheap w) →
(∀ b, bheap w !! bl = Some b → turnTimer (F b) = turnTimer b) →
(∀ b, bheap w !! bl = Some b → status (F b) = status b) →
timers w' = timers w →
nextHandle w' = nextHandle w →
now w' = now w →
timers_ok w → timers_ok w'.
Proof.
intros Hbh HFt HFs Hts Hn Hnow [Hnd Hp Ha Hh Hi].
constructor; rewrite ?Hbh, ?Hts, ?Hn, ?Hnow.
- done.
- intros t Hin.
  destruct (Hp t Hin) as (Hlt & Hdl & b & Hb & Hheld & Hst).
  split_and!; [done..|].
  destruct (decide (bl = timer_battle t)) as [Heq|Hne].
  + rewrite <- Heq in *.
    exists (F b). rewrite list_lookup_alter_eq, Hb, HFt, HFs by done. done.
  + exists b. by rewrite list_lookup_alter_ne.
- intros bl' b' [[Hne Hb']|[-> (b & Hb & ->)]]%lookup_alter_cases Hst.
  + by apply Ha.
  + rewrite HFs in Hst by done. rewrite HFt by done. by apply Ha.
- intros bl' b' h [[Hne Hb']|[-> (b & Hb & ->)]]%lookup_alter_cases.
  + by apply (Hh bl' b').
  + rewrite HFt by done. by apply (Hh bl b).
- intros bl1 bl2 b1 b2 h
    [[Hne1 Hb1]|[-> (c1 & Hc1 & ->)]]%lookup_alter_cases
    [[Hne2 Hb2]|[-> (c2 & Hc2 & ->)]]%lookup_alter_cases;
    rewrite ?HFt by done; try done; by eapply Hi.
Qed.

(** The timer of the battle [bl] is cleared and a new one armed: what
  [startTurnTimer] does. *)
Lemma timers_ok_rearm bl (F : Battle → Battle) w w' b :
bheap w !! bl = Some b →
bheap w' = alter F bl (bheap w) →
turnTimer (F b) = Some (nextHandle w) →
status (F b) = active →
timers w' = clear_held b (timers w) ++ [mkTimer (nextHandle w) bl (now w + TURN_TIME)] →
nextHandle w' = S (nextHandle w) →
now w' = now w →
timers_ok w → timers_ok w'.
Proof.
intros Hb Hbh HFt HFs Hts Hn Hnow [Hnd Hp Ha Hh Hi].
assert (Hnew : bheap w' !! bl = Some (F b))
  by (by rewrite Hbh, list_lookup_alter_eq, Hb).
constructor; rewrite ?Hts, ?Hn, ?Hnow.
- rewrite fmap_app. apply NoDup_app. split_and!.
  + by apply clear_held_NoDup.
  + intros h (t & -> & [Hin _]%clear_held_elem)%list_elem_of_fmap.
    simpl. intros Heq%list_elem_of_singleton.
    destruct (Hp t Hin) as (Hlt & _). lia.
  + simpl. apply NoDup_singleton.
- intros t [[Hin Hne]%clear_held_elem | ->%list_elem_of_singleton]%elem_of_app.
  + destruct (Hp t Hin) as (Hlt & Hdl & b' & Hb' & Hheld & Hst).
    split_and!; [lia|done|]. exists b'. split_and!; [|done..].
    rewrite Hbh, list_lookup_alter_ne; [done|]. intros Heq. rewrite <- Heq in Hb'.
    assert (b' = b) as -> by congruence. done.
  + simpl. split_and!; [lia..|]. by exists (F b).
- intros bl' b'. rewrite Hbh.
  intros [[Hne Hb']|[-> (c & Hc & ->)]]%lookup_alter_cases Hst.
  + destruct (Ha bl' b' Hb' Hst) as (t & Hin & Htb & Hheld).
    exists t. split_and!; [|done..]. apply elem_of_app. left.
    apply clear_held_elem. split; [done|].
    intros Hsame. apply Hne. by apply (Hi bl' bl b' b (handle t)).
  + assert (c = b) as -> by congruence.
    exists (mkTimer (nextHandle w) bl (now w + TURN_TIME)).
    split_and!; [|done..]. apply elem_of_app. right. by apply list_elem_of_singleton.
- intros bl' b' h. rewrite Hbh.
  intros [[Hne Hb']|[-> (c & Hc & ->)]]%lookup_alter_cases Hheld.
  + pose proof (Hh bl' b' h Hb' Hheld). lia.
  + assert (c = b) as -> by congruence. rewrite HFt in Hheld.
    injection Hheld as <-. lia.
- intros bl1 bl2 b1 b2 h. rewrite Hbh.
  intros [[Hne1 Hb1]|[-> (c1 & Hc1 & ->)]]%lookup_alter_cases
         [[Hne2 Hb2]|[-> (c2 & Hc2 & ->)]]%lookup_alter_cases H1 H2;
    try done.
  + by eapply Hi.
  + assert (c2 = b) as -> by congruence. rewrite HFt in H2. injection H2 as <-.
    pose proof (Hh bl1 b1 _ Hb1 H1). lia.
  + assert (c1 = b) as -> by congruence. rewrite HFt in H1. injection H1 as <-.
    pose proof (Hh bl2 b2 _ Hb2 H2). lia.
Qed.

(** A new active battle with its first timer: what [battle-accept] does. *)
Lemma timers_ok_accepted_by newId c a w w' :
accepted_by newId c a w w' → timers_ok w → timers_ok w'.
Proof.
intros [Hbh _ _ _ Hts Hn Hnow] [Hnd Hp Ha Hh Hi].
set (b0 := started_battle newId c a w) in *.
set (t0 := mkTimer (nextHandle w) (length (bheap w)) (now w + TURN_TIME)) in *.
assert (Hlook : ∀ bl b, bheap w' !! bl = Some b →
          bheap w !! bl = Some b ∨ (bl = length (bheap w) ∧ b = b0)).
{ intros bl b. rewrite Hbh. intros [?|[Hlen Hb]]%lookup_app_Some; [by left|].
  apply list_lookup_singleton_Some in Hb as [Hz <-]. right. split; [lia|done]. }
assert (Hold : ∀ bl b, bheap w !! bl = Some b → bheap w' !! bl = Some b).
{ intros bl b Hb. rewrite Hbh. by apply lookup_app_l_Some. }
assert (Hfresh : ∀ b, bheap w !! length (bheap w) = Some b → False).
{ intros b Hb%lookup_lt_Some. lia. }
constructor; rewrite ?Hts, ?Hn, ?Hnow.
- rewrite fmap_app. apply NoDup_app. split_and!; [done| |apply NoDup_singleton].
  intros h (t & -> & Hin)%list_elem_of_fmap. simpl. intros Heq%list_elem_of_singleton.
  destruct (Hp t Hin) as (Hlt & _). lia.
- intros t [Hin | ->%list_elem_of_singleton]%elem_of_app.
  + destruct (Hp t Hin) as (Hlt & Hdl & b & Hb & Hheld & Hst).
    split_and!; [lia|done|]. exists b. split_and!; [|done..]. by apply Hold.
  + simpl. split_and!; [lia..|]. exists b0. split_and!; [|done..].
    rewrite Hbh. by rewrite lookup_app_r, Nat.sub_diag.
- intros bl b [Hb|[-> ->]]%Hlook Hst.
  + destruct (Ha bl b Hb Hst) as (t & Hin & Htb & Hheld).
    exists t. split_and!; [|done..]. apply elem_of_app. by left.
  + exists t0. split_and!; [|done..]. apply elem_of_app. right.
    by apply list_elem_of_singleton.
- intros bl b h [Hb|[-> ->]]%Hlook Hheld.
  + pose proof (Hh bl b h Hb Hheld). lia.
  + injection Hheld as <-. lia.
- intros bl1 bl2 b1 b2 h [Hb1|[-> ->]]%Hlook [Hb2|[-> ->]]%Hlook H1 H2; try done.
  + by eapply Hi.
  + injection H2 as <-. pose proof (Hh bl1 b1 _ Hb1 H1). lia.
  + injection H1 as <-. pose proof (Hh bl2 b2 _ Hb2 H2). lia.
Qed.

(** *** The handlers *)

Lemma timers_ok_cancelled_by bl reason freed w w' :
cancelled_by bl reason freed w w' → timers_ok w → timers_ok w'.
Proof.
intros [Hbh _ _ Hts Hn Hnow].
by apply (timers_ok_release bl (cancelled_battle reason w)).
Qed.

Lemma timers_ok_settled bl attackerId isSpecial r rtie w :
attack_accepted bl attackerId isSpecial w →
timers_ok w → timers_ok (settled bl attackerId isSpecial r rtie w).
Proof.
intros (Hst & _) Hok.
pose proof (settled_bheap bl attackerId isSpecial r rtie w Hst) as Hbh.
pose proof (settled_timers bl attackerId isSpecial r rtie w Hst) as Hts.
assert (HFt : ∀ b, bheap w !! bl = Some b →
                   turnTimer (attacked_battle bl attackerId isSpecial r rtie w b)
                   = turnTimer b).
{ intros b _. unfold attacked_battle. cbv zeta. by repeat case_decide. }
destruct (decide (attack_ends bl attackerId isSpecial r w)) as [Hend|Hgo].
- apply (timers_ok_release bl _ _ _ Hbh); try done.
  + intros b Hb. assert (b = getB w bl) as -> by (unfold getB; by rewrite Hb).
    unfold attacked_battle. cbv zeta. destruct Hend as [Hz|Ht].
    * by rewrite decide_True.
    * case_decide; [done|]. by rewrite decide_True.
  + apply settled_nextHandle.
  + apply settled_now.
- apply (timers_ok_keep bl _ _ _ Hbh); try done.
  + intros b Hb. assert (b = getB w bl) as -> by (unfold getB; by rewrite Hb).
    unfold attacked_battle, attack_ends in *. cbv zeta.
    rewrite decide_False by tauto. by rewrite decide_False by tauto.
  + apply settled_nextHandle.
  + apply settled_now.
Qed.

Lemma filter_handle_twice (h : nat) (ts : list Timer) :
filter (λ t, handle t ≠ h) (filter (λ t, handle t ≠ h) ts)
= filter (λ t, handle t ≠ h) ts.
Proof. by apply list_filter_filter_l. Qed.

Lemma timers_ok_timer_fire h w w' :
timer_fire h w = Some w' → timers_ok w → timers_ok w'.
Proof.
intros (k & t & Hk & Hh & Hdue & ->)%timer_fire_cases Hok.
assert (Hin : t ∈ timers w) by (by eapply list_elem_of_lookup_2).
destruct (to_pending w Hok t Hin) as (_ & _ & b & Hb & Hheld & Hst).
rewrite Hh in Hheld.
set (bl := timer_battle t) in *. set (w0 := clearTimeout h w).
assert (Hget : getB w0 bl = b) by (unfold getB; simpl; by rewrite Hb).
assert (Hst0 : status (getB w0 bl) = active) by (by rewrite Hget).
pose proof (turn_timeout_bheap bl w0 Hst0) as Hbh.
pose proof (turn_timeout_timers bl w0 Hst0) as Hts.
pose proof (turn_timeout_nextHandle bl w0 Hst0) as Hn.
rewrite Hget in Hts, Hn.
assert (Hclear : clear_held b (timers w0) = clear_held b (timers w)).
{ unfold clear_held, w0. rewrite Hheld. simpl. apply filter_handle_twice. }
rewrite Hclear in Hts.
destruct (decide (Z.max 0 (getHealth b (currentPlayer b) - 5) ≤ 0)) as [Hz|Hz].
- rewrite app_nil_r in Hts.
  apply (timers_ok_release bl (skipped_battle w0) w); try done.
  + intros b' Hb'. assert (b' = b) as -> by congruence.
    unfold skipped_battle. cbv zeta. by rewrite decide_True.
  + intros b' Hb'. assert (b' = b) as -> by congruence.
    unfold skipped_battle. cbv zeta. by rewrite decide_True.
  + assert (getB w bl = b) as -> by (unfold getB; by rewrite Hb). done.
  + by rewrite turn_timeout_now.
- apply (timers_ok_rearm bl (skipped_battle w0) w _ b); try done.
  + unfold skipped_battle. cbv zeta. by rewrite decide_False.
  + unfold skipped_battle. cbv zeta. by rewrite decide_False.
  + by rewrite turn_timeout_now.
Qed.

Lemma timers_ok_disconnect sid w : wf w → timers_ok w → timers_ok (disconnect sid w).
Proof.
intros Hwf Hok. unfold disconnect.
set (pbs := filter _ (battles w)).
assert (Hpbs : ∀ bl, bl ∈ pbs → bl ∈ battles w).
{ intros bl Hbl. unfold pbs in Hbl. by apply list_elem_of_filter in Hbl as [_ ?]. }
assert (H1 : wf (foldl (disconnect_battle sid) w pbs)
             ∧ battles (foldl (disconnect_battle sid) w pbs) = battles w
             ∧ timers_ok (foldl (disconnect_battle sid) w pbs)).
{ clearbody pbs. revert w Hwf Hok Hpbs.
  induction pbs as [|bl pbs IH]; intros w Hwf Hok Hpbs; simpl; [done|].
  assert (Hbl : bl ∈ battles w) by (apply Hpbs; left).
  destruct (disconnect_battle_form sid w bl Hwf Hbl) as [Hc Hbs].
  destruct (IH (disconnect_battle sid w bl)) as (Hwf' & Hbs' & Hok').
  - eapply stable_wf; [exact Hwf|]. apply stable_disconnect_battle, stable_refl.
  - by eapply timers_ok_cancelled_by.
  - intros bl' Hbl'. rewrite Hbs. apply Hpbs. by right.
  - split_and!; [done| |done]. by rewrite Hbs'. }
destruct H1 as (_ & _ & Hok1). cbv zeta.
destruct (find_player _ sid) as [[i l]|]; by eapply timers_ok_same; [..|exact Hok1].
Qed.

Lemma timers_ok_step w e w' :
wf w → timers_ok w → step w e = Some w' → timers_ok w'.
Proof.
intros Hwf Hok. destruct e as [sid d rn rs|sid d|sid reward|sid tid|sid cid newId
  |sid cid reason|sid bid isSpecial r rtie|sid bid reason|sid|h|dt]; simpl.
- intros [= <-]. by eapply timers_ok_quiet; [apply quiet_player_join|].
- intros [= <-]. by eapply timers_ok_quiet; [apply quiet_player_update|].
- intros [= <-]. by eapply timers_ok_quiet; [apply quiet_claim_task|].
- intros [= <-]. by eapply timers_ok_silent; [apply silent_battle_challenge|].
- intros [= <-]. destruct (decide (accept_rejected sid cid w)) as [Hrej|Hacc].
  + destruct (battle_accept_rejected sid cid newId w Hrej) as [m ->].
    by eapply timers_ok_silent; [apply silent_emit, silent_refl|].
  + destruct (battle_accept_accepted sid cid newId w Hacc)
      as (i & a & j & c & _ & _ & _ & _ & _ & Hab).
    by eapply timers_ok_accepted_by.
- destruct (battle_decline sid cid reason w) as [w1|] eqn:Hd; [|done].
  intros [= <-]. by eapply timers_ok_silent; [eapply silent_battle_decline|].
- intros [= <-].
  destruct (battle_attack_cases sid bid isSpecial r rtie w)
    as [Hs|(i & pl & j & bl & _ & _ & _ & Hacc & Hs)].
  + by eapply timers_ok_silent.
  + eapply timers_ok_silent; [exact Hs|]. by apply timers_ok_settled.
- intros [= <-].
  destruct (battle_cancel_cases sid bid reason w Hwf)
    as [Hs|(i & pl & j & bl & _ & _ & _ & Hc & _)].
  + by eapply timers_ok_silent.
  + by eapply timers_ok_cancelled_by.
- intros [= <-]. by apply timers_ok_disconnect.
- intros Hfire. by eapply timers_ok_timer_fire.
- case_decide; [|done]. intros [= <-].
  eapply timers_ok_same; [..|exact Hok]; try done. simpl. lia.
Qed.

Lemma timers_ok_run evs w w' :
wf w → timers_ok w → run w evs = Some w' → timers_ok w'.
Proof.
revert w. induction evs as [|e evs IH]; intros w Hwf Hok; simpl.
- by intros [= <-].
- destruct (step w e) as [w1|] eqn:Hstep; [|done].
  apply IH; [by eapply wf_step|by eapply timers_ok_step].
Qed.

Lemma reachable_timers_ok w : reachable w → timers_ok w.
Proof.
intros [evs Hrun]. eapply timers_ok_run; [apply wf_init|apply timers_ok_init|exact Hrun].
Qed.

End TimersOk.

(** ** The listed battles and the flags of their players *)

(** What holds of [battles]: no battle is listed twice, every player of a
    listed battle is flagged [inBattle] with the [id] of that battle, no
    player object takes part in two listed battles, and no listed battle is
    cancelled. *)
Record listed_ok (w : World) : Prop := mk_listed_ok {
  lo_nodup : NoDup (battles w);
  lo_flag : ∀ bl l, bl ∈ battles w → l ∈ battle_players (getB w bl) →
    inBattle (deref w l) = true
    ∧ battleId (deref w l) = Some (battle_id (getB w bl));
  lo_one : ∀ bl bl' l, bl ∈ battles w → bl' ∈ battles w →
    l ∈ battle_players (getB w bl) → l ∈ battle_players (getB w bl') → bl = bl';
  lo_live : ∀ bl, bl ∈ battles w → status (getB w bl) ≠ cancelled
}.

Section ListedOk.
Implicit Types (w : World) (l : loc) (bl : bloc) (b : Battle).

Lemma listed_ok_init : listed_ok init.
Proof.
constructor; simpl.
- constructor.
- intros bl l Hbl. by apply elem_of_nil in Hbl.
- intros bl bl' l Hbl. by apply elem_of_nil in Hbl.
- intros bl Hbl. by apply elem_of_nil in Hbl.
Qed.

Lemma participant_allocated w bl l :
wf w → bl ∈ battles w → l ∈ battle_players (getB w bl) →
l ∈ players w ∧ (l < length (pheap w))%nat.
Proof.
intros Hwf Hbl Hl. destruct (wf_battles w Hwf bl Hbl) as (_ & H1 & H2 & _).
assert (Hin : l ∈ players w).
{ unfold battle_players in Hl.
  apply elem_of_cons in Hl as [->|Hl]; [done|].
  by apply list_elem_of_singleton in Hl as ->. }
split; [done|]. by apply lookup_lt_is_Some, (wf_alloc w Hwf).
Qed.

(** The list of battles, their players and [id]s and the flags of the
  allocated players are those of [w], and no listed battle became
  cancelled. *)
Lemma listed_ok_frame w w' :
wf w →
battles w' = battles w →
(∀ bl, bl ∈ battles w →
   player1 (getB w' bl) = player1 (getB w bl)
   ∧ player2 (getB w' bl) = player2 (getB w bl)
   ∧ battle_id (getB w' bl) = battle_id (getB w bl)
   ∧ (status (getB w' bl) = cancelled → status (getB w bl) = cancelled)) →
(∀ l, (l < length (pheap w))%nat →
   inBattle (deref w' l) = inBattle (deref w l)
   ∧ battleId (deref w' l) = battleId (deref w l)) →
listed_ok w → listed_ok w'.
Proof.
intros Hwf Hbs Hb Hfl [Hnd Hflag Hone Hlive].
assert (Hpl : ∀ bl, bl ∈ battles w →
          battle_players (getB w' bl) = battle_players (getB w bl)).
{ intros bl Hbl. destruct (Hb bl Hbl) as (H1 & H2 & _).
  unfold battle_players. by rewrite H1, H2. }
constructor; rewrite ?Hbs.
- done.
- intros bl l Hbl Hl. rewrite Hpl in Hl by done.
  destruct (participant_allocated w bl l Hwf Hbl Hl) as [_ Hlt].
  destruct (Hfl l Hlt) as [-> ->]. destruct (Hb bl Hbl) as (_ & _ & -> & _).
  by apply Hflag.
- intros bl bl' l Hbl Hbl' Hl Hl'. rewrite Hpl in Hl, Hl' by done.
  by apply (Hone bl bl' l).
- intros bl Hbl Hc. destruct (Hb bl Hbl) as (_ & _ & _ & Hst).
  by apply (Hlive bl Hbl), Hst.
Qed.

Lemma listed_ok_heaps w w' :
wf w → pheap w' = pheap w → bheap w' = bheap w → battles w' = battles w →
listed_ok w → listed_ok w'.
Proof.
intros Hwf Hp Hb Hbs. apply listed_ok_frame; [done..| |].
- intros bl _. unfold getB. by rewrite Hb.
- intros l _. unfold deref. by rewrite Hp.
Qed.

Lemma listed_ok_quiet w w' : wf w → quiet w w' → listed_ok w → listed_ok w'.
Proof.
intros Hwf Hq. apply listed_ok_frame; [done|apply Hq| |].
- intros bl _. unfold getB. by rewrite (q_bheap _ _ Hq).
- intros l Hl. split; [by apply (q_inBattle _ _ Hq)|by apply (q_battleId _ _ Hq)].
Qed.

Lemma listed_ok_silent w w' : wf w → silent w w' → listed_ok w → listed_ok w'.
Proof. intros Hwf Hs. by apply listed_ok_quiet, silent_quiet. Qed.

(** One battle object is rewritten, keeping its players and its [id] and
  not becoming cancelled; the flags of the players stay. *)
Lemma listed_ok_alter bl (F : Battle → Battle) w w' :
wf w →
battles w' = battles w →
bheap w' = alter F bl (bheap w) →
(∀ b, player1 (F b) = player1 b) →
(∀ b, player2 (F b) = player2 b) →
(∀ b, battle_id (F b) = battle_id b) →
(∀ b, bheap w !! bl = Some b → status (F b) = cancelled → status b = cancelled) →
(∀ l, inBattle (deref w' l) = inBattle (deref w l)) →
(∀ l, battleId (deref w' l) = battleId (deref w l)) →
listed_ok w → listed_ok w'.
Proof.
intros Hwf Hbs Hbh H1 H2 Hid Hst Hin Hbid.
apply listed_ok_frame; [done..| |by intros l _].
intros bl' Hbl'. split_and!.
- by apply (getB_alter_proj player1 _ _ _ _ _ Hbh).
- by apply (getB_alter_proj player2 _ _ _ _ _ Hbh).
- by apply (getB_alter_proj battle_id _ _ _ _ _ Hbh).
- destruct (decide (bl = bl')) as [<-|Hne].
  + destruct (wf_battles w Hwf bl Hbl') as ([b Hb] & _).
    rewrite (getB_alter_eq _ _ _ _ _ Hbh Hb).
    assert (getB w bl = b) as -> by (unfold getB; by rewrite Hb).
    by apply Hst.
  + by rewrite (getB_alter_ne _ _ _ _ _ Hbh Hne).
Qed.

Lemma listed_ok_settled bl attackerId isSpecial r rtie w :
wf w → attack_accepted bl attackerId isSpecial w →
listed_ok w → listed_ok (settled bl attackerId isSpecial r rtie w).
Proof.
intros Hwf (Hst & _).
pose proof (stable_settled bl attackerId isSpecial r rtie w) as Hs.
apply (listed_ok_alter bl (attacked_battle bl attackerId isSpecial r rtie w));
  [done|apply Hs|by apply settled_bheap|..].
- intros b. unfold attacked_battle. cbv zeta. by repeat case_decide.
- intros b. unfold attacked_battle. cbv zeta. by repeat case_decide.
- intros b. unfold attacked_battle. cbv zeta. by repeat case_decide.
- intros b Hb. assert (b = getB w bl) as -> by (unfold getB; by rewrite Hb).
  unfold attacked_battle. cbv zeta. repeat case_decide; simpl; congruence.
- intros l. by apply (settled_proj inBattle).
- intros l. by apply (settled_proj battleId).
Qed.

Lemma listed_ok_turn_timeout bl w :
wf w → listed_ok w → listed_ok (turn_timeout bl w).
Proof.
intros Hwf. destruct (decide (status (getB w bl) = active)) as [Hst|Hst].
- pose proof (stable_turn_timeout bl w w (stable_refl w)) as Hs.
  apply (listed_ok_alter bl (skipped_battle w));
    [done|apply Hs|by apply turn_timeout_bheap|..].
  + intros b. unfold skipped_battle. cbv zeta. by case_decide.
  + intros b. unfold skipped_battle. cbv zeta. by case_decide.
  + intros b. unfold skipped_battle. cbv zeta. by case_decide.
  + intros b Hb. assert (b = getB w bl) as -> by (unfold getB; by rewrite Hb).
    unfold skipped_battle. cbv zeta. case_decide; simpl; congruence.
  + intros l. by apply (turn_timeout_proj inBattle).
  + intros l. by apply (turn_timeout_proj battleId).
- by rewrite turn_timeout_terminal.
Qed.

(** *** Accepting *)

Lemma flagged_other (f : Player → Player) (a c l : loc) (ps : list Player) :
l ≠ a → l ≠ c → alter f a (alter f c ps) !! l = ps !! l.
Proof. intros Ha Hc. by rewrite !list_lookup_alter_ne. Qed.

Lemma flagged_these newId (a c l : loc) (ps : list Player) :
(l < length ps)%nat → l = a ∨ l = c →
let p := default noPlayer
           (alter (set_inBattle true (Some newId)) a
              (alter (set_inBattle true (Some newId)) c ps) !! l) in
inBattle p = true ∧ battleId p = Some newId.
Proof.
intros Hlt Hl. apply lookup_lt_is_Some in Hlt as [p0 Hp0].
destruct (decide (l = a)) as [->|Hne].
- rewrite list_lookup_alter_eq.
  destruct (decide (a = c)) as [->|Hac].
  + by rewrite list_lookup_alter_eq, Hp0.
  + by rewrite list_lookup_alter_ne, Hp0.
- destruct Hl as [->| ->]; [done|].
  rewrite list_lookup_alter_ne by done.
  by rewrite list_lookup_alter_eq, Hp0.
Qed.

Lemma listed_ok_accepted_by newId c a w w' :
wf w → c ∈ players w → a ∈ players w →
inBattle (deref w c) = false → inBattle (deref w a) = false →
accepted_by newId c a w w' → listed_ok w → listed_ok w'.
Proof.
intros Hwf Hc Ha Hfc Hfa [Hbh Hph _ Hbs _ _ _] [Hnd Hflag Hone Hlive].
set (nb := length (bheap w)) in *.
assert (Hclt : (c < length (pheap w))%nat)
  by (by apply lookup_lt_is_Some, (wf_alloc w Hwf)).
assert (Halt : (a < length (pheap w))%nat)
  by (by apply lookup_lt_is_Some, (wf_alloc w Hwf)).
assert (Hold : ∀ bl, bl ∈ battles w → getB w' bl = getB w bl ∧ bl ≠ nb).
{ intros bl Hbl. destruct (wf_battles w Hwf bl Hbl) as ([b Hb] & _).
  pose proof (lookup_lt_Some _ _ _ Hb) as Hlt. split; [|unfold nb; lia].
  unfold getB. rewrite Hbh. by rewrite lookup_app_l. }
assert (Hnew : getB w' nb = started_battle newId c a w).
{ unfold getB. rewrite Hbh. by rewrite lookup_app_r, Nat.sub_diag. }
assert (Hfree : ∀ bl l, bl ∈ battles w → l ∈ battle_players (getB w bl) →
          l ≠ a ∧ l ≠ c).
{ intros bl l Hbl Hl. destruct (Hflag bl l Hbl Hl) as [Hin _].
  split; intros ->; congruence. }
assert (Hsame : ∀ l, l ≠ a → l ≠ c → deref w' l = deref w l).
{ intros l Hla Hlc. unfold deref. by rewrite Hph, flagged_other. }
assert (Hset : ∀ l, l = a ∨ l = c →
          inBattle (deref w' l) = true ∧ battleId (deref w' l) = Some newId).
{ intros l Hl. unfold deref. rewrite Hph. apply flagged_these; [|done].
  by destruct Hl as [-> | ->]. }
assert (Hnewp : ∀ l, l ∈ battle_players (getB w' nb) → l = a ∨ l = c).
{ intros l. rewrite Hnew. unfold battle_players. simpl.
  intros [->|Hl]%elem_of_cons; [by right|].
  apply list_elem_of_singleton in Hl as ->. by left. }
constructor; rewrite ?Hbs.
- apply NoDup_app. split_and!; [done| |apply NoDup_singleton].
  intros bl Hbl ->%list_elem_of_singleton. by destruct (Hold _ Hbl).
- intros bl l [Hbl | ->%list_elem_of_singleton]%elem_of_app Hl.
  + destruct (Hold bl Hbl) as [Hg _]. rewrite Hg in *.
    destruct (Hfree bl l Hbl Hl) as [Hla Hlc].
    rewrite (Hsame l Hla Hlc). by apply Hflag.
  + rewrite Hnew. simpl. by apply Hset, Hnewp.
- intros bl bl' l [Hbl | ->%list_elem_of_singleton]%elem_of_app
                  [Hbl' | ->%list_elem_of_singleton]%elem_of_app Hl Hl'; [| | |done].
  + destruct (Hold bl Hbl) as [Hg _]. destruct (Hold bl' Hbl') as [Hg' _].
    rewrite Hg in Hl. rewrite Hg' in Hl'. by apply (Hone bl bl' l).
  + destruct (Hold bl Hbl) as [Hg _]. rewrite Hg in Hl.
    destruct (Hfree bl l Hbl Hl) as [Hla Hlc].
    by destruct (Hnewp l Hl') as [-> | ->].
  + destruct (Hold bl' Hbl') as [Hg' _]. rewrite Hg' in Hl'.
    destruct (Hfree bl' l Hbl' Hl') as [Hla Hlc].
    by destruct (Hnewp l Hl) as [-> | ->].
- intros bl [Hbl | ->%list_elem_of_singleton]%elem_of_app.
  + destruct (Hold bl Hbl) as [-> _]. by apply Hlive.
  + by rewrite Hnew.
Qed.

(** *** Cancelling *)

Lemma freed_other (freed : list loc) (ps : list Player) l :
l ∉ freed →
foldl (λ ps l, alter (set_inBattle false None) l ps) ps freed !! l = ps !! l.
Proof.
revert ps. induction freed as [|l' freed IH]; intros ps Hl; simpl; [done|].
apply not_elem_of_cons in Hl as [Hne Hl].
rewrite IH by done. by rewrite list_lookup_alter_ne.
Qed.

Lemma listed_ok_cancel bl reason w w' :
wf w → bl ∈ battles w →
cancelled_by bl reason (battle_players (getB w bl)) w w' →
battles w'
= filter (λ bl', battle_id (getB w bl') ≠ battle_id (getB w bl)) (battles w) →
listed_ok w → listed_ok w'.
Proof.
intros Hwf Hbl [Hbh Hph _ _ _ _] Hbs [Hnd Hflag Hone Hlive].
assert (Hleft : ∀ bl', bl' ∈ battles w' →
          bl' ∈ battles w ∧ battle_id (getB w bl') ≠ battle_id (getB w bl)
          ∧ getB w' bl' = getB w bl').
{ intros bl'. rewrite Hbs. intros [Hne Hin]%list_elem_of_filter.
  split_and!; [done..|]. apply (getB_alter_ne _ _ _ _ _ Hbh). by intros ->. }
assert (Hkeep : ∀ bl' l, bl' ∈ battles w' → l ∈ battle_players (getB w bl') →
          deref w' l = deref w l).
{ intros bl' l Hbl' Hl. destruct (Hleft bl' Hbl') as (Hin & Hne & _).
  unfold deref. rewrite Hph, freed_other; [done|]. intros Hl'.
  destruct (Hflag bl l Hbl Hl') as [_ H1]. destruct (Hflag bl' l Hin Hl) as [_ H2].
  congruence. }
constructor.
- rewrite Hbs. by apply NoDup_filter.
- intros bl' l Hbl' Hl. destruct (Hleft bl' Hbl') as (Hin & _ & Hg).
  rewrite Hg in *. rewrite (Hkeep bl' l Hbl' Hl). by apply Hflag.
- intros bl1 bl2 l Hbl1 Hbl2 Hl1 Hl2.
  destruct (Hleft bl1 Hbl1) as (Hin1 & _ & Hg1).
  destruct (Hleft bl2 Hbl2) as (Hin2 & _ & Hg2).
  rewrite Hg1 in Hl1. rewrite Hg2 in Hl2. by apply (Hone bl1 bl2 l).
- intros bl' Hbl'. destruct (Hleft bl' Hbl') as (Hin & _ & ->). by apply Hlive.
Qed.

(** *** Disconnecting *)

(** The rounds of [disconnect] over the battles [pbs]: the battles outside
  [pbs] keep their status and the players outside the battles of [pbs]
  keep their flags. *)
Lemma disconnect_rounds sid (pbs : list bloc) w :
wf w → (∀ bl, bl ∈ pbs → bl ∈ battles w) →
let w1 := foldl (disconnect_battle sid) w pbs in
wf w1 ∧ stable w w1
∧ (∀ bl, battle_id (getB w1 bl) = battle_id (getB w bl))
∧ (∀ bl, bl ∉ pbs → getB w1 bl = getB w bl)
∧ (∀ l, (∀ bl, bl ∈ pbs → l ∉ battle_players (getB w bl)) → deref w1 l = deref w l).
Proof.
revert w. induction pbs as [|bl pbs IH]; intros w Hwf Hpbs; simpl.
- split_and!; [done|apply stable_refl|done..].
- assert (Hbl : bl ∈ battles w) by (apply Hpbs; left).
  destruct (disconnect_battle_form sid w bl Hwf Hbl) as [[Hbh Hph _ _ _ _] Hbs].
  set (w0 := disconnect_battle sid w bl) in *.
  assert (Hs0 : stable w w0) by apply stable_disconnect_battle, stable_refl.
  assert (Hwf0 : wf w0) by by eapply stable_wf.
  destruct (IH w0 Hwf0) as (Hwf1 & Hs1 & Hid1 & Hout1 & Hfl1).
  { intros bl' Hbl'. rewrite Hbs. apply Hpbs. by right. }
  split_and!.
  + done.
  + by eapply stable_trans.
  + intros bl'. rewrite Hid1. by apply (getB_alter_proj battle_id _ _ _ _ _ Hbh).
  + intros bl' [Hne Hout]%not_elem_of_cons. rewrite Hout1 by done.
    apply (getB_alter_ne _ _ _ _ _ Hbh). by intros ->.
  + intros l Hl. rewrite Hfl1.
    * unfold deref. rewrite Hph. simpl. rewrite list_lookup_alter_ne; [done|].
      intros <-. apply (Hl bl); [by left|]. unfold battle_players.
      destruct (getOpponent_cases w (getB w bl) sid) as [-> | ->];
        [by left|right; by left].
    * intros bl' Hbl'. unfold battle_players.
      rewrite (st_p1 _ _ Hs0), (st_p2 _ _ Hs0). apply Hl. by right.
Qed.

Lemma isParticipant_stable w w' bl sid :
stable w w' → isParticipant w' (getB w' bl) sid = isParticipant w (getB w bl) sid.
Proof.
intros Hs. unfold isParticipant.
by rewrite (st_p1 _ _ Hs), (st_p2 _ _ Hs), !(st_id _ _ Hs).
Qed.

Lemma isParticipant_elem w b sid :
isParticipant w b sid = true ↔ ∃ l, l ∈ battle_players b ∧ player_id (deref w l) = sid.
Proof.
unfold isParticipant, battle_players. rewrite orb_true_iff, !bool_decide_eq_true.
split.
- intros [H|H]; eexists; (split; [|exact H]); [by left|right; by left].
- intros (l & [->|Hl]%elem_of_cons & Hid); [by left|].
  apply list_elem_of_singleton in Hl as ->. by right.
Qed.

Lemma listed_ok_disconnect sid w :
wf w → listed_ok w → listed_ok (disconnect sid w).
Proof.
intros Hwf Hok. pose proof Hok as [Hnd Hflag Hone Hlive]. unfold disconnect.
set (pbs := filter _ (battles w)).
assert (Hpbs : ∀ bl, bl ∈ pbs ↔ isParticipant w (getB w bl) sid = true ∧ bl ∈ battles w).
{ intros bl. unfold pbs. by rewrite list_elem_of_filter. }
destruct (disconnect_rounds sid pbs w Hwf) as (Hwf1 & Hs1 & Hid1 & Hout1 & Hfl1).
{ intros bl Hbl. by apply Hpbs. }
set (w1 := foldl (disconnect_battle sid) w pbs) in *. cbv zeta.
set (bs2 := filter _ (battles w1)).
assert (Hbs2 : ∀ bl, bl ∈ bs2 ↔ bl ∈ battles w ∧ bl ∉ pbs).
{ intros bl. unfold bs2. rewrite list_elem_of_filter, (st_battles _ _ Hs1).
  rewrite (isParticipant_stable w w1 bl sid Hs1), Hpbs.
  destruct (isParticipant w (getB w bl) sid); intuition congruence. }
assert (Hgoal : ∀ w', pheap w' = pheap w1 → bheap w' = bheap w1 → battles w' = bs2 →
          listed_ok w').
{ intros w' Hp' Hb' Hbs'.
  assert (Hg : ∀ bl, getB w' bl = getB w1 bl) by (intros; unfold getB; by rewrite Hb').
  assert (Hd : ∀ l, deref w' l = deref w1 l) by (intros; unfold deref; by rewrite Hp').
  assert (Hkeep : ∀ bl l, bl ∈ bs2 → l ∈ battle_players (getB w bl) →
            deref w1 l = deref w l).
  { intros bl l [Hin Hout]%Hbs2 Hl. apply Hfl1. intros bl' Hbl' Hl'.
    apply Hout. assert (bl = bl') as -> by (apply (Hone bl bl' l); [done|by apply Hpbs|done..]).
    done. }
  constructor; rewrite ?Hbs'.
  - unfold bs2. by apply NoDup_filter; rewrite (st_battles _ _ Hs1).
  - intros bl l Hbl Hl. pose proof Hbl as [Hin Hout]%Hbs2.
    rewrite Hg, Hout1 in * by done. rewrite Hd, (Hkeep bl l Hbl Hl). by apply Hflag.
  - intros bl bl' l Hbl Hbl' Hl Hl'.
    pose proof Hbl as [Hin Hout]%Hbs2. pose proof Hbl' as [Hin' Hout']%Hbs2.
    rewrite Hg, Hout1 in Hl by done. rewrite Hg, Hout1 in Hl' by done.
    by apply (Hone bl bl' l).
  - intros bl [Hin Hout]%Hbs2. rewrite Hg, Hout1 by done. by apply Hlive. }
destruct (find_player _ sid) as [[i l]|]; by apply Hgoal.
Qed.

Lemma listed_ok_step w e w' :
wf w → listed_ok w → step w e = Some w' → listed_ok w'.
Proof.
intros Hwf Hok. destruct e as [sid d rn rs|sid d|sid reward|sid tid|sid cid newId
  |sid cid reason|sid bid isSpecial r rtie|sid bid reason|sid|h|dt]; simpl.
- intros [= <-]. by eapply listed_ok_quiet; [|apply quiet_player_join|].
- intros [= <-]. by eapply listed_ok_quiet; [|apply quiet_player_update|].
- intros [= <-]. by eapply listed_ok_quiet; [|apply quiet_claim_task|].
- intros [= <-]. by eapply listed_ok_silent; [|apply silent_battle_challenge|].
- intros [= <-]. destruct (decide (accept_rejected sid cid w)) as [Hrej|Hacc].
  + destruct (battle_accept_rejected sid cid newId w Hrej) as [m ->].
    by eapply listed_ok_silent; [|apply silent_emit, silent_refl|].
  + destruct (battle_accept_accepted sid cid newId w Hacc)
      as (i & a & j & c & Hfa & Hfc & Hia & Hic & _ & Hab).
    apply find_player_Some in Hfa as [Hfa _]. apply find_player_Some in Hfc as [Hfc _].
    eapply (listed_ok_accepted_by newId c a w); try done;
      by eapply list_elem_of_lookup_2.
- destruct (battle_decline sid cid reason w) as [w1|] eqn:Hd; [|done].
  intros [= <-]. by eapply listed_ok_silent; [|eapply silent_battle_decline|].
- intros [= <-].
  destruct (battle_attack_cases sid bid isSpecial r rtie w)
    as [Hs|(i & pl & j & bl & _ & _ & _ & Hacc & Hs)].
  + by eapply listed_ok_silent.
  + eapply listed_ok_silent; [|exact Hs|].
    * eapply stable_wf; [exact Hwf|]. apply stable_settled.
    * by apply listed_ok_settled.
- intros [= <-].
  destruct (battle_cancel_cases sid bid reason w Hwf)
    as [Hs|(i & pl & j & bl & _ & Hfb & _ & Hc & Hbs)].
  + by eapply listed_ok_silent.
  + eapply listed_ok_cancel; [done|by eapply find_battle_listed|exact Hc|exact Hbs|done].
- intros [= <-]. by apply listed_ok_disconnect.
- intros (k & t & _ & _ & _ & ->)%timer_fire_cases.
  apply listed_ok_turn_timeout.
  + eapply stable_wf; [exact Hwf|]. apply stable_clearTimeout, stable_refl.
    + by apply (listed_ok_heaps w).
- case_decide; [|done]. intros [= <-]. by apply (listed_ok_heaps w).
Qed.

Lemma listed_ok_run evs w w' :
wf w → listed_ok w → run w evs = Some w' → listed_ok w'.
Proof.
revert w. induction evs as [|e evs IH]; intros w Hwf Hok; simpl.
- by intros [= <-].
- destruct (step w e) as [w1|] eqn:Hstep; [|done].
  apply IH; [by eapply wf_step|by eapply listed_ok_step].
Qed.

Lemma reachable_listed_ok w : reachable w → listed_ok w.
Proof.
intros [evs Hrun]. eapply listed_ok_run; [apply wf_init|apply listed_ok_init|exact Hrun].
Qed.

End ListedOk.

(** ** Results on every reachable state *)

Section ReachableFacts.
Implicit Types (w : World) (l : loc) (bl : bloc) (b : Battle) (t : Timer).

Lemma NoDup_fmap_eq {A B} (f : A → B) (xs : list A) x y :
NoDup (f <$> xs) → x ∈ xs → y ∈ xs → f x = f y → x = y.
Proof.
induction xs as [|z xs IH]; simpl; [by intros _ ?%elem_of_nil|].
intros [Hz Hnd]%NoDup_cons [->|Hx]%elem_of_cons [->|Hy]%elem_of_cons Hf; [done|..].
- exfalso. apply Hz. rewrite Hf. by apply list_elem_of_fmap_2.
- exfalso. apply Hz. rewrite <- Hf. by apply list_elem_of_fmap_2.
- by apply IH.
Qed.

Lemma getB_lookup w bl b : bheap w !! bl = Some b → getB w bl = b.
Proof. intros Hb. unfold getB. by rewrite Hb. Qed.

(** The timer of an active battle can fire after a wait of no more than
  [TURN_TIME]. *)
Lemma timeout_round w bl b :
reachable w → bheap w !! bl = Some b → status b = active →
∃ h dt, 0 ≤ dt ≤ TURN_TIME
  ∧ run w [EvWait dt; EvTimer h]
    = Some (turn_timeout bl (clearTimeout h (set_now (now w + dt) w))).
Proof.
intros Hr Hb Hst. destruct (reachable_timers_ok w Hr) as [Hnd Hp Ha Hh Hi].
destruct (Ha bl b Hb Hst) as (t & Hin & Htb & Hheld).
destruct (Hp t Hin) as (_ & Hdue & _).
set (dt := Z.max 0 (deadline t - now w)).
set (w1 := set_now (now w + dt) w).
assert (Hfind : ∃ k, list_find (λ t', handle t' = handle t) (timers w1) = Some (k, t)).
{ destruct (list_find_elem_of (λ t', handle t' = handle t) (timers w) t Hin eq_refl)
    as [[k t'] Hf].
  exists k. change (timers w1) with (timers w). rewrite Hf.
  apply list_find_Some in Hf as (Hk & Hh' & _).
  assert (t' = t) as ->; [|done].
  apply (NoDup_fmap_eq handle (timers w)); [done| |done..].
  by eapply list_elem_of_lookup_2. }
destruct Hfind as [k Hfind].
exists (handle t), dt. split; [unfold dt, TURN_TIME in *; lia|].
simpl. rewrite decide_True by (unfold dt; lia). fold w1.
unfold timer_fire. rewrite Hfind, Htb.
rewrite decide_True by (unfold w1, dt; simpl; lia). done.
Qed.

End ReachableFacts.

(** X1 (class [Battle], lines 142-159, 176-247, 250-273, 312-351).
    Every [Battle] object of every reachable state: the turn counter is not
    negative; it is the turn of player 1 on even turns and of player 2 on odd
    turns; [health] has an entry for the two players and for nobody else; an
    active battle has no winner and exactly one logged action per turn; a
    finished battle has one of its two players as winner. *)
Theorem battle_record_invariant (w : World) (bl : bloc) (b : Battle) :
  reachable w → bheap w !! bl = Some b →
  let id1 := player_id (deref w (player1 b)) in
  let id2 := player_id (deref w (player2 b)) in
  0 ≤ turn b
  ∧ currentPlayer b = (if Z.even (turn b) then id1 else id2)
  ∧ dom (health b) = ({[id1; id2]} : gset string)
  ∧ (status b = active → winner b = None ∧ Z.of_nat (length (actions b)) = turn b)
  ∧ (status b = finished → ∃ id, winner b = Some id ∧ (id = id1 ∨ id = id2)).
Proof.
  intros Hr Hb id1 id2.
  destruct (reachable_battles_ok w Hr bl b Hb) as [_ _ Ht Hm Ha Hf Hh].
  split_and!; done.
Qed.

Lemma battle_record_invariant_witness :
  let b := getB Worlds.started 0%nat in
  0 ≤ turn b
  ∧ currentPlayer b = (if Z.even (turn b) then "sA" else "sB")
  ∧ dom (health b) = ({["sA"; "sB"]} : gset string)
  ∧ (status b = active → winner b = None ∧ Z.of_nat (length (actions b)) = turn b)
  ∧ (status b = finished → ∃ id, winner b = Some id ∧ (id = "sA" ∨ id = "sB")).
Proof.
  exact (battle_record_invariant Worlds.started 0%nat (getB Worlds.started 0%nat)
           reachable_started eq_refl).
Defined.

(** X2 ([startTurnTimer], lines 312-351; [finishBattle], lines
    266-269; [cancelBattle], lines 365-367).  In every reachable state an
    active battle has exactly one pending timer, the one it holds in
    [turnTimer], and that timer is due no later than [TURN_TIME] from now;
    a battle that is finished or cancelled has no pending timer. *)
Theorem active_battle_has_its_timer (w : World) (bl : bloc) (b : Battle) :
  reachable w → bheap w !! bl = Some b →
  (status b = active →
     ∃ t, t ∈ timers w ∧ timer_battle t = bl ∧ turnTimer b = Some (handle t)
        ∧ deadline t ≤ now w + TURN_TIME
        ∧ ∀ t', t' ∈ timers w → timer_battle t' = bl → t' = t)
  ∧ (status b ≠ active → ∀ t, t ∈ timers w → timer_battle t ≠ bl).
Proof.
  intros Hr Hb. destruct (reachable_timers_ok w Hr) as [Hnd Hp Ha Hh Hi]. split.
  - intros Hst. destruct (Ha bl b Hb Hst) as (t & Hin & Htb & Hheld).
    exists t. split_and!; [done..| |].
    + by destruct (Hp t Hin) as (_ & ? & _).
    + intros t' Hin' Htb'. destruct (Hp t' Hin') as (_ & _ & b' & Hb' & Hheld' & _).
      rewrite Htb' in Hb'. assert (b' = b) as -> by congruence.
      apply (NoDup_fmap_eq handle (timers w)); [done..|]. congruence.
  - intros Hst t Hin Htb. destruct (Hp t Hin) as (_ & _ & b' & Hb' & _ & Hst').
    rewrite Htb in Hb'. congruence.
Qed.

Lemma active_battle_has_its_timer_witness :
  ∃ t, t ∈ timers Worlds.started ∧ timer_battle t = 0%nat
     ∧ deadline t ≤ now Worlds.started + TURN_TIME.
Proof.
  destruct (active_battle_has_its_timer Worlds.started 0%nat
              (getB Worlds.started 0%nat) reachable_started eq_refl) as [H _].
  destruct (H eq_refl) as (t & Hin & Htb & _ & Hdue & _).
  exists t. by split_and!.
Defined.

(** X3 ([startTurnTimer], lines 317-350).  An active battle of a
    reachable state never hangs: after waiting no more than [TURN_TIME] its
    timer can fire, and when it has fired the battle is finished or has
    moved on by one turn. *)
Theorem timeout_is_always_possible (w : World) (bl : bloc) (b : Battle) :
  reachable w → bheap w !! bl = Some b → status b = active →
  ∃ h dt w', 0 ≤ dt ≤ TURN_TIME
    ∧ run w [EvWait dt; EvTimer h] = Some w'
    ∧ (status (getB w' bl) = finished
       ∨ (status (getB w' bl) = active ∧ turn (getB w' bl) = turn b + 1)).
Proof.
  intros Hr Hb Hst. destruct (timeout_round w bl b Hr Hb Hst) as (h & dt & Hdt & Hrun).
  exists h, dt. eexists. split; [done|]. split; [exact Hrun|].
  set (w2 := clearTimeout h (set_now (now w + dt) w)).
  assert (Hg : getB w2 bl = b) by (apply getB_lookup; exact Hb).
  assert (Hst2 : status (getB w2 bl) = active) by (by rewrite Hg).
  rewrite (turn_timeout_getB bl w2 Hst2). cbv zeta. rewrite Hg.
  destruct (decide (_ ≤ 0)); simpl; [by left|right]. by rewrite Hst.
Qed.

Lemma timeout_is_always_possible_witness :
  ∃ h dt w', 0 ≤ dt ≤ TURN_TIME
    ∧ run Worlds.started [EvWait dt; EvTimer h] = Some w'
    ∧ (status (getB w' 0%nat) = finished
       ∨ (status (getB w' 0%nat) = active ∧ turn (getB w' 0%nat) = 0 + 1)).
Proof.
  exact (timeout_is_always_possible Worlds.started 0%nat (getB Worlds.started 0%nat)
           reachable_started eq_refl eq_refl).
Defined.

(** X4 ([battle-accept], lines 715-722; [battle-cancel], lines
    808-820; [disconnect], lines 843-866).  In every reachable state no
    battle is listed twice in [battles]; both players of a listed battle are
    registered and flagged [inBattle] with the [id] of that battle; no player
    object takes part in two listed battles; and a listed battle is active
    or finished, never cancelled. *)
Theorem listed_battles_hold_their_players (w : World) :
  reachable w →
  NoDup (battles w)
  ∧ (∀ bl l, bl ∈ battles w → l ∈ battle_players (getB w bl) →
       l ∈ players w ∧ inBattle (deref w l) = true
       ∧ battleId (deref w l) = Some (battle_id (getB w bl)))
  ∧ (∀ bl bl' l, bl ∈ battles w → bl' ∈ battles w →
       l ∈ battle_players (getB w bl) → l ∈ battle_players (getB w bl') → bl = bl')
  ∧ (∀ bl, bl ∈ battles w →
       status (getB w bl) = active ∨ status (getB w bl) = finished).
Proof.
  intros Hr. pose proof (reachable_wf w Hr) as Hwf.
  destruct (reachable_listed_ok w Hr) as [Hnd Hflag Hone Hlive].
  split_and!; [done| |done|].
  - intros bl l Hbl Hl. destruct (participant_allocated w bl l Hwf Hbl Hl) as [Hin _].
    destruct (Hflag bl l Hbl Hl). done.
  - intros bl Hbl. pose proof (Hlive bl Hbl).
    destruct (status (getB w bl)); auto. done.
Qed.

Lemma listed_battles_hold_their_players_witness :
  NoDup (battles Worlds.started)
  ∧ (∀ bl, bl ∈ battles Worlds.started →
       status (getB Worlds.started bl) = active
       ∨ status (getB Worlds.started bl) = finished).
Proof.
  destruct (listed_battles_hold_their_players Worlds.started reachable_started)
    as (H1 & _ & _ & H4).
  exact (conj H1 H4).
Defined.

(** X5 ([battle-challenge], lines 671-674; [battle-accept], lines
    704-707).  In every reachable state a player of a listed battle, be it
    finished, can neither challenge nor be challenged, neither accept nor be
    accepted: whenever the sender or the other player named is a participant
    of a listed battle, [battle-challenge] and [battle-accept] only answer
    with a [battle-error] and change nothing else. *)
Theorem busy_player_starts_no_battle (w : World) (bl : bloc)
    (sid other newId : string) :
  reachable w → bl ∈ battles w →
  isParticipant w (getB w bl) sid = true ∨ isParticipant w (getB w bl) other = true →
  (∃ message, battle_challenge sid other w = emit (battle_error sid message) w)
  ∧ (∃ message, battle_accept sid other newId w = emit (battle_error sid message) w).
Proof.
  intros Hr Hbl Hpart. pose proof (reachable_wf w Hr) as Hwf.
  destruct (reachable_listed_ok w Hr) as [_ Hflag _ _].
  assert (Hbusy : ∀ id i l, isParticipant w (getB w bl) id = true →
            find_player w id = Some (i, l) → inBattle (deref w l) = true).
  { intros id i l (l' & Hl' & Hid)%isParticipant_elem Hf.
    destruct (participant_allocated w bl l' Hwf Hbl Hl') as [Hin' _].
    apply find_player_Some in Hf as [Hi Hid'].
    assert (l = l') as ->.
    { apply (wf_ids_inj w); [done|by eapply list_elem_of_lookup_2|done|congruence]. }
    by destruct (Hflag bl l' Hbl Hl'). }
  split.
  - unfold battle_challenge.
    destruct (find_player w sid) as [[i c]|] eqn:Hfs; [|by eexists].
    destruct (find_player w other) as [[j t]|] eqn:Hft; [|by eexists].
    case_decide; [by eexists|].
    assert (Hor : inBattle (deref w c) || inBattle (deref w t) = true).
    { apply orb_true_iff. destruct Hpart as [Hp|Hp]; [left|right]; by eapply Hbusy. }
    rewrite Hor. by eexists.
  - apply battle_accept_rejected. unfold accept_rejected.
    destruct (find_player w sid) as [[i a]|] eqn:Hfs; [|done].
    destruct (find_player w other) as [[j c]|] eqn:Hft; [|done].
    destruct Hpart as [Hp|Hp]; [left|right; left]; by eapply Hbusy.
Qed.

Lemma busy_player_starts_no_battle_witness :
  (∃ message, battle_challenge "sA" "sC" Worlds.won
              = emit (battle_error "sA" message) Worlds.won)
  ∧ (∃ message, battle_accept "sA" "sC" "battle_2" Worlds.won
                = emit (battle_error "sA" message) Worlds.won).
Proof.
  apply (busy_player_starts_no_battle Worlds.won 0%nat "sA" "sC" "battle_2").
  - exists Scenario.won. vm_compute. reflexivity.
  - vm_compute. apply list_elem_of_here.
  - left. vm_compute. reflexivity.
Defined.

(** X6 ([player-join], lines 409-436; [disconnect], lines
    868-872).  In every reachable state the registered players have
    pairwise different [id]s and each of them is what a search of [players]
    by its [id] finds. *)
Theorem registry_ids_are_distinct (w : World) :
  reachable w →
  NoDup (ids w)
  ∧ ∀ l, l ∈ players w →
      is_Some (pheap w !! l)
      ∧ ∃ i, find_player w (player_id (deref w l)) = Some (i, l).
Proof.
  intros Hr. pose proof (reachable_wf w Hr) as Hwf. split; [apply Hwf|].
  intros l Hl. split; [by apply (wf_alloc w Hwf)|].
  by apply find_player_registered.
Qed.

Lemma registry_ids_are_distinct_witness :
  NoDup (ids Worlds.started)
  ∧ ∃ i, find_player Worlds.started "sB" = Some (i, 1%nat).
Proof.
  destruct (registry_ids_are_distinct Worlds.started reachable_started) as [H1 H2].
  split; [exact H1|].
  destruct (H2 1%nat) as [_ H3]; [|exact H3].
  apply list_elem_of_further, list_elem_of_here.
Defined.

(** ** Leaving a battle *)

Section Leaving.
Implicit Types (w : World) (l : loc) (bl : bloc) (b : Battle) (t : Timer).

Lemma cancelled_by_status bl reason freed w w' b :
cancelled_by bl reason freed w w' → bheap w !! bl = Some b →
getB w' bl = cancelled_battle reason w b.
Proof. intros [Hbh _ _ _ _ _] Hb. by apply (getB_alter_eq _ _ _ _ _ Hbh). Qed.

Lemma cancelled_by_freed bl reason freed w w' l :
cancelled_by bl reason freed w w' → (l < length (pheap w))%nat → l ∈ freed →
inBattle (deref w' l) = false ∧ battleId (deref w' l) = None.
Proof.
intros [_ Hph _ _ _ _] Hlt Hl. unfold deref. rewrite Hph. clear Hph.
revert Hlt. generalize (pheap w). induction freed as [|l' freed IH]; intros ps Hlt.
- by apply elem_of_nil in Hl.
- simpl. destruct (decide (l ∈ freed)) as [Hin|Hout].
  + apply IH; [done|]. by rewrite length_alter.
  + apply elem_of_cons in Hl as [<-|?]; [|done].
    rewrite freed_other by done. rewrite list_lookup_alter_eq.
    apply lookup_lt_is_Some in Hlt as [p ->]. done.
Qed.

Lemma cancelled_by_others bl reason freed w w' l :
cancelled_by bl reason freed w w' → l ∉ freed → deref w' l = deref w l.
Proof. intros [_ Hph _ _ _ _] Hl. unfold deref. by rewrite Hph, freed_other. Qed.

(** With the timers in order, clearing the timer a battle holds removes the
  timers of that battle and no other. *)
Lemma clear_held_battle w bl b t :
timers_ok w → bheap w !! bl = Some b →
t ∈ clear_held b (timers w) ↔ t ∈ timers w ∧ timer_battle t ≠ bl.
Proof.
intros [Hnd Hp Ha Hh Hi] Hb. rewrite clear_held_elem. split.
- intros [Hin Hne]. split; [done|]. intros Htb.
  destruct (Hp t Hin) as (_ & _ & b' & Hb' & Hheld & _).
  rewrite Htb in Hb'. congruence.
- intros [Hin Hne]. split; [done|]. intros Hheld. apply Hne.
  destruct (Hp t Hin) as (_ & _ & b' & Hb' & Hheld' & _).
  by apply (Hi (timer_battle t) bl b' b (handle t)).
Qed.

End Leaving.

(** X7 ([battle-cancel], lines 794-824; [cancelBattle], lines
    362-377).  In a reachable state, when a registered participant cancels a
    listed battle: the battle is cancelled and the cancel action is the last
    entry of its log; its two players, and no other player, are released;
    every battle with that [id] leaves [battles]; the timers of the battle,
    and no other, leave the pending timers; the registry is unchanged. *)
Theorem cancel_releases_players (w : World) (sid battleId0 : string)
    (reason : option string) (i j : nat) (pl : loc) (bl : bloc) :
  reachable w →
  find_player w sid = Some (i, pl) →
  find_battle w battleId0 = Some (j, bl) →
  isParticipant w (getB w bl) sid = true →
  let w' := battle_cancel sid battleId0 reason w in
  status (getB w' bl) = cancelled
  ∧ last (actions (getB w' bl))
    = Some (CancelAction (str_or reason "Баттл отменен участником") (now w))
  ∧ (∀ l, l ∈ battle_players (getB w bl) →
       inBattle (deref w' l) = false ∧ battleId (deref w' l) = None)
  ∧ (∀ l, l ∉ battle_players (getB w bl) → deref w' l = deref w l)
  ∧ (∀ bl', bl' ∈ battles w' ↔ bl' ∈ battles w ∧ battle_id (getB w bl') ≠ battleId0)
  ∧ (∀ t, t ∈ timers w' ↔ t ∈ timers w ∧ timer_battle t ≠ bl)
  ∧ players w' = players w.
Proof.
  intros Hr Hfp Hfb Hpart w'. subst w'.
  pose proof (reachable_wf w Hr) as Hwf.
  pose proof (find_battle_listed _ _ _ _ Hfb) as Hbl.
  destruct (wf_battles w Hwf bl Hbl) as ([b Hb] & _).
  pose proof (getB_lookup w bl b Hb) as Hg.
  assert (Hid : battle_id (getB w bl) = battleId0)
    by (by apply list_find_Some in Hfb as (_ & ? & _)).
  destruct (battle_cancel_done sid battleId0 reason w i pl j bl Hwf Hfp Hfb Hpart)
    as [Hc Hbs].
  fold (battle_players (getB w bl)) in Hc.
  split_and!.
  - by rewrite (cancelled_by_status _ _ _ _ _ _ Hc Hb).
  - rewrite (cancelled_by_status _ _ _ _ _ _ Hc Hb). simpl. by rewrite last_snoc.
  - intros l Hl. apply (cancelled_by_freed _ _ _ _ _ _ Hc); [|done].
    by apply (participant_allocated w bl l Hwf Hbl).
  - intros l Hl. by apply (cancelled_by_others _ _ _ _ _ _ Hc).
  - intros bl'. by rewrite Hbs, list_elem_of_filter, Hid, (comm and).
  - intros t. rewrite (cb_timers _ _ _ _ _ Hc), Hg.
    by apply clear_held_battle; [apply reachable_timers_ok|].
  - apply Hc.
Qed.

Lemma cancel_releases_players_witness :
  let w' := battle_cancel "sB" "battle_1" None Worlds.started in
  status (getB w' 0%nat) = cancelled
  ∧ (∀ l, l ∈ battle_players (getB Worlds.started 0%nat) →
       inBattle (deref w' l) = false ∧ battleId (deref w' l) = None)
  ∧ (∀ t, t ∈ timers w' ↔ t ∈ timers Worlds.started ∧ timer_battle t ≠ 0%nat).
Proof.
  destruct (cancel_releases_players Worlds.started "sB" "battle_1" None
              1%nat 0%nat 1%nat 0%nat reachable_started eq_refl eq_refl eq_refl)
    as (H1 & _ & H3 & _ & _ & H6 & _).
  exact (conj H1 (conj H3 H6)).
Defined.

Section Disconnecting.
Implicit Types (w : World) (l : loc) (bl : bloc) (b : Battle).

(** The rounds of [disconnect] cancel each battle of [pbs] and release in
  each the opponent of the leaving player; what is cancelled stays
  cancelled and who is free stays free. *)
Lemma disconnect_rounds_cancel sid (pbs : list bloc) w :
wf w → (∀ bl, bl ∈ pbs → bl ∈ battles w) →
let w1 := foldl (disconnect_battle sid) w pbs in
(∀ bl, status (getB w bl) = cancelled → status (getB w1 bl) = cancelled)
∧ (∀ l, inBattle (deref w l) = false → battleId (deref w l) = None →
     inBattle (deref w1 l) = false ∧ battleId (deref w1 l) = None)
∧ (∀ bl, bl ∈ pbs →
     status (getB w1 bl) = cancelled
     ∧ inBattle (deref w1 (getOpponent w (getB w bl) sid)) = false
     ∧ battleId (deref w1 (getOpponent w (getB w bl) sid)) = None).
Proof.
revert w. induction pbs as [|bl pbs IH]; intros w Hwf Hpbs; simpl.
- split_and!; [done..|]. intros bl Hbl. by apply elem_of_nil in Hbl.
- assert (Hbl : bl ∈ battles w) by (apply Hpbs; left).
  destruct (disconnect_battle_form sid w bl Hwf Hbl) as [Hc Hbs].
  set (w0 := disconnect_battle sid w bl) in *.
  assert (Hs0 : stable w w0) by apply stable_disconnect_battle, stable_refl.
  assert (Hwf0 : wf w0) by by eapply stable_wf.
  destruct (IH w0 Hwf0) as (Hst1 & Hfree1 & Hpbs1).
  { intros bl' Hbl'. rewrite Hbs. apply Hpbs. by right. }
  destruct (wf_battles w Hwf bl Hbl) as ([b Hb] & _).
  set (o := getOpponent w (getB w bl) sid) in *.
  assert (Ho : (o < length (pheap w))%nat).
  { apply (participant_allocated w bl o Hwf Hbl). unfold battle_players, o.
    destruct (getOpponent_cases w (getB w bl) sid) as [-> | ->];
      [by left|right; by left]. }
  assert (Hst0 : ∀ bl', status (getB w bl') = cancelled →
            status (getB w0 bl') = cancelled).
  { intros bl' Hst. destruct (decide (bl = bl')) as [<-|Hne].
    - by rewrite (cancelled_by_status _ _ _ _ _ _ Hc Hb).
    - by rewrite (getB_alter_ne _ _ _ _ _ (cb_bheap _ _ _ _ _ Hc) Hne). }
  assert (Hfree0 : ∀ l, inBattle (deref w l) = false → battleId (deref w l) = None →
            inBattle (deref w0 l) = false ∧ battleId (deref w0 l) = None).
  { intros l Hin Hbid. destruct (decide (l = o)) as [->|Hne].
    - apply (cancelled_by_freed _ _ _ _ _ _ Hc); [done|by left].
    - rewrite (cancelled_by_others _ _ _ _ _ _ Hc); [done|].
      by intros ->%list_elem_of_singleton. }
  split_and!.
  + intros bl' Hst. by apply Hst1, Hst0.
  + intros l Hin Hbid. destruct (Hfree0 l Hin Hbid). by apply Hfree1.
  + intros bl' [->|Hbl']%elem_of_cons.
    * split.
      { apply Hst1. by rewrite (cancelled_by_status _ _ _ _ _ _ Hc Hb). }
      apply Hfree1; by apply (cancelled_by_freed _ _ _ _ _ _ Hc); [|left].
    * destruct (Hpbs1 bl' Hbl') as (H1 & H2 & H3).
      assert (Hop : getOpponent w0 (getB w0 bl') sid = getOpponent w (getB w bl') sid).
      { unfold getOpponent. by rewrite (st_p1 _ _ Hs0), (st_p2 _ _ Hs0), !(st_id _ _ Hs0). }
      rewrite Hop in H2, H3. done.
Qed.

Lemma delete_elem_of {A} (xs : list A) (i : nat) (x : A) :
x ∈ delete i xs → x ∈ xs.
Proof.
intros Hx. eapply elem_of_sublist; [exact Hx|]. apply sublist_delete.
Qed.

Lemma delete_not_elem_of {A} (xs : list A) (i : nat) (x : A) :
NoDup xs → xs !! i = Some x → x ∉ delete i xs.
Proof.
intros Hnd Hx. rewrite (delete_Permutation xs i x Hx) in Hnd.
by apply NoDup_cons in Hnd as [? _].
Qed.

(** Taking the object found for [sid] from the registry leaves no player
  of that [id] registered. *)
Lemma find_player_deleted w i l sid :
wf w → find_player w sid = Some (i, l) →
find_player (set_players (delete i (players w)) w) sid = None.
Proof.
intros Hwf Hf. pose proof (find_player_Some _ _ _ _ Hf) as [Hi Hid].
unfold find_player. apply list_find_None, Forall_forall.
intros l' Hl' Hid'.
change (players (set_players ?ps w)) with ps in Hl'.
change (deref (set_players ?ps w) l') with (deref w l') in Hid'.
pose proof (delete_elem_of _ _ _ Hl') as Hin.
assert (l' = l) as ->.
{ apply (wf_ids_inj w); [done..|by eapply list_elem_of_lookup_2|congruence]. }
pose proof (wf_ids w Hwf) as Hnd. apply NoDup_fmap_1 in Hnd.
by apply (delete_not_elem_of (players w) i l).
Qed.

Lemma reachable_step w e w' : reachable w → step w e = Some w' → reachable w'.
Proof.
intros [evs Hrun] Hstep. exists (evs ++ [e]).
revert Hrun. generalize init. induction evs as [|e0 evs IH]; intros w0; simpl.
- intros [= ->]. by rewrite Hstep.
- destruct (step w0 e0); [apply IH|done].
Qed.

(** The world [disconnect] ends in, up to the log: the rounds, then the
  battles of the leaving player off the list, then the player off the
  registry. *)
Lemma disconnect_form sid w :
let pbs := filter (λ bl, isParticipant w (getB w bl) sid = true) (battles w) in
let w1 := foldl (disconnect_battle sid) w pbs in
let w' := disconnect sid w in
pheap w' = pheap w1 ∧ bheap w' = bheap w1 ∧ timers w' = timers w1
∧ battles w' = filter (λ bl, isParticipant w1 (getB w1 bl) sid = false) (battles w1)
∧ players w' = match find_player w1 sid with
               | Some (i, _) => delete i (players w1)
               | None => players w1
               end.
Proof.
intros pbs w1 w'. subst w'. unfold disconnect. fold pbs. fold w1. cbv zeta.
set (w2 := set_battles _ w1).
change (find_player w2 sid) with (find_player w1 sid).
destruct (find_player w1 sid) as [[i l]|]; done.
Qed.

End Disconnecting.

(** X8 ([disconnect], lines 839-884).  In a reachable state,
    after a socket disconnects: no player of its [id] is registered and the
    other players are; the battles it took part in, and only those, left
    [battles]; each of them is cancelled, has no pending timer, and the
    opponent in it is released; the battles still listed and the players
    outside the cancelled battles are untouched. *)
Theorem disconnect_cleans_up (w : World) (sid : string) :
  reachable w →
  let w' := disconnect sid w in
  find_player w' sid = None
  ∧ (∀ l, l ∈ players w' ↔ l ∈ players w ∧ player_id (deref w l) ≠ sid)
  ∧ (∀ bl, bl ∈ battles w' ↔ bl ∈ battles w ∧ isParticipant w (getB w bl) sid = false)
  ∧ (∀ bl, bl ∈ battles w' → getB w' bl = getB w bl)
  ∧ (∀ bl, bl ∈ battles w → isParticipant w (getB w bl) sid = true →
       status (getB w' bl) = cancelled
       ∧ inBattle (deref w' (getOpponent w (getB w bl) sid)) = false
       ∧ battleId (deref w' (getOpponent w (getB w bl) sid)) = None
       ∧ ∀ t, t ∈ timers w' → timer_battle t ≠ bl)
  ∧ (∀ l, (∀ bl, bl ∈ battles w → isParticipant w (getB w bl) sid = true →
             l ∉ battle_players (getB w bl)) →
       deref w' l = deref w l).
Proof.
  intros Hr w'. pose proof (reachable_wf w Hr) as Hwf.
  assert (Hr' : reachable w') by (by apply (reachable_step w (EvDisconnect sid))).
  destruct (disconnect_form sid w) as (Hph & Hbh & Hts & Hbs & Hps). fold w' in Hph, Hbh, Hts, Hbs, Hps.
  set (pbs := filter (λ bl, isParticipant w (getB w bl) sid = true) (battles w)) in *.
  assert (Hpbs : ∀ bl, bl ∈ pbs ↔ isParticipant w (getB w bl) sid = true ∧ bl ∈ battles w).
  { intros bl. unfold pbs. by rewrite list_elem_of_filter. }
  assert (Hsub : ∀ bl, bl ∈ pbs → bl ∈ battles w) by (intros bl Hbl; by apply Hpbs).
  destruct (disconnect_rounds sid pbs w Hwf Hsub) as (Hwf1 & Hs1 & Hid1 & Hout1 & Hfl1).
  destruct (disconnect_rounds_cancel sid pbs w Hwf Hsub) as (_ & _ & Hc1).
  set (w1 := foldl (disconnect_battle sid) w pbs) in *.
  assert (Hg : ∀ bl, getB w' bl = getB w1 bl) by (intros; unfold getB; by rewrite Hbh).
  assert (Hd : ∀ l, deref w' l = deref w1 l) by (intros; unfold deref; by rewrite Hph).
  assert (Hbs' : ∀ bl, bl ∈ battles w' ↔ bl ∈ battles w ∧ bl ∉ pbs).
  { intros bl. rewrite Hbs, list_elem_of_filter, (st_battles _ _ Hs1).
    rewrite (isParticipant_stable w w1 bl sid Hs1), Hpbs.
    destruct (isParticipant w (getB w bl) sid); intuition congruence. }
  assert (Hfind : find_player w1 sid = find_player w sid).
  { apply find_player_ext; [apply Hs1|apply Hs1]. }
  split_and!.
  - unfold find_player.
    assert (Hdw : ∀ l, player_id (deref w' l) = player_id (deref w1 l))
      by (intros; by rewrite Hd).
    rewrite (list_find_ext _ (λ l, player_id (deref w1 l) = sid))
      by (intros l; by rewrite Hdw).
    rewrite Hps. destruct (find_player w1 sid) as [[i l]|] eqn:Hf; [|exact Hf].
    exact (find_player_deleted w1 i l sid Hwf1 Hf).
  - intros l. rewrite Hps, Hfind.
    destruct (find_player w sid) as [[i l0]|] eqn:Hf.
    + pose proof (find_player_Some _ _ _ _ Hf) as [Hi Hid0].
      rewrite (st_players _ _ Hs1). split.
      * intros Hl. pose proof (delete_elem_of _ _ _ Hl) as Hin. split; [done|].
        intros Hid. assert (l = l0) as ->.
        { apply (wf_ids_inj w); [done..|by eapply list_elem_of_lookup_2|congruence]. }
        pose proof (wf_ids w Hwf) as Hnd. apply NoDup_fmap_1 in Hnd.
        by apply (delete_not_elem_of (players w) i l0).
      * intros [Hin Hid]. apply (elem_of_delete_ne _ _ _ l0); [done..|]. congruence.
    + rewrite (st_players _ _ Hs1). split; [|by intros [? _]].
      intros Hl. split; [done|]. apply list_find_None in Hf.
      rewrite Forall_forall in Hf. by apply Hf.
  - intros bl. rewrite Hbs', Hpbs.
    destruct (isParticipant w (getB w bl) sid); intuition congruence.
  - intros bl [_ Hout]%Hbs'. by rewrite Hg, Hout1.
  - intros bl Hbl Hpart. assert (Hin : bl ∈ pbs) by (by apply Hpbs).
    destruct (Hc1 bl Hin) as (H1 & H2 & H3). rewrite Hg, !Hd.
    split_and!; [done..|].
    intros t Ht Htb. destruct (to_pending w' (reachable_timers_ok w' Hr') t Ht)
      as (_ & _ & b & Hb & _ & Hst).
    rewrite Htb in Hb. apply getB_lookup in Hb. rewrite Hg in Hb. congruence.
  - intros l Hl. rewrite Hd. apply Hfl1. intros bl [Hp Hin]%Hpbs. by apply Hl.
Qed.

Lemma disconnect_cleans_up_witness :
  let w' := disconnect "sA" Worlds.started in
  find_player w' "sA" = None
  ∧ (∀ bl, bl ∈ battles w' ↔
       bl ∈ battles Worlds.started
       ∧ isParticipant Worlds.started (getB Worlds.started bl) "sA" = false).
Proof.
  destruct (disconnect_cleans_up Worlds.started "sA" reachable_started)
    as (H1 & _ & H3 & _).
  exact (conj H1 H3).
Defined.

(** ** A timer that fires *)

Module Idle.

(** Nobody moves: the battle of [Scenario.started] is left to its timer,
  which fires [n] times, each time when it is due. *)
Definition timeouts (n : nat) : list Event :=
flat_map (λ k, [EvWait 30000; EvTimer k]) (seq 0 n).

(** After 19 timeouts and 30 more seconds, and after the 20th timeout. *)
Definition dozing : World :=
Eval vm_compute in
  default init (run init (Scenario.started ++ timeouts 19 ++ [EvWait 30000])).
Definition woken : World :=
Eval vm_compute in default init (timer_fire 19 dozing).

End Idle.

Lemma reachable_dozing : reachable Idle.dozing.
Proof.
  exists (Scenario.started ++ Idle.timeouts 19 ++ [EvWait 30000]).
  vm_compute. reflexivity.
Defined.

(** X9 (the callback of [startTurnTimer], lines 317-350).  In a
    reachable state every timer that fires finds its battle active and
    takes 5 health, not below 0, from the player to move and from nobody
    else, logging one timeout action.  If that leaves no health the battle is
    finished, the opponent wins and no timer of the battle stays pending.
    Otherwise the battle stays active, whatever the turn counter, which goes
    up by one without a look at [MAX_TURNS]; the opponent is to move and a
    timer due [TURN_TIME] from now is pending. *)
Theorem timer_fire_costs_the_mover (w : World) (h : nat) (w' : World) :
  reachable w → timer_fire h w = Some w' →
  ∃ t, t ∈ timers w ∧ handle t = h ∧ deadline t ≤ now w
    ∧ let bl := timer_battle t in
      let b := getB w bl in
      let b' := getB w' bl in
      let mover := currentPlayer b in
      let other := player_id (deref w (getOpponent w b mover)) in
      status b = active
      ∧ getHealth b' mover = Z.max 0 (getHealth b mover - 5)
      ∧ (∀ id, id ≠ mover → getHealth b' id = getHealth b id)
      ∧ (∃ ended won, last (actions b')
                      = Some (TimeoutAction mover 5 (turn b) (now w) ended won))
      ∧ (getHealth b mover ≤ 5 →
           status b' = finished ∧ winner b' = Some other ∧ turn b' = turn b
           ∧ ∀ t', t' ∈ timers w' → timer_battle t' ≠ bl)
      ∧ (5 < getHealth b mover →
           status b' = active ∧ turn b' = turn b + 1 ∧ currentPlayer b' = other
           ∧ mkTimer (nextHandle w) bl (now w + TURN_TIME) ∈ timers w').
Proof.
  intros Hr Hfire.
  assert (Hr' : reachable w') by (by apply (reachable_step w (EvTimer h))).
  apply timer_fire_cases in Hfire as (k & t & Hk & Hh & Hdue & ->).
  assert (Hin : t ∈ timers w) by (by eapply list_elem_of_lookup_2).
  exists t. split_and!; [done..|]. cbv zeta.
  destruct (to_pending w (reachable_timers_ok w Hr) t Hin)
    as (_ & _ & b & Hb & Hheld & Hst).
  set (bl := timer_battle t) in *. set (w0 := clearTimeout h w) in *.
  assert (Hg : getB w bl = b) by (by apply getB_lookup).
  assert (Hg0 : getB w0 bl = b) by (by apply getB_lookup).
  assert (Hst0 : status (getB w0 bl) = active) by (by rewrite Hg0).
  pose proof (turn_timeout_getB bl w0 Hst0) as Hform. cbv zeta in Hform.
  rewrite Hg0 in Hform. rewrite Hg.
  change (deref w0) with (deref w) in Hform.
  change (getOpponent w0) with (getOpponent w) in Hform.
  change (nextHandle w0) with (nextHandle w) in Hform.
  assert (Hheal : ∀ id, getHealth (getB (turn_timeout bl w0) bl) id
            = if decide (id = currentPlayer b)
              then Z.max 0 (getHealth b (currentPlayer b) - 5) else getHealth b id).
  { intros id. rewrite Hform. unfold getHealth.
    destruct (decide (Z.max 0 _ ≤ 0)); simpl;
      (destruct (decide (id = currentPlayer b)) as [->|Hne];
       [by rewrite lookup_insert_eq|by rewrite lookup_insert_ne]). }
  split_and!.
  - done.
  - by rewrite Hheal, decide_True.
  - intros id Hne. by rewrite Hheal, decide_False.
  - rewrite Hform. destruct (decide (Z.max 0 _ ≤ 0)); simpl;
      rewrite last_snoc; by do 2 eexists.
  - intros Hlow. rewrite Hform. rewrite decide_True by lia. simpl.
    split_and!; [done..|].
    intros t' Ht' Htb.
    destruct (to_pending _ (reachable_timers_ok _ Hr') t' Ht')
      as (_ & _ & b' & Hb' & _ & Hst').
    rewrite Htb in Hb'. apply getB_lookup in Hb'. rewrite Hform in Hb'.
    rewrite decide_True in Hb' by lia. by rewrite <- Hb' in Hst'.
  - intros Hhigh. rewrite Hform. rewrite decide_False by lia. simpl.
    split_and!; [by rewrite Hst|done..|].
    rewrite (turn_timeout_timers bl w0 Hst0), Hg0, decide_False by lia.
    apply elem_of_app. right. by apply list_elem_of_singleton.
Qed.

Lemma timer_fire_costs_the_mover_witness :
  timer_fire 19 Idle.dozing = Some Idle.woken
  ∧ turn (getB Idle.dozing 0%nat) = MAX_TURNS - 1
  ∧ status (getB Idle.woken 0%nat) = active
  ∧ turn (getB Idle.woken 0%nat) = MAX_TURNS.
Proof.
  assert (Hfire : timer_fire 19 Idle.dozing = Some Idle.woken)
    by (vm_compute; reflexivity).
  split; [exact Hfire|]. split; [reflexivity|].
  destruct (timer_fire_costs_the_mover Idle.dozing 19 Idle.woken reachable_dozing Hfire)
    as (t & Hin & _ & _ & _ & _ & _ & _ & _ & Hgo).
  apply list_elem_of_singleton in Hin. subst t.
  destruct Hgo as (Hst & Hturn & _); [vm_compute; reflexivity|].
  split; [exact Hst|exact Hturn].
Defined.

(** ** Names *)

Lemma append_assoc (s1 s2 s3 : string) : (s1 +:+ s2) +:+ s3 = s1 +:+ (s2 +:+ s3).
Proof.
  induction s1 as [|c s1 IH]; [by rewrite !append_nil_l|].
  by rewrite !append_cons, IH.
Qed.

(** X10 ([stripSuffix] of [player-join], line 399).  [stripSuffix]
    implements [n.replace(/_[0-9]{2,4}$/, '')] exactly: a name that ends in
    an underscore and two to four digits loses that ending, whatever stands
    before it; any other name is returned as it is.  Only the last such
    ending goes: of [base_12_34] the result is [base_12], which is stripped
    again to [base], so the function is not idempotent. *)
Theorem stripSuffix_exact (n : string) :
  (∀ base ds, n = base +:+ "_" +:+ ds → digits_2_4 ds = true → stripSuffix n = base)
  ∧ ((∀ base ds, n = base +:+ "_" +:+ ds → digits_2_4 ds = false) → stripSuffix n = n)
  ∧ (∀ base ds1 ds2, n = base +:+ "_" +:+ ds1 +:+ "_" +:+ ds2 →
       digits_2_4 ds1 = true → digits_2_4 ds2 = true →
       stripSuffix n = base +:+ "_" +:+ ds1 ∧ stripSuffix (stripSuffix n) = base).
Proof.
  split_and!.
  - intros base ds -> Hds. by apply stripSuffix_appended.
  - intros Hno. destruct (stripSuffix_split n) as [?|(ds & Hn & Hds)]; [done|].
    by rewrite (Hno _ _ Hn) in Hds.
  - intros base ds1 ds2 -> H1 H2.
    assert (Hfirst : stripSuffix (base +:+ "_" +:+ ds1 +:+ "_" +:+ ds2)
                     = base +:+ "_" +:+ ds1).
    { replace (base +:+ "_" +:+ ds1 +:+ "_" +:+ ds2)
        with ((base +:+ "_" +:+ ds1) +:+ "_" +:+ ds2) by (by rewrite !append_assoc).
      by apply stripSuffix_appended. }
    split; [done|]. rewrite Hfirst. by apply stripSuffix_appended.
Qed.

Lemma stripSuffix_exact_witness :
  stripSuffix "Cat_400" = "Cat"
  ∧ stripSuffix "Cat_12_34" = "Cat_12"
  ∧ stripSuffix (stripSuffix "Cat_12_34") = "Cat".
Proof.
  destruct (stripSuffix_exact "Cat_400") as (H1 & _ & _).
  destruct (stripSuffix_exact "Cat_12_34") as (_ & _ & H3).
  split; [exact (H1 "Cat" "400" eq_refl eq_refl)|].
  exact (H3 "Cat" "12" "34" eq_refl eq_refl eq_refl).
Defined.

(** X11 ([player-join], lines 392-406).  The name a joining player
    gets is never empty.  It is the name asked for when no registered player
    has the same stripped name, and otherwise the stripped name asked for
    followed by an underscore and a number from 100 to 999.  For a suffix
    draw in [0, 1) it has in both cases the stripped form of the name asked
    for: what the server appends is what [stripSuffix] removes. *)
Theorem join_name_keeps_base (w : World) (d : PlayerData) (rname rsuffix : Q) :
  valid_draw rsuffix →
  let asked := requested_name d rname in
  let name := join_name w d rname rsuffix in
  name ≠ ""
  ∧ stripSuffix name = stripSuffix asked
  ∧ (Forall (λ l, stripSuffix (player_name (deref w l)) ≠ stripSuffix asked) (players w) →
     name = asked)
  ∧ (Exists (λ l, stripSuffix (player_name (deref w l)) = stripSuffix asked) (players w) →
     ∃ k, 100 ≤ k ≤ 999 ∧ name = stripSuffix asked +:+ "_" +:+ pretty k).
Proof.
  intros Hr asked name. subst asked name. split_and!.
  - apply join_name_nonempty.
  - by apply join_name_base.
  - intros Hall. destruct (join_name_cases w d rname rsuffix) as [[? _]|[_ Hex]]; [done|].
    exfalso. apply Exists_exists in Hex as (l & Hin & Heq).
    rewrite Forall_forall in Hall. by apply (Hall l).
  - intros Hex. destruct (join_name_cases w d rname rsuffix) as [[_ Hall]|[-> _]].
    + exfalso. apply Exists_exists in Hex as (l & Hin & Heq).
      rewrite Forall_forall in Hall. by apply (Hall l).
    + exists (100 + random_below rsuffix 900). split; [|done].
      destruct Hr as [H0 H1].
      pose proof (random_below_range rsuffix 900 H0 H1 ltac:(lia)). lia.
Qed.

Lemma join_name_keeps_base_witness :
  join_name Worlds.started Scenario.cat 0 (1 # 3) = "Cat_400"
  ∧ stripSuffix (join_name Worlds.started Scenario.cat 0 (1 # 3)) = "Cat".
Proof.
  assert (Hr : valid_draw (1 # 3)) by (split; vm_compute; [discriminate|reflexivity]).
  destruct (join_name_keeps_base Worlds.started Scenario.cat 0 (1 # 3) Hr)
    as (_ & H2 & _ & _).
  split; [vm_compute; reflexivity|exact H2].
Defined.

(** ** The winner by health *)

Section WinnerByHealth.
Implicit Types (w : World) (bl : bloc) (b : Battle).

Lemma getWinnerByHealth_most w b rtie :
let W := getWinnerByHealth w b rtie in
getHealth b (first_id w b) ≤ getHealth b W
∧ getHealth b (second_id w b) ≤ getHealth b W
∧ (getHealth b (first_id w b) = getHealth b (second_id w b) →
   W = if Qlt_le_dec (1 # 2) rtie then first_id w b else second_id w b).
Proof.
unfold getWinnerByHealth, first_id, second_id. cbv zeta.
repeat case_decide; try (split_and!; [lia..|intros; lia]).
destruct (Qlt_le_dec _ _); (split_and!; [lia..|done]).
Qed.

End WinnerByHealth.

(** X12 ([getWinnerByHealth], lines 276-285; [performAttack], lines
    234-240).  When an accepted attack leaves the defender alive and makes
    the turn counter reach [MAX_TURNS], the battle is finished and its winner
    is a player whose health, after the attack, is not below that of the
    other player; if both have the same health the draw decides, player 1
    winning when it is above one half. *)
Theorem turn_limit_winner_has_most_health (w : World) (bl : bloc)
    (attackerId : string) (isSpecial : bool) (r rtie : Q) :
  attack_accepted bl attackerId isSpecial w →
  0 < health_left bl attackerId isSpecial r w →
  MAX_TURNS ≤ turn (getB w bl) + 1 →
  let b' := getB (performAttack bl attackerId isSpecial r rtie w).1 bl in
  let id1 := player_id (deref w (player1 (getB w bl))) in
  let id2 := player_id (deref w (player2 (getB w bl))) in
  status b' = finished
  ∧ turn b' = turn (getB w bl) + 1
  ∧ ∃ wid, winner b' = Some wid
      ∧ (wid = id1 ∨ wid = id2)
      ∧ getHealth b' id1 ≤ getHealth b' wid
      ∧ getHealth b' id2 ≤ getHealth b' wid
      ∧ (getHealth b' id1 = getHealth b' id2 →
         wid = if Qlt_le_dec (1 # 2) rtie then id1 else id2).
Proof.
  intros Hacc Hleft Hturn. pose proof Hacc as (Hst & _). cbv zeta.
  rewrite performAttack_accepted by done. cbn [fst]. rewrite getB_emit.
  rewrite settled_getB by done. cbv zeta.
  rewrite decide_False by lia. rewrite decide_True by done.
  set (w2 := advanced bl attackerId isSpecial r w).
  set (b2 := advanced_battle bl attackerId w
               (struck_battle bl attackerId isSpecial r w (getB w bl))).
  pose proof (stable_advanced bl attackerId isSpecial r w) as Hs. fold w2 in Hs.
  pose proof (getWinnerByHealth_most w2 b2 rtie) as Hmost. cbv zeta in Hmost.
  pose proof (getWinnerByHealth_participant w2 b2 rtie) as Hpart.
  unfold first_id, second_id, participant_id in *.
  change (player1 b2) with (player1 (getB w bl)) in *.
  change (player2 b2) with (player2 (getB w bl)) in *.
  rewrite !(st_id _ _ Hs) in Hmost, Hpart.
  split; [done|]. split; [done|].
  exists (getWinnerByHealth w2 b2 rtie). split; [done|]. split; [exact Hpart|].
  exact Hmost.
Qed.

Lemma turn_limit_winner_has_most_health_witness :
  let b' := getB (performAttack 0%nat "sB" false (1 # 2) 0 Idle.dozing).1 0%nat in
  status b' = finished ∧ turn b' = MAX_TURNS ∧ winner b' = Some "sB"
  ∧ getHealth b' "sA" ≤ getHealth b' "sB".
Proof.
  assert (Hacc : attack_accepted 0%nat "sB" false Idle.dozing).
  { split; [reflexivity|]. split; [reflexivity|]. vm_compute. discriminate. }
  destruct (turn_limit_winner_has_most_health Idle.dozing 0%nat "sB" false (1 # 2) 0 Hacc)
    as (H1 & H2 & wid & H3 & _ & H4 & _).
  - vm_compute. reflexivity.
  - vm_compute. discriminate.
  - assert (Hw : winner (getB (performAttack 0%nat "sB" false (1 # 2) 0 Idle.dozing).1 0%nat)
                 = Some "sB") by (vm_compute; reflexivity).
    rewrite Hw in H3. injection H3 as <-.
    split; [exact H1|]. split; [exact H2|]. split; [exact Hw|exact H4].
Defined.

(** ** The snapshot of a battle *)

(** X13 ([getBattleData], lines 288-309).  The snapshot sent to the
    clients carries the last ten logged actions in their order, or the whole
    log when it has no more than ten entries; the two players with their
    [id], name and the health the battle holds for that [id], and
    [MAX_HEALTH] as [maxHealth]. *)
Theorem snapshot_carries_last_ten (w : World) (b : Battle) :
  let d := getBattleData w b in
  length (data_actions d) = (length (actions b) `min` 10)%nat
  ∧ (∃ older, actions b = older ++ data_actions d)
  ∧ ((length (actions b) ≤ 10)%nat → data_actions d = actions b)
  ∧ view_id (data_player1 d) = player_id (deref w (player1 b))
  ∧ view_id (data_player2 d) = player_id (deref w (player2 b))
  ∧ view_health (data_player1 d) = getHealth b (view_id (data_player1 d))
  ∧ view_health (data_player2 d) = getHealth b (view_id (data_player2 d))
  ∧ view_maxHealth (data_player1 d) = MAX_HEALTH
  ∧ view_maxHealth (data_player2 d) = MAX_HEALTH.
Proof.
  cbv zeta. unfold getBattleData. cbn.
  split_and!; try done.
  - rewrite length_drop. lia.
  - exists (take (length (actions b) - 10) (actions b)). by rewrite take_drop.
  - intros Hle. replace (length (actions b) - 10)%nat with 0%nat by lia. done.
Qed.

(** ** Joining and updating *)

Section Registry.
Implicit Types (w : World) (l : loc) (d : PlayerData).

Lemma emitted_emit e w : emitted (emit e w) = emitted w ++ [e].
Proof. reflexivity. Qed.

(** The object of a player that joins again: lines 412-418. *)
Definition rejoined (name : string) (d : PlayerData) (p : Player) : Player :=
mkPlayer (player_id p) name
  (default (resources p) (data_resources d))
  (default (clickPower p) (data_clickPower d))
  (default (autoPower p) (data_autoPower d))
  (str_or (data_currentSkin d) (currentSkin p))
  (inBattle p) (battleId p) (joinedAt p).

(** The object of a new player: lines 423-433. *)
Definition newcomer (sid name : string) (d : PlayerData) (time : Z) : Player :=
mkPlayer sid name (num_or (data_resources d) 0) (num_or (data_clickPower d) 1)
  (num_or (data_autoPower d) 0) (str_or (data_currentSkin d) "default")
  false None time.

(** The object after a [player-update]: lines 476-479. *)
Definition updated (d : PlayerData) (p : Player) : Player :=
mkPlayer (player_id p) (player_name p)
  (num_or (data_resources d) (resources p))
  (num_or (data_clickPower d) (clickPower p))
  (num_or (data_autoPower d) (autoPower p))
  (str_or (data_currentSkin d) (currentSkin p))
  (inBattle p) (battleId p) (joinedAt p).

Lemma player_join_known sid d rname rsuffix w i l p :
find_player w sid = Some (i, l) → pheap w !! l = Some p →
let w' := player_join sid d rname rsuffix w in
let name := join_name w d rname rsuffix in
players w' = players w
∧ pheap w' = alter (rejoined name d) l (pheap w)
∧ emitted w'
  = emitted w ++ [players_update (snapshot w');
                  player_joined name (resources (rejoined name d p));
                  player_registered sid name].
Proof.
intros Hf Hp. cbv zeta. unfold player_join. rewrite Hf.
rewrite !emitted_emit, <- !app_assoc. cbn [app].
split; [done|]. split; [done|].
by rewrite (deref_update_player_eq l _ w p Hp).
Qed.

Lemma player_join_new sid d rname rsuffix w :
find_player w sid = None →
let w' := player_join sid d rname rsuffix w in
let name := join_name w d rname rsuffix in
players w' = players w ++ [length (pheap w)]
∧ pheap w' = pheap w ++ [newcomer sid name d (now w)]
∧ emitted w'
  = emitted w ++ [players_update (snapshot w');
                  player_joined name (num_or (data_resources d) 0);
                  player_registered sid name].
Proof.
intros Hf. cbv zeta. unfold player_join. rewrite Hf.
rewrite !emitted_emit, <- !app_assoc. cbn [app].
split; [done|]. split; [done|].
unfold deref at 1. cbn [pheap set_players set_pheap].
by rewrite lookup_app_r, Nat.sub_diag.
Qed.

Lemma player_join_rest sid d rname rsuffix w :
let w' := player_join sid d rname rsuffix w in
bheap w' = bheap w ∧ battles w' = battles w ∧ timers w' = timers w
∧ nextHandle w' = nextHandle w ∧ now w' = now w.
Proof.
pose proof (quiet_player_join sid d rname rsuffix w) as Hq. cbv zeta.
split_and!; apply Hq.
Qed.

End Registry.

(** X14 ([player-join], lines 408-466).  In a reachable state, after
    a [player-join] the socket is registered under the name found for it.  A
    socket not yet known gets a new object at the end of [players], not in a
    battle, with the defaults 0, 1, 0 and ['default'] for fields that are
    missing, zero or empty; the other players are untouched.  A socket
    already known keeps its object, its place in [players] and its
    [inBattle], [battleId] and [joinedAt], and takes the name and each
    number the payload carries, a zero included.  Battles and timers are
    untouched, and the log gains [players-update], [player-joined] and
    [player-registered] in this order. *)
Theorem player_join_registers (w : World) (sid : string) (d : PlayerData)
    (rname rsuffix : Q) :
  reachable w →
  let w' := player_join sid d rname rsuffix w in
  let name := join_name w d rname rsuffix in
  (∃ i l, find_player w' sid = Some (i, l) ∧ player_name (deref w' l) = name)
  ∧ (find_player w sid = None →
       players w' = players w ++ [length (pheap w)]
       ∧ deref w' (length (pheap w)) = newcomer sid name d (now w)
       ∧ ∀ l, l ∈ players w → deref w' l = deref w l)
  ∧ (∀ i l, find_player w sid = Some (i, l) →
       players w' = players w
       ∧ deref w' l = rejoined name d (deref w l)
       ∧ ∀ l', l' ≠ l → deref w' l' = deref w l')
  ∧ (bheap w' = bheap w ∧ battles w' = battles w ∧ timers w' = timers w)
  ∧ ∃ res, emitted w'
           = emitted w ++ [players_update (snapshot w'); player_joined name res;
                           player_registered sid name].
Proof.
  intros Hr. pose proof (reachable_wf w Hr) as Hwf. cbv zeta.
  destruct (player_join_rest sid d rname rsuffix w) as (Hbh & Hbs & Hts & _ & _).
  destruct (find_player w sid) as [[i l]|] eqn:Hf.
  - pose proof (find_player_Some _ _ _ _ Hf) as [Hi Hid].
    assert (Hin : l ∈ players w) by (by eapply list_elem_of_lookup_2).
    destruct (wf_alloc w Hwf l Hin) as [p Hp].
    destruct (player_join_known sid d rname rsuffix w i l p Hf Hp) as (Hps & Hph & Hem).
    assert (Hd : deref (player_join sid d rname rsuffix w) l
                 = rejoined (join_name w d rname rsuffix) d (deref w l)).
    { unfold deref. by rewrite Hph, list_lookup_alter_eq, Hp. }
    split_and!; [|done| |done|done|done|by eexists].
    + exists i, l. split; [|by rewrite Hd].
      rewrite <- Hf. apply find_player_ext; [done|]. intros l'. unfold deref.
      rewrite Hph. destruct (decide (l = l')) as [<-|Hne].
      * by rewrite list_lookup_alter_eq, Hp.
      * by rewrite list_lookup_alter_ne.
    + intros i' l' [= <- <-]. split_and!; [done..|].
      intros l' Hne. unfold deref. by rewrite Hph, list_lookup_alter_ne.
  - destruct (player_join_new sid d rname rsuffix w Hf) as (Hps & Hph & Hem).
    assert (Hnew : deref (player_join sid d rname rsuffix w) (length (pheap w))
                   = newcomer sid (join_name w d rname rsuffix) d (now w)).
    { unfold deref. by rewrite Hph, lookup_app_r, Nat.sub_diag. }
    assert (Hold : ∀ l, l ∈ players w →
              deref (player_join sid d rname rsuffix w) l = deref w l).
    { intros l Hl. unfold deref. rewrite Hph.
      destruct (wf_alloc w Hwf l Hl) as [p Hp].
      by rewrite (lookup_app_l_Some _ _ _ _ Hp), Hp. }
    split_and!; [|done|done|done|done|done|by eexists].
    exists (length (players w)), (length (pheap w)). split; [|by rewrite Hnew].
    unfold find_player. rewrite Hps. apply list_find_Some. split_and!.
    + by rewrite lookup_app_r, Nat.sub_diag.
    + by rewrite Hnew.
    + intros j l' Hj Hlt. rewrite lookup_app_l in Hj by done.
      assert (Hin : l' ∈ players w) by (by eapply list_elem_of_lookup_2).
      rewrite Hold by done. apply list_find_None in Hf.
      rewrite Forall_forall in Hf. by apply Hf.
Qed.

Lemma player_join_registers_witness :
  let w' := player_join "sA" (mkPlayerData "Tom" (Some 0) None None None) 0 0
              Worlds.started in
  (∃ i l, find_player w' "sA" = Some (i, l) ∧ player_name (deref w' l) = "Tom")
  ∧ players w' = players Worlds.started
  ∧ resources (deref w' 0%nat) = 0
  ∧ inBattle (deref w' 0%nat) = true.
Proof.
  destruct (player_join_registers Worlds.started "sA"
              (mkPlayerData "Tom" (Some 0) None None None) 0 0 reachable_started)
    as (H1 & _ & H3 & _).
  destruct (H3 0%nat 0%nat eq_refl) as (H4 & H5 & _).
  split; [exact H1|]. split; [exact H4|].
  rewrite H5. split; reflexivity.
Defined.

(** ** Who keeps its name *)

(** [e] is neither a [player-join] nor a [disconnect] of the socket [sid]. *)
Definition keeps_registered (sid : string) (e : Event) : Prop :=
  match e with
  | EvJoin s _ _ _ | EvDisconnect s => s ≠ sid
  | _ => True
  end.

Section Names.
Implicit Types (w : World) (l : loc) (d : PlayerData).

Lemma lookup_alter_proj {A} (g : Player → A) (f : Player → Player) (k : loc)
  (ps : list Player) l :
(∀ p, g (f p) = g p) →
g (default noPlayer (alter f k ps !! l)) = g (default noPlayer (ps !! l)).
Proof.
intros Hg. destruct (decide (k = l)) as [->|Hne].
- rewrite list_lookup_alter_eq. destruct (ps !! l); simpl; auto.
- by rewrite list_lookup_alter_ne.
Qed.

Lemma disconnect_battle_proj {A} (g : Player → A) sid w bl l :
(∀ v bid p, g (set_inBattle v bid p) = g p) →
g (deref (disconnect_battle sid w bl) l) = g (deref w l).
Proof.
intros Hg. unfold disconnect_battle. cbv zeta. rewrite deref_emit.
unfold release_player. destruct (find_player _ _) as [[? l']|].
- rewrite (deref_update_player_proj g) by (intros p; apply Hg).
  unfold deref. by rewrite cancelBattle_pheap.
- unfold deref. by rewrite cancelBattle_pheap.
Qed.

Lemma disconnect_rounds_proj {A} (g : Player → A) sid (pbs : list bloc) w l :
(∀ v bid p, g (set_inBattle v bid p) = g p) →
g (deref (foldl (disconnect_battle sid) w pbs) l) = g (deref w l).
Proof.
intros Hg. revert w. induction pbs as [|bl pbs IH]; intros w; simpl; [done|].
by rewrite IH, (disconnect_battle_proj g).
Qed.

(** The handlers other than [player-join] and [disconnect] leave [players]
  and every [id] and [name] as they are. *)
Lemma names_step w e w' :
reachable w → step w e = Some w' →
(∀ s d rn rs, e ≠ EvJoin s d rn rs) → (∀ s, e ≠ EvDisconnect s) →
players w' = players w
∧ ∀ l, player_id (deref w' l) = player_id (deref w l)
       ∧ player_name (deref w' l) = player_name (deref w l).
Proof.
intros Hr Hstep Hjoin Hdisc. pose proof (reachable_wf w Hr) as Hwf.
assert (Hsilent : ∀ w0, silent w w0 →
          players w0 = players w
          ∧ ∀ l, player_id (deref w0 l) = player_id (deref w l)
                 ∧ player_name (deref w0 l) = player_name (deref w l)).
{ intros w0 Hs. split; [apply Hs|]. intros l. unfold deref.
  by rewrite (si_pheap _ _ Hs). }
destruct e as [sid d rn rs|sid d|sid reward|sid tid|sid cid newId
  |sid cid reason|sid bid isSpecial r rtie|sid bid reason|sid|h|dt]; simpl in Hstep.
- by destruct (Hjoin sid d rn rs).
- injection Hstep as <-. unfold player_update.
  destruct (find_player w sid) as [[i l0]|]; [|done].
  split; [done|]. intros l. rewrite deref_emit.
  split; by apply deref_update_player_proj.
- injection Hstep as <-. unfold claim_task.
  destruct (find_player w sid) as [[i l0]|]; [|done].
  split; [done|]. intros l. rewrite deref_emit.
  split; by apply deref_update_player_proj.
- injection Hstep as <-. apply Hsilent, silent_battle_challenge.
- injection Hstep as <-.
  destruct (decide (accept_rejected sid cid w)) as [Hrej|Hacc].
  + by destruct (battle_accept_rejected sid cid newId w Hrej) as [m ->].
  + destruct (battle_accept_accepted sid cid newId w Hacc)
      as (i & a & j & c & _ & _ & _ & _ & _ & Hab).
    split; [apply Hab|]. intros l. unfold deref. rewrite (ab_pheap _ _ _ _ _ Hab).
    split; by rewrite !lookup_alter_proj.
- destruct (battle_decline sid cid reason w) as [w1|] eqn:Hd; [|done].
  injection Hstep as <-. by apply Hsilent, (silent_battle_decline sid cid reason).
- injection Hstep as <-.
  destruct (battle_attack_cases sid bid isSpecial r rtie w)
    as [Hs|(i & pl & j & bl & _ & _ & _ & _ & Hs)]; [by apply Hsilent|].
  pose proof (stable_settled bl sid isSpecial r rtie w) as Hst.
  split; [by rewrite (si_players _ _ Hs), (st_players _ _ Hst)|].
  intros l. unfold deref at 1 3. rewrite (si_pheap _ _ Hs).
  fold (deref (settled bl sid isSpecial r rtie w) l).
  split; by apply settled_proj.
- injection Hstep as <-.
  destruct (battle_cancel_cases sid bid reason w Hwf)
    as [Hs|(i & pl & j & bl & _ & _ & _ & Hc & _)]; [by apply Hsilent|].
  split; [apply Hc|]. intros l. unfold deref. rewrite (cb_pheap _ _ _ _ _ Hc).
  split; by apply freed_proj.
- by destruct (Hdisc sid).
- apply timer_fire_cases in Hstep as (k & t & _ & _ & _ & ->).
  pose proof (stable_turn_timeout (timer_battle t) (clearTimeout h w)
                (clearTimeout h w) (stable_refl _)) as Hst.
  split; [exact (st_players _ _ Hst)|]. intros l.
  split; by rewrite turn_timeout_proj.
- case_decide; [|done]. by injection Hstep as <-.
Qed.

(** A registered player stays registered, and under its name, as long as
  its socket neither joins again nor disconnects. *)
Lemma registered_step w e w' sid l :
reachable w → step w e = Some w' → keeps_registered sid e →
l ∈ players w → player_id (deref w l) = sid →
l ∈ players w' ∧ player_id (deref w' l) = sid
∧ player_name (deref w' l) = player_name (deref w l).
Proof.
intros Hr Hstep Hkeep Hl Hid. pose proof (reachable_wf w Hr) as Hwf.
destruct (wf_alloc w Hwf l Hl) as [p Hp].
destruct e as [s d rn rs| | | | | | | |s| | ];
  try (destruct (names_step w _ w' Hr Hstep) as [Hps Hsame]; [done..|];
       rewrite Hps; destruct (Hsame l) as [-> ->]; done).
- simpl in Hkeep, Hstep. injection Hstep as <-.
  destruct (find_player w s) as [[i l0]|] eqn:Hf.
  + pose proof (find_player_Some _ _ _ _ Hf) as [Hi Hid0].
    assert (Hin : l0 ∈ players w) by (by eapply list_elem_of_lookup_2).
    destruct (wf_alloc w Hwf l0 Hin) as [p0 Hp0].
    destruct (player_join_known s d rn rs w i l0 p0 Hf Hp0) as (Hps & Hph & _).
    assert (Hne : l0 ≠ l) by congruence.
    rewrite Hps. unfold deref. rewrite Hph, list_lookup_alter_ne by done.
    by fold (deref w l).
  + destruct (player_join_new s d rn rs w Hf) as (Hps & Hph & _).
    rewrite Hps. unfold deref. rewrite Hph, (lookup_app_l_Some _ _ _ _ Hp).
    split; [apply elem_of_app; by left|]. unfold deref in Hid. by rewrite Hp in Hid |- *.
- simpl in Hkeep, Hstep. injection Hstep as <-.
  destruct (disconnect_form s w) as (Hph & _ & _ & _ & Hps).
  set (w1 := foldl (disconnect_battle s) w _) in *.
  assert (Hd1 : ∀ l', player_id (deref w1 l') = player_id (deref w l')
                      ∧ player_name (deref w1 l') = player_name (deref w l')).
  { intros l'. split; by apply disconnect_rounds_proj. }
  assert (Hps1 : players w1 = players w).
  { apply stable_foldl; [|apply stable_refl]. intros w2 bl Hs.
    by apply stable_disconnect_battle. }
  assert (Hsame : player_id (deref (disconnect s w) l) = sid
                  ∧ player_name (deref (disconnect s w) l) = player_name (deref w l)).
  { unfold deref at 1 2. rewrite Hph. fold (deref w1 l).
    destruct (Hd1 l) as [-> ->]. done. }
  split; [|exact Hsame]. rewrite Hps.
  destruct (find_player w1 s) as [[i l0]|] eqn:Hf; [|by rewrite Hps1].
  pose proof (find_player_Some _ _ _ _ Hf) as [Hi Hid0].
  assert (Hne : l0 ≠ l).
  { intros ->. destruct (Hd1 l) as [Hid1 _]. congruence. }
  rewrite Hps1 in Hi |- *.
  apply list_elem_of_lookup in Hl as [k Hk].
  assert (Hki : k ≠ i) by (intros ->; congruence).
  apply list_elem_of_lookup.
  destruct (decide (k < i)%nat).
  + exists k. by rewrite list_lookup_delete_lt.
  + exists (pred k). rewrite list_lookup_delete_ge by lia.
    by replace (S (pred k)) with k by lia.
Qed.

Lemma registered_run evs w w' sid l :
reachable w → run w evs = Some w' → Forall (keeps_registered sid) evs →
l ∈ players w → player_id (deref w l) = sid →
reachable w' ∧ l ∈ players w'
∧ player_name (deref w' l) = player_name (deref w l).
Proof.
revert w. induction evs as [|e evs IH]; intros w Hr Hrun Hall Hl Hid; simpl in Hrun.
- by injection Hrun as <-.
- destruct (step w e) as [w1|] eqn:Hstep; [|done].
  apply Forall_cons in Hall as [He Hall].
  destruct (registered_step w e w1 sid l Hr Hstep He Hl Hid) as (Hl1 & Hid1 & Hn1).
  destruct (IH w1 (reachable_step w e w1 Hr Hstep) Hrun Hall Hl1 Hid1)
    as (Hr' & Hl' & Hn').
  split_and!; [done..|]. by rewrite Hn'.
Qed.

End Names.

(** X15 ([player-join], lines 399-406 and 411-436; [disconnect], line
    872).  In a reachable state, once a player has joined, and for as long
    as its socket neither joins again nor disconnects, whatever else the
    server handles: every later join that asks for a name with the same
    stripped form, from whichever socket, the same one included, gets that
    stripped name with a fresh suffix. *)
Theorem joined_name_is_taken (w : World) (sid : string) (d : PlayerData)
    (rname rsuffix : Q) (evs : list Event) (w' : World) :
  reachable w → valid_draw rsuffix →
  Forall (keeps_registered sid) evs →
  run (player_join sid d rname rsuffix w) evs = Some w' →
  ∀ d' rname' rsuffix',
    stripSuffix (requested_name d' rname') = stripSuffix (requested_name d rname) →
    join_name w' d' rname' rsuffix'
    = stripSuffix (requested_name d rname) +:+ "_" +:+ random_suffix rsuffix'.
Proof.
  intros Hr Hv Hall Hrun d' rname' rsuffix' Hsame.
  set (w1 := player_join sid d rname rsuffix w) in *.
  assert (Hr1 : reachable w1)
    by (by apply (reachable_step w (EvJoin sid d rname rsuffix))).
  assert (Hreg : ∃ i l, find_player w1 sid = Some (i, l)
                        ∧ player_name (deref w1 l) = join_name w d rname rsuffix).
  { subst w1.
    destruct (find_player w sid) as [[i l]|] eqn:Hf.
    - pose proof (find_player_Some _ _ _ _ Hf) as [Hi Hid].
      assert (Hin : l ∈ players w) by (by eapply list_elem_of_lookup_2).
      destruct (wf_alloc w (reachable_wf w Hr) l Hin) as [p Hp].
      destruct (player_join_known sid d rname rsuffix w i l p Hf Hp) as (Hps & Hph & _).
      exists i, l. split.
      + rewrite <- Hf. apply find_player_ext; [done|]. intros l'. unfold deref.
        rewrite Hph. destruct (decide (l = l')) as [<-|Hne].
        * by rewrite list_lookup_alter_eq, Hp.
        * by rewrite list_lookup_alter_ne.
      + unfold deref. by rewrite Hph, list_lookup_alter_eq, Hp.
    - destruct (player_join_new sid d rname rsuffix w Hf) as (Hps & Hph & _).
      destruct (find_player (player_join sid d rname rsuffix w) sid)
        as [[i l]|] eqn:Hf'.
      + exists i, l. split; [done|].
        apply find_player_Some in Hf' as [Hi Hid]. rewrite Hps in Hi.
        apply lookup_app_Some in Hi as [Hi|[_ Hi]].
        * exfalso. apply list_find_None in Hf. rewrite Forall_forall in Hf.
          apply (Hf l); [by eapply list_elem_of_lookup_2|].
          rewrite <- Hid. unfold deref. rewrite Hph.
          destruct (wf_alloc w (reachable_wf w Hr) l) as [p Hp];
            [by eapply list_elem_of_lookup_2|].
          by rewrite (lookup_app_l_Some _ _ _ _ Hp), Hp.
        * apply list_lookup_singleton_Some in Hi as [_ <-].
          unfold deref. by rewrite Hph, lookup_app_r, Nat.sub_diag.
      + exfalso. apply list_find_None in Hf'. rewrite Forall_forall in Hf'.
        apply (Hf' (length (pheap w))).
        * rewrite Hps. apply elem_of_app. right. by apply list_elem_of_singleton.
        * unfold deref. by rewrite Hph, lookup_app_r, Nat.sub_diag. }
  destruct Hreg as (i & l & Hf & Hname).
  apply find_player_Some in Hf as [Hi Hid].
  assert (Hl : l ∈ players w1) by (by eapply list_elem_of_lookup_2).
  destruct (registered_run evs w1 w' sid l Hr1 Hrun Hall Hl Hid) as (_ & Hl' & Hname').
  destruct (join_name_cases w' d' rname' rsuffix') as [[_ Hnone]|[-> _]].
  - exfalso. rewrite Forall_forall in Hnone. apply (Hnone l Hl').
    rewrite Hname', Hname, Hsame. by apply join_name_base.
  - by rewrite Hsame.
Qed.

Lemma joined_name_is_taken_witness :
  ∃ w', run (player_join "sC" Scenario.cat 0 (1 # 3) Worlds.started)
          [EvAttack "sA" "battle_1" false (1 # 2) 0; EvDisconnect "sB";
           EvJoin "sB" Scenario.dog 0 0] = Some w'
      ∧ join_name w' (mkPlayerData "Cat_400" None None None None) 0 (1 # 2) = "Cat_550".
Proof.
  assert (Hr : valid_draw (1 # 3)) by (split; vm_compute; [discriminate|reflexivity]).
  assert (Hall : Forall (keeps_registered "sC")
                   [EvAttack "sA" "battle_1" false (1 # 2) 0; EvDisconnect "sB";
                    EvJoin "sB" Scenario.dog 0 0]).
  { repeat constructor; vm_compute; discriminate. }
  eexists. split; [vm_compute; reflexivity|].
  match goal with |- join_name ?w1 _ _ _ = _ =>
    rewrite (joined_name_is_taken Worlds.started "sC" Scenario.cat 0 (1 # 3) _ w1
               reachable_started Hr Hall eq_refl
               (mkPlayerData "Cat_400" None None None None) 0 (1 # 2) eq_refl)
  end.
  vm_compute. reflexivity.
Defined.

(** X16 ([player-update], lines 472-500).  A [player-update] of a
    socket that is not registered has no effect at all.  For a registered
    one each of [resources], [clickPower] and [autoPower] takes the number
    the payload carries unless that number is missing or zero, in which case
    the old value stays: a balance cannot be set to 0 this way.  Name,
    [inBattle], [battleId] and the other players are untouched, and one
    [players-update] is sent. *)
Theorem player_update_keeps_on_zero (w : World) (sid : string) (d : PlayerData) :
  let w' := player_update sid d w in
  (find_player w sid = None → w' = w)
  ∧ (∀ i l p, find_player w sid = Some (i, l) → pheap w !! l = Some p →
       deref w' l = updated d p
       ∧ (data_resources d = Some 0 → resources (deref w' l) = resources p)
       ∧ (∀ v, data_resources d = Some v → v ≠ 0 → resources (deref w' l) = v)
       ∧ (∀ l', l' ≠ l → deref w' l' = deref w l')
       ∧ players w' = players w ∧ bheap w' = bheap w ∧ battles w' = battles w
       ∧ emitted w' = emitted w ++ [players_update (snapshot w')]).
Proof.
  cbv zeta. unfold player_update. split.
  - by intros ->.
  - intros i l p -> Hp.
    assert (Hd : deref (emit (players_update (snapshot (update_player l
                   (λ p0, set_currentSkin (str_or (data_currentSkin d) (currentSkin p0))
                     (set_autoPower (num_or (data_autoPower d) (autoPower p0))
                       (set_clickPower (num_or (data_clickPower d) (clickPower p0))
                         (set_resources (num_or (data_resources d) (resources p0)) p0))))
                   w))) (update_player l
                   (λ p0, set_currentSkin (str_or (data_currentSkin d) (currentSkin p0))
                     (set_autoPower (num_or (data_autoPower d) (autoPower p0))
                       (set_clickPower (num_or (data_clickPower d) (clickPower p0))
                         (set_resources (num_or (data_resources d) (resources p0)) p0))))
                   w)) l = updated d p).
    { rewrite deref_emit. by rewrite (deref_update_player_eq _ _ _ p). }
    split_and!; try done.
    + intros H0. rewrite Hd. simpl. by rewrite H0.
    + intros v Hv Hne. rewrite Hd. simpl. rewrite Hv. simpl. by rewrite decide_False.
    + intros l' Hne. rewrite deref_emit. by rewrite deref_update_player_ne.
Qed.

Lemma player_update_keeps_on_zero_witness :
  let d := mkPlayerData "" (Some 0) (Some 9) None None in
  let w' := player_update "sA" d Worlds.started in
  resources (deref w' 0%nat) = 100 ∧ clickPower (deref w' 0%nat) = 9
  ∧ player_update "sZ" d Worlds.started = Worlds.started.
Proof.
  destruct (player_update_keeps_on_zero Worlds.started "sA"
              (mkPlayerData "" (Some 0) (Some 9) None None)) as [_ H].
  destruct (H 0%nat 0%nat _ eq_refl eq_refl) as (H1 & H2 & _).
  destruct (player_update_keeps_on_zero Worlds.started "sZ"
              (mkPlayerData "" (Some 0) (Some 9) None None)) as [H0 _].
  split; [exact (H2 eq_refl)|]. split; [by rewrite H1|exact (H0 eq_refl)].
Defined.

(** ** Challenging *)

Section Challenge.
Implicit Types (w : World) (l : loc).

Lemma silent_sym w w' : silent w w' → silent w' w.
Proof. intros []. by constructor. Qed.

Lemma silent_trans w1 w2 w3 : silent w1 w2 → silent w2 w3 → silent w1 w3.
Proof. intros [] []. constructor; congruence. Qed.

Lemma silent_deref w w' l : silent w w' → deref w' l = deref w l.
Proof. intros Hs. unfold deref. by rewrite (si_pheap _ _ Hs). Qed.

Lemma silent_find_player w w' id : silent w w' → find_player w' id = find_player w id.
Proof.
intros Hs. apply find_player_ext; [apply Hs|]. intros l. by rewrite (silent_deref w w').
Qed.

Lemma silent_accept_rejected sid cid w w' :
silent w w' → accept_rejected sid cid w' ↔ accept_rejected sid cid w.
Proof.
intros Hs. unfold accept_rejected. rewrite !(silent_find_player w w') by done.
destruct (find_player w sid) as [[? a]|]; [|done].
destruct (find_player w cid) as [[? c]|]; [|done].
by rewrite !(silent_deref w w').
Qed.

(** [battle-accept] does not look at the log: from two states that differ
  in the log only it leads to two such states. *)
Lemma battle_accept_silent sid cid newId w w' :
silent w w' →
silent (battle_accept sid cid newId w) (battle_accept sid cid newId w').
Proof.
intros Hs. destruct (decide (accept_rejected sid cid w)) as [Hrej|Hacc].
- destruct (battle_accept_rejected sid cid newId w Hrej) as [m ->].
  apply (silent_accept_rejected sid cid w w' Hs) in Hrej.
  destruct (battle_accept_rejected sid cid newId w' Hrej) as [m' ->].
  apply silent_emit. eapply silent_trans; [|exact Hs].
  apply silent_sym, silent_emit, silent_refl.
- destruct (battle_accept_accepted sid cid newId w Hacc)
    as (i & a & j & c & Hfa & Hfc & _ & _ & _ & H1).
  assert (Hacc' : ¬ accept_rejected sid cid w')
    by (by rewrite (silent_accept_rejected sid cid w w' Hs)).
  destruct (battle_accept_accepted sid cid newId w' Hacc')
    as (i' & a' & j' & c' & Hfa' & Hfc' & _ & _ & _ & H2).
  rewrite (silent_find_player w w' sid Hs), Hfa in Hfa'. injection Hfa' as <- <-.
  rewrite (silent_find_player w w' cid Hs), Hfc in Hfc'. injection Hfc' as <- <-.
  destruct H1 as [A1 A2 A3 A4 A5 A6 A7]. destruct H2 as [B1 B2 B3 B4 B5 B6 B7].
  destruct Hs as [S1 S2 S3 S4 S5 S6 S7].
  assert (Hb : started_battle newId c a w' = started_battle newId c a w).
  { unfold started_battle, new_Battle, deref. by rewrite S1, S6, S7. }
  constructor.
  + by rewrite A2, B2, S1.
  + by rewrite A1, B1, S2, Hb.
  + by rewrite A3, B3, S3.
  + by rewrite A4, B4, S4, S2.
  + by rewrite A5, B5, S5, S6, S7, S2.
  + by rewrite A6, B6, S6.
  + by rewrite A7, B7, S7.
Qed.

End Challenge.

(** X17 ([battle-challenge], lines 657-692; [battle-accept],
    lines 695-739).  A [battle-challenge] changes nothing but the log.  When
    sender and target are both registered, differ, neither is flagged
    [inBattle] and the sender has at least [ATTACK_COST], it sends the
    challenge to the target and a note to the sender, and nothing else; when
    one of these tests fails it sends one [battle-error] to the sender, and
    nothing else.  The server keeps no record of the challenge: what a later
    [battle-accept] does to the players, the battles and the timers is the
    same whether or not the challenge it answers was ever sent. *)
Theorem challenge_leaves_no_trace (w : World) (sid targetId : string) :
  let w' := battle_challenge sid targetId w in
  silent w w'
  ∧ (∀ i c j t,
       find_player w sid = Some (i, c) → find_player w targetId = Some (j, t) →
       (sid ≠ targetId ∧ inBattle (deref w c) = false ∧ inBattle (deref w t) = false
        ∧ ATTACK_COST ≤ resources (deref w c) →
        emitted w'
        = emitted w
          ++ [battle_challenge_to targetId sid (player_name (deref w c))
                (resources (deref w c));
              battle_message sid
                ("Вызов отправлен игроку " +:+ player_name (deref w t))])
       ∧ (sid = targetId ∨ inBattle (deref w c) = true ∨ inBattle (deref w t) = true
          ∨ resources (deref w c) < ATTACK_COST →
          ∃ message, emitted w' = emitted w ++ [battle_error sid message]))
  ∧ (find_player w sid = None ∨ find_player w targetId = None →
       emitted w' = emitted w ++ [battle_error sid "Игрок не найден"])
  ∧ ∀ acceptorId challengerId newId,
      silent (battle_accept acceptorId challengerId newId w)
             (battle_accept acceptorId challengerId newId w').
Proof.
  cbv zeta. pose proof (silent_battle_challenge sid targetId w) as Hs.
  split; [exact Hs|]. split_and!.
  - intros i c j t Hfs Hft. unfold battle_challenge. rewrite Hfs, Hft.
    pose proof (find_player_Some _ _ _ _ Hfs) as [_ Hids].
    pose proof (find_player_Some _ _ _ _ Hft) as [_ Hidt].
    rewrite Hids, Hidt. split.
    + intros (Hne & -> & -> & Hres). rewrite decide_False by done. cbn [orb].
      rewrite decide_False by lia. by rewrite !emitted_emit, <- app_assoc.
    + intros Hfail. case_decide as Hsame; [by eexists|].
      destruct (inBattle (deref w c)) eqn:Hc; [by eexists|].
      destruct (inBattle (deref w t)) eqn:Ht; [by eexists|].
      cbn [orb]. case_decide as Hres; [by eexists|].
      destruct Hfail as [?|[?|[?|?]]]; [done..|lia].
  - intros Hnone. unfold battle_challenge.
    destruct (find_player w sid) as [[i c]|]; [|done].
    destruct (find_player w targetId) as [[j t]|]; [|done].
    by destruct Hnone.
  - intros acceptorId challengerId newId. by apply battle_accept_silent.
Qed.

Lemma challenge_leaves_no_trace_witness :
  emitted (battle_challenge "sA" "sB" Worlds.joined)
  = emitted Worlds.joined
    ++ [battle_challenge_to "sB" "sA" "Cat" 100;
        battle_message "sA" "Вызов отправлен игроку Dog"]
  ∧ (∃ message, emitted (battle_challenge "sA" "sA" Worlds.joined)
                = emitted Worlds.joined ++ [battle_error "sA" message])
  ∧ emitted (battle_challenge "sA" "sZ" Worlds.joined)
    = emitted Worlds.joined ++ [battle_error "sA" "Игрок не найден"].
Proof.
  destruct (challenge_leaves_no_trace Worlds.joined "sA" "sB") as (_ & H & _ & _).
  destruct (H 0%nat 0%nat 1%nat 1%nat eq_refl eq_refl) as [Hout _].
  destruct (challenge_leaves_no_trace Worlds.joined "sA" "sA") as (_ & H' & _ & _).
  destruct (H' 0%nat 0%nat 0%nat 0%nat eq_refl eq_refl) as [_ Herr].
  destruct (challenge_leaves_no_trace Worlds.joined "sA" "sZ") as (_ & _ & Hnone & _).
  split; [|split].
  - apply Hout. split; [discriminate|]. split; [reflexivity|].
    split; [reflexivity|]. vm_compute. discriminate.
  - apply Herr. by left.
  - apply Hnone. by right.
Defined.

(** ** Asking for a battle *)

(** X18 ([battle-info], lines 827-834).  [battle-info] changes nothing
    but the log, and it adds to the log at most one [battle-update],
    addressed to the asking socket.  In a reachable state it does so exactly
    when a battle with that [id] is listed, finished ones included, and the
    first such battle has a registered player with the socket's [id]; the
    snapshot is that of this battle and names the socket as one of its two
    players. *)
Theorem battle_info_is_for_participants (w : World) (sid battleId0 : string) :
  reachable w →
  let w' := battle_info sid battleId0 w in
  silent w w'
  ∧ (w' = w
     ∨ ∃ j bl, find_battle w battleId0 = Some (j, bl)
         ∧ isParticipant w (getB w bl) sid = true
         ∧ is_Some (find_player w sid)
         ∧ let d := getBattleData w (getB w bl) in
           w' = emit (battle_update sid d) w
           ∧ data_id d = battleId0
           ∧ (view_id (data_player1 d) = sid ∨ view_id (data_player2 d) = sid))
  ∧ (∀ j bl, find_battle w battleId0 = Some (j, bl) →
       isParticipant w (getB w bl) sid = true → w' ≠ w).
Proof.
  intros Hr. pose proof (reachable_wf w Hr) as Hwf. cbv zeta. unfold battle_info.
  destruct (find_battle w battleId0) as [[j bl]|] eqn:Hfb.
  2: { split; [apply silent_refl|]. split; [by left|]. by intros j bl. }
  pose proof (find_battle_listed _ _ _ _ Hfb) as Hbl.
  assert (Hbid : battle_id (getB w bl) = battleId0)
    by (by apply list_find_Some in Hfb as (_ & ? & _)).
  destruct (find_player w sid) as [[i pl]|] eqn:Hfp.
  - pose proof (find_player_Some _ _ _ _ Hfp) as [_ Hid]. rewrite Hid.
    destruct (isParticipant w (getB w bl) sid) eqn:Hpart.
    + split; [apply silent_emit, silent_refl|]. split.
      * right. exists j, bl. split_and!; try done.
        unfold isParticipant in Hpart.
        apply orb_true_iff in Hpart as [H|H]; apply bool_decide_eq_true in H; auto.
      * intros j' bl' _ _ Heq.
        apply (f_equal (λ w0, length (emitted w0))) in Heq.
        rewrite emitted_emit, length_app in Heq. simpl in Heq. lia.
    + split; [apply silent_refl|]. split; [by left|].
      intros j' bl' [= <- <-]. by rewrite Hpart.
  - split; [apply silent_refl|]. split; [by left|].
    intros j' bl' [= <- <-] (l & Hl & Hid)%isParticipant_elem. exfalso.
    destruct (participant_allocated w bl l Hwf Hbl Hl) as [Hin _].
    apply list_find_None in Hfp. rewrite Forall_forall in Hfp. by apply (Hfp l).
Qed.

Lemma battle_info_is_for_participants_witness :
  battle_info "sB" "battle_1" Worlds.won
  = emit (battle_update "sB" (getBattleData Worlds.won (getB Worlds.won 0%nat)))
      Worlds.won
  ∧ battle_info "sC" "battle_1" Worlds.won = Worlds.won.
Proof.
  assert (Hr : reachable Worlds.won)
    by (exists Scenario.won; vm_compute; reflexivity).
  destruct (battle_info_is_for_participants Worlds.won "sB" "battle_1" Hr)
    as (_ & [Hsame|(j & bl & Hfb & _ & _ & Hw & _)] & Hyes).
  - exfalso. exact (Hyes 0%nat 0%nat eq_refl eq_refl Hsame).
  - injection Hfb as <- <-. split; [exact Hw|]. reflexivity.
Defined.

(** ** The HTTP endpoints over the state in memory *)

Section Endpoints.
Implicit Types (w : World) (l : loc) (bl : bloc).

Lemma listed_battle_allocated w bl :
wf w → bl ∈ battles w → is_Some (bheap w !! bl).
Proof. intros Hwf Hbl. by destruct (wf_battles w Hwf bl Hbl) as (? & _). Qed.

(** The first players of the listed battles are registered players, one
  for each battle. *)
Lemma battles_no_more_than_players w :
wf w → listed_ok w → (length (battles w) ≤ length (players w))%nat.
Proof.
intros Hwf [Hnd _ Hone _].
rewrite <- (length_fmap (λ bl, player1 (getB w bl)) (battles w)).
apply submseteq_length, NoDup_submseteq.
- apply NoDup_fmap_2_strong; [|done]. intros bl bl' Hbl Hbl' Heq.
  apply (Hone bl bl' (player1 (getB w bl))); [done..| |].
  + apply list_elem_of_here.
  + rewrite Heq. apply list_elem_of_here.
- intros l (bl & -> & Hbl)%list_elem_of_fmap.
  apply (participant_allocated w bl); [done..|]. apply list_elem_of_here.
Qed.

End Endpoints.

(** X19 ([GET /status], lines 911-919; [GET /players], lines
    922-933; [GET /battles], lines 974-985).  Whenever the three endpoints
    are read in a reachable state: [/players] shows every registered player
    once, no [id] twice; [/battles] shows no cancelled battle and no negative
    turn, and the two names of each of its rows are those of players that
    [/players] shows with [inBattle] set; there are no more battles than
    players; and the two counts of [/status] are the totals of the other
    two. *)
Theorem endpoints_agree (w : World) :
  reachable w →
  let P := players_endpoint w in
  let B := battles_endpoint w in
  let S := status_endpoint w in
  NoDup (row_id <$> body_players P)
  ∧ (∀ r, r ∈ body_battles B →
       brow_status r ≠ cancelled ∧ 0 ≤ brow_turn r
       ∧ (∃ p, p ∈ body_players P ∧ row_name p = brow_player1 r
               ∧ row_inBattle p = true)
       ∧ (∃ p, p ∈ body_players P ∧ row_name p = brow_player2 r
               ∧ row_inBattle p = true))
  ∧ (battles_total B ≤ players_total P)%nat
  ∧ status_players S = players_total P ∧ players_total P = length (body_players P)
  ∧ status_battles S = battles_total B ∧ battles_total B = length (body_battles B).
Proof.
  intros Hr. pose proof (reachable_wf w Hr) as Hwf.
  pose proof (reachable_listed_ok w Hr) as Hlo.
  cbv zeta. unfold players_endpoint, battles_endpoint, status_endpoint.
  cbn [body_players players_total body_battles battles_total status_players
       status_battles].
  split_and!.
  - rewrite <- list_fmap_compose. exact (wf_ids w Hwf).
  - intros r (bl & -> & Hbl)%list_elem_of_fmap.
    cbn [brow_status brow_turn brow_player1 brow_player2].
    destruct (listed_battle_allocated w bl Hwf Hbl) as [b Hb].
    assert (Hg : getB w bl = b) by (by apply getB_lookup).
    assert (Hrow : ∀ l, l ∈ battle_players (getB w bl) →
              ∃ p, p ∈ (λ l0, let p0 := deref w l0 in
                          mkPlayerRow (player_id p0) (player_name p0) (resources p0)
                            (inBattle p0) true) <$> players w
                   ∧ row_name p = player_name (deref w l) ∧ row_inBattle p = true).
    { intros l Hl. destruct (participant_allocated w bl l Hwf Hbl Hl) as [Hin _].
      destruct (lo_flag w Hlo bl l Hbl Hl) as [Hflag _].
      eexists. split; [apply list_elem_of_fmap; by exists l|]. by simpl. }
    split_and!.
    + exact (lo_live w Hlo bl Hbl).
    + rewrite Hg. by destruct (reachable_battles_ok w Hr bl b Hb).
    + apply Hrow, list_elem_of_here.
    + apply Hrow. unfold battle_players. apply list_elem_of_further, list_elem_of_here.
  - by apply battles_no_more_than_players.
  - done.
  - by rewrite length_fmap.
  - done.
  - by rewrite length_fmap.
Qed.

Lemma endpoints_agree_witness :
  body_battles (battles_endpoint Worlds.won)
  = [mkBattleRow "battle_1" "Cat" "Dog" 0 finished]
  ∧ (battles_total (battles_endpoint Worlds.won)
     ≤ players_total (players_endpoint Worlds.won))%nat.
Proof.
  split; [vm_compute; reflexivity|].
  apply (endpoints_agree Worlds.won). exists Scenario.won. vm_compute. reflexivity.
Defined.

(** ** Who is sent the state of a battle *)

(** A snapshot of a battle is addressed to one of the two players it
    shows. *)
Definition addressed_ok (e : Emit) : Prop :=
  match e with
  | battle_start to d | battle_update to d =>
      to = view_id (data_player1 d) ∨ to = view_id (data_player2 d)
  | _ => True
  end.

Definition log_private (w : World) : Prop := Forall addressed_ok (emitted w).

Section Private.
Implicit Types (w : World) (l : loc) (bl : bloc).

Lemma private_emit e w : addressed_ok e → log_private w → log_private (emit e w).
Proof.
intros He Hw. unfold log_private. rewrite emitted_emit.
apply Forall_app. split; [done|]. by constructor.
Qed.

Lemma private_same w w' : emitted w' = emitted w → log_private w → log_private w'.
Proof. unfold log_private. by intros ->. Qed.

Lemma private_foldl {A} (f : World → A → World) (xs : list A) w :
(∀ w x, log_private w → log_private (f w x)) →
log_private w → log_private (foldl f w xs).
Proof. intros Hf. revert w. induction xs; simpl; auto. Qed.

Lemma private_broadcast bl w : log_private w → log_private (broadcastBattleUpdate bl w).
Proof.
intros Hw. unfold broadcastBattleUpdate, battle_players. cbn [foldl].
apply private_emit; [by right|]. apply private_emit; [by left|]. done.
Qed.

Lemma private_finishBattle bl wid w : log_private w → log_private (finishBattle bl wid w).
Proof.
intros Hw. unfold finishBattle. apply private_emit; [done|].
destruct (find_player _ _) as [[? l]|]; destruct (turnTimer _);
  by eapply private_same.
Qed.

Lemma private_startTurnTimer bl w : log_private w → log_private (startTurnTimer bl w).
Proof.
intros Hw. unfold startTurnTimer.
destruct (turnTimer (getB w bl)); by eapply private_same.
Qed.

Lemma private_cancelBattle bl reason w :
log_private w → log_private (cancelBattle bl reason w).
Proof.
intros Hw. unfold cancelBattle. apply private_broadcast.
destruct (turnTimer _); by eapply private_same.
Qed.

Lemma private_turn_timeout bl w : log_private w → log_private (turn_timeout bl w).
Proof.
intros Hw. unfold turn_timeout. case_decide; [|done].
apply private_broadcast. destruct (bool_decide _).
- apply private_finishBattle. by eapply private_same.
- apply private_startTurnTimer. by eapply private_same.
Qed.

Lemma private_settled bl attackerId isSpecial r rtie w :
log_private w → log_private (settled bl attackerId isSpecial r rtie w).
Proof.
intros Hw.
assert (H0 : log_private (paid attackerId isSpecial w)).
{ unfold paid. destruct (find_player _ _) as [[? ?]|]; [|done].
  by eapply private_same. }
assert (H1 : log_private (struck bl attackerId isSpecial r w))
  by (by eapply private_same).
assert (H2 : log_private (advanced bl attackerId isSpecial r w))
  by (by eapply private_same).
unfold settled. cbv zeta.
repeat case_decide; try done; by apply private_finishBattle.
Qed.

Lemma private_performAttack bl attackerId isSpecial r rtie w :
log_private w → log_private (performAttack bl attackerId isSpecial r rtie w).1.
Proof.
intros Hw. destruct (decide (attack_accepted bl attackerId isSpecial w)).
- rewrite performAttack_accepted by done. cbn [fst].
  apply private_emit; [done|]. by apply private_settled.
- by rewrite performAttack_rejected.
Qed.

Lemma private_release_player w id : log_private w → log_private (release_player w id).
Proof.
intros Hw. unfold release_player. destruct (find_player _ _) as [[? ?]|]; [|done].
by eapply private_same.
Qed.

Lemma private_player_join sid d rname rsuffix w :
log_private w → log_private (player_join sid d rname rsuffix w).
Proof.
intros Hw. unfold player_join.
destruct (find_player w sid) as [[? l]|];
  do 3 (apply private_emit; [done|]); by eapply private_same.
Qed.

Lemma private_player_update sid d w :
log_private w → log_private (player_update sid d w).
Proof.
intros Hw. unfold player_update.
destruct (find_player w sid) as [[? l]|]; [|done].
apply private_emit; [done|]. by eapply private_same.
Qed.

Lemma private_claim_task sid reward w :
log_private w → log_private (claim_task sid reward w).
Proof.
intros Hw. unfold claim_task.
destruct (find_player w sid) as [[? l]|]; [|done].
apply private_emit; [done|]. by eapply private_same.
Qed.

Lemma private_battle_challenge sid targetId w :
log_private w → log_private (battle_challenge sid targetId w).
Proof.
intros Hw. unfold battle_challenge.
destruct (find_player w sid) as [[? ?]|];
  destruct (find_player w targetId) as [[? ?]|];
  repeat first [case_decide | destruct (_ || _)];
  repeat (apply private_emit; [done|]); done.
Qed.

Lemma private_battle_accept sid challengerId newId w :
log_private w → log_private (battle_accept sid challengerId newId w).
Proof.
intros Hw. unfold battle_accept.
destruct (find_player w sid) as [[? a]|]; [|by apply private_emit].
destruct (find_player w challengerId) as [[? c]|]; [|by apply private_emit].
destruct (_ || _); [by apply private_emit|].
case_decide; [by apply private_emit|].
assert (Hnew : ∀ w', bheap w' = bheap w ++ [new_Battle newId c a w] →
          getB w' (length (bheap w)) = new_Battle newId c a w).
{ intros w' Hw'. unfold getB. rewrite Hw', lookup_app_r, Nat.sub_diag by done. done. }
cbv zeta. apply private_emit; [done|]. apply private_startTurnTimer.
apply private_emit.
{ right. cbn [addressed_ok]. rewrite !Hnew by reflexivity. reflexivity. }
apply private_emit.
{ left. cbn [addressed_ok]. rewrite !Hnew by reflexivity. reflexivity. }
by eapply private_same.
Qed.

Lemma private_battle_decline sid challengerId reason w w' :
log_private w → battle_decline sid challengerId reason w = Done w' → log_private w'.
Proof.
intros Hw. unfold battle_decline.
destruct (find_player w challengerId) as [[? ?]|];
  destruct (find_player w sid) as [[? ?]|]; intros [= <-]; try done.
by apply private_emit.
Qed.

Lemma private_battle_attack sid battleId0 isSpecial r rtie w :
log_private w → log_private (battle_attack sid battleId0 isSpecial r rtie w).
Proof.
intros Hw. unfold battle_attack.
destruct (find_player w sid) as [[? l]|]; [|by apply private_emit].
destruct (find_battle w battleId0) as [[? bl]|]; [|by apply private_emit].
destruct (negb _); [by apply private_emit|].
case_decide; [by apply private_emit|].
pose proof (private_performAttack bl (player_id (deref w l)) isSpecial r rtie w Hw)
  as Hatt.
destruct (performAttack _ _ _ _ _ _) as [w1 [a|]]; cbn [fst] in Hatt.
- destruct isSpecial; [apply private_emit; [done|]|]; by apply private_broadcast.
- by apply private_emit.
Qed.

Lemma private_battle_cancel sid battleId0 reason w :
log_private w → log_private (battle_cancel sid battleId0 reason w).
Proof.
intros Hw. unfold battle_cancel.
destruct (find_player w sid) as [[? l]|]; [|by apply private_emit].
destruct (find_battle w battleId0) as [[? bl]|]; [|by apply private_emit].
destruct (negb _); [by apply private_emit|].
cbv zeta. apply private_emit; [done|].
set (w1 := cancelBattle bl _ w).
assert (H1 : log_private w1) by (by apply private_cancelBattle).
set (w2 := foldl _ w1 _).
assert (H2 : log_private w2)
  by (apply private_foldl; [intros; by apply private_release_player|done]).
by apply (private_same w2).
Qed.

Lemma private_disconnect_battle sid w bl :
log_private w → log_private (disconnect_battle sid w bl).
Proof.
intros Hw. unfold disconnect_battle. apply private_emit; [done|].
apply private_release_player. by apply private_cancelBattle.
Qed.

Lemma private_disconnect sid w : log_private w → log_private (disconnect sid w).
Proof.
intros Hw. unfold disconnect. cbv zeta.
set (w1 := foldl _ _ _).
assert (H1 : log_private w1)
  by (apply private_foldl; [intros; by apply private_disconnect_battle|done]).
destruct (find_player _ _) as [[? ?]|].
- do 2 (apply private_emit; [done|]). by eapply private_same.
- by eapply private_same.
Qed.

Lemma private_timer_fire h w w' :
log_private w → timer_fire h w = Some w' → log_private w'.
Proof.
intros Hw. unfold timer_fire.
destruct (list_find _ _) as [[? t]|]; [|done].
case_decide; [|done]. intros [= <-].
apply private_turn_timeout. by eapply private_same.
Qed.

Lemma private_step w e w' : log_private w → step w e = Some w' → log_private w'.
Proof.
intros Hw. destruct e; simpl.
- intros [= <-]. by apply private_player_join.
- intros [= <-]. by apply private_player_update.
- intros [= <-]. by apply private_claim_task.
- intros [= <-]. by apply private_battle_challenge.
- intros [= <-]. by apply private_battle_accept.
- destruct (battle_decline _ _ _ _) eqn:Hd; [|done].
  intros [= <-]. by eapply private_battle_decline.
- intros [= <-]. by apply private_battle_attack.
- intros [= <-]. by apply private_battle_cancel.
- intros [= <-]. by apply private_disconnect.
- by apply private_timer_fire.
- case_decide; [|done]. intros [= <-]. by eapply private_same.
Qed.

Lemma private_run evs w w' : log_private w → run w evs = Some w' → log_private w'.
Proof.
revert w. induction evs as [|e evs IH]; intros w Hw; simpl.
- by intros [= <-].
- destruct (step w e) as [w1|] eqn:Hstep; [|done].
  apply IH. by eapply private_step.
Qed.

End Private.

(** X20 ([broadcastBattleUpdate], lines 354-359; [battle-accept],
    lines 725-726; [battle-info], line 832).  The state of a battle reaches
    its two players only: every [battle-start] and every [battle-update]
    that the server has sent in a run, and every one a [battle-info] adds
    to it, is addressed to the socket of one of the two players that the
    snapshot shows. *)
Theorem battle_snapshots_go_to_players (w : World) (sid bid : string)
    (to : string) (d : BattleData) :
  reachable w →
  battle_start to d ∈ emitted (battle_info sid bid w)
  ∨ battle_update to d ∈ emitted (battle_info sid bid w) →
  to = view_id (data_player1 d) ∨ to = view_id (data_player2 d).
Proof.
  intros [evs Hrun] Hin.
  assert (Hw : log_private w).
  { eapply private_run; [|exact Hrun]. constructor. }
  assert (Hw' : log_private (battle_info sid bid w)).
  { unfold battle_info.
    destruct (find_battle w bid) as [[? bl]|]; [|done].
    destruct (find_player w sid) as [[? pl]|] eqn:Hfp; [|done].
    pose proof (find_player_Some _ _ _ _ Hfp) as [_ Hid]. rewrite Hid.
    destruct (isParticipant _ _ _) eqn:Hpart; [|done].
    apply private_emit; [|done]. unfold isParticipant in Hpart.
    apply orb_true_iff in Hpart.
    destruct Hpart as [H|H]; apply bool_decide_eq_true in H; [by left|by right]. }
  unfold log_private in Hw'. rewrite Forall_forall in Hw'.
  destruct Hin as [Hin|Hin]; exact (Hw' _ Hin).
Qed.

Lemma battle_snapshots_go_to_players_witness :
  "sB" = view_id (data_player1 (getBattleData Worlds.won (getB Worlds.won 0%nat)))
  ∨ "sB" = view_id (data_player2 (getBattleData Worlds.won (getB Worlds.won 0%nat))).
Proof.
  apply (battle_snapshots_go_to_players Worlds.won "sB" "battle_1" "sB").
  - exists Scenario.won. vm_compute. reflexivity.
  - right. apply (list_elem_of_lookup_2 _ (length (emitted Worlds.won))).
    vm_compute. reflexivity.
Defined.

(** ** Balances *)

(** The resources that a payload or a task brings are not negative. *)
Definition brings_no_debt (e : Event) : Prop :=
  match e with
  | EvJoin _ d _ _ | EvUpdate _ d =>
      match data_resources d with
      | Some v => 0 ≤ v
      | None => True
      end
  | EvClaimTask _ reward => 0 ≤ reward
  | _ => True
  end.

Global Instance brings_no_debt_dec e : Decision (brings_no_debt e).
Proof. destruct e; simpl; try destruct (data_resources _); apply _. Defined.

(** No player object owes, and no battle has a negative turn counter, from
    which the reward is computed. *)
Definition solvent (w : World) : Prop :=
  Forall (λ p, 0 ≤ resources p) (pheap w) ∧ Forall (λ b, 0 ≤ turn b) (bheap w).

Section Balance.
Implicit Types (w : World) (l : loc) (bl : bloc).

Lemma solvent_deref w l : solvent w → 0 ≤ resources (deref w l).
Proof.
intros [Hp _]. unfold deref. destruct (pheap w !! l) as [p|] eqn:Hl; simpl; [|done].
by apply (Forall_lookup_1 _ _ _ _ Hp Hl).
Qed.

Lemma solvent_getB w bl : solvent w → 0 ≤ turn (getB w bl).
Proof.
intros [_ Hb]. unfold getB. destruct (bheap w !! bl) as [b|] eqn:Hl; simpl; [|done].
by apply (Forall_lookup_1 _ _ _ _ Hb Hl).
Qed.

Lemma solvent_same w w' :
pheap w' = pheap w → bheap w' = bheap w → solvent w → solvent w'.
Proof. unfold solvent. by intros -> ->. Qed.

Lemma solvent_emit e w : solvent w → solvent (emit e w).
Proof. by apply solvent_same. Qed.

Lemma solvent_update_player l f w :
(∀ p, pheap w !! l = Some p → 0 ≤ resources p → 0 ≤ resources (f p)) →
solvent w → solvent (update_player l f w).
Proof.
intros Hf [Hp Hb]. split; [|done]. cbn [update_player set_pheap pheap].
apply Forall_lookup. intros k p Hk.
destruct (decide (k = l)) as [->|Hne].
- rewrite list_lookup_alter_eq in Hk.
  destruct (pheap w !! l) as [p0|] eqn:Hl; [|done]. injection Hk as <-.
  apply Hf; [done|]. by apply (Forall_lookup_1 _ _ _ _ Hp Hl).
- rewrite list_lookup_alter_ne in Hk by done.
  by apply (Forall_lookup_1 _ _ _ _ Hp Hk).
Qed.

Lemma solvent_update_battle bl f w :
(∀ b, 0 ≤ turn b → 0 ≤ turn (f b)) → solvent w → solvent (update_battle bl f w).
Proof.
intros Hf [Hp Hb]. split; [done|]. cbn [update_battle set_bheap bheap].
apply Forall_alter; auto.
Qed.

Lemma solvent_foldl {A} (f : World → A → World) (xs : list A) w :
(∀ w x, solvent w → solvent (f w x)) → solvent w → solvent (foldl f w xs).
Proof. intros Hf. revert w. induction xs; simpl; auto. Qed.

Lemma solvent_broadcast bl w : solvent w → solvent (broadcastBattleUpdate bl w).
Proof.
intros Hw. unfold broadcastBattleUpdate, battle_players. cbn [foldl].
by do 2 apply solvent_emit.
Qed.

(** The reward of [finishBattle] is not negative. *)
Lemma solvent_finishBattle bl wid w : solvent w → solvent (finishBattle bl wid w).
Proof.
intros Hw. unfold finishBattle. cbv zeta. apply solvent_emit.
set (w1 := update_battle bl _ w).
assert (H1 : solvent w1) by (by apply solvent_update_battle).
pose proof (solvent_getB w1 bl H1) as Hturn.
set (w2 := match find_player w1 wid with Some _ => _ | None => _ end).
assert (H2 : solvent w2).
{ unfold w2. destruct (find_player w1 wid) as [[? l]|]; [|done].
  apply solvent_update_player; [|done]. intros p _ Hp. cbn [set_resources resources].
  lia. }
destruct (turnTimer _); [|done]. by eapply solvent_same.
Qed.

Lemma solvent_startTurnTimer bl w : solvent w → solvent (startTurnTimer bl w).
Proof.
intros Hw. unfold startTurnTimer.
destruct (turnTimer (getB w bl)); cbn [setTimeout fst snd];
  (apply solvent_update_battle; [done|]); by eapply solvent_same.
Qed.

Lemma solvent_cancelBattle bl reason w : solvent w → solvent (cancelBattle bl reason w).
Proof.
intros Hw. unfold cancelBattle. apply solvent_broadcast.
apply solvent_update_battle; [done|].
assert (H1 : solvent (update_battle bl (set_status cancelled) w))
  by (by apply solvent_update_battle).
destruct (turnTimer _); [|done]. by eapply solvent_same.
Qed.

Lemma solvent_turn_timeout bl w : solvent w → solvent (turn_timeout bl w).
Proof.
intros Hw. unfold turn_timeout. case_decide; [|done].
apply solvent_broadcast.
set (w1 := update_battle bl _ w).
assert (H1 : solvent w1) by (by apply solvent_update_battle).
destruct (bool_decide _).
- by apply solvent_finishBattle.
- apply solvent_startTurnTimer. apply solvent_update_battle; [|done].
  intros b Hb. cbn [set_turn set_currentPlayer turn]. lia.
Qed.

(** In a listed battle, the object whose balance [performAttack] tests is
  the registered player that pays. *)
Lemma attacker_is_sender w bl sid i l :
wf w → bl ∈ battles w → isParticipant w (getB w bl) sid = true →
find_player w sid = Some (i, l) →
attacker_ref w (getB w bl) sid = l.
Proof.
intros Hwf Hbl Hpart Hfp.
destruct (wf_battles w Hwf bl Hbl) as (_ & H1 & H2 & _).
pose proof (find_player_Some _ _ _ _ Hfp) as [Hi Hid].
assert (Hl : l ∈ players w) by (by eapply list_elem_of_lookup_2).
unfold attacker_ref, isParticipant in *.
apply orb_true_iff in Hpart.
destruct (decide (sid = player_id (deref w (player1 (getB w bl))))) as [Hsid|Hsid].
- apply (wf_ids_inj w); [done..|]. congruence.
- destruct Hpart as [H|H]; apply bool_decide_eq_true in H; [congruence|].
  apply (wf_ids_inj w); [done..|]. congruence.
Qed.

Lemma solvent_settled bl sid isSpecial r rtie w i l :
wf w → bl ∈ battles w → isParticipant w (getB w bl) sid = true →
find_player w sid = Some (i, l) → attack_accepted bl sid isSpecial w →
solvent w → solvent (settled bl sid isSpecial r rtie w).
Proof.
intros Hwf Hbl Hpart Hfp (_ & _ & Hres) Hw.
rewrite (attacker_is_sender w bl sid i l) in Hres by done.
assert (H0 : solvent (paid sid isSpecial w)).
{ unfold paid. rewrite Hfp. apply solvent_update_player; [|done].
  intros p Hp _. cbn [set_resources resources].
  unfold deref in Hres. rewrite Hp in Hres. simpl in Hres. lia. }
assert (H1 : solvent (struck bl sid isSpecial r w))
  by (by apply solvent_update_battle).
assert (H2 : solvent (advanced bl sid isSpecial r w)).
{ apply solvent_update_battle; [|done]. intros b Hb.
  unfold advanced_battle. cbn [set_turn set_currentPlayer turn]. lia. }
unfold settled. cbv zeta.
repeat case_decide; try done; by apply solvent_finishBattle.
Qed.

Lemma solvent_release_player w id : solvent w → solvent (release_player w id).
Proof.
intros Hw. unfold release_player. destruct (find_player _ _) as [[? ?]|]; [|done].
by apply solvent_update_player.
Qed.

Lemma num_or_nonneg (o : option Z) (d : Z) :
match o with Some v => 0 ≤ v | None => True end → 0 ≤ d → 0 ≤ num_or o d.
Proof. intros Ho Hd. unfold num_or. destruct o; [|done]. by case_decide. Qed.

Lemma solvent_player_join sid d rname rsuffix w :
brings_no_debt (EvJoin sid d rname rsuffix) →
solvent w → solvent (player_join sid d rname rsuffix w).
Proof.
intros Hd Hw. unfold player_join. simpl in Hd.
destruct (find_player w sid) as [[? l]|].
- do 3 apply solvent_emit. apply solvent_update_player; [|done].
  intros p _ Hp. cbn [set_currentSkin set_autoPower set_clickPower set_resources
    set_name resources]. by destruct (data_resources d).
- do 3 apply solvent_emit. destruct Hw as [Hp Hb]. split; [|done].
  cbn [set_players set_pheap pheap]. apply Forall_app. split; [done|].
  constructor; [|done]. cbn [resources]. by apply num_or_nonneg.
Qed.

Lemma solvent_player_update sid d w :
brings_no_debt (EvUpdate sid d) → solvent w → solvent (player_update sid d w).
Proof.
intros Hd Hw. unfold player_update. simpl in Hd.
destruct (find_player w sid) as [[? l]|]; [|done].
apply solvent_emit. apply solvent_update_player; [|done].
intros p _ Hp. cbn [set_currentSkin set_autoPower set_clickPower set_resources
  resources]. by apply num_or_nonneg.
Qed.

Lemma solvent_claim_task sid reward w :
0 ≤ reward → solvent w → solvent (claim_task sid reward w).
Proof.
intros Hr Hw. unfold claim_task.
destruct (find_player w sid) as [[? l]|]; [|done].
apply solvent_emit. apply solvent_update_player; [|done].
intros p _ Hp. cbn [set_resources resources]. lia.
Qed.

Lemma solvent_battle_accept sid challengerId newId w :
solvent w → solvent (battle_accept sid challengerId newId w).
Proof.
intros Hw. destruct (decide (accept_rejected sid challengerId w)) as [Hrej|Hacc].
- destruct (battle_accept_rejected sid challengerId newId w Hrej) as [m ->].
  by apply solvent_emit.
- destruct (battle_accept_accepted sid challengerId newId w Hacc)
    as (i & a & j & c & _ & _ & _ & _ & _ & [Hb Hp _ _ _ _ _]).
  destruct Hw as [Hps Hbs]. split.
  + rewrite Hp. clear Hp.
    assert (Hflag : ∀ l (ps : list Player), Forall (λ p, 0 ≤ resources p) ps →
              Forall (λ p, 0 ≤ resources p)
                (alter (set_inBattle true (Some newId)) l ps)).
    { intros l ps Hf. apply Forall_alter; auto. }
    by repeat apply Hflag.
  + rewrite Hb. apply Forall_app. split; [done|]. constructor; [|done]. by simpl.
Qed.

Lemma solvent_battle_attack sid battleId0 isSpecial r rtie w :
wf w → solvent w → solvent (battle_attack sid battleId0 isSpecial r rtie w).
Proof.
intros Hwf Hw. unfold battle_attack.
destruct (find_player w sid) as [[i l]|] eqn:Hfp; [|by apply solvent_emit].
destruct (find_battle w battleId0) as [[j bl]|] eqn:Hfb; [|by apply solvent_emit].
pose proof (find_player_Some _ _ _ _ Hfp) as [_ Hid]. rewrite Hid.
destruct (isParticipant w (getB w bl) sid) eqn:Hpart; cbn [negb];
  [|by apply solvent_emit].
case_decide; [by apply solvent_emit|].
destruct (decide (attack_accepted bl sid isSpecial w)) as [Hacc|Hno].
- rewrite performAttack_accepted by done.
  assert (Hs : solvent (settled bl sid isSpecial r rtie w)).
  { apply (solvent_settled bl sid isSpecial r rtie w i l); try done.
    by eapply find_battle_listed. }
  destruct isSpecial; [apply solvent_emit|]; apply solvent_broadcast;
    by apply solvent_emit.
- rewrite performAttack_rejected by done. by apply solvent_emit.
Qed.

Lemma solvent_battle_cancel sid battleId0 reason w :
solvent w → solvent (battle_cancel sid battleId0 reason w).
Proof.
intros Hw. unfold battle_cancel.
destruct (find_player w sid) as [[? l]|]; [|by apply solvent_emit].
destruct (find_battle w battleId0) as [[? bl]|]; [|by apply solvent_emit].
destruct (negb _); [by apply solvent_emit|].
cbv zeta. apply solvent_emit.
set (w1 := cancelBattle bl _ w).
assert (H1 : solvent w1) by (by apply solvent_cancelBattle).
set (w2 := foldl _ w1 _).
assert (H2 : solvent w2)
  by (apply solvent_foldl; [intros; by apply solvent_release_player|done]).
by apply (solvent_same w2).
Qed.

Lemma solvent_disconnect sid w : solvent w → solvent (disconnect sid w).
Proof.
intros Hw. unfold disconnect. cbv zeta.
set (w1 := foldl _ _ _).
assert (H1 : solvent w1).
{ apply solvent_foldl; [|done]. intros w0 bl H0. unfold disconnect_battle.
  apply solvent_emit, solvent_release_player. by apply solvent_cancelBattle. }
destruct (find_player _ _) as [[? ?]|].
- do 2 apply solvent_emit. by eapply solvent_same.
- by eapply solvent_same.
Qed.

Lemma solvent_step w e w' :
wf w → brings_no_debt e → solvent w → step w e = Some w' → solvent w'.
Proof.
intros Hwf He Hw. destruct e; simpl.
- intros [= <-]. by apply solvent_player_join.
- intros [= <-]. by apply solvent_player_update.
- intros [= <-]. by apply solvent_claim_task.
- intros [= <-]. destruct (silent_battle_challenge sid targetId w).
  eapply solvent_same; [done..|]. done.
- intros [= <-]. by apply solvent_battle_accept.
- destruct (battle_decline _ _ _ _) eqn:Hd; [|done].
  intros [= <-]. destruct (silent_battle_decline _ _ _ _ _ Hd).
  by eapply solvent_same.
- intros [= <-]. by apply solvent_battle_attack.
- intros [= <-]. by apply solvent_battle_cancel.
- intros [= <-]. by apply solvent_disconnect.
- unfold timer_fire. destruct (list_find _ _) as [[? t]|]; [|done].
  case_decide; [|done]. intros [= <-].
  apply solvent_turn_timeout. by eapply solvent_same.
- case_decide; [|done]. intros [= <-]. by eapply solvent_same.
Qed.

Lemma solvent_run evs w w' :
reachable w → Forall brings_no_debt evs → solvent w → run w evs = Some w' →
solvent w'.
Proof.
revert w. induction evs as [|e evs IH]; intros w Hr Hev Hw; simpl.
- by intros [= <-].
- destruct (step w e) as [w1|] eqn:Hstep; [|done].
  inversion Hev as [|? ? He Hev']; subst.
  apply IH; [by eapply reachable_step|done|].
  eapply solvent_step; [|done..]. by apply reachable_wf.
Qed.

End Balance.

(** X21 ([performAttack], lines 183-197; [finishBattle], lines
    254-257; [player-join], lines 415 and 426; [player-update], line 476;
    [claim-task], line 587).  No balance ever goes below zero on the
    server's own account: in every run in which the [resources] of the
    payloads and the rewards of the tasks are not negative, the [resources]
    of every player object, registered or not, stay at or above zero.  An
    attack is paid only out of a balance that covers its cost, and the
    reward of a finished battle is not negative. *)
Theorem balances_stay_nonnegative (evs : list Event) (w : World) (l : loc) :
  Forall brings_no_debt evs → run init evs = Some w →
  0 ≤ resources (deref w l).
Proof.
  intros Hev Hrun. apply solvent_deref.
  apply (solvent_run evs init w); [by exists []|done| |done].
  split; constructor.
Qed.

Lemma balances_stay_nonnegative_witness :
  resources (deref Worlds.won 0%nat) = 125 ∧ 0 ≤ resources (deref Worlds.won 1%nat).
Proof.
  split; [vm_compute; reflexivity|].
  apply (balances_stay_nonnegative Scenario.won).
  - unfold Scenario.won. repeat (constructor; [by vm_compute|]). constructor.
  - vm_compute. reflexivity.
Defined.

(** ** When a task can be claimed again *)

(** X22 ([claim-task], lines 568-574; [get-my-tasks], lines
    638-644).  A task that was never completed can be claimed.  One that was
    completed at [last] is refused exactly until [last] plus the interval
    times 86 400 000 ms: the interval counts periods of 24 hours from the
    last completion, to the millisecond, not calendar days; an interval
    that is missing or 0 counts as 1. *)
Theorem cooldown_is_whole_days (now last : Z) (interval : option Z) :
  too_early now None interval = false
  ∧ (too_early now (Some last) interval = true
     ↔ now < last + num_or interval 1 * 86400000)
  ∧ too_early now (Some last) None = too_early now (Some last) (Some 1)
  ∧ too_early now (Some last) (Some 0) = too_early now (Some last) (Some 1).
Proof.
  split; [done|]. split; [|done].
  unfold too_early, diffDays. rewrite bool_decide_eq_true.
  change (1000 * 60 * 60 * 24) with 86400000.
  generalize (num_or interval 1). intros k. split.
  - intros H. destruct (Z_lt_le_dec now (last + k * 86400000)) as [|Hge]; [done|].
    assert (k ≤ (now - last) / 86400000) by (apply Z.div_le_lower_bound; lia). lia.
  - intros H. apply Z.div_lt_upper_bound; lia.
Qed.

(** ** What a [battle-attack] is answered with *)

Definition is_players_update (e : Emit) : Prop :=
  match e with
  | players_update _ => True
  | _ => False
  end.

(** The attack passes the tests of the handler (lines 759-772) and those of
    [performAttack] (lines 177-186). *)
Definition attack_goes_through (sid battleId0 : string) (isSpecial : bool)
    (w : World) : Prop :=
  ∃ i pl j bl,
    find_player w sid = Some (i, pl) ∧ find_battle w battleId0 = Some (j, bl)
    ∧ isParticipant w (getB w bl) sid = true
    ∧ attack_accepted bl sid isSpecial w.

Section AttackAnswers.
Implicit Types (w : World) (l : loc) (bl : bloc).

Lemma silent_getBattleData w w' b :
silent w w' → getBattleData w' b = getBattleData w b.
Proof. intros Hs. unfold getBattleData. by rewrite !(silent_deref w w'). Qed.

Lemma silent_getB w w' bl : silent w w' → getB w' bl = getB w bl.
Proof. intros Hs. unfold getB. by rewrite (si_bheap _ _ Hs). Qed.

Lemma emitted_finishBattle bl wid w :
∃ ps, emitted (finishBattle bl wid w) = emitted w ++ [players_update ps].
Proof.
unfold finishBattle. cbv zeta. eexists. rewrite emitted_emit. f_equal.
destruct (find_player _ _) as [[? ?]|]; by destruct (turnTimer _).
Qed.

Lemma emitted_paid sid isSpecial w : emitted (paid sid isSpecial w) = emitted w.
Proof. unfold paid. by destruct (find_player _ _) as [[? ?]|]. Qed.

(** [performAttack] itself reports to nobody but the [players-update]
  of a [finishBattle]. *)
Lemma emitted_settled bl sid isSpecial r rtie w :
∃ pre, Forall is_players_update pre
     ∧ emitted (settled bl sid isSpecial r rtie w) = emitted w ++ pre.
Proof.
assert (H1 : emitted (struck bl sid isSpecial r w) = emitted w)
  by apply emitted_paid.
assert (H2 : emitted (advanced bl sid isSpecial r w) = emitted w)
  by apply emitted_paid.
unfold settled. cbv zeta. repeat case_decide.
- destruct (emitted_finishBattle bl sid (struck bl sid isSpecial r w)) as [ps ->].
  exists [players_update ps]. rewrite H1. split; [|done]. by repeat constructor.
- destruct (emitted_finishBattle bl
              (getWinnerByHealth (advanced bl sid isSpecial r w)
                 (getB (advanced bl sid isSpecial r w) bl) rtie)
              (advanced bl sid isSpecial r w)) as [ps ->].
  exists [players_update ps]. rewrite H2. split; [|done]. by repeat constructor.
- exists []. rewrite H2, app_nil_r. split; [constructor|done].
Qed.

Lemma emitted_broadcast bl w :
emitted (broadcastBattleUpdate bl w)
= emitted w
  ++ [battle_update (player_id (deref w (player1 (getB w bl))))
        (getBattleData w (getB w bl));
      battle_update (player_id (deref w (player2 (getB w bl))))
        (getBattleData w (getB w bl))].
Proof.
unfold broadcastBattleUpdate, battle_players. cbn [foldl].
by rewrite !emitted_emit, <- app_assoc.
Qed.

End AttackAnswers.

(** X23 ([battle-attack], lines 755-791; [broadcastBattleUpdate],
    lines 354-359).  A [battle-attack] that fails one of the tests (sender
    registered, battle listed, sender one of its players, battle active,
    sender's turn, balance covering the cost) changes nothing and is
    answered with one [battle-error] to the sender.  One that passes them
    is answered with no error: after the [players-update]s of
    [performAttack], both players of the battle are sent the same snapshot,
    which shows the battle as the attack left it, and a special attack is
    then announced to everybody under the sender's name. *)
Theorem battle_attack_answers (w : World) (sid battleId0 : string)
    (isSpecial : bool) (r rtie : Q) :
  let w' := battle_attack sid battleId0 isSpecial r rtie w in
  (¬ attack_goes_through sid battleId0 isSpecial w →
     ∃ message, w' = emit (battle_error sid message) w)
  ∧ (∀ i pl j bl,
       find_player w sid = Some (i, pl) → find_battle w battleId0 = Some (j, bl) →
       isParticipant w (getB w bl) sid = true → attack_accepted bl sid isSpecial w →
       let d := getBattleData w' (getB w' bl) in
       ∃ pre ps, Forall is_players_update pre
         ∧ emitted w'
           = emitted w ++ pre
             ++ [players_update ps;
                 battle_update (view_id (data_player1 d)) d;
                 battle_update (view_id (data_player2 d)) d]
             ++ (if isSpecial
                 then [chat_message "Система"
                         (player_name (deref w pl)
                          +:+ " использует супер-удар в баттле!")]
                 else [])).
Proof.
  cbv zeta. split.
  - intros Hno. unfold battle_attack.
    destruct (find_player w sid) as [[i pl]|] eqn:Hfp; [|by eexists].
    destruct (find_battle w battleId0) as [[j bl]|] eqn:Hfb; [|by eexists].
    pose proof (find_player_Some _ _ _ _ Hfp) as [_ Hid]. rewrite Hid.
    destruct (isParticipant w (getB w bl) sid) eqn:Hpart; cbn [negb]; [|by eexists].
    case_decide; [by eexists|].
    rewrite performAttack_rejected; [by eexists|].
    intros Hacc. apply Hno. by exists i, pl, j, bl.
  - intros i pl j bl Hfp Hfb Hpart Hacc.
    set (s := settled bl sid isSpecial r rtie w).
    set (s1 := emit (players_update (snapshot s)) s).
    set (s2 := broadcastBattleUpdate bl s1).
    assert (Hw' : battle_attack sid battleId0 isSpecial r rtie w
              = if isSpecial
                then emit (chat_message "Система"
                             (player_name (deref s2 pl)
                              +:+ " использует супер-удар в баттле!")) s2
                else s2).
    { unfold battle_attack. rewrite Hfp, Hfb.
      pose proof (find_player_Some _ _ _ _ Hfp) as [_ Hid]. rewrite Hid, Hpart.
      cbn [negb]. rewrite decide_False by (destruct Hacc as [-> _]; by intros []).
      by rewrite performAttack_accepted. }
    assert (Hs2 : silent s s2)
      by (apply silent_broadcast, silent_emit, silent_refl).
    assert (Hs : silent s (battle_attack sid battleId0 isSpecial r rtie w)).
    { rewrite Hw'. destruct isSpecial; [by apply silent_emit|done]. }
    assert (Hs1 : silent s s1) by (apply silent_emit, silent_refl).
    rewrite (silent_getB _ _ bl Hs), (silent_getBattleData _ _ _ Hs).
    assert (Hname : player_name (deref s2 pl) = player_name (deref w pl)).
    { rewrite (silent_deref _ _ pl Hs2). by apply (settled_proj player_name). }
    destruct (emitted_settled bl sid isSpecial r rtie w) as (pre & Hpre & Hem).
    fold s in Hem.
    assert (Hb : emitted s2
              = emitted w ++ pre
                ++ [players_update (snapshot s);
                    battle_update
                      (view_id (data_player1 (getBattleData s (getB s bl))))
                      (getBattleData s (getB s bl));
                    battle_update
                      (view_id (data_player2 (getBattleData s (getB s bl))))
                      (getBattleData s (getB s bl))]).
    { unfold s2. rewrite emitted_broadcast.
      rewrite (silent_getB _ _ bl Hs1), (silent_getBattleData _ _ _ Hs1),
        !(silent_deref _ _ _ Hs1).
      unfold s1. rewrite emitted_emit, Hem. by rewrite <- !app_assoc. }
    exists pre, (snapshot s). split; [done|].
    rewrite Hw'. destruct isSpecial.
    + rewrite emitted_emit, Hb, Hname. by rewrite <- !app_assoc.
    + rewrite Hb. by rewrite app_nil_r.
Qed.

Lemma battle_attack_answers_witness :
  ∃ pre ps d,
    emitted (battle_attack "sA" "battle_1" false (1 # 2) 0 Worlds.started)
    = emitted Worlds.started ++ pre
      ++ [players_update ps; battle_update "sA" d; battle_update "sB" d] ++ [].
Proof.
  destruct (battle_attack_answers Worlds.started "sA" "battle_1" false (1 # 2) 0)
    as [_ H].
  destruct (H 0%nat 0%nat 0%nat 0%nat) as (pre & ps & _ & Hem).
  - vm_compute. reflexivity.
  - vm_compute. reflexivity.
  - vm_compute. reflexivity.
  - split_and!; vm_compute; [reflexivity|reflexivity|discriminate].
  - exists pre, ps. eexists. exact Hem.
Defined.

(** ** Accepting one's own challenge *)

Section Solo.
Implicit Types (w : World) (l : loc) (bl : bloc).

(** What [battle-accept] keeps of every player object. *)
Lemma accepted_by_proj {A} (g : Player → A) newId c a w w' l :
(∀ v bid p, g (set_inBattle v bid p) = g p) →
accepted_by newId c a w w' → g (deref w' l) = g (deref w l).
Proof.
intros Hg [_ Hp _ _ _ _ _]. unfold deref. rewrite Hp.
assert (Halter : ∀ k (ps : list Player),
          g (default noPlayer (alter (set_inBattle true (Some newId)) k ps !! l))
          = g (default noPlayer (ps !! l))).
{ intros k ps. destruct (decide (l = k)) as [->|Hne].
  - rewrite list_lookup_alter_eq. destruct (ps !! k); simpl; [apply Hg|done].
  - by rewrite list_lookup_alter_ne. }
by rewrite !Halter.
Qed.

Lemma accepted_by_getB newId c a w w' :
accepted_by newId c a w w' → getB w' (length (bheap w)) = started_battle newId c a w.
Proof.
intros [Hb _ _ _ _ _ _]. unfold getB.
by rewrite Hb, lookup_app_r, Nat.sub_diag.
Qed.

(** What every handler keeps: the objects allocated stay allocated, a
  player keeps its [id] and a battle its two players. *)
Record kept (w w' : World) : Prop := mk_kept {
k_plen : (length (pheap w) ≤ length (pheap w'))%nat;
k_id : ∀ l, (l < length (pheap w))%nat → player_id (deref w' l) = player_id (deref w l);
k_blen : (length (bheap w) ≤ length (bheap w'))%nat;
k_p1 : ∀ bl, (bl < length (bheap w))%nat → player1 (getB w' bl) = player1 (getB w bl);
k_p2 : ∀ bl, (bl < length (bheap w))%nat → player2 (getB w' bl) = player2 (getB w bl)
}.

Lemma kept_refl w : kept w w.
Proof. by constructor. Qed.

Lemma kept_heaps w w' :
pheap w' = pheap w → bheap w' = bheap w → kept w w'.
Proof.
intros Hp Hb. constructor; rewrite ?Hp, ?Hb; try done.
- intros l _. unfold deref. by rewrite Hp.
- intros bl _. unfold getB. by rewrite Hb.
- intros bl _. unfold getB. by rewrite Hb.
Qed.

Lemma kept_silent w w' : silent w w' → kept w w'.
Proof. intros Hs. apply kept_heaps; apply Hs. Qed.

Lemma kept_quiet w w' : quiet w w' → kept w w'.
Proof.
intros Hq. constructor.
- apply Hq.
- apply Hq.
- by rewrite (q_bheap _ _ Hq).
- intros bl _. unfold getB. by rewrite (q_bheap _ _ Hq).
- intros bl _. unfold getB. by rewrite (q_bheap _ _ Hq).
Qed.

Lemma kept_stable w w' : stable w w' → kept w w'.
Proof.
intros Hs. constructor.
- by rewrite (st_pheap _ _ Hs).
- intros l _. apply Hs.
- by rewrite (st_bheap _ _ Hs).
- intros bl _. apply Hs.
- intros bl _. apply Hs.
Qed.

Lemma kept_step w e w' : reachable w → step w e = Some w' → kept w w'.
Proof.
intros Hr Hstep. pose proof (reachable_wf w Hr) as Hwf.
destruct e as [sid d rn rs|sid d|sid reward|sid tid|sid cid newId
  |sid cid reason|sid bid isSpecial r rtie|sid bid reason|sid|h|dt]; simpl in Hstep.
- injection Hstep as <-. apply kept_quiet, quiet_player_join.
- injection Hstep as <-. apply kept_quiet, quiet_player_update.
- injection Hstep as <-. apply kept_quiet, quiet_claim_task.
- injection Hstep as <-. apply kept_silent, silent_battle_challenge.
- injection Hstep as <-.
  destruct (decide (accept_rejected sid cid w)) as [Hrej|Hacc].
  + destruct (battle_accept_rejected sid cid newId w Hrej) as [m ->].
    by apply kept_heaps.
  + destruct (battle_accept_accepted sid cid newId w Hacc)
      as (i & a & j & c & _ & _ & _ & _ & _ & Hab).
    constructor.
    * by rewrite (ab_pheap _ _ _ _ _ Hab), !length_alter.
    * intros l _. by apply (accepted_by_proj player_id newId c a).
    * rewrite (ab_bheap _ _ _ _ _ Hab), length_app. lia.
    * intros bl Hbl. unfold getB. by rewrite (ab_bheap _ _ _ _ _ Hab), lookup_app_l.
    * intros bl Hbl. unfold getB. by rewrite (ab_bheap _ _ _ _ _ Hab), lookup_app_l.
- destruct (battle_decline sid cid reason w) as [w1|] eqn:Hd; [|done].
  injection Hstep as <-. by apply kept_silent, (silent_battle_decline sid cid reason).
- injection Hstep as <-.
  destruct (battle_attack_cases sid bid isSpecial r rtie w)
    as [Hs|(i & pl & j & bl & _ & _ & _ & _ & Hs)]; [by apply kept_silent|].
  pose proof (kept_stable _ _ (stable_settled bl sid isSpecial r rtie w)) as Hk.
  destruct Hk as [K1 K2 K3 K4 K5].
  constructor; unfold deref, getB;
    rewrite ?(si_pheap _ _ Hs), ?(si_bheap _ _ Hs); done.
- injection Hstep as <-.
  destruct (battle_cancel_cases sid bid reason w Hwf)
    as [Hs|(i & pl & j & bl & _ & _ & _ & Hc & _)]; [by apply kept_silent|].
  constructor.
  + by rewrite (cb_pheap _ _ _ _ _ Hc), freed_length.
  + intros l _. unfold deref. rewrite (cb_pheap _ _ _ _ _ Hc). by apply freed_proj.
  + by rewrite (cb_bheap _ _ _ _ _ Hc), length_alter.
  + intros bl' _. by apply (getB_alter_proj player1 _ _ _ _ _ (cb_bheap _ _ _ _ _ Hc)).
  + intros bl' _. by apply (getB_alter_proj player2 _ _ _ _ _ (cb_bheap _ _ _ _ _ Hc)).
- injection Hstep as <-.
  destruct (disconnect_form sid w) as (Hph & Hbh & _ & _ & _).
  set (w1 := foldl (disconnect_battle sid) w _) in *.
  assert (Hs1 : stable w w1).
  { apply stable_foldl; [|apply stable_refl]. intros w2 bl Hs.
    by apply stable_disconnect_battle. }
  destruct (kept_stable _ _ Hs1) as [K1 K2 K3 K4 K5].
  constructor; unfold deref, getB; rewrite ?Hph, ?Hbh; done.
- apply timer_fire_cases in Hstep as (k & t & _ & _ & _ & ->).
  apply kept_stable.
  pose proof (stable_turn_timeout (timer_battle t) (clearTimeout h w)
                (clearTimeout h w) (stable_refl _)) as Hst.
  destruct Hst as [S1 S2 S3 S4 S5 S6 S7 S8]. by constructor.
- case_decide; [|done]. injection Hstep as <-. by apply kept_heaps.
Qed.

Lemma kept_run evs w w' : reachable w → run w evs = Some w' → reachable w' ∧ kept w w'.
Proof.
revert w. induction evs as [|e evs IH]; intros w Hr Hrun; simpl in Hrun.
- injection Hrun as <-. split; [done|apply kept_refl].
- destruct (step w e) as [w1|] eqn:Hstep; [|done].
  pose proof (kept_step w e w1 Hr Hstep) as [A1 A2 A3 A4 A5].
  destruct (IH w1 (reachable_step w e w1 Hr Hstep) Hrun) as [Hr' [B1 B2 B3 B4 B5]].
  split; [done|]. constructor.
  + lia.
  + intros l Hl. rewrite B2 by lia. by apply A2.
  + lia.
  + intros bl Hbl. rewrite B4 by lia. by apply A4.
  + intros bl Hbl. rewrite B5 by lia. by apply A5.
Qed.

(** An accepted attack in a battle whose two players are one object [a]:
  the attacker is that player, the damage goes to its own health, the
  turn stays with it, and it wins a battle that this attack ends. *)
Lemma solo_attack w bl b attackerId isSpecial r rtie :
reachable w → bheap w !! bl = Some b → player1 b = player2 b →
attack_accepted bl attackerId isSpecial w →
let a := player1 b in
let b' := getB (performAttack bl attackerId isSpecial r rtie w).1 bl in
attackerId = player_id (deref w a)
∧ health b'
  = {[attackerId := Z.max 0 (getHealth b attackerId
                             - attack_damage isSpecial (clickPower (deref w a)) r)]}
∧ currentPlayer b' = attackerId
∧ (status b' = finished → winner b' = Some attackerId).
Proof.
intros Hr Hb Hsame Hok a. cbv zeta.
pose proof (getB_lookup w bl b Hb) as Hg.
pose proof (reachable_battles_ok w Hr bl b Hb) as [_ _ _ Hmover _ _ Hdom].
assert (Hp2 : player2 b = a) by done.
assert (Hsid : currentPlayer b = player_id (deref w a)).
{ rewrite Hmover. unfold mover, first_id, second_id. rewrite Hp2.
  by destruct (Z.even _). }
destruct Hok as (Hst & Hcur & Hres). rewrite Hg in Hst, Hcur.
assert (Hatt : attackerId = player_id (deref w a)) by congruence.
assert (Hh : ∃ h, health b = {[attackerId := h]}).
{ apply dom_singleton_inv_L. rewrite Hdom. unfold first_id, second_id.
  rewrite Hp2. fold a. rewrite <- Hatt. apply (union_idemp_L (C := gset string)). }
destruct Hh as [h Hh].
assert (Href : attacker_ref w (getB w bl) attackerId = a).
{ rewrite Hg. unfold attacker_ref. rewrite Hp2. by case_decide. }
assert (Hopp : getOpponent w (getB w bl) attackerId = a).
{ rewrite Hg. unfold getOpponent. rewrite Hp2. by case_decide. }
assert (Hdef : defender_id bl attackerId w = attackerId).
{ unfold defender_id. by rewrite Hopp. }
assert (Hleft : health_left bl attackerId isSpecial r w
          = Z.max 0 (getHealth b attackerId
                     - attack_damage isSpecial (clickPower (deref w a)) r)).
{ unfold health_left, dealt. by rewrite Hdef, Href, Hg. }
assert (Hacc : attack_accepted bl attackerId isSpecial w).
{ split_and!; [by rewrite Hg|by rewrite Hg|done]. }
split; [done|].
rewrite performAttack_accepted by done. cbn [fst]. rewrite getB_emit.
rewrite settled_getB by (by rewrite Hg). cbv zeta. rewrite Hg.
destruct (decide (health_left bl attackerId isSpecial r w ≤ 0)) as [Hend|Hgo].
- cbn [set_winner set_status struck_battle set_lastActionTime set_actions
    set_health health currentPlayer status winner].
  by rewrite Hdef, Hleft, Hh, insert_singleton_eq.
- destruct (decide (MAX_TURNS ≤ turn b + 1)) as [Hlim|Hno].
  + cbn [set_winner set_status advanced_battle set_turn set_currentPlayer
      struck_battle set_lastActionTime set_actions set_health health
      currentPlayer status winner].
    rewrite Hdef, Hleft, Hh, insert_singleton_eq. split_and!; [done..|].
    intros _. f_equal. unfold getWinnerByHealth.
    change (player1 (advanced_battle bl attackerId w
                       (struck_battle bl attackerId isSpecial r w b))) with a.
    change (player2 (advanced_battle bl attackerId w
                       (struck_battle bl attackerId isSpecial r w b)))
      with (player2 b).
    rewrite Hp2.
    assert (Hid : player_id (deref (advanced bl attackerId isSpecial r w) a)
                  = attackerId).
    { rewrite (st_id _ _ (stable_advanced bl attackerId isSpecial r w)). by symmetry. }
    rewrite Hid. by repeat case_decide; try destruct (Qlt_le_dec _ _).
  + cbn [advanced_battle set_turn set_currentPlayer struck_battle
      set_lastActionTime set_actions set_health health currentPlayer status].
    rewrite Hdef, Hleft, Hh, insert_singleton_eq. split_and!; [done..|].
    by rewrite Hst.
Qed.

End Solo.

(** X24 ([battle-accept], lines 695-739, which has no test that the two
    players differ, as [battle-challenge] has on line 666; [performAttack],
    lines 176-247; [getWinnerByHealth], lines 276-285).  A registered player
    that is in no battle and has the cost of an attack can accept a
    challenge from itself.  The battle this starts has the same object as
    both of its players and one [health] entry.  When the state was
    reachable, this stays so in every state that any further events lead
    to, and every attack that [performAttack] accepts in this battle is made
    by that player on its own health, leaves the turn with it, and if the
    attack ends the battle, by the last health or by the turn limit, that
    player is the winner. *)
Theorem self_accept_starts_solo_battle (w : World) (sid newId : string)
    (i : nat) (a : loc) :
  find_player w sid = Some (i, a) →
  inBattle (deref w a) = false → ATTACK_COST ≤ resources (deref w a) →
  let w' := battle_accept sid sid newId w in
  let bl := length (bheap w) in
  (bl ∈ battles w'
   ∧ player1 (getB w' bl) = a ∧ player2 (getB w' bl) = a
   ∧ status (getB w' bl) = active ∧ currentPlayer (getB w' bl) = sid
   ∧ health (getB w' bl) = {[sid := MAX_HEALTH]})
  ∧ (reachable w →
     ∀ evs w'', run w' evs = Some w'' →
       let b := getB w'' bl in
       player1 b = a ∧ player2 b = a ∧ player_id (deref w'' a) = sid
       ∧ dom (health b) = ({[sid]} : gset string)
       ∧ ∀ attackerId isSpecial r rtie,
           attack_accepted bl attackerId isSpecial w'' →
           let b' := getB (performAttack bl attackerId isSpecial r rtie w'').1 bl in
           attackerId = sid
           ∧ health b'
             = {[sid := Z.max 0 (getHealth b sid
                                 - attack_damage isSpecial (clickPower (deref w'' a)) r)]}
           ∧ currentPlayer b' = sid
           ∧ (status b' = finished → winner b' = Some sid)).
Proof.
  intros Hfp Hfree Hres. cbv zeta.
  pose proof (find_player_Some _ _ _ _ Hfp) as [Hi Hid].
  assert (Hacc : ¬ accept_rejected sid sid w).
  { unfold accept_rejected. rewrite Hfp. intros [?|[?|?]]; [congruence..|lia]. }
  destruct (battle_accept_accepted sid sid newId w Hacc)
    as (i1 & a1 & i2 & a2 & Hf1 & Hf2 & _ & _ & _ & Hab).
  rewrite Hfp in Hf1, Hf2. injection Hf1 as <- <-. injection Hf2 as <- <-.
  set (w' := battle_accept sid sid newId w) in *.
  set (bl := length (bheap w)).
  pose proof (accepted_by_getB newId a a w w' Hab) as Hg. fold bl in Hg.
  assert (Hh : health (getB w' bl) = {[sid := MAX_HEALTH]}).
  { rewrite Hg. cbn [started_battle set_turnTimer new_Battle health].
    rewrite Hid. by rewrite insert_insert_eq. }
  split.
  - split_and!.
    + rewrite (ab_battles _ _ _ _ _ Hab). apply elem_of_app. right. apply list_elem_of_here.
    + by rewrite Hg.
    + by rewrite Hg.
    + by rewrite Hg.
    + rewrite Hg. exact Hid.
    + exact Hh.
  - intros Hr evs w'' Hrun.
    assert (Hr' : reachable w')
      by (by apply (reachable_step w (EvAccept sid sid newId))).
    destruct (kept_run evs w' w'' Hr' Hrun) as [Hr'' [K1 K2 K3 K4 K5]].
    assert (Hbl : (bl < length (bheap w'))%nat).
    { rewrite (ab_bheap _ _ _ _ _ Hab), length_app. simpl. unfold bl. lia. }
    assert (Ha : (a < length (pheap w'))%nat).
    { rewrite (ab_pheap _ _ _ _ _ Hab), !length_alter.
      destruct (wf_alloc w (reachable_wf w Hr) a) as [p Hp];
        [by eapply list_elem_of_lookup_2|]. by eapply lookup_lt_Some. }
    assert (Hp1 : player1 (getB w'' bl) = a) by (by rewrite K4, Hg).
    assert (Hp2 : player2 (getB w'' bl) = a) by (by rewrite K5, Hg).
    assert (Hid'' : player_id (deref w'' a) = sid).
    { rewrite K2 by done. by rewrite (accepted_by_proj player_id newId a a w w'). }
    assert (Hb : ∃ b, bheap w'' !! bl = Some b).
    { apply lookup_lt_is_Some. lia. }
    destruct Hb as [b Hb]. pose proof (getB_lookup w'' bl b Hb) as Hgb.
    rewrite Hgb in Hp1, Hp2 |- *.
    split_and!; [done..| |].
    + pose proof (reachable_battles_ok w'' Hr'' bl b Hb) as [_ _ _ _ _ _ Hdom].
      rewrite Hdom. unfold first_id, second_id. rewrite Hp1, Hp2, Hid''.
      apply (union_idemp_L (C := gset string)).
    + intros attackerId isSpecial r rtie Hok.
      destruct (solo_attack w'' bl b attackerId isSpecial r rtie Hr'' Hb)
        as (Hatt & Hhealth & Hcur & Hwin); [congruence|done|].
      rewrite Hp1, Hid'' in Hatt. subst attackerId.
      rewrite Hp1 in Hhealth. done.
Qed.

Lemma self_accept_starts_solo_battle_witness :
  ∃ w'', run (battle_accept "sA" "sA" "battle_1" Worlds.joined)
           [EvAttack "sA" "battle_1" false (1 # 2) 0; EvJoin "sC" Scenario.cat 0 0]
         = Some w''
       ∧ getHealth (getB w'' 0%nat) "sA" = 90
       ∧ health (getB (performAttack 0%nat "sA" true (1 # 2) 0 w'').1 0%nat)
         = {[ "sA" := 65 ]}.
Proof.
  eexists. split; [vm_compute; reflexivity|]. split; [vm_compute; reflexivity|].
  match goal with |- health (getB (performAttack _ _ _ _ _ ?w2).1 _) = _ =>
    set (w'' := w2)
  end.
  destruct (self_accept_starts_solo_battle Worlds.joined "sA" "battle_1" 0%nat 0%nat)
    as [_ H].
  - vm_compute. reflexivity.
  - vm_compute. reflexivity.
  - vm_compute. discriminate.
  - assert (Hr : reachable Worlds.joined).
    { exists [EvJoin "sA" Scenario.cat 0 0; EvJoin "sB" Scenario.dog 0 0].
      vm_compute. reflexivity. }
    destruct (H Hr [EvAttack "sA" "battle_1" false (1 # 2) 0;
                    EvJoin "sC" Scenario.cat 0 0] w'') as (_ & _ & _ & _ & Hatt).
    { vm_compute. reflexivity. }
    destruct (Hatt "sA" true (1 # 2) 0%Q) as (_ & Hh & _).
    { split_and!; vm_compute; [reflexivity|reflexivity|discriminate]. }
    etransitivity; [exact Hh|]. vm_compute. reflexivity.
Defined.

(** ** A cancelled battle *)

Section Frozen.
Implicit Types (w : World) (l : loc) (bl : bloc) (b : Battle).

(** A cancelled battle is not listed. *)
Lemma cancelled_unlisted w bl b :
listed_ok w → bheap w !! bl = Some b → status b = cancelled → bl ∉ battles w.
Proof.
intros Hlo Hb Hst Hin. apply (lo_live w Hlo bl Hin).
by rewrite (getB_lookup w bl b Hb).
Qed.

Lemma frozen_alter (f : Battle → Battle) bl' w w' bl b :
bheap w' = alter f bl' (bheap w) → bl' ≠ bl →
bheap w !! bl = Some b → bheap w' !! bl = Some b.
Proof. intros -> Hne Hb. by rewrite list_lookup_alter_ne. Qed.

Lemma frozen_step w e w' bl b :
reachable w → bheap w !! bl = Some b → status b = cancelled →
step w e = Some w' → bheap w' !! bl = Some b.
Proof.
intros Hr Hb Hst. pose proof (reachable_wf w Hr) as Hwf.
pose proof (reachable_listed_ok w Hr) as Hlo.
pose proof (cancelled_unlisted w bl b Hlo Hb Hst) as Hout.
assert (Hg : getB w bl = b) by (by apply getB_lookup).
destruct e as [sid d rn rs|sid d|sid reward|sid tid|sid cid newId
  |sid cid reason|sid bid isSpecial r rtie|sid bid reason|sid|h|dt]; simpl.
- intros [= <-]. by rewrite (q_bheap _ _ (quiet_player_join sid d rn rs w)).
- intros [= <-]. by rewrite (q_bheap _ _ (quiet_player_update sid d w)).
- intros [= <-]. by rewrite (q_bheap _ _ (quiet_claim_task sid reward w)).
- intros [= <-]. by rewrite (si_bheap _ _ (silent_battle_challenge sid tid w)).
- intros [= <-]. destruct (decide (accept_rejected sid cid w)) as [Hrej|Hacc].
  + by destruct (battle_accept_rejected sid cid newId w Hrej) as [m ->].
  + destruct (battle_accept_accepted sid cid newId w Hacc)
      as (i & a & j & c & _ & _ & _ & _ & _ & Hab).
    rewrite (ab_bheap _ _ _ _ _ Hab). by apply lookup_app_l_Some.
- destruct (battle_decline sid cid reason w) as [w1|] eqn:Hd; [|done].
  intros [= <-]. by rewrite (si_bheap _ _ (silent_battle_decline _ _ _ _ _ Hd)).
- intros [= <-].
  destruct (battle_attack_cases sid bid isSpecial r rtie w)
    as [Hs|(i & pl & j & bl' & _ & _ & _ & Hacc & Hs)].
  + by rewrite (si_bheap _ _ Hs).
  + rewrite (si_bheap _ _ Hs). destruct Hacc as (Hact & _).
    eapply frozen_alter; [by apply settled_bheap| |done].
    intros ->. congruence.
- intros [= <-].
  destruct (battle_cancel_cases sid bid reason w Hwf)
    as [Hs|(i & pl & j & bl' & _ & Hfb & _ & Hc & _)].
  + by rewrite (si_bheap _ _ Hs).
  + eapply frozen_alter; [exact (cb_bheap _ _ _ _ _ Hc)| |done].
    intros ->. apply Hout. by eapply find_battle_listed.
- intros [= <-]. unfold disconnect.
  set (pbs := filter _ (battles w)).
  assert (Hpbs : ∀ bl', bl' ∈ pbs → bl' ∈ battles w).
  { intros bl' Hbl'. unfold pbs in Hbl'. by apply list_elem_of_filter in Hbl' as [_ ?]. }
  destruct (disconnect_rounds sid pbs w Hwf Hpbs) as (_ & Hs1 & _ & Hsame & _).
  set (w1 := foldl (disconnect_battle sid) w pbs) in *.
  assert (H1 : bheap w1 !! bl = Some b).
  { assert (Hlt : (bl < length (bheap w1))%nat).
    { rewrite (st_bheap _ _ Hs1). by eapply lookup_lt_Some. }
    apply lookup_lt_is_Some in Hlt as [b1 Hb1].
    rewrite Hb1. f_equal. rewrite <- (getB_lookup w1 bl b1 Hb1), Hsame; [done|].
    intros Hin. apply Hout. by apply Hpbs. }
  cbv zeta. by destruct (find_player _ sid) as [[? ?]|].
- intros (k & t & _ & _ & _ & ->)%timer_fire_cases.
  set (w0 := clearTimeout h w).
  destruct (decide (status (getB w0 (timer_battle t)) = active)) as [Hact|Hno].
  + eapply frozen_alter; [by apply turn_timeout_bheap| |exact Hb].
    intros Heq. rewrite Heq in Hact.
    change (getB w0 bl) with (getB w bl) in Hact. congruence.
  + by rewrite turn_timeout_terminal.
- case_decide; [|done]. by intros [= <-].
Qed.

End Frozen.

(** X25 ([cancelBattle], lines 362-377; [battle-cancel], line 820;
    [disconnect], line 866; the tests of [status] on lines 177, 318 and 769).
    [cancelled] is final: a [Battle] object that is cancelled in a reachable
    state is the same in every state that any further events lead to.  It is
    off the list, so no handler finds it, and its timer is cleared. *)
Theorem cancelled_battle_never_changes (w : World) (bl : bloc) (b : Battle)
    (evs : list Event) (w' : World) :
  reachable w → bheap w !! bl = Some b → status b = cancelled →
  run w evs = Some w' →
  bheap w' !! bl = Some b ∧ (bl ∉ battles w')
  ∧ ∀ t, t ∈ timers w' → timer_battle t ≠ bl.
Proof.
  intros Hr Hb Hst Hrun.
  assert (H : reachable w' ∧ bheap w' !! bl = Some b).
  { revert w Hr Hb Hrun. induction evs as [|e evs IH]; intros w Hr Hb; simpl.
    - by intros [= <-].
    - destruct (step w e) as [w1|] eqn:Hstep; [|done].
      apply IH; [by eapply reachable_step|by eapply frozen_step]. }
  destruct H as [Hr' Hb']. split_and!; [done| |].
  - by eapply cancelled_unlisted; [apply reachable_listed_ok|..].
  - intros t Hin Htb. destruct (reachable_timers_ok w' Hr') as [_ Hp _ _ _].
    destruct (Hp t Hin) as (_ & _ & b' & Hb'' & _ & Hact).
    rewrite Htb in Hb''. congruence.
Qed.

Lemma cancelled_battle_never_changes_witness :
  let w := battle_cancel "sB" "battle_1" None Worlds.started in
  ∃ w', run w [EvAccept "sB" "sA" "battle_1"; EvAttack "sA" "battle_1" false (1 # 2) 0]
        = Some w'
      ∧ bheap w' !! 0%nat = bheap w !! 0%nat ∧ length (bheap w') = 2%nat.
Proof.
  cbv zeta. eexists. split; [vm_compute; reflexivity|]. split; [|vm_compute; reflexivity].
  set (w := battle_cancel "sB" "battle_1" None Worlds.started).
  assert (Hb : ∃ b, bheap w !! 0%nat = Some b ∧ status b = cancelled)
    by (eexists; split; vm_compute; reflexivity).
  destruct Hb as (b & Hb & Hst). rewrite Hb.
  refine (proj1 (cancelled_battle_never_changes w 0%nat b
                   [EvAccept "sB" "sA" "battle_1";
                    EvAttack "sA" "battle_1" false (1 # 2) 0] _ _ Hb Hst _)).
  - exists (Scenario.started ++ [EvCancel "sB" "battle_1" None]). vm_compute. reflexivity.
  - vm_compute. reflexivity.
Defined.

(** ** A battle in which nobody moves *)

(** Time passes, by no more than one turn at once, and timers fire. *)
Definition idle_event (e : Event) : Prop :=
  match e with
  | EvWait dt => 0 ≤ dt ≤ TURN_TIME
  | EvTimer _ => True
  | _ => False
  end.

(** The health of the two players of [b], added up. *)
Definition total_health (w : World) (b : Battle) : Z :=
  getHealth b (player_id (deref w (player1 b)))
  + getHealth b (player_id (deref w (player2 b))).

Section IdleBattle.
Implicit Types (w : World) (l : loc) (bl : bloc) (b : Battle).

Lemma reachable_health_nonneg w bl k : reachable w → 0 ≤ getHealth (getB w bl) k.
Proof.
intros [evs Hrun].
pose proof (bounded_run False evs init w (λ H, False_ind _ H) (bounded_init _) Hrun)
  as Hb.
by destruct (getHealth_in_range False (getB w bl) k (bounded_getB False w bl Hb)).
Qed.

Lemma run_app evs1 evs2 w w1 w2 :
run w evs1 = Some w1 → run w1 evs2 = Some w2 → run w (evs1 ++ evs2) = Some w2.
Proof.
revert w. induction evs1 as [|e evs1 IH]; intros w; simpl.
- by intros [= ->].
- destruct (step w e); [apply IH|done].
Qed.

Lemma reachable_run evs w w' : reachable w → run w evs = Some w' → reachable w'.
Proof. intros [evs0 H0] Hrun. exists (evs0 ++ evs). by eapply run_app. Qed.

Lemma total_after_hit (m : gmap string Z) (cur id1 id2 : string) (v : Z) :
cur = id1 ∨ cur = id2 →
0 ≤ default 0 (m !! id1) → 0 ≤ default 0 (m !! id2) →
v ≤ default 0 (m !! cur) - 5 →
default 0 (<[cur := v]> m !! id1) + default 0 (<[cur := v]> m !! id2) + 5
≤ default 0 (m !! id1) + default 0 (m !! id2).
Proof.
intros Hcur H1 H2 Hv.
destruct (decide (cur = id1)) as [E1|N1]; destruct (decide (cur = id2)) as [E2|N2].
- subst id1 id2. rewrite !lookup_insert_eq. simpl. lia.
- subst id1. rewrite lookup_insert_eq, lookup_insert_ne by done. simpl. lia.
- subst id2. rewrite lookup_insert_eq, lookup_insert_ne by done. simpl. lia.
- exfalso. destruct Hcur; congruence.
Qed.

(** One round: the timer of the battle fires; the battle is finished, or
  it is still active and the mover has lost 5 health. *)
Lemma idle_round w bl b :
reachable w → bheap w !! bl = Some b → status b = active →
∃ h dt w', 0 ≤ dt ≤ TURN_TIME
  ∧ run w [EvWait dt; EvTimer h] = Some w'
  ∧ (status (getB w' bl) = finished
     ∨ ∃ b', bheap w' !! bl = Some b' ∧ status b' = active
           ∧ total_health w' b' + 5 ≤ total_health w b).
Proof.
intros Hr Hb Hst. destruct (timeout_round w bl b Hr Hb Hst) as (h & dt & Hdt & Hrun).
exists h, dt. eexists. split; [done|]. split; [exact Hrun|].
set (w2 := clearTimeout h (set_now (now w + dt) w)).
assert (Hg : getB w2 bl = b) by (apply getB_lookup; exact Hb).
assert (Hst2 : status (getB w2 bl) = active) by (by rewrite Hg).
pose proof (turn_timeout_getB bl w2 Hst2) as Hg'. cbv zeta in Hg'. rewrite Hg in Hg'.
destruct (decide (Z.max 0 (getHealth b (currentPlayer b) - 5) ≤ 0)) as [Hz|Hz].
{ left. by rewrite Hg'. }
right. eexists. split; [|split].
- apply active_allocated. by rewrite Hg'.
- by rewrite Hg'.
- rewrite Hg'. unfold total_health.
  cbn [set_turnTimer set_turn set_currentPlayer timed_out_battle set_actions
    set_health player1 player2 health getHealth].
  rewrite !(turn_timeout_proj player_id) by done.
  change (deref w2) with (deref w).
  destruct (reachable_battles_ok w Hr bl b Hb) as [_ _ _ Hm _ _ _].
  pose proof (reachable_health_nonneg w bl (player_id (deref w (player1 b))) Hr) as H1.
  pose proof (reachable_health_nonneg w bl (player_id (deref w (player2 b))) Hr) as H2.
  rewrite (getB_lookup w bl b Hb) in H1, H2.
  unfold getHealth in *.
  apply total_after_hit; [|done..|unfold getHealth; lia].
  rewrite Hm. unfold mover, first_id, second_id. destruct (Z.even _); auto.
Qed.

(** [k] rounds are enough when the total health is below [5 * k]. *)
Lemma idle_rounds (k : nat) bl : ∀ w b,
reachable w → bheap w !! bl = Some b → status b = active →
total_health w b < 5 * Z.of_nat k →
∃ evs w', Forall idle_event evs ∧ (length evs ≤ 2 * k)%nat
  ∧ run w evs = Some w' ∧ status (getB w' bl) = finished.
Proof.
induction k as [|k IH]; intros w b Hr Hb Hst Hlt.
- exfalso.
  pose proof (reachable_health_nonneg w bl (player_id (deref w (player1 b))) Hr) as H1.
  pose proof (reachable_health_nonneg w bl (player_id (deref w (player2 b))) Hr) as H2.
  rewrite (getB_lookup w bl b Hb) in H1, H2. unfold total_health in Hlt. lia.
- destruct (idle_round w bl b Hr Hb Hst) as (h & dt & w1 & Hdt & Hrun & Hcase).
  assert (Hidle : Forall idle_event [EvWait dt; EvTimer h])
    by (repeat constructor; simpl; lia).
  destruct Hcase as [Hfin|(b1 & Hb1 & Hst1 & Hless)].
  + exists [EvWait dt; EvTimer h], w1. split_and!; [done|simpl; lia|done..].
  + destruct (IH w1 b1) as (evs & w' & Hev & Hlen & Hrun' & Hfin);
      [by eapply reachable_run|done|done|lia|].
    exists ([EvWait dt; EvTimer h] ++ evs), w'. split_and!.
    * by apply Forall_app.
    * rewrite length_app. simpl. lia.
    * by eapply run_app.
    * done.
Qed.

End IdleBattle.

(** X26 (the callback of [startTurnTimer], lines 317-350).  No battle
    hangs when its players stop moving: from every reachable state with an
    active battle, waiting and letting the timer of the battle fire, again
    and again, finishes the battle.  Each timeout takes 5 health from the
    player whose turn it is, so one timeout more than a fifth of the two
    players' health together is enough: for two players at full health, 41
    timeouts of at most 30 seconds each. *)
Theorem idle_battle_ends (w : World) (bl : bloc) (b : Battle) :
  reachable w → bheap w !! bl = Some b → status b = active →
  ∃ evs w', Forall idle_event evs
    ∧ (length evs ≤ 2 * Z.to_nat (total_health w b / 5 + 1))%nat
    ∧ run w evs = Some w' ∧ status (getB w' bl) = finished.
Proof.
  intros Hr Hb Hst.
  apply (idle_rounds (Z.to_nat (total_health w b / 5 + 1)) bl w b); [done..|].
  pose proof (reachable_health_nonneg w bl (player_id (deref w (player1 b))) Hr) as H1.
  pose proof (reachable_health_nonneg w bl (player_id (deref w (player2 b))) Hr) as H2.
  rewrite (getB_lookup w bl b Hb) in H1, H2.
  assert (H0 : 0 ≤ total_health w b) by (unfold total_health; lia).
  revert H0. generalize (total_health w b). intros t Ht.
  pose proof (Z.div_mod t 5 ltac:(lia)). pose proof (Z.mod_pos_bound t 5 ltac:(lia)).
  assert (0 ≤ t / 5) by (apply Z.div_pos; lia). lia.
Qed.

Lemma idle_battle_ends_witness :
  ∃ evs w', Forall idle_event evs ∧ (length evs ≤ 82)%nat
    ∧ run Worlds.started evs = Some w' ∧ status (getB w' 0%nat) = finished.
Proof.
  destruct (idle_battle_ends Worlds.started 0%nat (getB Worlds.started 0%nat))
    as (evs & w' & Hev & Hlen & Hrun & Hfin).
  - exact reachable_started.
  - vm_compute. reflexivity.
  - vm_compute. reflexivity.
  - exists evs, w'. split_and!; [done| |done..].
    change (2 * Z.to_nat (total_health Worlds.started (getB Worlds.started 0%nat) / 5 + 1))%nat
      with 82%nat in Hlen. exact Hlen.
Defined.

(** ** Joining and leaving again *)

Section RoundTrip.
Implicit Types (w : World) (l : loc) (bl : bloc).

Lemma filter_none {A} (P : A → Prop) `{∀ x, Decision (P x)} (xs : list A) :
Forall (λ x, ¬ P x) xs → filter P xs = [].
Proof.
induction 1 as [|x xs Hx _ IH]; [done|].
by rewrite filter_cons_False.
Qed.

Lemma filter_every {A} (P : A → Prop) `{∀ x, Decision (P x)} (xs : list A) :
Forall P xs → filter P xs = xs.
Proof.
induction 1 as [|x xs Hx _ IH]; [done|].
rewrite filter_cons_True by done. by rewrite IH.
Qed.

(** A socket that is not registered takes part in no listed battle. *)
Lemma stranger_in_no_battle w sid bl :
wf w → find_player w sid = None → bl ∈ battles w →
isParticipant w (getB w bl) sid = false.
Proof.
intros Hwf Hnone Hbl. destruct (wf_battles w Hwf bl Hbl) as (_ & H1 & H2 & _).
apply list_find_None in Hnone. rewrite Forall_forall in Hnone.
unfold isParticipant. apply orb_false_iff.
split; apply bool_decide_eq_false; by apply Hnone.
Qed.

End RoundTrip.

(** X27 ([player-join], lines 421-436; [disconnect], lines
    839-884).  A socket that joins and disconnects leaves the server as it
    found it: in a reachable state in which the socket is not registered,
    [player-join] followed by [disconnect] gives back the registry, the list
    of battles, every battle, every timer and every player object that was
    there; what remains is the object of the player that left, which nothing
    refers to, and five entries in the log, the last [players-update] of
    which shows the players as they were. *)
Theorem join_then_disconnect (w : World) (sid : string) (d : PlayerData)
    (rname rsuffix : Q) :
  reachable w → find_player w sid = None →
  let name := join_name w d rname rsuffix in
  let w1 := player_join sid d rname rsuffix w in
  let w2 := disconnect sid w1 in
  players w2 = players w ∧ battles w2 = battles w ∧ bheap w2 = bheap w
  ∧ timers w2 = timers w ∧ nextHandle w2 = nextHandle w ∧ now w2 = now w
  ∧ pheap w2 = pheap w ++ [newcomer sid name d (now w)]
  ∧ emitted w2
    = emitted w ++ [players_update (snapshot w1);
                    player_joined name (num_or (data_resources d) 0);
                    player_registered sid name;
                    players_update (snapshot w);
                    player_left name].
Proof.
  intros Hr Hnone. cbv zeta. pose proof (reachable_wf w Hr) as Hwf.
  destruct (player_join_new sid d rname rsuffix w Hnone) as (Hps & Hph & Hem).
  destruct (player_join_rest sid d rname rsuffix w) as (Hbh & Hbs & Hts & Hnh & Hnow).
  set (name := join_name w d rname rsuffix) in *.
  set (w1 := player_join sid d rname rsuffix w) in *.
  assert (Hold : ∀ l, l ∈ players w → deref w1 l = deref w l).
  { intros l Hl. destruct (wf_alloc w Hwf l Hl) as [p Hp].
    unfold deref. by rewrite Hph, (lookup_app_l_Some _ _ _ _ Hp), Hp. }
  assert (Hnew : deref w1 (length (pheap w)) = newcomer sid name d (now w)).
  { unfold deref. by rewrite Hph, lookup_app_r, Nat.sub_diag. }
  assert (Hg : ∀ bl, getB w1 bl = getB w bl) by (intros; unfold getB; by rewrite Hbh).
  assert (Hpart : ∀ bl, bl ∈ battles w → isParticipant w1 (getB w1 bl) sid = false).
  { intros bl Hbl. rewrite <- (stranger_in_no_battle w sid bl Hwf Hnone Hbl).
    destruct (wf_battles w Hwf bl Hbl) as (_ & H1 & H2 & _).
    unfold isParticipant. by rewrite Hg, !Hold. }
  assert (Hfind : find_player w1 sid = Some (length (players w), length (pheap w))).
  { unfold find_player. rewrite Hps. apply list_find_Some. split_and!.
    - by rewrite lookup_app_r, Nat.sub_diag.
    - by rewrite Hnew.
    - intros j l Hj Hlt. rewrite lookup_app_l in Hj by done.
      rewrite Hold by (by eapply list_elem_of_lookup_2).
      apply list_find_None in Hnone. rewrite Forall_forall in Hnone.
      apply Hnone. by eapply list_elem_of_lookup_2. }
  unfold disconnect.
  assert (Hpbs : filter (λ bl, isParticipant w1 (getB w1 bl) sid = true) (battles w1) = []).
  { apply filter_none. rewrite Hbs. apply Forall_forall. intros bl Hbl.
    rewrite (Hpart bl Hbl). done. }
  rewrite Hpbs. cbn [foldl]. cbv zeta.
  assert (Hkeep : filter (λ bl, isParticipant w1 (getB w1 bl) sid = false) (battles w1)
                  = battles w).
  { rewrite Hbs. apply filter_every. apply Forall_forall. intros bl Hbl.
    by apply Hpart. }
  rewrite Hkeep.
  change (find_player (set_battles (battles w) w1) sid) with (find_player w1 sid).
  rewrite Hfind.
  assert (Hdel : delete (length (players w)) (players w1) = players w).
  { rewrite Hps. clear. induction (players w) as [|x xs IH]; [done|].
    simpl. by rewrite IH. }
  set (w3 := set_players _ (set_battles (battles w) w1)).
  assert (Hps3 : players w3 = players w) by exact Hdel.
  assert (Hsnap : snapshot w3 = snapshot w).
  { unfold snapshot. rewrite Hps3. apply list_fmap_ext. intros j l Hj.
    change (deref w1 l = deref w l). apply Hold. by eapply list_elem_of_lookup_2. }
  assert (Hname : player_name (deref w3 (length (pheap w))) = name).
  { change (deref w3 (length (pheap w))) with (deref w1 (length (pheap w))).
    by rewrite Hnew. }
  split_and!; try done.
  rewrite !emitted_emit, Hsnap, Hname. change (emitted w3) with (emitted w1).
  rewrite Hem, <- !app_assoc. done.
Qed.

Lemma join_then_disconnect_witness :
  players (disconnect "sC" (player_join "sC" Scenario.cat 0 0 Worlds.started))
  = players Worlds.started
  ∧ battles (disconnect "sC" (player_join "sC" Scenario.cat 0 0 Worlds.started))
    = battles Worlds.started.
Proof.
  destruct (join_then_disconnect Worlds.started "sC" Scenario.cat 0 0)
    as (Hps & Hbs & _).
  - exact reachable_started.
  - vm_compute. reflexivity.
  - split; [exact Hps|exact Hbs].
Defined.

(** ** The two flags of a player, and cancelling what was just accepted *)

(** [inBattle] and [battleId] are written together. *)
Definition flag_ok (p : Player) : Prop :=
  (inBattle p = false ∧ battleId p = None)
  ∨ (inBattle p = true ∧ is_Some (battleId p)).

Definition flags_ok (w : World) : Prop := Forall flag_ok (pheap w).

Section Flags.
Implicit Types (w : World) (l : loc) (bl : bloc).

Lemma flags_same w w' : pheap w' = pheap w → flags_ok w → flags_ok w'.
Proof. unfold flags_ok. by intros ->. Qed.

Lemma flags_update_player l f w :
(∀ p, flag_ok p → flag_ok (f p)) → flags_ok w → flags_ok (update_player l f w).
Proof. intros Hf Hw. unfold flags_ok. simpl. apply Forall_alter; auto. Qed.

Lemma flags_foldl {A} (f : World → A → World) (xs : list A) w :
(∀ w x, flags_ok w → flags_ok (f w x)) → flags_ok w → flags_ok (foldl f w xs).
Proof. intros Hf. revert w. induction xs; simpl; auto. Qed.

Lemma flags_finishBattle bl wid w : flags_ok w → flags_ok (finishBattle bl wid w).
Proof.
intros Hw. unfold finishBattle. cbv zeta.
set (w1 := update_battle bl _ w).
assert (H1 : flags_ok w1) by done.
set (w2 := match find_player w1 wid with Some _ => _ | None => _ end).
assert (H2 : flags_ok w2).
{ unfold w2. destruct (find_player w1 wid) as [[? l]|]; [|done].
  by apply flags_update_player. }
by destruct (turnTimer _).
Qed.

Lemma flags_cancelBattle bl reason w : flags_ok w → flags_ok (cancelBattle bl reason w).
Proof.
intros Hw. unfold cancelBattle, broadcastBattleUpdate, battle_players. cbn [foldl].
eapply flags_same; [|exact Hw]. cbv zeta. by destruct (turnTimer _).
Qed.

Lemma flags_turn_timeout bl w : flags_ok w → flags_ok (turn_timeout bl w).
Proof.
intros Hw. unfold turn_timeout. case_decide; [|done]. cbv zeta.
unfold broadcastBattleUpdate, battle_players. cbn [foldl].
set (w1 := update_battle bl _ w).
assert (H1 : flags_ok w1) by done.
destruct (bool_decide _).
- do 2 (eapply flags_same; [reflexivity|]). by apply flags_finishBattle.
- do 2 (eapply flags_same; [reflexivity|]).
  unfold startTurnTimer. by destruct (turnTimer _).
Qed.

Lemma flags_settled bl sid isSpecial r rtie w :
flags_ok w → flags_ok (settled bl sid isSpecial r rtie w).
Proof.
intros Hw.
assert (H0 : flags_ok (paid sid isSpecial w)).
{ unfold paid. destruct (find_player _ _) as [[? ?]|]; [|done].
  by apply flags_update_player. }
assert (H1 : flags_ok (struck bl sid isSpecial r w)) by done.
assert (H2 : flags_ok (advanced bl sid isSpecial r w)) by done.
unfold settled. cbv zeta.
repeat case_decide; try done; by apply flags_finishBattle.
Qed.

Lemma flags_release_player w id : flags_ok w → flags_ok (release_player w id).
Proof.
intros Hw. unfold release_player. destruct (find_player _ _) as [[? ?]|]; [|done].
apply flags_update_player; [|done]. intros p _. by left.
Qed.

Lemma flags_step w e w' : flags_ok w → step w e = Some w' → flags_ok w'.
Proof.
intros Hw. destruct e as [sid d rn rs|sid d|sid reward|sid tid|sid cid newId
  |sid cid reason|sid bid isSpecial r rtie|sid bid reason|sid|h|dt]; simpl.
- intros [= <-]. unfold player_join.
  destruct (find_player w sid) as [[? l]|].
  + do 3 (eapply flags_same; [reflexivity|]). by apply flags_update_player.
  + do 3 (eapply flags_same; [reflexivity|]). unfold flags_ok. simpl.
    apply Forall_app. split; [done|]. constructor; [by left|done].
- intros [= <-]. unfold player_update.
  destruct (find_player w sid) as [[? l]|]; [|done].
  eapply flags_same; [reflexivity|]. by apply flags_update_player.
- intros [= <-]. unfold claim_task.
  destruct (find_player w sid) as [[? l]|]; [|done].
  eapply flags_same; [reflexivity|]. by apply flags_update_player.
- intros [= <-]. eapply flags_same; [|exact Hw].
  apply (si_pheap _ _ (silent_battle_challenge sid tid w)).
- intros [= <-]. destruct (decide (accept_rejected sid cid w)) as [Hrej|Hacc].
  + by destruct (battle_accept_rejected sid cid newId w Hrej) as [m ->].
  + destruct (battle_accept_accepted sid cid newId w Hacc)
      as (i & a & j & c & _ & _ & _ & _ & _ & [_ Hp _ _ _ _ _]).
    unfold flags_ok. rewrite Hp.
    do 2 (apply Forall_alter; [|intros p _; right; by split]). done.
- destruct (battle_decline sid cid reason w) as [w1|] eqn:Hd; [|done].
  intros [= <-]. eapply flags_same; [|exact Hw].
  apply (si_pheap _ _ (silent_battle_decline _ _ _ _ _ Hd)).
- intros [= <-].
  destruct (battle_attack_cases sid bid isSpecial r rtie w)
    as [Hs|(i & pl & j & bl & _ & _ & _ & _ & Hs)].
  + eapply flags_same; [apply Hs|done].
  + eapply flags_same; [apply Hs|]. by apply flags_settled.
- intros [= <-]. unfold battle_cancel.
  destruct (find_player w sid) as [[? l]|]; [|done].
  destruct (find_battle w bid) as [[? bl]|]; [|done].
  destruct (negb _); [done|]. cbv zeta.
  set (w1 := cancelBattle bl _ w).
  assert (H1 : flags_ok w1) by (by apply flags_cancelBattle).
  set (w2 := foldl _ w1 _).
  assert (H2 : flags_ok w2)
    by (apply flags_foldl; [intros; by apply flags_release_player|done]).
  done.
- intros [= <-]. unfold disconnect. cbv zeta.
  set (w1 := foldl _ _ _).
  assert (H1 : flags_ok w1).
  { apply flags_foldl; [|done]. intros w0 bl H0. unfold disconnect_battle.
    eapply flags_same; [reflexivity|].
    apply flags_release_player. by apply flags_cancelBattle. }
  by destruct (find_player _ _) as [[? ?]|].
- intros (k & t & _ & _ & _ & ->)%timer_fire_cases. by apply flags_turn_timeout.
- case_decide; [|done]. by intros [= <-].
Qed.

Lemma reachable_flags_ok w : reachable w → flags_ok w.
Proof.
intros [evs Hrun]. assert (H0 : flags_ok init) by constructor.
revert H0 Hrun. generalize init. induction evs as [|e evs IH]; intros w0 H0; simpl.
- by intros [= <-].
- destruct (step w0 e) as [w1|] eqn:Hstep; [|done].
  apply IH. by eapply flags_step.
Qed.

(** A player that is free carries no [battleId]. *)
Lemma free_player w l :
reachable w → inBattle (deref w l) = false → battleId (deref w l) = None.
Proof.
intros Hr Hfree. pose proof (reachable_flags_ok w Hr) as Hw.
unfold deref in *. destruct (pheap w !! l) as [p|] eqn:Hl; [|done]. simpl in *.
destruct (Forall_lookup_1 _ _ _ _ Hw Hl) as [[_ ?]|[? _]]; [done|congruence].
Qed.

(** Setting and clearing the flags of a free player gives the player
  back. *)
Lemma flags_round_trip newId (p : Player) :
inBattle p = false → battleId p = None →
set_inBattle false None (set_inBattle true (Some newId) p) = p.
Proof. destruct p. simpl. by intros -> ->. Qed.

End Flags.

(** X28 ([battle-accept], lines 714-729; [battle-cancel], lines
    808-820; [cancelBattle], lines 362-377).  Cancelling a battle that was
    just accepted undoes the acceptance: when the [id] of the new battle is
    that of no listed battle, a [battle-cancel] by either of its two players
    right after the [battle-accept] gives back the registry, every player
    object with its flags, the list of battles and the pending timers.  What
    remains is the cancelled [Battle] object, off the list, one timer handle
    used up, and the log. *)
Theorem accept_then_cancel (w : World) (sid cid newId who : string)
    (reason : option string) (i j : nat) (a c : loc) :
  reachable w →
  find_player w sid = Some (i, a) → find_player w cid = Some (j, c) →
  inBattle (deref w a) = false → inBattle (deref w c) = false →
  ATTACK_COST ≤ resources (deref w a) →
  find_battle w newId = None →
  who = sid ∨ who = cid →
  let w1 := battle_accept sid cid newId w in
  let w2 := battle_cancel who newId reason w1 in
  players w2 = players w ∧ pheap w2 = pheap w ∧ battles w2 = battles w
  ∧ timers w2 = timers w ∧ now w2 = now w ∧ nextHandle w2 = S (nextHandle w)
  ∧ (∀ bl b, bheap w !! bl = Some b → bheap w2 !! bl = Some b)
  ∧ length (bheap w2) = S (length (bheap w))
  ∧ status (getB w2 (length (bheap w))) = cancelled.
Proof.
  intros Hr Hfa Hfc Hfree_a Hfree_c Hres Hfresh Hwho. cbv zeta.
  pose proof (reachable_wf w Hr) as Hwf.
  assert (Hacc : ¬ accept_rejected sid cid w).
  { unfold accept_rejected. rewrite Hfa, Hfc. intros [?|[?|?]]; [congruence..|lia]. }
  destruct (battle_accept_accepted sid cid newId w Hacc)
    as (i1 & a1 & j1 & c1 & Hf1 & Hf2 & _ & _ & _ & Hab).
  rewrite Hfa in Hf1. rewrite Hfc in Hf2.
  injection Hf1 as <- <-. injection Hf2 as <- <-.
  set (w1 := battle_accept sid cid newId w) in *.
  set (bl := length (bheap w)).
  assert (Hr1 : reachable w1)
    by (by apply (reachable_step w (EvAccept sid cid newId))).
  pose proof (reachable_wf w1 Hr1) as Hwf1.
  pose proof (accepted_by_getB newId c a w w1 Hab) as Hg. fold bl in Hg.
  destruct Hab as [Hbh Hph Hps Hbs Hts Hnh Hnow].
  assert (Hab : accepted_by newId c a w w1) by (by constructor).
  assert (Hids : ∀ l, player_id (deref w1 l) = player_id (deref w l))
    by (intros l; by apply (accepted_by_proj player_id newId c a w w1)).
  assert (Hfind : ∀ id, find_player w1 id = find_player w id)
    by (intros id; by apply find_player_ext).
  pose proof (find_player_Some _ _ _ _ Hfa) as [Hia Hida].
  pose proof (find_player_Some _ _ _ _ Hfc) as [Hjc Hidc].
  assert (Hold : ∀ bl', bl' ∈ battles w →
            getB w1 bl' = getB w bl' ∧ battle_id (getB w bl') ≠ newId).
  { intros bl' Hbl'. destruct (wf_battles w Hwf bl' Hbl') as ([b Hb] & _).
    split.
    - unfold getB. by rewrite Hbh, (lookup_app_l_Some _ _ _ _ Hb), Hb.
    - apply list_find_None in Hfresh. rewrite Forall_forall in Hfresh.
      by apply Hfresh. }
  assert (Hfb : find_battle w1 newId = Some (length (battles w), bl)).
  { unfold find_battle. rewrite Hbs. apply list_find_Some. split_and!.
    - by rewrite lookup_app_r, Nat.sub_diag.
    - by rewrite Hg.
    - intros k bl' Hk Hlt. rewrite lookup_app_l in Hk by done.
      destruct (Hold bl') as [-> ?]; [by eapply list_elem_of_lookup_2|done]. }
  assert (Hpart : isParticipant w1 (getB w1 bl) who = true).
  { unfold isParticipant. rewrite Hg. cbn [started_battle set_turnTimer new_Battle
      player1 player2]. rewrite !Hids, Hida, Hidc. apply orb_true_iff.
    destruct Hwho as [-> | ->]; [right|left]; by apply bool_decide_eq_true. }
  assert (Hfw : ∃ k pl, find_player w1 who = Some (k, pl)).
  { rewrite Hfind. destruct Hwho as [-> | ->]; eauto. }
  destruct Hfw as (k & pl & Hfw).
  destruct (battle_cancel_done who newId reason w1 k pl (length (battles w)) bl
              Hwf1 Hfw Hfb Hpart) as [Hcb Hbs2].
  set (w2 := battle_cancel who newId reason w1) in *.
  destruct Hcb as [Hbh2 Hph2 Hps2 Hts2 Hnh2 Hnow2].
  rewrite Hg in Hph2, Hts2. cbn [started_battle set_turnTimer new_Battle player1
    player2 foldl clear_held turnTimer] in Hph2, Hts2.
  split_and!.
  - by rewrite Hps2.
  - rewrite Hph2, Hph. apply list_eq. intros l.
    assert (HF : ∀ p, a = l ∨ c = l → pheap w !! l = Some p →
              set_inBattle false None p = p).
    { intros p Hl Hp.
      assert (Hfl : inBattle (deref w l) = false) by (by destruct Hl as [<-|<-]).
      pose proof (free_player w l Hr Hfl) as Hnl.
      unfold deref in Hfl, Hnl. rewrite Hp in Hfl, Hnl. simpl in Hfl, Hnl.
      destruct p. simpl in *. by subst. }
    destruct (decide (a = l)) as [Ea|Na]; destruct (decide (c = l)) as [Ec|Nc];
      rewrite ?Ea, ?Ec;
      repeat first [rewrite list_lookup_alter_eq
                   |rewrite list_lookup_alter_ne by done];
      try done;
      (destruct (pheap w !! l) as [p|] eqn:Hp; [|done]); simpl; f_equal;
      (transitivity (set_inBattle false None p); [by destruct p|apply HF; auto]).
  - rewrite Hbs2, Hbs, filter_app, filter_every, filter_none, app_nil_r; [done| |].
    + constructor; [|done]. by intros H.
    + apply Forall_forall. intros bl' Hbl'. rewrite Hg.
      by destruct (Hold bl' Hbl') as [-> ?].
  - rewrite Hts2, Hts, filter_app, filter_every, filter_none, app_nil_r; [done| |].
    + constructor; [|done]. simpl. by intros H.
    + apply Forall_forall. intros t Ht.
      destruct (reachable_timers_ok w Hr) as [_ Hp _ _ _].
      destruct (Hp t Ht) as (Hlt & _). lia.
  - by rewrite Hnow2.
  - by rewrite Hnh2.
  - intros bl' b Hb. rewrite Hbh2, list_lookup_alter_ne.
    + by rewrite Hbh, (lookup_app_l_Some _ _ _ _ Hb).
    + intros <-. apply lookup_lt_Some in Hb. unfold bl in Hb. lia.
  - by rewrite Hbh2, length_alter, Hbh, length_app, Nat.add_1_r.
  - unfold getB. rewrite Hbh2, list_lookup_alter_eq, Hbh, lookup_app_r, Nat.sub_diag by done.
    done.
Qed.

Lemma accept_then_cancel_witness :
  pheap (battle_cancel "sA" "battle_1" None
           (battle_accept "sB" "sA" "battle_1" Worlds.joined))
  = pheap Worlds.joined
  ∧ timers (battle_cancel "sA" "battle_1" None
              (battle_accept "sB" "sA" "battle_1" Worlds.joined))
    = timers Worlds.joined.
Proof.
  destruct (accept_then_cancel Worlds.joined "sB" "sA" "battle_1" "sA" None
              1%nat 0%nat 1%nat 0%nat) as (_ & Hph & _ & Hts & _).
  - exists [EvJoin "sA" Scenario.cat 0 0; EvJoin "sB" Scenario.dog 0 0].
    vm_compute. reflexivity.
  - vm_compute. reflexivity.
  - vm_compute. reflexivity.
  - vm_compute. reflexivity.
  - vm_compute. reflexivity.
  - vm_compute. discriminate.
  - vm_compute. reflexivity.
  - by right.
  - split; [exact Hph|exact Hts].
Defined.

(** ** A socket that has not joined *)





(** ** The turn limit *)

Definition is_timer (e : Event) : bool :=
  match e with
  | EvTimer _ => true
  | _ => false
  end.

(** Every active battle is below the turn limit. *)
Definition limit_ok (w : World) : Prop :=
  ∀ bl, status (getB w bl) = active → turn (getB w bl) < MAX_TURNS.

Section TurnLimit.
Implicit Types (w : World) (l : loc) (bl : bloc).

Lemma limit_ok_same w w' : bheap w' = bheap w → limit_ok w → limit_ok w'.
Proof. intros Hb Hw bl. unfold getB. rewrite Hb. apply Hw. Qed.

Lemma limit_ok_alter (f : Battle → Battle) bl' w w' :
bheap w' = alter f bl' (bheap w) →
(∀ b, bheap w !! bl' = Some b → status (f b) = active →
      turn (f b) < MAX_TURNS ∨ (turn (f b) = turn b ∧ status b = active)) →
limit_ok w → limit_ok w'.
Proof.
intros Hb Hf Hw bl. destruct (decide (bl = bl')) as [->|Hne].
- destruct (bheap w !! bl') as [b|] eqn:Hl.
  + rewrite (getB_alter_eq _ _ _ _ _ Hb Hl). intros Hst.
    destruct (Hf b eq_refl Hst) as [?|[-> Hact]]; [done|].
    specialize (Hw bl'). rewrite (getB_lookup w bl' b Hl) in Hw. by apply Hw.
  + unfold getB. rewrite Hb, list_lookup_alter_eq, Hl. done.
- rewrite (getB_alter_ne _ _ _ _ _ Hb) by done. apply Hw.
Qed.

Lemma limit_ok_cancelled_by bl reason freed w w' :
cancelled_by bl reason freed w w' → limit_ok w → limit_ok w'.
Proof.
intros Hc. apply (limit_ok_alter (cancelled_battle reason w) bl); [apply Hc|].
intros b _ Hst. done.
Qed.

Lemma limit_ok_step w e w' :
wf w → is_timer e = false → limit_ok w → step w e = Some w' → limit_ok w'.
Proof.
intros Hwf He Hw. destruct e as [sid d rn rs|sid d|sid reward|sid tid|sid cid newId
  |sid cid reason|sid bid isSpecial r rtie|sid bid reason|sid|h|dt]; simpl; try done.
- intros [= <-]. eapply limit_ok_same; [|done]. apply quiet_player_join.
- intros [= <-]. eapply limit_ok_same; [|done]. apply quiet_player_update.
- intros [= <-]. eapply limit_ok_same; [|done]. apply quiet_claim_task.
- intros [= <-]. eapply limit_ok_same; [|done]. apply silent_battle_challenge.
- intros [= <-]. destruct (decide (accept_rejected sid cid w)) as [Hrej|Hacc].
  + destruct (battle_accept_rejected sid cid newId w Hrej) as [m ->].
    by eapply limit_ok_same.
  + destruct (battle_accept_accepted sid cid newId w Hacc)
      as (i & a & j & c & _ & _ & _ & _ & _ & Hab).
    intros bl. unfold getB. rewrite (ab_bheap _ _ _ _ _ Hab).
    destruct (decide (bl < length (bheap w))%nat) as [Hlt|Hge].
    * rewrite lookup_app_l by done. apply Hw.
    * rewrite lookup_app_r by lia.
      destruct (bl - length (bheap w))%nat as [|k]; simpl; [|done].
      intros _. unfold MAX_TURNS. lia.
- destruct (battle_decline sid cid reason w) as [w1|] eqn:Hd; [|done].
  intros [= <-]. eapply limit_ok_same; [|done]. by eapply silent_battle_decline.
- intros [= <-].
  destruct (battle_attack_cases sid bid isSpecial r rtie w)
    as [Hs|(i & pl & j & bl & _ & _ & _ & Hacc & Hs)].
  + eapply limit_ok_same; [apply Hs|done].
  + eapply limit_ok_same; [apply Hs|]. destruct Hacc as (Hact & _).
    apply (limit_ok_alter (attacked_battle bl sid isSpecial r rtie w) bl w);
      [by apply settled_bheap| |done].
    intros b Hb. unfold attacked_battle. cbv zeta.
    rewrite (getB_lookup w bl b Hb) in Hact.
    repeat case_decide; try done. intros _. left.
    cbn [advanced_battle set_turn set_currentPlayer struck_battle
      set_lastActionTime set_actions set_health turn]. lia.
- intros [= <-].
  destruct (battle_cancel_cases sid bid reason w Hwf)
    as [Hs|(i & pl & j & bl & _ & _ & _ & Hc & _)].
  + eapply limit_ok_same; [apply Hs|done].
  + by eapply limit_ok_cancelled_by.
- intros [= <-].
  destruct (disconnect_form sid w) as (_ & Hbh & _).
  eapply limit_ok_same; [exact Hbh|].
  set (pbs := filter (λ bl, isParticipant w (getB w bl) sid = true) (battles w)).
  assert (Hpbs : ∀ bl, bl ∈ pbs → bl ∈ battles w).
  { intros bl Hbl. unfold pbs in Hbl. by apply list_elem_of_filter in Hbl as [_ ?]. }
  destruct (disconnect_rounds sid pbs w Hwf Hpbs) as (_ & _ & _ & Hsame & _).
  destruct (disconnect_rounds_cancel sid pbs w Hwf Hpbs) as (_ & _ & Hc).
  intros bl. destruct (decide (bl ∈ pbs)) as [Hin|Hout].
  + destruct (Hc bl Hin) as [-> _]. done.
  + rewrite (Hsame bl Hout). apply Hw.
- case_decide; [|done]. intros [= <-]. by eapply limit_ok_same.
Qed.

End TurnLimit.

(** X30 ([performAttack], lines 234-240, against the callback of
    [startTurnTimer], lines 341-344).  As long as no timer fires, the turn
    limit holds: in every state that events other than timeouts lead to, an
    active battle is at a turn below [MAX_TURNS].  Only a timeout, which
    advances the turn with no test of the limit, takes an active battle to
    turn [MAX_TURNS] and beyond. *)
Theorem attacks_alone_respect_turn_limit (evs : list Event) (w : World)
    (bl : bloc) (b : Battle) :
  Forall (λ e, is_timer e = false) evs → run init evs = Some w →
  bheap w !! bl = Some b → status b = active →
  turn b < MAX_TURNS.
Proof.
  intros Hev Hrun Hb Hst.
  assert (H : limit_ok w).
  { assert (H0 : limit_ok init) by (intros bl0; done).
    assert (Hr0 : reachable init) by (by exists []).
    revert Hr0 H0 Hrun Hev. generalize init. clear Hb Hst.
    induction evs as [|e evs IH]; intros w0 Hr0 H0; simpl.
    - by intros [= <-].
    - destruct (step w0 e) as [w1|] eqn:Hstep; [|done].
      intros Hrun Hev. inversion Hev as [|? ? He Hev']; subst.
      apply (IH w1); [by eapply reachable_step| |done..].
      eapply limit_ok_step; [by apply reachable_wf|done..]. }
  specialize (H bl). rewrite (getB_lookup w bl b Hb) in H. by apply H.
Qed.

Lemma attacks_alone_respect_turn_limit_witness :
  turn (getB Worlds.started 0%nat) < MAX_TURNS
  ∧ status (getB Idle.woken 0%nat) = active
  ∧ turn (getB Idle.woken 0%nat) = MAX_TURNS.
Proof.
  split; [|split; vm_compute; reflexivity].
  apply (attacks_alone_respect_turn_limit Scenario.started Worlds.started 0%nat).
  - unfold Scenario.started. by repeat constructor.
  - vm_compute. reflexivity.
  - vm_compute. reflexivity.
  - vm_compute. reflexivity.
Defined.
